(* ===== verification/_CoqProject ===== *)
-Q . S2P
Prelude.v
Db.v
Float64.v
Checks.v
Objective.v
Verdicts.v
Ledgers.v
Commands.v
Engine.v
Scenario.v
EngineInv.v
Lifecycle.v
CheckRequests.v
Reports.v
Settlement.v
Triggers.v
Identity.v
OperationPhase.v
Operations.v
OperationFence.v
OperationSettle.v
HarnessQueue.v
HarnessSnapshot.v
HarnessIntake.v
IntakeRules.v
HarnessLoop.v
HarnessSample.v
Events.v
Caches.v
SessionRow.v
SessionStore.v
RoleGate.v
DecisionGate.v
Authority.v
Framing.v
Terminal.v
TerminalRules.v
Text.v
PluginSchema.v
PluginUrl.v
PluginManifest.v
PluginRuntime.v
PluginSample.v
PluginResults.v
RingRules.v
Slices.v
Blocks.v
BlockRules.v
MarkerRules.v
FenceRules.v
Align.v
ReassignRules.v
ReassignIds.v
ReportSample.v
DocStore.v
ReportDoc.v
ReportDocRules.v
ReportRules.v
ReportParts.v
DocSample.v
TaskGuards.v
TaskGuardRules.v
Sections.v
GuardSample.v
ReadLedger.v
ReportError.v
ReportWrite.v
ReportWriteRules.v
ReportSession.v
WriteSample.v
TaskGraph.v
TaskTree.v
ReportLinks.v
TaskPayload.v
TaskDecl.v
TaskDeclRules.v
Checkout.v
TaskAdmission.v
TaskAdmissionRules.v
TaskSample.v
