(* ===== verification/Prelude.v ===== *)
(** * Neige Calm: a verification of its decisions

    Neige Calm runs coding agents on tracks of work. This development is about the parts
    that decide: what the agents may do, when their work counts, what happens exactly
    once, and what reaches them.

    - The objective engine (crate [crates/objective]): an event-sourced state machine
      that holds objectives, has their checks run, judges each revision against the
      kept baseline, records settles in a ledger, and reminds and compacts.
    - Write authority (crates [calm-types] and [calm-truth]): who may write which event
      in which scope, decided from the actor, the caches of card roles and track areas,
      and the live rows of worker sessions.
    - The operation repository ([calm-server/src/operation]): the table through which
      external effects are submitted, claimed under a lease, driven, parked and settled.
    - The planner's input queue ([calm-server/src/harness]): what is queued for the
      planner, how it folds, survives restarts, and is issued as turns.
    - Terminal sessions (crate [calm-session]): frames, ownership of a terminal, and the
      output its clients replay.
    - Plugins (crate [crates/plugin]): manifests, configuration, connector addresses,
      argument vectors, delegated approvals, and the ring of results.
    - Track reports (crates [calm-types/src/report_blocks], [calm-report] and
      [calm-server/src/track_report]): the Markdown a track shares, cut into blocks with
      ids, kept in a CRDT document, and written by users and agents under guards.
    - Task admission (crates [calm-types/src/report_blocks] and [calm-truth/src/db/sqlite]):
      which of the tasks a report declares are sound, which may be queued under a track's
      ceiling and its tree's budget, and which may start in the track's checkout.

    An operation is the durable form of an effect the planner or a route asks for; the
    planner's queue is fed by observations of events that passed the write gate; an
    objective's checks are run by operations; a plugin's tools are what agents call; the
    report holds the tasks and objectives the other parts act on, and admission turns its
    task blocks into work.
    Each part is modelled on its own, with the answers of the others as arguments.

    ** The files

    - [Prelude]: text, results, machine integers, ordered maps, shared lemmas, and the
      hint database [calm]. A Rust [BTreeMap] is a [gmap] iterated in key order.
    - [Db]: transactions over a table ([Tx], a state monad with errors whose [in_tx]
      rolls back), and the relations a transaction preserves ([preserves], [wp]).
    - [Float64]: IEEE binary64 as the metric checks use it (the Standard Library's
      executable [SpecFloat]). [Text]: Rust's string searches and UTF-8 lengths.

    The objective engine:

    - [Checks] ([objective/src/check/], diagnostic.rs): the four check kinds as
      instances of the class [CheckKind], samples, combination, comparison.
    - [Objective] (definition.rs, standard.rs): definitions, validation, budgets, the
      standard's hash and approvals.
    - [Verdicts] (verdict.rs), [Ledgers] (ledger.rs), [Commands] (command.rs).
    - [Engine] (engine/, trigger.rs): [ObjectiveState] and [State] are the structs of
      engine/mod.rs; [define], [approve], [request], [deliver], [finish], [settle],
      [close] are the handlers of engine/reduce.rs; [fire] and its rules are
      trigger.rs; [react] composes them and [replay] runs a log of events.
    - [Scenario]: one concrete objective and log, where theorems are instantiated.
    - [EngineInv], [Lifecycle], [CheckRequests], [Reports], [Settlement], [Triggers]:
      the theorems about the engine.

    Write authority:

    - [Identity] (ids.rs, worker.rs, runtime.rs, parts of model.rs and proposal.rs):
      actors, roles, session vocabulary and their text spellings (class [DbEnum]).
    - [Events] (event.rs): event variants, scopes, metadata and topics.
    - [Caches] (card_role_cache.rs, track_area_cache.rs).
    - [SessionRow], [SessionStore] (db/sqlite/session_row.rs): the table of worker
      sessions, its operations, and what they guarantee.
    - [RoleGate] (role_gate.rs): [enforce_role] rule by rule, and its policy.
    - [DecisionGate], [Authority] (decision_gate.rs): the class [WriteTx] of reads a
      transaction offers, its SQLite instance, session resolution, hydration, and card
      authority; the theorems are proved against the class and then discharged for
      SQLite.

    The operation repository:

    - [OperationPhase] (operation/mod.rs, task_execution/pending.rs): phases and the two
      columns they are stored in, operations, blockers, results.
    - [Operations] (repo_sqlite.rs, repo_sqlite/writes.rs, settlement.rs,
      interaction_retry.rs, tx_only.rs, owned_parked.rs and the provided methods of
      [OperationRepo]): the table [Ops], its schema, and one definition per statement or
      transaction. [OperationFence]: what each of them preserves. [OperationSettle]:
      the histories [op_history] of any number of drivers, and the theorems.

    The planner's queue:

    - [HarnessQueue] (harness/queue.rs, observation.rs): entries, mutations, folding.
      Mutations are tied to the compare-and-swap specification [cas].
    - [HarnessSnapshot] (harness/snapshot.rs): the four stored arrays.
    - [HarnessIntake] (harness/state.rs, config.rs, run_loop.rs and its submodules):
      intake, durable sends, debounce, drain, re-buffering, the gates of a turn.
      [IntakeRules]: what one offered entry or one durable send does.
    - [HarnessLoop]: the steps of the loop and its invariant. [HarnessSample]: concrete
      queues, where theorems are instantiated.

    Terminal sessions:

    - [Framing] (calm-session/src/lib.rs): frames over a byte stream, the codec of
      messages being the class [FrameCodec].
    - [Terminal] (lib.rs, terminal_owner.rs, terminal_session.rs): messages, the owner
      registry, a connection's state machine, the byte ring, the broadcaster and the
      render plane. [TerminalRules]: the theorems and their samples.

    Plugins:

    - [PluginSchema] (template_input.rs, config.rs), [PluginUrl] and [PluginManifest]
      (manifest.rs and the rules it borrows), [PluginRuntime] (perms.rs, glob.rs,
      approval.rs, cli_query/): definitions and the theorems on them; [PluginSample]:
      concrete manifests. [PluginResults] (results.rs) and [RingRules].

    Track reports, from text to sessions:

    - [Slices]: byte offsets and line scans of Rust's [&str]. [Blocks]
      (report_blocks/mod.rs, fence.rs, kinds.rs): splitting a body, fences, canonical
      JSON text, marker lines. [BlockRules], [MarkerRules], [FenceRules]: their theorems.
    - [Align] (report_blocks/align.rs): edit distance, common subsequence, and the
      assignment of ids to a rewritten body; the first two are optimal. [ReassignRules],
      [ReassignIds]: what the assignment finds and which ids it gives. [ReportSample]: samples.
    - [DocStore]: the class [Automerge] of the CRDT store's calls, and [AutomergeLaws]
      over a view of its objects, with one lemma per call.
    - [ReportDoc] (calm-report/src/document.rs, document/replace.rs): the report
      document and every rewrite of it. [ReportDocRules]: [represents] ties a document to
      a summary, a list of blocks and an order; [ReportRules], [ReportParts]: the
      operations refine list operations. [DocSample]: a store that satisfies the laws.
    - [TaskGuards] (track_report_edit_guard.rs, track_report_gate_guard.rs and its shell
      scan, track_report_objective_guard.rs, compact_origination.rs, tasks.rs):
      what each author may do to tasks, gates and objectives; [TaskGuardRules].
    - [Sections] (calm-report/src/sections.rs, calm-types/src/report_contract.rs): H1
      sections and the contract header, with their theorems. [GuardSample]: samples.
    - [ReadLedger] (report_read_ledger.rs, receipt.rs): what a session has read, and
      what a write changed. [ReportError] (rejection.rs): operations,
      refusals and their evidence.
    - [ReportWrite] (track_report.rs, ops.rs, sections.rs, intent.rs,
      track_report_guard.rs): one write, from the caller's operation to the guarded
      document at its next revision, in a state monad with errors. [ReportWriteRules]:
      what each operation does to the list of blocks; [ReportSession]: the theorems on
      histories of writes and sessions; [WriteSample]: concrete runs.

    Task admission, from a block's payload to a place in the checkout:

    - [TaskGraph] (report_blocks/tasks.rs): the depth-first search for a dependency cycle
      and the components that hold one, with their theorems.
    - [TaskTree] (track_tree.rs): how a tree's task budget is shared among its tracks.
    - [ReportLinks] (report_links.rs): link destinations, and how a copied report's
      links follow it.
    - [TaskPayload] (report_blocks/kinds.rs, kinds/task.rs, task_execution.rs): what a task
      payload may say: [validate_task] collects the violations of every field.
    - [TaskDecl] (report_blocks/tasks.rs, task_recovery.rs, subtrack_route.rs): declarations,
      tombstones, duplicate keys, hash preimages, and [project_task_declarations].
      [TaskDeclRules]: what a task without a diagnostic is (the record [executable]).
    - [Checkout] (track_occupancy.rs, scheduler/mod.rs, regate.rs, task_recovery.rs): the
      occupancy a track's rows make, the answer to a task that asks for the checkout, and
      the checks of the transactions that ask; these transactions as a step relation on a
      track's tasks, and the theorems.
    - [TaskAdmission] (db/sqlite/task_projection.rs): the verdict on each declaration,
      [evaluate_schedulability], composed as the write path composes it.
      [TaskAdmissionRules]: what it admits. [TaskSample]: concrete reports and tracks.

    ** What is shown

    - The engine keeps its invariant after every history of events ([EngineInv]): a
      record per objective ties approval, evaluation, samples, verdict, baseline and
      status together.
    - Checks run only on an approved standard, for the open objective and revision
      under evaluation, and no check request is ever repeated ([Settlement],
      [CheckRequests]); results may arrive in any order and complete the evaluation
      with the same verdict ([Reports]).
    - A settle is justified by the evaluation it names, a refused event changes
      nothing, a result counts exactly when it is awaited ([Settlement]).
    - Closed is final, done can only be closed, the ledger only grows ([Lifecycle]).
    - Budget reminders come exactly when due and once per limit; compactions are
      neither lost nor repeated ([Triggers]).
    - [Verdicts] and [Checks] characterise the judgement: the verdict kinds exactly,
      the evaluator's independence of sample order, the metric's antisymmetry.
    - The role gate is refined by an abstract policy ([event_allowed] and
      [actor_in_scope]) exactly ([RoleGate]); a session actor passes exactly when its
      live row grants it; deciding from rows hydrated in the transaction is deciding
      from the whole tables; authority over a track holds on the database exactly as
      documented ([Authority]).
    - Sessions move only along allowed transitions and are frozen when ended, rows
      round-trip, a credential authenticates exactly its active session, revocation is
      complete ([SessionStore]).
    - Operations settle at most once: the table refines a one-shot register per
      operation, a writer whose claim was lost changes nothing, a parked operation is
      claimed by one driver for exactly its lease, an idempotency key names one
      operation, and what was settled is what every later reader gets
      ([OperationSettle]); phases survive their columns ([OperationPhase]).
    - A queue mutation is a compare-and-swap on an entry's revision ([HarnessQueue]);
      intake loses no user's words and evicts only what may be evicted, a durable send
      happens wholly or not at all ([IntakeRules]); along every history the queue stays
      well formed and armed, so queued input is issued once nothing holds it back
      ([HarnessLoop]); stored queues read back ([HarnessSnapshot]).
    - A frame read back is the message written, and a reader accepts only well-formed
      frames ([Framing]); a terminal has one owner whatever connections do, the ring
      holds the longest suffix that fits, cursors and patches chain ([TerminalRules]).
    - Configuration cannot move a connector that holds a credential off its origin, an
      argument vector is its template's, element by element, and a delegated approval
      covers exactly the tools that asked for it ([PluginRuntime]); against an accepted
      schema validation and the effective configuration agree ([PluginSchema]); reading
      the slots of an address ends and loses nothing ([PluginUrl]); a validated manifest
      has the shape of its kind.
    - The ring of results is bounded, every operation on it returns, and what it answers
      is the last call's result, never an earlier one's ([RingRules]).
    - Splitting a body loses nothing and fences are cut out whole ([BlockRules],
      [FenceRules]); a read with markers reads back ([MarkerRules]); the common
      subsequence is a longest one, the edit distance the least ([Align]); ids are
      unique, kept where a block was kept, and pinned where asked ([ReassignIds]).
    - Every rewrite of the document installs exactly the blocks it should and reads
      back, block operations refine a list of blocks, a section replacement touches its
      members only ([ReportRules], [ReportParts]).
    - An accepted write has passed every guard on the blocks before and after it and
      advances the revision by one; whatever others write, a user's tasks stay the
      user's; an agent overwrites a report only when it has seen it, and never destroys
      a block that its session has not seen at its revision ([ReportSession]).
    - A live task leaves only by its id or a tombstone of its author's, gates call no
      kernel command, objectives keep their keys and authors ([TaskGuardRules]);
      sections partition a report, headers have one form ([Sections]).
    - The search for a cycle ends, finds one exactly when there is one, and reports exactly
      the components that hold one ([TaskGraph]). Projecting any report never panics, and a
      live task without a diagnostic is executable: well formed, alone under its key, not
      behind a tombstone, and on no cycle ([TaskDeclRules]).
    - The planner tasks queued for a track fit its ceiling and its share of the tree's
      budget, over a whole tree what is in flight and admitted fits the budget, and those
      turned away come later in the document than those admitted, and are told why
      ([TaskAdmissionRules]).
    - A task asking for the checkout is answered exactly by who is in it, and along every
      history of claims, yields, preparations, reports, re-runs of gates and edits, a task
      that changes the checkout never holds it beside another ([Checkout]).
    - [TaskSample] proves one gap the code has: a gate step written by position, as an
      array, is decoded by [serde] and declared, but the guard on gate commands reads
      objects only and does not see its command.

    ** Modelling choices

    - Strings are lists of Unicode scalar values, on which [trim] and [Ord] are
      written out. Unsigned integers are [N] and signed ones [Z]; the two counters the
      engine increments ([evaluations], [compactions]) wrap at 2^64, as a release
      build does, and the two theorems on unrepeated requests and keys are for
      histories of fewer than 2^64 events. Cursors and generations of a terminal
      saturate or are exhausted at 2^32 and 2^64 as the code has it.
    - A handler on [&mut] state is a function returning the state and what it reports;
      an early return leaves the state reached so far. A transaction is a state monad
      with errors over the table. Concurrent drivers and connections are histories
      that interleave their transactions or frames in any order; what one actor does
      under one lock or in one transaction is one step. Time is an argument.
    - Parameters stand for code outside the repository: the JSON serializer and
      SHA-256 (class [StandardDigest] and arguments), the JSON parser and printer of
      [serde_json] and the codecs [serde] derives (class [OpCodec]), the codec of frames
      (class [FrameCodec]), the [url] and [semver] crates, the terminal emulator (class
      [TerminalModel]), and SQLite's answer on whether a statement respects the
      schema's foreign keys and triggers. That a hash tells apart the standards it is
      asked to compare is a hypothesis on the log at hand ([log_collision_free]); that
      JSON reads back what it printed is a hypothesis on the value at hand.
    - The CRDT store is a parameter ([Automerge]) whose calls act on a map of objects as
      documented ([AutomergeLaws]); [serde_json]'s text is a parameter ([SerdeText],
      [HeaderSerde]) with laws on what it prints ([scalar_clean]); so are the payload
      rules of the block kinds ([PayloadRules]) and the initial body ([ReportDefaults]).
      In task admission [serde]'s error words ([SerdeErrors]), the compact text of a value
      ([CompactText]) and the links of a Markdown text ([MarkdownLinks]) are parameters, and
      the rows a query answers ([ProjectionState], the members of a tree, the other uses of
      a checkout) are arguments. The text of a stored gate is read through [serde_json]'s
      parser into [Json], whose objects are kept in key order and hold a key once.
      What a task yielded is a set in the model of the checkout that over-approximates the
      evidence the code asks for, so more re-claims are possible there than in the code.
      A panic of the alignment (no free id in 65,536) is an error; in the task files a
      panic is [None]. The messages of header
      errors, and of a reference a snapshot left out, lack the value printed in debug form.
    - Nearly all recursion is structural. The walk back through the table of the common
      subsequence has fuel |old| + |new|, one per step; the probe for a free id has
      65,536, the number of ids of a prefix. Three loops more need fuel: [scan_slots], whose
      rounds each consume the braces they found, with fuel beyond the length of the
      address ([slots_terminate]); and the two eviction loops of the ring, whose rounds
      each take an entry out of the order, with fuel beyond its size ([ring_bounded]).
      The search for a dependency cycle has fuel one more than the keys of the graph, as
      every level of it colours another key, and the search for what a key reaches two more
      than the edges; [find_cycle_exact] and [cyclic_components_exact] hold at that fuel.
    - [Events.Event] and [HarnessQueue.Observation] have every variant of the source,
      with the payload fields that the modelled functions read; the other fields are
      left out or kept as one JSON value. Error messages carry the values they print.
    - Of SQL, each query or statement is the function on rows it denotes.

    ** Not modelled

    - The objective host, the drive loop of operations and its adapters, turn issuance
      towards the provider, and the terminal model: each is a loop around awaited
      effects of external processes, whose answers the modelled decisions take as arguments.
    - The remaining tables (session mirror, conversation inputs, task rows and their
      events, report history) and the read side of tasks (statuses, pending reasons, frozen
      contexts): SQL and its renderings.
    - Turn budgets, steering and the sweep of restored entries, the contract of task
      results beyond its name, the payload rules of block kinds other than tasks, and the
      control protocol of [calm-session]: separate rules that no modelled part depends on
      other than through a parameter.
    - Process supervision, HTTP and WebSocket plumbing, provider adapters, desktop helpers,
      workspaces over git, and the web clients, which are input and output around these
      decisions. *)

From stdpp Require Import prelude gmap strings pretty sorting.

Declare Scope calm_scope.
Delimit Scope calm_scope with calm.

(** The lemmas that close the common side conditions: sortedness and freedom from
    duplicates of what the library iterates, and, from the component files, that an
    operation preserves the invariant of its component. *)
Create HintDb calm.

(** ** Text

    A Rust [String] is UTF-8 text. It is modelled as the list of its Unicode
    scalar values; the byte-wise [Ord] of Rust strings and the scalar-wise
    lexicographic order agree on UTF-8 text. *)
Abbreviation str := (list N).

(** An ASCII literal of the source as a [str]. *)
Definition lit (s : string) : str :=
  Ascii.N_of_ascii <$> String.list_ascii_of_string s.

(** Decimal rendering of an unsigned integer, as [format!("{}")] prints it. *)
Definition show_N (n : N) : str := lit (pretty n).

(** [char::is_whitespace]: the Unicode White_Space property. *)
Definition is_whitespace (c : N) : bool :=
  ((9 <=? c) && (c <=? 13) || (c =? 32) || (c =? 133) || (c =? 160)
   || (c =? 5760) || (8192 <=? c) && (c <=? 8202) || (c =? 8232) || (c =? 8233)
   || (c =? 8239) || (c =? 8287) || (c =? 12288))%N.

(** [str::trim_start] and [str::trim]. *)
Fixpoint trim_start (s : str) : str :=
  match s with
  | c :: s' => if is_whitespace c then trim_start s' else s
  | [] => []
  end.

Definition trim (s : str) : str := reverse (trim_start (reverse (trim_start s))).

Definition is_empty {A} (l : list A) : bool :=
  match l with [] => true | _ => false end.

(** [s.trim().is_empty()]. *)
Definition is_blank (s : str) : bool := is_empty (trim s).

(** ** Results *)
Inductive result (A E : Type) : Type :=
| Ok (a : A)
| Err (e : E).
Arguments Ok {A E} a.
Arguments Err {A E} e.

Definition result_bind {A B E} (r : result A E) (k : A → result B E) : result B E :=
  match r with Ok a => k a | Err e => Err e end.

Notation "'let?' x ':=' r 'in' k" := (result_bind r (λ x, k))
  (at level 10, x binder, r at level 100, k at level 200) : calm_scope.

(** ** Machine integers: unsigned values are [N], a wrapping increment is the
    release-build behaviour of [+= 1]. *)
Definition u32_modulus : N := 4294967296.
Definition u64_modulus : N := 18446744073709551616.
Definition u32_succ (n : N) : N := ((n + 1) mod u32_modulus)%N.
Definition u64_succ (n : N) : N := ((n + 1) mod u64_modulus)%N.

(** The half-open range [0..n]. *)
Definition N_range (n : N) : list N := N.of_nat <$> seq 0 (N.to_nat n).

(** ** Orders

    What Rust's [Ord] promises of a type: a decidable total order. *)
Class Ord (T : Type) := {
  ord_le : relation T;
  ord_le_dec :: RelDecision ord_le;
  ord_le_total :: Total ord_le;
  ord_le_trans :: Transitive ord_le;
  ord_le_antisymm :: AntiSymm (=) ord_le;
}.

(** Rust's [Ord] for strings: lexicographic. *)
Fixpoint str_leb (s t : str) : bool :=
  match s, t with
  | [], _ => true
  | _ :: _, [] => false
  | a :: s', b :: t' =>
      match (a ?= b)%N with Lt => true | Gt => false | Eq => str_leb s' t' end
  end.

Section str_order.
Local Notation "s <=s t" := (Is_true (str_leb s t)) (at level 70).

Lemma str_leb_total s t : (s <=s t) ∨ (t <=s s).
Proof.
  revert t; induction s as [|a s IH]; intros [|b t]; simpl; auto.
  rewrite (N.compare_antisym a b). destruct (a ?= b)%N; simpl; auto.
Qed.

Lemma str_leb_antisymm s t : (s <=s t) → (t <=s s) → s = t.
Proof.
  revert t; induction s as [|a s IH]; intros [|b t]; simpl; try done.
  rewrite (N.compare_antisym a b). destruct (a ?= b)%N eqn:E; simpl; try done.
  apply N.compare_eq in E as ->. intros ??; f_equal; auto.
Qed.

Lemma str_leb_trans s t u : (s <=s t) → (t <=s u) → s <=s u.
Proof.
  revert t u; induction s as [|a s IH]; intros [|b t] [|c u]; simpl; try done.
  destruct (N.compare_spec a b) as [->|?|?], (N.compare_spec b c) as [->|?|?];
    simpl; try done; eauto;
    match goal with |- context [(?x ?= ?y)%N] => destruct (N.compare_spec x y) end;
    try done; lia.
Qed.
End str_order.

#[export] Program Instance str_Ord : Ord str :=
  {| ord_le s t := Is_true (str_leb s t);
     ord_le_dec s t := Is_true_dec (str_leb s t) |}.
Next Obligation. intros s t. apply str_leb_total. Qed.
Next Obligation. intros s t u. apply str_leb_trans. Qed.
Next Obligation. intros s t. apply str_leb_antisymm. Qed.

#[export] Instance N_Ord : Ord N := {| ord_le := N.le |}.

(** [sort_unstable] of values whose order is total and antisymmetric: the one
    sorted permutation. *)
Definition ord_sort {T} `{Ord T} (l : list T) : list T := merge_sort ord_le l.

Lemma ord_sort_perm {T} `{Ord T} (l : list T) : ord_sort l ≡ₚ l.
Proof. apply merge_sort_Permutation. Qed.

Lemma ord_sort_sorted {T} `{Ord T} (l : list T) : StronglySorted ord_le (ord_sort l).
Proof. apply (StronglySorted_merge_sort ord_le). Qed.

Lemma ord_sort_unique {T} `{Ord T} (l1 l2 : list T) : l1 ≡ₚ l2 → ord_sort l1 = ord_sort l2.
Proof.
  intros Hp. apply (StronglySorted_unique ord_le); try apply ord_sort_sorted.
  by rewrite !ord_sort_perm.
Qed.

(** ** Ordered maps

    A [BTreeMap] is a [gmap]; where the source iterates it, the entries come in
    key order. *)
Section btree.
Context {K A : Type} `{Countable K} `{!Ord K}.
Implicit Types m : gmap K A.

Definition entry_le (p q : K * A) : Prop := ord_le p.1 q.1.

#[global] Instance entry_le_dec : RelDecision entry_le.
Proof. intros p q. apply ord_le_dec. Defined.
#[global] Instance entry_le_total : Total entry_le.
Proof. intros p q. apply ord_le_total. Qed.
#[global] Instance entry_le_trans : Transitive entry_le.
Proof. intros p q r. apply ord_le_trans. Qed.

(** [BTreeMap::iter] and [BTreeMap::values]. *)
Definition btree_iter m : list (K * A) := merge_sort entry_le (map_to_list m).
Definition btree_values m : list A := (btree_iter m).*2.

(** Collecting an iterator of pairs into a map: a later pair replaces an
    earlier one with the same key. *)
Definition btree_collect (l : list (K * A)) : gmap K A :=
  foldl (λ m p, <[p.1 := p.2]> m) ∅ l.

Lemma btree_iter_perm m : btree_iter m ≡ₚ map_to_list m.
Proof. apply merge_sort_Permutation. Qed.

Lemma btree_iter_sorted m : StronglySorted entry_le (btree_iter m).
Proof. apply (StronglySorted_merge_sort entry_le). Qed.

Lemma elem_of_btree_iter m k a : (k, a) ∈ btree_iter m ↔ m !! k = Some a.
Proof. by rewrite btree_iter_perm, elem_of_map_to_list. Qed.

Lemma btree_iter_NoDup m : NoDup (btree_iter m).*1.
Proof. rewrite btree_iter_perm. apply NoDup_fst_map_to_list. Qed.

Lemma elem_of_btree_values m a : a ∈ btree_values m ↔ ∃ k, m !! k = Some a.
Proof.
  unfold btree_values. rewrite list_elem_of_fmap. split.
  - intros ([k x] & -> & Hin%elem_of_btree_iter). eauto.
  - intros [k Hk]. exists (k, a). by rewrite elem_of_btree_iter.
Qed.

Lemma length_btree_values m : length (btree_values m) = size m.
Proof. unfold btree_values. by rewrite length_fmap, btree_iter_perm, length_map_to_list. Qed.

(** With distinct keys, collecting is the map of the pairs. *)
Lemma btree_collect_snoc l k a :
  btree_collect (l ++ [(k, a)]) = <[k := a]> (btree_collect l).
Proof. unfold btree_collect. by rewrite foldl_app. Qed.

Lemma lookup_btree_collect l k a :
  NoDup l.*1 → btree_collect l !! k = Some a ↔ (k, a) ∈ l.
Proof.
  induction l as [|[k' a'] l IH] using rev_ind; intros Hnd.
  - unfold btree_collect; simpl. rewrite lookup_empty. split; [done|]. by intros ?%not_elem_of_nil.
  - rewrite fmap_app in Hnd. apply NoDup_app in Hnd as (Hnd & Hdis & _).
    rewrite btree_collect_snoc, elem_of_app, list_elem_of_singleton, <-IH by done.
    rewrite lookup_insert_Some. split.
    + intros [[-> ->]|[? ?]]; auto.
    + intros [Hk|[= -> ->]]; [|by left].
      right. split; [|done]. intros ->. apply (Hdis k); [|simpl; by left].
      apply list_elem_of_fmap. exists (k, a). by rewrite <-IH.
Qed.
End btree.

(** ** Lemmas shared by the components *)

Lemma trim_start_nil s : trim_start s = [] ↔ Forall (λ c, is_whitespace c = true) s.
Proof.
  induction s as [|c s IH]; simpl; [done|].
  rewrite Forall_cons. destruct (is_whitespace c); naive_solver.
Qed.

(** A text is blank exactly when it holds nothing but white space. *)
Lemma is_blank_spec s : is_blank s = true ↔ Forall (λ c, is_whitespace c = true) s.
Proof.
  unfold is_blank, trim. split.
  - intros Hb. destruct (reverse _) as [|? ?] eqn:E; [|done].
    apply (f_equal reverse) in E. rewrite reverse_involutive in E.
    apply trim_start_nil in E. rewrite Forall_reverse in E.
    destruct (trim_start s) as [|c t] eqn:Es; [by apply trim_start_nil|].
    assert (is_whitespace c = false) as Hc.
    { clear -Es. revert Es. induction s as [|a s IH]; simpl; [done|].
      destruct (is_whitespace a) eqn:?; [done|]. congruence. }
    rewrite Forall_cons in E. destruct E. congruence.
  - intros Hs%trim_start_nil. by rewrite Hs.
Qed.

Section sorted.
Context {A : Type} (R : relation A).

Lemma StronglySorted_lookup_before l i m x :
  StronglySorted R l → l !! i = Some m → x ∈ take i l → R x m.
Proof.
  revert i; induction l as [|a l IH]; intros [|i] Hs Hi Hx; simpl in *;
    try (by apply not_elem_of_nil in Hx); try done.
  apply StronglySorted_inv in Hs as [Hs Ha]. rewrite Forall_forall in Ha.
  apply elem_of_cons in Hx as [->|Hx]; [|by eauto].
  apply Ha. by eapply list_elem_of_lookup_2.
Qed.

Lemma StronglySorted_lookup_after l i m x :
  StronglySorted R l → l !! i = Some m → x ∈ drop (S i) l → R m x.
Proof.
  revert i; induction l as [|a l IH]; intros [|i] Hs Hi Hx; simpl in *; try done.
  - apply StronglySorted_inv in Hs as [_ Ha]. simplify_eq. rewrite Forall_forall in Ha.
    apply Ha. by rewrite drop_0 in Hx.
  - apply StronglySorted_inv in Hs as [Hs _]. by eauto.
Qed.
End sorted.

Lemma filter_all {A} (P : A → Prop) `{∀ x, Decision (P x)} (l : list A) :
  (∀ x, x ∈ l → P x) → filter P l = l.
Proof.
  induction l as [|a l IH]; intros HP; [done|].
  rewrite filter_cons_True by (apply HP; by left).
  f_equal. apply IH. intros x Hx. apply HP. by right.
Qed.

Lemma filter_none {A} (P : A → Prop) `{∀ x, Decision (P x)} (l : list A) :
  (∀ x, x ∈ l → ¬ P x) → filter P l = [].
Proof.
  induction l as [|a l IH]; intros HP; [done|].
  rewrite filter_cons_False by (apply HP; by left).
  apply IH. intros x Hx. apply HP. by right.
Qed.

Lemma fmap_replicate {A B} (f : A → B) l b :
  Forall (λ x, f x = b) l → f <$> l = replicate (length l) b.
Proof. induction 1 as [|x l Hx _ IH]; simpl; [done|]. by rewrite Hx, <-IH. Qed.

Lemma fmap_nil_iff {A B} (f : A → B) l : f <$> l = [] ↔ l = [].
Proof. split; [apply fmap_nil_inv|by intros ->]. Qed.

Lemma existsb_fmap {A B} (f : A → B) (p : B → bool) l (P : A → Prop) :
  (∀ x, p (f x) = true ↔ P x) → existsb p (f <$> l) = true ↔ ∃ x, x ∈ l ∧ P x.
Proof.
  intros HP. rewrite existsb_exists. setoid_rewrite <-list_elem_of_In.
  setoid_rewrite list_elem_of_fmap. naive_solver.
Qed.

Lemma existsb_fmap_false {A B} (f : A → B) (p : B → bool) l (P : A → Prop) :
  (∀ x, p (f x) = true ↔ P x) → existsb p (f <$> l) = false ↔ ∀ x, x ∈ l → ¬ P x.
Proof.
  intros HP. rewrite <-not_true_iff_false, (existsb_fmap _ _ _ _ HP). naive_solver.
Qed.

Lemma bind_fmap {A B C} (f : A → list B) (g : B → C) l :
  g <$> (l ≫= f) = l ≫= λ x, g <$> f x.
Proof. induction l as [|x l IH]; [done|]. by rewrite !bind_cons, fmap_app, IH. Qed.

Lemma omap_ext_in {A B} (f g : A → option B) (l : list A) :
  (∀ x, x ∈ l → f x = g x) → omap f l = omap g l.
Proof.
  induction l as [|x l IH]; intros Hfg; [done|]. simpl. rewrite (Hfg x) by left.
  assert (omap f l = omap g l) as Heq by (apply IH; intros y Hy; apply Hfg; by right).
  destruct (g x); [f_equal|]; exact Heq.
Qed.

(** Values that a partial map keeps apart come from one element each. *)
Lemma NoDup_omap_inj {A B} (f : A → option B) (l : list A) x y b :
  NoDup (omap f l) → x ∈ l → y ∈ l → f x = Some b → f y = Some b → x = y.
Proof.
  induction l as [|a l IH]; simpl; intros Hnd Hx Hy Hfx Hfy; [by apply not_elem_of_nil in Hx|].
  assert (∀ z, z ∈ l → f z = Some b → f a = Some b → False) as Hdup.
  { intros z Hz Hfz Hfa. rewrite Hfa in Hnd. apply NoDup_cons in Hnd as [Hnin _].
    apply Hnin, list_elem_of_omap. eauto. }
  apply elem_of_cons in Hx as [->|Hx], Hy as [->|Hy]; [done|exfalso; eauto..|].
  apply IH; auto. destruct (f a); [by apply NoDup_cons in Hnd as [_ ?]|done].
Qed.

Lemma find_None_Forall {A} (p : A → bool) l : List.find p l = None → Forall (λ a, p a = false) l.
Proof. induction l as [|a l IH]; simpl; [constructor|]. destruct (p a) eqn:H; [done|]. by constructor; auto. Qed.

(** ** Ranges and maps over a range *)

#[export] Hint Resolve ord_sort_sorted btree_iter_sorted btree_iter_NoDup : calm.

Lemma elem_of_N_range n i : i ∈ N_range n ↔ (i < n)%N.
Proof.
  unfold N_range. rewrite list_elem_of_fmap. split.
  - intros (x & -> & Hx%elem_of_seq). lia.
  - intros Hi. exists (N.to_nat i). split; [lia|]. apply elem_of_seq. lia.
Qed.

Lemma N_range_NoDup n : NoDup (N_range n).
Proof. apply NoDup_fmap; [intros x y; lia|]. apply NoDup_seq. Qed.

Lemma length_N_range n : length (N_range n) = N.to_nat n.
Proof. unfold N_range. by rewrite length_fmap, length_seq. Qed.

Lemma N_range_sorted n : StronglySorted N.le (N_range n).
Proof.
  unfold N_range. generalize 0 as a. induction (N.to_nat n) as [|m IH]; intros a; [constructor|].
  constructor; [apply IH|]. apply Forall_fmap, Forall_forall. intros x Hx%elem_of_seq. simpl. lia.
Qed.

#[export] Hint Resolve N_range_NoDup N_range_sorted : calm.

(** A map below [n] has [n] entries exactly when it is defined on all of [0..n]. *)
Lemma size_below {A} (m : gmap N A) n :
  (∀ i, is_Some (m !! i) → (i < n)%N) →
  N.of_nat (size m) = n ↔ ∀ i, (i < n)%N → is_Some (m !! i).
Proof.
  intros Hb. set (X := list_to_set (N_range n) : gset N).
  assert (size X = N.to_nat n) as HX.
  { unfold X. rewrite size_list_to_set by auto with calm. apply length_N_range. }
  assert (∀ i, i ∈ X ↔ (i < n)%N) as HiX.
  { intros i. unfold X. by rewrite elem_of_list_to_set, elem_of_N_range. }
  assert (dom m ⊆ X) as Hsub.
  { intros i Hi%elem_of_dom. by apply HiX, Hb. }
  rewrite <-(size_dom (D := gset N) m). split.
  - intros Hn i Hi. apply (elem_of_dom (D := gset N)).
    rewrite (set_subseteq_size_eq (dom m) X Hsub) by lia. by apply HiX.
  - intros Hall. assert (dom m = X) as ->; [|lia].
    apply set_eq. intros i. rewrite elem_of_dom, HiX. split; auto.
Qed.

(** The values of a map defined on all of [0..n], in key order. *)
Lemma btree_values_below {A} (m : gmap N A) n (f : N → A) :
  (∀ i a, m !! i = Some a ↔ (i < n)%N ∧ a = f i) → btree_values m = f <$> N_range n.
Proof.
  intros Hm. unfold btree_values. transitivity (((λ i, (i, f i)) <$> N_range n).*2).
  - f_equal. apply (StronglySorted_unique_strong entry_le).
    + intros [i a] [j b] Hi%elem_of_btree_iter (x & [= -> ->] & _)%list_elem_of_fmap Hle1 Hle2.
      assert (i = x) as -> by (by apply (anti_symm ord_le)). apply Hm in Hi as [_ ->]. done.
    + auto with calm.
    + eapply StronglySorted_fmap; [|auto with calm]. done.
    + apply NoDup_Permutation.
      * eapply NoDup_fmap_1, btree_iter_NoDup.
      * apply NoDup_fmap; [by intros ?? [= ->]|auto with calm].
      * intros [i a]. rewrite elem_of_btree_iter, Hm, list_elem_of_fmap.
        setoid_rewrite elem_of_N_range. naive_solver.
  - by rewrite <-list_fmap_compose.
Qed.
