(* ===== verification/Db.v ===== *)
(** * Transactions over a table

    What the repositories share ([crates/calm-truth] and [crates/calm-server] talk to
    SQLite through [sqlx]): a table of rows under their primary key, the statements
    that update it, and a transaction as a state monad with errors. A statement the
    schema refuses fails and changes nothing; a transaction that fails or is dropped
    without its commit is rolled back. The relation a whole transaction keeps is
    derived from the ones its statements keep ([preserves], the tactic [walk]). *)

From stdpp Require Import prelude gmap.
From S2P Require Import Prelude.

(** ** Transactions *)

Definition Tx (S E A : Type) : Type := S → S * result A E.

Section tx.
Context {S E : Type}.

Definition db_ret {A} (a : A) : Tx S E A := λ t, (t, Ok a).
Definition db_raise {A} (e : E) : Tx S E A := λ t, (t, Err e).
Definition db_bind {A B} (m : Tx S E A) (k : A → Tx S E B) : Tx S E B := λ t,
  match m t with
  | (t', Ok a) => k a t'
  | (t', Err e) => (t', Err e)
  end.
Definition db_read {A} (f : S → result A E) : Tx S E A := λ t, (t, f t).

(** [BEGIN IMMEDIATE ... COMMIT]: an error leaves the table as it was. *)
Definition in_tx {A} (m : Tx S E A) : Tx S E A := λ t,
  match m t with
  | (t', Ok a) => (t', Ok a)
  | (_, Err e) => (t, Err e)
  end.

(** Executing a statement, given as the table it leads to and the number of rows it
    affects: the schema accepts that table, or the statement fails. *)
Definition db_exec (accepts : S → S → bool) (refused : E) (f : S → S * N) : Tx S E N := λ t,
  let '(t', n) := f t in
  if (n =? 0)%N then (t, Ok 0%N)
  else if accepts t t' then (t', Ok n) else (t, Err refused).
End tx.

Notation "'let*' x ':=' m 'in' k" := (db_bind m (λ x, k))
  (at level 10, x binder, m at level 100, k at level 200) : calm_scope.

(** ** Statements *)

Section table.
Context {K Row : Type} `{Countable K}.
Implicit Types t : gmap K Row.

(** [UPDATE ... WHERE id = ? AND cond]: the new table and the rows affected. *)
Definition update_id (id : K) (cond : Row → bool) (f : Row → Row) t : gmap K Row * N :=
  match t !! id with
  | Some r => if cond r then (<[id := f r]> t, 1%N) else (t, 0%N)
  | None => (t, 0%N)
  end.

(** [UPDATE ... WHERE cond] over the whole table. *)
Definition update_all (cond : K → Row → bool) (f : Row → Row) t : gmap K Row * N :=
  (map_imap (λ id r, Some (if cond id r then f r else r)) t,
   N.of_nat (size (filter (λ p, cond p.1 p.2 = true) t))).
End table.

(** ** Relations preserved by a transaction *)

Definition preserves {S E A} (P : relation S) (m : Tx S E A) : Prop := ∀ t, P t (m t).1.

Section preserves.
Context {S E : Type} (P : relation S) `{!PreOrder P}.

Lemma preserves_ret {A} (a : A) : preserves P (db_ret (E := E) a).
Proof. by intros t. Qed.
Lemma preserves_raise {A} (e : E) : preserves P (db_raise (A := A) e).
Proof. by intros t. Qed.
Lemma preserves_read {A} (f : S → result A E) : preserves P (db_read f).
Proof. by intros t. Qed.
Lemma preserves_bind {A B} (m : Tx S E A) (k : A → Tx S E B) :
  preserves P m → (∀ a, preserves P (k a)) → preserves P (db_bind m k).
Proof.
  intros Hm Hk t. unfold db_bind. specialize (Hm t). destruct (m t) as [t' [a|e]]; [|done].
  transitivity t'; [done|apply Hk].
Qed.
Lemma preserves_in_tx {A} (m : Tx S E A) : preserves P m → preserves P (in_tx m).
Proof. intros Hm t. unfold in_tx. specialize (Hm t). by destruct (m t) as [t' [a|e]]. Qed.
Lemma preserves_db_exec accepts (refused : E) f :
  (∀ t, accepts t (f t).1 = true → P t (f t).1) → preserves P (db_exec accepts refused f).
Proof.
  intros Hf t. unfold db_exec. specialize (Hf t). destruct (f t) as [t' n]; simpl in *.
  destruct (n =? 0)%N; [done|]. destruct (accepts t t'); simpl; [by apply Hf|done].
Qed.
End preserves.

(** Walks through an operation down to its statements. *)
Ltac walk :=
  repeat first
    [ apply preserves_ret; apply _ | apply preserves_raise; apply _ | apply preserves_read; apply _
    | apply preserves_in_tx; [apply _|]
    | apply preserves_bind; [apply _| |intros ?]
    | match goal with
      | |- preserves _ (if ?b then _ else _) => destruct b eqn:?
      | |- preserves _ (match ?x with _ => _ end) => destruct x eqn:?
      end ].

(** ** Row-wise change

    Every row of the table is kept and changed by [R]. *)
Definition rowwise {K Row : Type} `{Countable K} (R : relation Row) (t t' : gmap K Row) : Prop :=
  ∀ id r, t !! id = Some r → ∃ r', t' !! id = Some r' ∧ R r r'.

#[export] Instance rowwise_preorder {K Row} `{Countable K} (R : relation Row) :
  PreOrder R → PreOrder (rowwise (K := K) R).
Proof.
  intros HR. split.
  - intros t id r Hr. by exists r.
  - intros t1 t2 t3 H12 H23 id r (r2 & Hr2 & HR12)%H12.
    destruct (H23 _ _ Hr2) as (r3 & Hr3 & HR23). exists r3. split; [done|]. by transitivity r2.
Qed.

Section rowwise.
Context {K Row : Type} `{Countable K} (R : relation Row) `{!PreOrder R}.
Implicit Types t : gmap K Row.

Lemma rowwise_insert_here id r r' t :
  t !! id = Some r → R r r' → rowwise R t (<[id := r']> t).
Proof.
  intros Hr HR id' x Hx. destruct (decide (id = id')) as [<-|Hne].
  - simplify_eq. exists r'. by rewrite lookup_insert_eq.
  - exists x. by rewrite lookup_insert_ne.
Qed.

Lemma rowwise_insert_fresh id r t : t !! id = None → rowwise R t (<[id := r]> t).
Proof. intros Hid id' x Hx. exists x. rewrite lookup_insert_ne by congruence. done. Qed.

Lemma rowwise_update_id id cond f t :
  (∀ r, cond r = true → R r (f r)) → rowwise R t (update_id id cond f t).1.
Proof.
  intros Hf. unfold update_id. destruct (t !! id) as [r|] eqn:Hr; [|done].
  destruct (cond r) eqn:Hc; [|done]. apply (rowwise_insert_here _ r); auto.
Qed.

Lemma rowwise_update_all cond f t :
  (∀ id r, cond id r = true → R r (f r)) → rowwise R t (update_all cond f t).1.
Proof.
  intros Hf id r Hr. simpl. exists (if cond id r then f r else r).
  rewrite map_lookup_imap, Hr. split; [done|]. destruct (cond id r) eqn:Hc; [by eapply Hf|done].
Qed.
End rowwise.

(** ** Change of each entry

    As [rowwise], with the rows that appear: [R] relates the entries, absent or not. *)
Definition pointwise {K Row : Type} `{Countable K} (R : relation (option Row)) (t t' : gmap K Row) : Prop :=
  ∀ id, R (t !! id) (t' !! id).

#[export] Instance pointwise_preorder {K Row} `{Countable K} (R : relation (option Row)) :
  PreOrder R → PreOrder (pointwise (K := K) R).
Proof.
  intros HR. split; [by intros t id|].
  intros t1 t2 t3 H12 H23 id. by transitivity (t2 !! id).
Qed.

Section pointwise.
Context {K Row : Type} `{Countable K} (R : relation (option Row)) `{!PreOrder R}.
Implicit Types t : gmap K Row.

Lemma pointwise_insert id r t : R (t !! id) (Some r) → pointwise R t (<[id := r]> t).
Proof.
  intros Hr id'. destruct (decide (id = id')) as [<-|Hne].
  - by rewrite lookup_insert_eq.
  - by rewrite lookup_insert_ne.
Qed.

Lemma pointwise_update_id id cond f t :
  (∀ r, cond r = true → R (Some r) (Some (f r))) → pointwise R t (update_id id cond f t).1.
Proof.
  intros Hf. unfold update_id. destruct (t !! id) as [r|] eqn:Hr; [|done].
  destruct (cond r) eqn:Hc; [|done]. apply pointwise_insert. rewrite Hr. auto.
Qed.
End pointwise.

(** ** Reasoning forward through a transaction

    [wp m Q t]: run on [t], [m] ends in a table and an answer that satisfy [Q]. *)
Definition wp {S E A : Type} (m : Tx S E A) (Q : S → result A E → Prop) (t : S) : Prop :=
  Q (m t).1 (m t).2.

Section wp.
Context {S E : Type}.

Lemma wp_mono {A} (m : Tx S E A) (Q Q' : S → result A E → Prop) t :
  (∀ t' a, Q t' a → Q' t' a) → wp m Q t → wp m Q' t.
Proof. unfold wp. auto. Qed.

Lemma wp_ret {A} (a : A) Q (t : S) : Q t (Ok a) → wp (E := E) (db_ret a) Q t.
Proof. done. Qed.
Lemma wp_raise {A} (e : E) Q (t : S) : Q t (Err e) → wp (A := A) (db_raise e) Q t.
Proof. done. Qed.
Lemma wp_read {A} (f : S → result A E) Q t : (∀ a, f t = a → Q t a) → wp (db_read f) Q t.
Proof. unfold wp, db_read. simpl. auto. Qed.

Lemma wp_bind {A B} (m : Tx S E A) (k : A → Tx S E B) Q t :
  wp m (λ t' r, match r with Ok a => wp (k a) Q t' | Err e => Q t' (Err e) end) t →
  wp (db_bind m k) Q t.
Proof. unfold wp, db_bind. by destruct (m t) as [t' [a|e]]. Qed.

Lemma wp_in_tx {A} (m : Tx S E A) Q t :
  wp m (λ t' r, match r with Ok a => Q t' (Ok a) | Err e => Q t (Err e) end) t → wp (in_tx m) Q t.
Proof. unfold wp, in_tx. by destruct (m t) as [t' [a|e]]. Qed.

Lemma wp_bind_read {A B} (f : S → result A E) (k : A → Tx S E B) Q t :
  (∀ a, f t = Ok a → wp (k a) Q t) → (∀ e, f t = Err e → Q t (Err e)) →
  wp (db_bind (db_read f) k) Q t.
Proof. intros Ha He. apply wp_bind, wp_read. intros [a|e]; auto. Qed.

Lemma wp_update {K Row} `{Countable K} accepts (refused : E) (id : K) (cond : Row → bool) f Q t :
  (∀ r, t !! id = Some r → cond r = true → accepts t (<[id := f r]> t) = true →
    Q (<[id := f r]> t) (Ok 1%N)) →
  ((∀ r, t !! id = Some r → cond r = false) → Q t (Ok 0%N)) →
  ((∃ r, t !! id = Some r ∧ cond r = true ∧ accepts t (<[id := f r]> t) = false) →
    Q t (Err refused)) →
  wp (db_exec accepts refused (update_id id cond f)) Q t.
Proof.
  intros H1 H0 He. unfold wp, db_exec, update_id.
  destruct (t !! id) as [r|] eqn:Hr; [|by apply H0].
  destruct (cond r) eqn:Hc; [|apply H0; by intros ? [= <-]]. simpl.
  destruct (accepts _ _) eqn:Ha; simpl; [by apply H1|]. apply He. eauto.
Qed.

Lemma preserves_wp {A} P (m : Tx S E A) : (∀ t, wp m (λ t' _, P t t') t) → preserves P m.
Proof. done. Qed.
End wp.

(** Symbolic execution: leaves one goal for each path through the transaction. *)
Ltac wp_step :=
  match goal with
  | |- wp (db_ret _) _ _ => apply wp_ret
  | |- wp (db_raise _) _ _ => apply wp_raise
  | |- wp (db_bind (db_read _) _) _ _ => apply wp_bind_read; [intros ? ?|intros ? ?]
  | |- wp (db_read _) _ _ => apply wp_read; intros ? ?
  | |- wp (db_bind _ _) _ _ => apply wp_bind
  | |- wp (in_tx _) _ _ => apply wp_in_tx
  | |- wp (db_exec _ _ (update_id _ _ _)) _ _ => apply wp_update; [intros ? ? ? ?|intros ?|intros ?]
  | |- wp (if ?b then _ else _) _ _ => destruct b eqn:?
  | |- wp (match ?x with _ => _ end) _ _ => destruct x eqn:?
  | |- match ?x with _ => _ end => destruct x eqn:?
  end.
