(* ===== verification/Float64.v ===== *)
(** * Binary64 floating point

    Metric checks ([crates/objective/src/check/metric.rs]) compare [f64] values.
    They are modelled with the Standard Library's executable specification of
    IEEE 754 arithmetic ([SpecFloat], precision 53, maximal exponent 1024), so
    NaN, the infinities, signed zeros and rounding behave as the hardware does.
    The lemmas here are the sign symmetries the comparison relies on. *)

From Corelib Require Import SpecFloat.
From stdpp Require Import prelude.
From S2P Require Import Prelude.

Abbreviation f64 := spec_float.

Definition f64_sub : f64 → f64 → f64 := SFsub 53 1024.
Definition f64_opp : f64 → f64 := SFopp.
Definition f64_ltb : f64 → f64 → bool := SFltb.
Definition f64_gtb (x y : f64) : bool := SFltb y x.
Definition f64_eqb : f64 → f64 → bool := SFeqb.
Definition f64_zero : f64 := S754_zero false.

Definition is_finite (x : f64) : bool :=
  match x with S754_zero _ | S754_finite _ _ _ => true | _ => false end.

(** An integer as the nearest [f64]. *)
Definition f64_of_Z (z : Z) : f64 := binary_normalize 53 1024 z 0 false.

(** Equality up to the sign of zero: what every comparison observes. *)
Definition f64_sim (x y : f64) : Prop :=
  x = y ∨ ∃ a b, x = S754_zero a ∧ y = S754_zero b.

Lemma f64_compare_sim x x' y : f64_sim x x' → SFcompare x y = SFcompare x' y.
Proof. by intros [->|(a & b & -> & ->)]. Qed.

Lemma f64_compare_sim_r x y y' : f64_sim y y' → SFcompare x y = SFcompare x y'.
Proof. intros [->|(a & b & -> & ->)]; [done|]. by destruct x. Qed.

Lemma f64_ltb_sim x x' y y' :
  f64_sim x x' → f64_sim y y' → f64_ltb x y = f64_ltb x' y'.
Proof.
  intros Hx Hy. unfold f64_ltb, SFltb.
  by rewrite (f64_compare_sim _ _ _ Hx), (f64_compare_sim_r _ _ _ Hy).
Qed.

(** Negation reverses the order. *)
Lemma f64_compare_opp x y : SFcompare (f64_opp x) (f64_opp y) = SFcompare y x.
Proof.
  destruct x as [[]|[]| |[] mx ex], y as [[]|[]| |[] my ey]; simpl; try done;
    rewrite (Z.compare_antisym ex ey); destruct (ex ?= ey)%Z; simpl; try done;
    change (PosDef.Pos.compare_cont Eq mx my) with (Pos.compare mx my);
    change (PosDef.Pos.compare_cont Eq my mx) with (Pos.compare my mx);
    by rewrite (Pos.compare_antisym mx my), ?CompOpp_involutive.
Qed.

Lemma f64_ltb_opp x y : f64_ltb (f64_opp x) (f64_opp y) = f64_ltb y x.
Proof. unfold f64_ltb, SFltb. by rewrite f64_compare_opp. Qed.

Lemma f64_opp_involutive x : f64_opp (f64_opp x) = x.
Proof. destruct x as [[]|[]| |[]]; done. Qed.

Lemma binary_round_opp s m e :
  binary_round 53 1024 (negb s) m e = f64_opp (binary_round 53 1024 s m e).
Proof.
  unfold binary_round, binary_round_aux.
  destruct (shl_align _ _ _) as [mz ez].
  destruct (shr_fexp _ _ (Z.pos mz) _ _) as [mrs e1].
  destruct (shr_fexp _ _ _ _ _) as [mrs' e2].
  destruct (shr_m mrs'); [done| |done]. by destruct (Z.leb _ _).
Qed.

Lemma binary_normalize_opp m e :
  f64_sim (binary_normalize 53 1024 (- m) e false)
          (f64_opp (binary_normalize 53 1024 m e false)).
Proof.
  destruct m as [|m|m]; simpl.
  - right; eauto.
  - left. apply (binary_round_opp false).
  - left. by rewrite <-(binary_round_opp true).
Qed.

(** [y - x] is [-(x - y)], up to the sign of a zero difference. *)
Lemma f64_sub_antisym x y : f64_sim (f64_sub y x) (f64_opp (f64_sub x y)).
Proof.
  destruct x as [[]|[]| |sx mx ex], y as [[]|[]| |sy my ey]; simpl;
    try (by left); try (right; by eauto); try (left; by destruct sx);
    try (left; by destruct sy).
  unfold f64_sub, SFsub. rewrite (Z.min_comm ey ex).
  set (a := cond_Zopp sx _). set (b := cond_Zopp sy _).
  replace (IntDef.Z.sub b a) with (- (a - b))%Z by (change (- (a - b) = b - a)%Z; lia).
  apply binary_normalize_opp.
Qed.
