(* ===== verification/Checks.v ===== *)
(** * Checks: the check kinds of an objective and how their outputs compare

    Models [crates/objective/src/check/] (the kind registry and the four kinds)
    and [crates/objective/src/diagnostic.rs]. The Rust trait [CheckKind] is the
    class [CheckKind]; each kind is an instance; [CheckConfig], [SampleOutput]
    and [CheckOutput] are the registry's enums with the same constructors. *)

From stdpp Require Import prelude gmap strings sorting.
From S2P Require Import Prelude Float64.

(** ** Diagnostics *)

Inductive BudgetLimit :=
| BudgetLimit_Turns
| BudgetLimit_Tokens
| BudgetLimit_WallSecs.

#[export] Instance BudgetLimit_eq_dec : EqDecision BudgetLimit.
Proof. solve_decision. Defined.

Inductive Problem :=
| EmptyKey
| EmptyTitle
| NoChecks
| EmptyCheckId
| DuplicateCheckId
| ConvergeWithoutGoal
| LoopWithoutRatchet
| ZeroPlateau
| ZeroBudget (limit : BudgetLimit)
| EmptyConstraint
| EmptyCommand
| InvalidTolerance
| ZeroSamples
| EmptyRubric
| EmptyRubricItem
| DuplicateRubricItem (item : str)
| EmptyFactSubject.

Record Diagnostic := mkDiagnostic { path : str; problem : Problem }.

(** ** Trends and comparisons *)

Inductive Trend := Worse | Same | Better.

#[export] Instance Trend_eq_dec : EqDecision Trend.
Proof. solve_decision. Defined.

(** The derived [Ord]: worst first. *)
Definition trend_rank (t : Trend) : N :=
  match t with Worse => 0 | Same => 1 | Better => 2 end.

#[export] Program Instance Trend_Ord : Ord Trend :=
  {| ord_le a b := (trend_rank a <= trend_rank b)%N;
     ord_le_dec a b := decide (trend_rank a <= trend_rank b)%N |}.
Next Obligation. intros a b. lia. Qed.
Next Obligation. intros a b c. lia. Qed.
Next Obligation. intros [] [] ? ?; simpl in *; done || lia. Qed.

(** [Trend::between]: fail to pass improves, pass to fail regresses. *)
Definition trend_between (baseline_passed candidate_passed : bool) : Trend :=
  match baseline_passed, candidate_passed with
  | false, true => Better
  | true, false => Worse
  | _, _ => Same
  end.

(** [From<Ordering> for Trend]. *)
Definition trend_of_ordering (o : comparison) : Trend :=
  match o with Lt => Worse | Eq => Same | Gt => Better end.

Record Comparison := mkComparison { trend : Trend; passed : bool }.

#[export] Instance Comparison_eq_dec : EqDecision Comparison.
Proof. solve_decision. Defined.

(** ** The kind interface *)
Class CheckKind (Params Output : Type) := {
  kind_NAME : str;
  kind_validate : Params → list Problem;
  kind_compare : Params → Output → Output → Comparison;
}.

(** ** [command] checks *)
Record CommandParams := mkCommandParams { cmd_command : str }.
Record CommandOutput := mkCommandOutput { exit_code : Z }.

Definition command_passed (o : CommandOutput) : bool := (exit_code o =? 0)%Z.

#[export] Instance CommandCheck : CheckKind CommandParams CommandOutput := {|
  kind_NAME := lit "command";
  kind_validate params :=
    if is_blank (cmd_command params) then [EmptyCommand] else [];
  kind_compare _ baseline candidate :=
    {| trend := trend_between (command_passed baseline) (command_passed candidate);
       passed := command_passed candidate |}
|}.

(** ** [metric] checks *)
Inductive Direction := Higher | Lower.

#[export] Instance Direction_eq_dec : EqDecision Direction.
Proof. solve_decision. Defined.

Record MetricParams := mkMetricParams {
  met_command : str;
  direction : Direction;
  tolerance : option f64;
}.
Record MetricOutput := mkMetricOutput { value : f64 }.

Definition metric_gain (params : MetricParams) (baseline candidate : MetricOutput) : f64 :=
  match direction params with
  | Higher => f64_sub (value candidate) (value baseline)
  | Lower => f64_sub (value baseline) (value candidate)
  end.

Definition metric_trend (params : MetricParams) (baseline candidate : MetricOutput) : Trend :=
  let gain := metric_gain params baseline candidate in
  let tol := default f64_zero (tolerance params) in
  if f64_gtb gain tol then Better
  else if f64_ltb gain (f64_opp tol) then Worse
  else Same.

#[export] Instance MetricCheck : CheckKind MetricParams MetricOutput := {|
  kind_NAME := lit "metric";
  kind_validate params :=
    (if is_blank (met_command params) then [EmptyCommand] else []) ++
    (match tolerance params with
     | Some t => if negb (is_finite t) || f64_ltb t f64_zero then [InvalidTolerance] else []
     | None => []
     end);
  kind_compare params baseline candidate :=
    let t := metric_trend params baseline candidate in
    {| trend := t; passed := bool_decide (t ≠ Worse) |}
|}.

(** ** [evaluator] checks *)
Record RubricItem := mkRubricItem { ri_id : str; criterion : str }.

#[export] Instance RubricItem_eq_dec : EqDecision RubricItem.
Proof. solve_decision. Defined.

Inductive Aggregate := Majority | Median.

#[export] Instance Aggregate_eq_dec : EqDecision Aggregate.
Proof. solve_decision. Defined.

Record EvaluatorParams := mkEvaluatorParams {
  rubric : list RubricItem;
  ev_samples : N;
  aggregate : Aggregate;
}.

#[export] Instance EvaluatorParams_eq_dec : EqDecision EvaluatorParams.
Proof. solve_decision. Defined.

Record Evidence := mkEvidence { ev_path : str; line : N }.
Record Judgement := mkJudgement {
  item : str;
  j_trend : Trend;
  evidence : list Evidence;
}.
Record Findings := mkFindings { blocking : N; major : N; minor : N }.
Record EvaluatorSample := mkEvaluatorSample {
  judgements : list Judgement;
  s_findings : Findings;
}.
Record EvaluatorOutput := mkEvaluatorOutput { eo_samples : list EvaluatorSample }.

(** [EvaluatorSample::trend_for]: a judgement that claims a change without
    evidence, or a missing judgement, counts as [Same]. *)
Definition sample_trend_for (s : EvaluatorSample) (it : str) : Trend :=
  match List.find (λ j, bool_decide (item j = it)) (judgements s) with
  | Some j =>
      if bool_decide (j_trend j = Same) || negb (is_empty (evidence j))
      then j_trend j else Same
  | None => Same
  end.

(** The lower median: the element at index [(len - 1) / 2] after sorting. *)
Definition lower_median {T} `{Ord T} (values : list T) : option T :=
  ord_sort values !! ((length values - 1) / 2).

Definition count_trend (t : Trend) (trends : list Trend) : nat :=
  length (filter (λ x, x = t) trends).

Definition majority (trends : list Trend) : Trend :=
  let worse := count_trend Worse trends in
  let same := count_trend Same trends in
  let better := count_trend Better trends in
  if (worse <? better) && (same <? better) then Better
  else if (better <? worse) && (same <? worse) then Worse
  else Same.

(** [EvaluatorOutput::findings]: the per-severity lower median, zero without
    samples. *)
Definition output_findings (o : EvaluatorOutput) : Findings :=
  let median_of (severity : Findings → N) :=
    default 0%N (lower_median ((λ s, severity (s_findings s)) <$> eo_samples o)) in
  {| blocking := median_of blocking;
     major := median_of major;
     minor := median_of minor |}.

Definition output_trend_for (o : EvaluatorOutput) (it : str) (a : Aggregate) : Trend :=
  let trends := (λ s, sample_trend_for s it) <$> eo_samples o in
  match a with
  | Majority => majority trends
  | Median => default Same (lower_median trends)
  end.

(** The duplicate scan of a validation loop: [!seen.insert(id)]. *)
Fixpoint rubric_problems (seen : gset str) (items : list RubricItem) : list Problem :=
  match items with
  | [] => []
  | it :: rest =>
      (if is_blank (ri_id it) || is_blank (criterion it) then [EmptyRubricItem] else []) ++
      (if bool_decide (ri_id it ∈ seen) then [DuplicateRubricItem (ri_id it)] else []) ++
      rubric_problems ({[ri_id it]} ∪ seen) rest
  end.

Definition evaluator_validate (params : EvaluatorParams) : list Problem :=
  (if (ev_samples params =? 0)%N then [ZeroSamples] else []) ++
  (if is_empty (rubric params) then [EmptyRubric] else []) ++
  rubric_problems ∅ (rubric params).

(** The trends one comparison looks at: one per rubric item, then the change in
    blocking findings ([after.cmp(before).reverse()]). *)
Definition evaluator_trends (params : EvaluatorParams) (baseline candidate : EvaluatorOutput)
  : list Trend :=
  ((λ it, output_trend_for candidate (ri_id it) (aggregate params)) <$> rubric params) ++
  [trend_of_ordering
     (CompOpp (blocking (output_findings candidate) ?= blocking (output_findings baseline))%N)].

Definition evaluator_compare (params : EvaluatorParams) (baseline candidate : EvaluatorOutput)
  : Comparison :=
  if is_empty (eo_samples candidate) then {| trend := Same; passed := false |}
  else
    let trends := evaluator_trends params baseline candidate in
    {| trend :=
         if bool_decide (Worse ∈ trends) then Worse
         else if bool_decide (Better ∈ trends) then Better
         else Same;
       passed := (blocking (output_findings candidate) =? 0)%N |}.

#[export] Instance EvaluatorCheck : CheckKind EvaluatorParams EvaluatorOutput := {|
  kind_NAME := lit "evaluator";
  kind_validate := evaluator_validate;
  kind_compare := evaluator_compare
|}.

(** [positive_line]: a cited line is at least 1. *)
Definition positive_line (l : N) : result N str :=
  if (l =? 0)%N then Err (lit "line must be at least 1") else Ok l.

(** ** [fact] checks *)
Inductive Fact := TaskAccepted | PrMerged | AskAnswered.

#[export] Instance Fact_eq_dec : EqDecision Fact.
Proof. solve_decision. Defined.

Record FactParams := mkFactParams { fact : Fact; subject : str }.
Record FactOutput := mkFactOutput { holds : bool }.

#[export] Instance FactCheck : CheckKind FactParams FactOutput := {|
  kind_NAME := lit "fact";
  kind_validate params := if is_blank (subject params) then [EmptyFactSubject] else [];
  kind_compare _ baseline candidate :=
    {| trend := trend_between (holds baseline) (holds candidate);
       passed := holds candidate |}
|}.

(** ** The registry *)
Inductive CheckConfig :=
| Config_Command (params : CommandParams)
| Config_Metric (params : MetricParams)
| Config_Evaluator (params : EvaluatorParams)
| Config_Fact (params : FactParams).

Inductive SampleOutput :=
| Sample_Command (output : CommandOutput)
| Sample_Metric (output : MetricOutput)
| Sample_Evaluator (run : EvaluatorSample)
| Sample_Fact (output : FactOutput).

Inductive CheckOutput :=
| Output_Command (output : CommandOutput)
| Output_Metric (output : MetricOutput)
| Output_Evaluator (output : EvaluatorOutput)
| Output_Fact (output : FactOutput).

Inductive KindMismatchError := KindMismatchErr.

Definition kind_name (c : CheckConfig) : str :=
  match c with
  | Config_Command _ => kind_NAME (CheckKind := CommandCheck)
  | Config_Metric _ => kind_NAME (CheckKind := MetricCheck)
  | Config_Evaluator _ => kind_NAME (CheckKind := EvaluatorCheck)
  | Config_Fact _ => kind_NAME (CheckKind := FactCheck)
  end.

Definition samples (c : CheckConfig) : N :=
  match c with
  | Config_Evaluator params => ev_samples params
  | Config_Command _ | Config_Metric _ | Config_Fact _ => 1
  end.

Definition config_validate (c : CheckConfig) : list Problem :=
  match c with
  | Config_Command params => kind_validate params
  | Config_Metric params => kind_validate params
  | Config_Evaluator params => kind_validate params
  | Config_Fact params => kind_validate params
  end.

Definition accepts (c : CheckConfig) (s : SampleOutput) : bool :=
  match c, s with
  | Config_Command _, Sample_Command _
  | Config_Metric _, Sample_Metric _
  | Config_Evaluator _, Sample_Evaluator _
  | Config_Fact _, Sample_Fact _ => true
  | _, _ => false
  end.

Definition compare (c : CheckConfig) (baseline candidate : CheckOutput)
  : result Comparison KindMismatchError :=
  match c, baseline, candidate with
  | Config_Command p, Output_Command b, Output_Command o => Ok (kind_compare p b o)
  | Config_Metric p, Output_Metric b, Output_Metric o => Ok (kind_compare p b o)
  | Config_Evaluator p, Output_Evaluator b, Output_Evaluator o => Ok (kind_compare p b o)
  | Config_Fact p, Output_Fact b, Output_Fact o => Ok (kind_compare p b o)
  | _, _, _ => Err KindMismatchErr
  end.

(** Collecting [Result]s: all the evaluator runs, or the first mismatch. *)
Fixpoint evaluator_runs (l : list SampleOutput)
  : result (list EvaluatorSample) KindMismatchError :=
  match l with
  | [] => Ok []
  | Sample_Evaluator run :: l' =>
      result_bind (evaluator_runs l') (λ runs, Ok (run :: runs))
  | _ :: _ => Err KindMismatchErr
  end.

(** [CheckConfig::combine]. *)
Definition combine (c : CheckConfig) (l : list SampleOutput)
  : result CheckOutput KindMismatchError :=
  if negb (N.of_nat (length l) =? samples c)%N then Err KindMismatchErr
  else
    match c with
    | Config_Evaluator _ =>
        result_bind (evaluator_runs l)
          (λ runs, Ok (Output_Evaluator {| eo_samples := runs |}))
    | _ =>
        match l with
        | [s] =>
            match c, s with
            | Config_Command _, Sample_Command o => Ok (Output_Command o)
            | Config_Metric _, Sample_Metric o => Ok (Output_Metric o)
            | Config_Fact _, Sample_Fact o => Ok (Output_Fact o)
            | _, _ => Err KindMismatchErr
            end
        | _ => Err KindMismatchErr
        end
    end.

(** The derived [PartialEq] of configurations: tolerances compare as [f64]s, so
    [0.0 == -0.0] and a NaN differs from itself. *)
Definition tolerance_eqb (s t : option f64) : bool :=
  match s, t with
  | Some x, Some y => f64_eqb x y
  | None, None => true
  | _, _ => false
  end.

Definition config_eqb (c d : CheckConfig) : bool :=
  match c, d with
  | Config_Command p, Config_Command q => bool_decide (cmd_command p = cmd_command q)
  | Config_Metric p, Config_Metric q =>
      bool_decide (met_command p = met_command q)
      && bool_decide (direction p = direction q)
      && tolerance_eqb (tolerance p) (tolerance q)
  | Config_Evaluator p, Config_Evaluator q => bool_decide (p = q)
  | Config_Fact p, Config_Fact q =>
      bool_decide (fact p = fact q) && bool_decide (subject p = subject q)
  | _, _ => false
  end.

(** ** Kind discipline *)

(** An output of the configuration's kind. *)
Definition output_of_kind (c : CheckConfig) (o : CheckOutput) : bool :=
  match c, o with
  | Config_Command _, Output_Command _
  | Config_Metric _, Output_Metric _
  | Config_Evaluator _, Output_Evaluator _
  | Config_Fact _, Output_Fact _ => true
  | _, _ => false
  end.

(** Two outputs compare exactly when both belong to the check's kind. *)
Lemma compare_is_Ok c b o :
  (∃ r, compare c b o = Ok r) ↔ output_of_kind c b = true ∧ output_of_kind c o = true.
Proof.
  split.
  - intros [r Hr]. destruct c, b, o; simpl in Hr; discriminate || done.
  - intros [Hb Ho]. destruct c, b; try discriminate Hb; destruct o; try discriminate Ho; by eexists.
Qed.

Lemma evaluator_runs_is_Ok p l :
  (∃ runs, evaluator_runs l = Ok runs) ↔ Forall (λ s, accepts (Config_Evaluator p) s = true) l.
Proof.
  induction l as [|s l IH]; simpl; [by split; eauto|].
  rewrite Forall_cons, <-IH. destruct s; simpl; try (split; [by intros []|by intros []]).
  destruct (evaluator_runs l) as [runs|]; simpl; split; naive_solver.
Qed.

(** Samples combine exactly when there are as many as the check takes and every
    one belongs to its kind. *)
Lemma combine_is_Ok c l :
  (∃ o, combine c l = Ok o) ↔
  N.of_nat (length l) = samples c ∧ Forall (λ s, accepts c s = true) l.
Proof.
  unfold combine. destruct (N.eqb_spec (N.of_nat (length l)) (samples c)) as [Hl|Hl]; simpl.
  2: { split; [by intros []|by intros []]. }
  destruct c as [p|p|p|p].
  3: { rewrite <-(evaluator_runs_is_Ok p). destruct (evaluator_runs l); simpl; split;
       try (by intros [? [=]]); [by eauto|by eauto|by intros [_ [? [=]]]]. }
  all: simpl in Hl; destruct l as [|s [|]]; simpl in Hl; try lia;
    rewrite Forall_singleton; destruct s; simpl; split;
    try (by intros [? [=]]); try (by intros []); by eauto.
Qed.

Lemma combine_of_kind c l o : combine c l = Ok o → output_of_kind c o = true.
Proof.
  unfold combine. destruct (negb _); [done|].
  destruct c; try (destruct l as [|[] []]; by intros [= <-]).
  by destruct (evaluator_runs l); intros [= <-].
Qed.

(** Equal configurations are of one kind. *)
Lemma config_eqb_of_kind c d o :
  config_eqb c d = true → output_of_kind c o = output_of_kind d o.
Proof. by destruct c, d. Qed.

Lemma combine_accepted c l :
  N.of_nat (length l) = samples c → Forall (λ s, accepts c s = true) l →
  ∃ o, combine c l = Ok o ∧ output_of_kind c o = true.
Proof.
  intros Hl Hf. destruct (proj2 (combine_is_Ok c l) (conj Hl Hf)) as [o Ho].
  eauto using combine_of_kind.
Qed.

(** ** Aggregation *)

Section lower_median.
Context {T : Type} `{Ord T}.
Implicit Types l : list T.

Lemma lower_median_perm l1 l2 : l1 ≡ₚ l2 → lower_median l1 = lower_median l2.
Proof. intros Hp. unfold lower_median. by rewrite (ord_sort_unique _ _ Hp), Hp. Qed.

Lemma lower_median_is_Some l : is_Some (lower_median l) ↔ l ≠ [].
Proof.
  unfold lower_median. rewrite lookup_lt_is_Some, ord_sort_perm.
  destruct l as [|a l]; [split; [simpl; lia|done]|].
  split; [done|]. intros _. apply Nat.Div0.div_lt_upper_bound. simpl. lia.
Qed.

(** The lower median is an element with at most [(n-1)/2] elements below it and
    more than [(n-1)/2] elements at or below it. *)
Lemma lower_median_rank l m :
  lower_median l = Some m →
  m ∈ l ∧
  length (filter (λ x, ¬ ord_le m x) l) ≤ (length l - 1) / 2 <
  length (filter (λ x, ord_le x m) l).
Proof.
  unfold lower_median. set (i := (length l - 1) / 2). intros Hm.
  pose proof (ord_sort_sorted l) as Hs. pose proof (ord_sort_perm l) as Hp.
  pose proof (lookup_lt_Some _ _ _ Hm) as Hlt.
  split; [rewrite <-Hp; by eapply list_elem_of_lookup_2|].
  assert (∀ P `{∀ x : T, Decision (P x)}, length (filter P l) = length (filter P (ord_sort l))) as Hlen.
  { intros. by rewrite Hp. }
  rewrite !Hlen. rewrite <-(take_drop_middle _ _ _ Hm), !filter_app. split.
  - rewrite filter_cons_False by (intros Hn; apply Hn; by destruct (total ord_le m m)).
    rewrite (filter_none _ (drop _ _)), app_nil_r.
    2: { intros x Hx Hn. apply Hn. by eapply StronglySorted_lookup_after. }
    etrans; [apply length_filter|]. rewrite length_take. lia.
  - rewrite filter_cons_True by (by destruct (total ord_le m m)).
    rewrite filter_all by (intros x Hx; by eapply StronglySorted_lookup_before).
    rewrite length_app, length_take. simpl. lia.
Qed.
End lower_median.

Lemma count_trend_perm t l1 l2 : l1 ≡ₚ l2 → count_trend t l1 = count_trend t l2.
Proof. intros Hp. unfold count_trend. by rewrite Hp. Qed.

Lemma majority_perm l1 l2 : l1 ≡ₚ l2 → majority l1 = majority l2.
Proof. intros Hp. unfold majority. by rewrite !(count_trend_perm _ _ _ Hp). Qed.

(** A unanimous vote decides both aggregates. *)
Lemma output_trend_unanimous o it a t :
  eo_samples o ≠ [] → Forall (λ s, sample_trend_for s it = t) (eo_samples o) →
  output_trend_for o it a = t.
Proof.
  unfold output_trend_for. intros Hne Hall.
  assert ((λ s, sample_trend_for s it) <$> eo_samples o = replicate (length (eo_samples o)) t) as ->.
  { by apply fmap_replicate. }
  assert (0 < length (eo_samples o)) as Hpos by (destruct (eo_samples o); simpl; [done|lia]).
  destruct a.
  - unfold majority, count_trend.
    assert (∀ u, length (filter (λ x, x = u) (replicate (length (eo_samples o)) t)) =
                 if decide (t = u) then length (eo_samples o) else 0) as Hc.
    { intros u. case_decide as Hd.
      - rewrite filter_all, length_replicate; [done|]. by intros x [-> _]%elem_of_replicate.
      - rewrite filter_none; [done|]. intros x [-> _]%elem_of_replicate. done. }
    rewrite !Hc. destruct t; repeat case_decide; try done; simpl;
      destruct (Nat.ltb_spec 0 (length (eo_samples o))); simpl; done || lia.
  - destruct (lower_median _) as [m|] eqn:Hm.
    + apply lower_median_rank in Hm as [Hm _]. by apply elem_of_replicate in Hm as [-> _].
    + exfalso. apply eq_None_not_Some in Hm. apply Hm, lower_median_is_Some.
      destruct (length (eo_samples o)); simpl; [lia|done].
Qed.

(** Evaluator comparisons do not depend on the order the samples arrived in. *)
Lemma output_findings_perm l1 l2 :
  l1 ≡ₚ l2 → output_findings (mkEvaluatorOutput l1) = output_findings (mkEvaluatorOutput l2).
Proof.
  intros Hp. unfold output_findings; simpl.
  by f_equal; f_equal; apply lower_median_perm; rewrite Hp.
Qed.

Lemma output_trend_for_perm l1 l2 it a :
  l1 ≡ₚ l2 → output_trend_for (mkEvaluatorOutput l1) it a = output_trend_for (mkEvaluatorOutput l2) it a.
Proof.
  intros Hp. unfold output_trend_for; simpl. destruct a.
  - apply majority_perm. by rewrite Hp.
  - f_equal. apply lower_median_perm. by rewrite Hp.
Qed.

(** An evaluator verdict does not depend on the order in which the runs of
    either side are listed. *)
Theorem evaluator_compare_perm p b1 b2 c1 c2 :
  b1 ≡ₚ b2 → c1 ≡ₚ c2 →
  evaluator_compare p (mkEvaluatorOutput b1) (mkEvaluatorOutput c1) =
  evaluator_compare p (mkEvaluatorOutput b2) (mkEvaluatorOutput c2).
Proof.
  intros Hb Hc. unfold evaluator_compare, evaluator_trends. cbn [eo_samples].
  assert (is_empty c1 = is_empty c2) as ->.
  { apply Permutation_length in Hc. by destruct c1, c2. }
  rewrite (output_findings_perm _ _ Hb), (output_findings_perm _ _ Hc).
  assert ((λ it, output_trend_for (mkEvaluatorOutput c1) (ri_id it) (aggregate p)) <$> rubric p =
          (λ it, output_trend_for (mkEvaluatorOutput c2) (ri_id it) (aggregate p)) <$> rubric p) as ->.
  { apply list_fmap_ext. intros i it _. by apply output_trend_for_perm. }
  done.
Qed.

(** ** Validation of the kinds *)

Lemma rubric_problems_nil seen items :
  rubric_problems seen items = [] ↔
  Forall (λ it, is_blank (ri_id it) = false ∧ is_blank (criterion it) = false) items ∧
  NoDup (ri_id <$> items) ∧ Forall (λ it, ri_id it ∉ seen) items.
Proof.
  revert seen; induction items as [|it items IH]; intros seen; simpl.
  - split; [|done]. intros _. repeat split; constructor.
  - rewrite !Forall_cons, NoDup_cons. split.
    + intros Hp. apply app_nil in Hp as [H1 [H2 H3]%app_nil].
      destruct (is_blank (ri_id it)), (is_blank (criterion it)); try done.
      case_bool_decide as Hin; [done|].
      apply IH in H3 as (Hb & Hnd & Hns). repeat split; try done.
      * intros (it' & Heq & Hit')%list_elem_of_fmap. rewrite Forall_forall in Hns.
        apply (Hns it' Hit'). set_solver.
      * eapply Forall_impl; [done|]. set_solver.
    + intros ([[H1 H2] Hb] & [Hni Hnd] & [Hns Hnss]). rewrite H1, H2. simpl.
      rewrite bool_decide_false by done. simpl. apply IH. repeat split; try done.
      rewrite Forall_forall in *. intros it' Hit' [Heq%elem_of_singleton|Hs]%elem_of_union.
      * apply Hni. rewrite <-Heq. apply list_elem_of_fmap. eauto.
      * by apply (Hnss it').
Qed.

Lemma evaluator_validate_nil p :
  evaluator_validate p = [] ↔
  (0 < ev_samples p)%N ∧ rubric p ≠ [] ∧
  Forall (λ it, is_blank (ri_id it) = false ∧ is_blank (criterion it) = false) (rubric p) ∧
  NoDup (ri_id <$> rubric p).
Proof.
  unfold evaluator_validate. rewrite !app_nil, rubric_problems_nil.
  destruct (N.eqb_spec (ev_samples p) 0) as [Hz|Hz].
  { split; [by intros []|lia]. }
  destruct (rubric p) as [|it items] eqn:Hr; simpl; [by split; intros (? & ? & ?)|].
  split.
  - intros (_ & _ & Hb & Hnd & _). repeat split; done || lia.
  - intros (_ & _ & Hb & Hnd). repeat split; try done. apply Forall_true. set_solver.
Qed.

(** ** Metrics *)

Definition trend_flip (t : Trend) : Trend :=
  match t with Worse => Better | Same => Same | Better => Worse end.

Lemma f64_between_negative t g :
  f64_ltb t g = true → f64_ltb g (f64_opp t) = true → f64_ltb t f64_zero = true.
Proof.
  unfold f64_ltb, SpecFloat.SFltb.
  destruct t as [[]|[]| |[] mt et], g as [[]|[]| |[] mg eg]; simpl; try done;
    repeat case_match; done.
Qed.

(** With a valid tolerance, exchanging baseline and candidate exchanges
    improvement and regression, for every pair of [f64] values, infinities and
    NaN included. *)
Theorem metric_compare_antisym p b c :
  kind_validate p = [] → metric_trend p c b = trend_flip (metric_trend p b c).
Proof.
  intros Hv. unfold metric_trend. set (tol := default f64_zero (tolerance p)).
  assert (f64_ltb tol f64_zero = false) as Htol.
  { unfold tol. simpl in Hv. apply app_nil in Hv as [_ Hv].
    destruct (tolerance p) as [t|]; simpl; [|done].
    destruct (f64_ltb t f64_zero); [|done]. by rewrite orb_true_r in Hv. }
  assert (f64_sim (metric_gain p c b) (f64_opp (metric_gain p b c))) as Hsim.
  { unfold metric_gain. destruct (direction p); apply f64_sub_antisym. }
  set (g := metric_gain p b c) in *. unfold f64_gtb.
  fold (f64_ltb tol (metric_gain p c b)). fold (f64_ltb tol g).
  rewrite (f64_ltb_sim tol tol _ _ (or_introl eq_refl) Hsim).
  rewrite (f64_ltb_sim _ _ (f64_opp tol) (f64_opp tol) Hsim (or_introl eq_refl)).
  rewrite f64_ltb_opp. rewrite <-(f64_opp_involutive tol) at 1. rewrite f64_ltb_opp.
  destruct (f64_ltb g (f64_opp tol)) eqn:Hlo, (f64_ltb tol g) eqn:Hhi; try done.
  exfalso. pose proof (f64_between_negative _ _ Hhi Hlo). congruence.
Qed.

Lemma metric_compare_antisym_witness :
  let p := mkMetricParams (lit "bench") Lower (Some (f64_of_Z 2)) in
  let b := mkMetricOutput (f64_of_Z 10) in
  let c := mkMetricOutput (f64_of_Z 5) in
  metric_trend p c b = trend_flip (metric_trend p b c) ∧ metric_trend p b c = Better.
Proof.
  split; [apply metric_compare_antisym|]; vm_compute; reflexivity.
Defined.

Lemma evaluator_compare_perm_witness :
  let p := mkEvaluatorParams [mkRubricItem (lit "clarity") (lit "reads well")] 2 Median in
  let r1 := mkEvaluatorSample [mkJudgement (lit "clarity") Better []] (mkFindings 0 1 2) in
  let r2 := mkEvaluatorSample [mkJudgement (lit "clarity") Worse []] (mkFindings 0 0 0) in
  evaluator_compare p (mkEvaluatorOutput [r1]) (mkEvaluatorOutput [r1; r2]) =
  evaluator_compare p (mkEvaluatorOutput [r1]) (mkEvaluatorOutput [r2; r1]).
Proof. apply evaluator_compare_perm; constructor. constructor. Defined.
