(* ===== verification/Objective.v ===== *)
(** * Objectives: definitions, validation, budgets, and the approved standard

    Models [crates/objective/src/definition.rs] and
    [crates/objective/src/standard.rs]. The canonical form is serialized by
    serde_json and hashed by the sha2 crate, which are not part of the
    repository: both are fields of the class [StandardDigest]. *)

From stdpp Require Import prelude gmap strings sorting.
From S2P Require Import Prelude Float64 Checks.

(** ** Definitions *)

Inductive Mode :=
| Converge
| Loop (plateau : N).

Inductive Role := Invariant | Ratchet | Goal.

#[export] Instance Role_eq_dec : EqDecision Role.
Proof. solve_decision. Defined.

Record CheckDefinition := mkCheckDefinition {
  check_id : str;
  role : Role;
  config : CheckConfig;
}.

Record Budget := mkBudget { b_turns : N; b_tokens : N; b_wall_secs : N }.

Record Usage := mkUsage { u_turns : N; context_tokens : N; elapsed_secs : N }.

#[export] Instance Usage_eq_dec : EqDecision Usage.
Proof. solve_decision. Defined.

Definition default_usage : Usage := mkUsage 0 0 0.

Inductive CompactPolicy := EverySettle | OnClose | Policy_None.

#[export] Instance CompactPolicy_eq_dec : EqDecision CompactPolicy.
Proof. solve_decision. Defined.

Record ObjectiveDefinition := mkObjectiveDefinition {
  key : str;
  title : str;
  mode : Mode;
  checks : list CheckDefinition;
  constraints : list str;
  budget : Budget;
  compact : CompactPolicy;
}.

(** [Budget::exhausted]: the limits [used] has reached, in order. *)
Definition exhausted (b : Budget) (used : Usage) : list BudgetLimit :=
  omap (λ p : BudgetLimit * bool, if p.2 then Some p.1 else None)
    [(BudgetLimit_Turns, b_turns b <=? u_turns used);
     (BudgetLimit_Tokens, b_tokens b <=? context_tokens used);
     (BudgetLimit_WallSecs, b_wall_secs b <=? elapsed_secs used)]%N.

(** [Usage::since]: saturating differences; subtraction on [N] saturates. *)
Definition since (u start : Usage) : Usage :=
  {| u_turns := u_turns u - u_turns start;
     context_tokens := context_tokens u - context_tokens start;
     elapsed_secs := elapsed_secs u - elapsed_secs start |}%N.

(** [ObjectiveDefinition::check]. *)
Definition check (d : ObjectiveDefinition) (id : str) : option CheckDefinition :=
  List.find (λ c, bool_decide (check_id c = id)) (checks d).

Definition has_role (d : ObjectiveDefinition) (r : Role) : bool :=
  existsb (λ c, bool_decide (role c = r)) (checks d).

(** The loop over the checks of [ObjectiveDefinition::validate]. *)
Fixpoint check_diagnostics (seen : gset str) (cs : list CheckDefinition) : list Diagnostic :=
  match cs with
  | [] => []
  | c :: rest =>
      let p := lit "checks." ++ check_id c in
      (if is_blank (check_id c) then [mkDiagnostic p EmptyCheckId] else []) ++
      (if bool_decide (check_id c ∈ seen) then [mkDiagnostic p DuplicateCheckId] else []) ++
      (mkDiagnostic p <$> config_validate (config c)) ++
      check_diagnostics ({[check_id c]} ∪ seen) rest
  end.

Definition mode_diagnostics (d : ObjectiveDefinition) : list Diagnostic :=
  match mode d with
  | Converge =>
      if negb (has_role d Goal) then [mkDiagnostic (lit "mode") ConvergeWithoutGoal] else []
  | Loop plateau =>
      (if negb (has_role d Ratchet) then [mkDiagnostic (lit "mode") LoopWithoutRatchet] else []) ++
      (if (plateau =? 0)%N then [mkDiagnostic (lit "mode.plateau") ZeroPlateau] else [])
  end.

Fixpoint constraint_diagnostics (index : N) (cs : list str) : list Diagnostic :=
  match cs with
  | [] => []
  | c :: rest =>
      (if is_blank c
       then [mkDiagnostic (lit "constraints." ++ show_N index) EmptyConstraint] else []) ++
      constraint_diagnostics (index + 1) rest
  end.

Definition budget_diagnostics (b : Budget) : list Diagnostic :=
  omap (λ p : BudgetLimit * str * bool,
          if p.2 then Some (mkDiagnostic p.1.2 (ZeroBudget p.1.1)) else None)
    [(BudgetLimit_Turns, lit "budget.turns", b_turns b =? 0);
     (BudgetLimit_Tokens, lit "budget.tokens", b_tokens b =? 0);
     (BudgetLimit_WallSecs, lit "budget.wall_secs", b_wall_secs b =? 0)]%N.

Definition validate (d : ObjectiveDefinition) : list Diagnostic :=
  (if is_blank (key d) then [mkDiagnostic (lit "key") EmptyKey] else []) ++
  (if is_blank (title d) then [mkDiagnostic (lit "title") EmptyTitle] else []) ++
  (if is_empty (checks d) then [mkDiagnostic (lit "checks") NoChecks] else []) ++
  check_diagnostics ∅ (checks d) ++
  mode_diagnostics d ++
  constraint_diagnostics 0 (constraints d) ++
  budget_diagnostics (budget d).

(** ** The standard *)

(** The approved part of a definition, in the order it is serialized. *)
Record Canonical := mkCanonical {
  can_version : N;
  can_key : str;
  can_mode : Mode;
  can_checks : list CheckDefinition;
  can_constraints : list str;
}.

Definition CANONICAL_VERSION : N := 1.

Definition canonical (d : ObjectiveDefinition) : Canonical :=
  {| can_version := CANONICAL_VERSION;
     can_key := key d;
     can_mode := mode d;
     can_checks := checks d;
     can_constraints := constraints d |}.

(** The two external functions: [serde_json::to_vec] on the canonical form and
    [Sha256::digest], over bytes below 256. *)
Class StandardDigest := {
  to_vec : Canonical → list N;
  sha256 : list N → list N;
}.

(** One lowercase hexadecimal digit, and [{byte:02x}]. *)
Definition hex_digit (n : N) : N := (if n <? 10 then 48 + n else 87 + n)%N.
Definition hex_byte (b : N) : str := [hex_digit (b / 16); hex_digit (b mod 16)]%N.

Definition standard_hash `{StandardDigest} (d : ObjectiveDefinition) : str :=
  lit "sha256:" ++ (sha256 (to_vec (canonical d)) ≫= hex_byte).

Record Approval := mkApproval { a_standard_hash : str; approver : str }.

(** [Approval::is_valid_for]. *)
Definition is_valid_for `{StandardDigest} (a : Approval) (d : ObjectiveDefinition) : bool :=
  bool_decide (a_standard_hash a = standard_hash d).

(** ** What validation accepts *)

Definition valid_config (c : CheckConfig) : Prop :=
  match c with
  | Config_Command p => is_blank (cmd_command p) = false
  | Config_Metric p =>
      is_blank (met_command p) = false ∧
      ∀ t, tolerance p = Some t → is_finite t = true ∧ f64_ltb t f64_zero = false
  | Config_Evaluator p =>
      (0 < ev_samples p)%N ∧ rubric p ≠ [] ∧
      Forall (λ it, is_blank (ri_id it) = false ∧ is_blank (criterion it) = false) (rubric p) ∧
      NoDup (ri_id <$> rubric p)
  | Config_Fact p => is_blank (subject p) = false
  end.

Definition valid_mode (d : ObjectiveDefinition) : Prop :=
  match mode d with
  | Converge => ∃ c, c ∈ checks d ∧ role c = Goal
  | Loop plateau => (∃ c, c ∈ checks d ∧ role c = Ratchet) ∧ (0 < plateau)%N
  end.

(** A definition a human could approve, stated without the diagnostics. *)
Record valid_definition (d : ObjectiveDefinition) : Prop := {
  vd_key : is_blank (key d) = false;
  vd_title : is_blank (title d) = false;
  vd_checks : checks d ≠ [];
  vd_ids : Forall (λ c, is_blank (check_id c) = false) (checks d);
  vd_unique : NoDup (check_id <$> checks d);
  vd_configs : Forall (λ c, valid_config (config c)) (checks d);
  vd_mode : valid_mode d;
  vd_constraints : Forall (λ c, is_blank c = false) (constraints d);
  vd_budget : (0 < b_turns (budget d) ∧ 0 < b_tokens (budget d) ∧ 0 < b_wall_secs (budget d))%N;
}.

Lemma config_validate_nil c : config_validate c = [] ↔ valid_config c.
Proof.
  destruct c as [p|p|p|p]; simpl.
  - by destruct (is_blank _).
  - rewrite app_nil. destruct (is_blank _); [by split; intros []|].
    destruct (tolerance p) as [t|]; [|by split; [intros _; split; [|intros ? [=]]|]].
    destruct (is_finite t) eqn:Hf, (f64_ltb t f64_zero) eqn:Hl; simpl; split;
      try (by intros [_ [=]]); try (by intros [_ Ht]; destruct (Ht t eq_refl); congruence).
    + intros _. split; [done|]. by intros ? [= <-].
    + by intros _.
  - apply evaluator_validate_nil.
  - by destruct (is_blank _).
Qed.

Lemma check_diagnostics_nil seen cs :
  check_diagnostics seen cs = [] ↔
  Forall (λ c, is_blank (check_id c) = false) cs ∧ NoDup (check_id <$> cs) ∧
  Forall (λ c, check_id c ∉ seen) cs ∧ Forall (λ c, valid_config (config c)) cs.
Proof.
  revert seen; induction cs as [|c cs IH]; intros seen; simpl.
  { split; [|done]. intros _. repeat split; constructor. }
  rewrite !app_nil, !Forall_cons, NoDup_cons, IH, fmap_nil_iff, config_validate_nil.
  split.
  - intros (Hb & Hs & Hv & Hbs & Hnd & Hns & Hvs).
    destruct (is_blank (check_id c)); [done|]. case_bool_decide; [done|].
    rewrite Forall_forall in Hns. repeat split; try done.
    + intros (c' & Heq & Hc')%list_elem_of_fmap. apply (Hns c' Hc'). set_solver.
    + apply Forall_forall. intros c' Hc'. specialize (Hns c' Hc'). set_solver.
  - intros ([Hb Hbs] & [Hni Hnd] & [Hns Hnss] & [Hv Hvs]).
    rewrite Hb, bool_decide_false by done. rewrite Forall_forall in Hnss.
    repeat split; try done. apply Forall_forall.
    intros c' Hc' [Heq%elem_of_singleton|Hs]%elem_of_union; [|by apply (Hnss c')].
    apply Hni. rewrite <-Heq. apply list_elem_of_fmap. eauto.
Qed.

Lemma constraint_diagnostics_nil i cs :
  constraint_diagnostics i cs = [] ↔ Forall (λ c, is_blank c = false) cs.
Proof.
  revert i; induction cs as [|c cs IH]; intros i; simpl; [done|].
  rewrite app_nil, Forall_cons, IH. by destruct (is_blank c); split; intros [].
Qed.

Lemma budget_diagnostics_nil b :
  budget_diagnostics b = [] ↔
  (0 < b_turns b ∧ 0 < b_tokens b ∧ 0 < b_wall_secs b)%N.
Proof.
  unfold budget_diagnostics; simpl.
  destruct (N.eqb_spec (b_turns b) 0), (N.eqb_spec (b_tokens b) 0),
    (N.eqb_spec (b_wall_secs b) 0); simpl; split; done || lia.
Qed.

Lemma has_role_spec d r : has_role d r = true ↔ ∃ c, c ∈ checks d ∧ role c = r.
Proof.
  unfold has_role. rewrite existsb_exists. setoid_rewrite bool_decide_eq_true.
  by setoid_rewrite list_elem_of_In.
Qed.

Lemma mode_diagnostics_nil d : mode_diagnostics d = [] ↔ valid_mode d.
Proof.
  unfold mode_diagnostics, valid_mode. destruct (mode d) as [|p].
  - rewrite <-has_role_spec. by destruct (has_role d Goal).
  - rewrite app_nil, <-has_role_spec.
    destruct (has_role d Ratchet), (N.eqb_spec p 0); simpl; split; intros []; done || lia.
Qed.

(** Validation reports no diagnostic exactly for well-formed definitions:
    non-blank texts, at least one check, non-blank distinct check ids, valid kind
    parameters, a goal to converge to or a ratchet and a positive plateau to loop
    on, no blank constraint and positive budgets. *)
Lemma validate_nil_iff d : validate d = [] ↔ valid_definition d.
Proof.
  unfold validate.
  rewrite !app_nil, check_diagnostics_nil, mode_diagnostics_nil,
    constraint_diagnostics_nil, budget_diagnostics_nil.
  split.
  - intros (Hk & Ht & Hc & (Hi & Hu & _ & Hv) & Hm & Hn & Hb). constructor; try done.
    + by destruct (is_blank (key d)).
    + by destruct (is_blank (title d)).
    + by destruct (checks d).
  - intros [Hk Ht Hc Hi Hu Hv Hm Hn Hb]. rewrite Hk, Ht. repeat split; try done.
    + by destruct (checks d).
    + apply Forall_true. set_solver.
    + apply Hb.
    + apply Hb.
    + apply Hb.
Qed.

(** ** Lookups by check id *)

Lemma check_Some d id c : check d id = Some c → c ∈ checks d ∧ check_id c = id.
Proof.
  unfold check. intros Hf. apply List.find_some in Hf as [Hin Hid].
  rewrite list_elem_of_In. by apply bool_decide_eq_true in Hid.
Qed.

Lemma check_In d c :
  NoDup (check_id <$> checks d) → c ∈ checks d → check d (check_id c) = Some c.
Proof.
  unfold check. induction (checks d) as [|c' cs IH]; simpl; [by intros _ ?%not_elem_of_nil|].
  intros [Hni Hnd]%NoDup_cons [->|Hin]%elem_of_cons.
  - by rewrite bool_decide_true.
  - rewrite bool_decide_false; [by auto|]. intros Heq. apply Hni. rewrite Heq.
    apply list_elem_of_fmap. eauto.
Qed.

Lemma check_None d id : check d id = None ↔ id ∉ check_id <$> checks d.
Proof.
  unfold check. split.
  - intros Hf (c & -> & Hin)%list_elem_of_fmap.
    apply list_elem_of_In in Hin. apply (List.find_none _ _ Hf) in Hin.
    by apply bool_decide_eq_false in Hin.
  - intros Hni. destruct (List.find _ _) as [c|] eqn:Hf; [|done].
    apply List.find_some in Hf as [Hin Hid%bool_decide_eq_true].
    destruct Hni. apply list_elem_of_fmap. exists c. by rewrite list_elem_of_In.
Qed.

Lemma valid_config_samples c : valid_config c → (0 < samples c)%N.
Proof. destruct c; simpl; [lia|lia|by intros []|lia]. Qed.

(** ** Budgets *)

(** A limit is reported exactly when its usage has reached it. *)
Lemma elem_of_exhausted b u l :
  l ∈ exhausted b u ↔
  match l with
  | BudgetLimit_Turns => (b_turns b <= u_turns u)%N
  | BudgetLimit_Tokens => (b_tokens b <= context_tokens u)%N
  | BudgetLimit_WallSecs => (b_wall_secs b <= elapsed_secs u)%N
  end.
Proof.
  unfold exhausted; simpl.
  destruct (N.leb_spec (b_turns b) (u_turns u)),
    (N.leb_spec (b_tokens b) (context_tokens u)),
    (N.leb_spec (b_wall_secs b) (elapsed_secs u)), l; simpl;
    rewrite ?elem_of_cons, ?elem_of_nil; split;
    try lia; try (by auto); intros Hin; repeat destruct Hin as [Hin|Hin]; try done; lia.
Qed.

Lemma exhausted_NoDup b u : NoDup (exhausted b u).
Proof.
  unfold exhausted; simpl.
  destruct (_ <=? _)%N, (_ <=? _)%N, (_ <=? _)%N; simpl;
    repeat constructor; set_solver.
Qed.
