(* ===== verification/Verdicts.v ===== *)
(** * Verdicts: whether a candidate revision may be kept

    Models [crates/objective/src/verdict.rs]. *)

From stdpp Require Import prelude gmap strings.
From S2P Require Import Prelude Checks Objective.

(** One evaluation's results, by check: [BTreeMap<CheckId, CheckOutput>]. *)
Abbreviation Results := (gmap str CheckOutput).

Inductive VerdictKind :=
| VerdictKind_Regression
| VerdictKind_Discard
| VerdictKind_Keepable
| VerdictKind_Done.

#[export] Instance VerdictKind_eq_dec : EqDecision VerdictKind.
Proof. solve_decision. Defined.

Inductive Finding :=
| Finding_Compared (c : Comparison)
| Finding_NoBaseline (c : Comparison)
| Finding_Missing
| Finding_KindMismatch.

Definition finding_comparison (f : Finding) : option Comparison :=
  match f with
  | Finding_Compared c | Finding_NoBaseline c => Some c
  | Finding_Missing | Finding_KindMismatch => None
  end.

Definition finding_passed (f : Finding) : bool :=
  match finding_comparison f with Some c => passed c | None => false end.

Definition finding_trend (f : Finding) : option Trend :=
  match f with
  | Finding_Compared c => Some (trend c)
  | Finding_NoBaseline _ | Finding_Missing | Finding_KindMismatch => None
  end.

Record CheckReason := mkCheckReason {
  cr_check : str;
  cr_role : Role;
  cr_finding : Finding;
  cr_regresses : bool;
}.

(** [CheckReason::is_open_blocker]. *)
Definition is_open_blocker (r : CheckReason) : bool :=
  cr_regresses r
  || (bool_decide (cr_role r = Goal) && negb (finding_passed (cr_finding r))).

Record Verdict := mkVerdict { kind : VerdictKind; reasons : list CheckReason }.

Definition refuses_keep (v : Verdict) : bool :=
  bool_decide (kind v = VerdictKind_Regression).

Definition reasons_improved (rs : list CheckReason) : bool :=
  existsb (λ r, bool_decide (finding_trend (cr_finding r) = Some Better)) rs.

Definition improved (v : Verdict) : bool := reasons_improved (reasons v).

Definition open_blockers (v : Verdict) : list CheckReason :=
  List.filter is_open_blocker (reasons v).

(** [finding]: the candidate against the baseline, or on its own. *)
Definition finding (c : CheckDefinition) (baseline candidate : Results) : Finding :=
  match candidate !! check_id c with
  | None => Finding_Missing
  | Some cand =>
      match baseline !! check_id c with
      | Some base =>
          match compare (config c) base cand with
          | Ok r => Finding_Compared r
          | Err _ => Finding_KindMismatch
          end
      | None =>
          match compare (config c) cand cand with
          | Ok r => Finding_NoBaseline r
          | Err _ => Finding_KindMismatch
          end
      end
  end.

Definition regresses (r : Role) (f : Finding) : bool :=
  match r with
  | Invariant => negb (finding_passed f)
  | Ratchet =>
      match finding_comparison f with
      | Some c =>
          match f with Finding_Compared _ => true | _ => false end
          && bool_decide (trend c = Worse)
      | None => true
      end
  | Goal => false
  end.

Definition reason (baseline candidate : Results) (c : CheckDefinition) : CheckReason :=
  let f := finding c baseline candidate in
  {| cr_check := check_id c;
     cr_role := role c;
     cr_finding := f;
     cr_regresses := regresses (role c) f |}.

Definition goals_pass (rs : list CheckReason) : bool :=
  let goals := List.filter (λ r, bool_decide (cr_role r = Goal)) rs in
  negb (is_empty goals) && forallb (λ r, finding_passed (cr_finding r)) goals.

Definition comparable (rs : list CheckReason) : bool :=
  existsb (λ r, bool_decide (is_Some (finding_trend (cr_finding r)))) rs.

(** [keepable]: judges [candidate] against [baseline] for an objective. *)
Definition keepable (d : ObjectiveDefinition) (baseline candidate : Results) : Verdict :=
  let rs := reason baseline candidate <$> checks d in
  let k :=
    if existsb cr_regresses rs then VerdictKind_Regression
    else
      match mode d with
      | Converge => if goals_pass rs then VerdictKind_Done else VerdictKind_Keepable
      | Loop _ =>
          if comparable rs && negb (reasons_improved rs)
          then VerdictKind_Discard else VerdictKind_Keepable
      end in
  {| kind := k; reasons := rs |}.

(** ** Specification

    What the documentation of [keepable] promises, check by check and without
    the intermediate findings. *)
Section spec.
Context (d : ObjectiveDefinition) (baseline candidate : Results).

(** The candidate's result for [c] and how it compares; a check without a
    baseline result is compared with itself. *)
Definition judged (c : CheckDefinition) (r : Comparison) : Prop :=
  ∃ cand, candidate !! check_id c = Some cand ∧
          compare (config c) (default cand (baseline !! check_id c)) cand = Ok r.

Definition check_passes (c : CheckDefinition) : Prop := ∃ r, judged c r ∧ passed r = true.

Definition against_baseline (c : CheckDefinition) (t : Trend) : Prop :=
  is_Some (baseline !! check_id c) ∧ ∃ r, judged c r ∧ trend r = t.

(** One check alone makes the candidate a regression. *)
Definition check_regresses (c : CheckDefinition) : Prop :=
  match role c with
  | Invariant => ¬ check_passes c
  | Ratchet => against_baseline c Worse ∨ ¬ ∃ r, judged c r
  | Goal => False
  end.

Definition verdict_spec (k : VerdictKind) : Prop :=
  match k with
  | VerdictKind_Regression => ∃ c, c ∈ checks d ∧ check_regresses c
  | VerdictKind_Done =>
      (∀ c, c ∈ checks d → ¬ check_regresses c) ∧ mode d = Converge ∧
      (∃ c, c ∈ checks d ∧ role c = Goal) ∧
      (∀ c, c ∈ checks d → role c = Goal → check_passes c)
  | VerdictKind_Discard =>
      (∀ c, c ∈ checks d → ¬ check_regresses c) ∧ (∃ p, mode d = Loop p) ∧
      (∃ c t, c ∈ checks d ∧ against_baseline c t) ∧
      (∀ c, c ∈ checks d → ¬ against_baseline c Better)
  | VerdictKind_Keepable =>
      (∀ c, c ∈ checks d → ¬ check_regresses c) ∧
      match mode d with
      | Converge =>
          ¬ ((∃ c, c ∈ checks d ∧ role c = Goal) ∧
             (∀ c, c ∈ checks d → role c = Goal → check_passes c))
      | Loop _ =>
          (∀ c t, c ∈ checks d → ¬ against_baseline c t) ∨
          (∃ c, c ∈ checks d ∧ against_baseline c Better)
      end
  end.

Lemma finding_comparison_spec c r :
  finding_comparison (finding c baseline candidate) = Some r ↔ judged c r.
Proof.
  unfold finding, judged.
  destruct (candidate !! check_id c) as [cand|]; [|by split; [|intros (? & [=] & _)]].
  transitivity (compare (config c) (default cand (baseline !! check_id c)) cand = Ok r).
  - destruct (baseline !! check_id c) as [base|]; simpl;
      destruct (compare _ _ cand) eqn:E; simpl; split; congruence.
  - split; [by eauto|]. by intros (? & [= <-] & ?).
Qed.

Lemma finding_passed_spec c : finding_passed (finding c baseline candidate) = true ↔ check_passes c.
Proof.
  unfold check_passes. setoid_rewrite <-finding_comparison_spec. unfold finding_passed.
  destruct (finding_comparison _) as [r|]; split; [by eauto| |done|].
  - by intros (? & [= <-] & ?).
  - by intros (? & [=] & _).
Qed.

Lemma finding_trend_spec c t :
  finding_trend (finding c baseline candidate) = Some t ↔ against_baseline c t.
Proof.
  unfold against_baseline, judged, finding.
  destruct (candidate !! check_id c) as [cand|]; [|by split; [|intros (_ & ? & (? & [=] & _) & _)]].
  destruct (baseline !! check_id c) as [base|] eqn:Hb; simpl.
  - split.
    + destruct (compare _ _ _) as [r|] eqn:E; simpl; [|done]. intros [= <-].
      split; [by eauto|]. exists r. eauto.
    + intros (_ & r & (? & [= <-] & ->) & <-). done.
  - split; [by destruct (compare _ _ _)|]. by intros [[? [=]] _].
Qed.

Lemma regresses_spec c :
  regresses (role c) (finding c baseline candidate) = true ↔ check_regresses c.
Proof.
  unfold check_regresses, regresses. destruct (role c); [| |done].
  - rewrite negb_true_iff, <-not_true_iff_false. by rewrite finding_passed_spec.
  - rewrite <-finding_trend_spec. setoid_rewrite <-finding_comparison_spec.
    destruct (finding c baseline candidate) as [r|r| |]; simpl.
    + rewrite bool_decide_eq_true. split; [by intros ->; auto|].
      intros [[= ->]|[]]; [done|by eauto].
    + split; [done|]. intros [[=]|[]]; by eauto.
    + split; [intros _; right; by intros [? [=]]|done].
    + split; [intros _; right; by intros [? [=]]|done].
Qed.

Let rs := reason baseline candidate <$> checks d.

Lemma existsb_regresses :
  existsb cr_regresses rs = true ↔ ∃ c, c ∈ checks d ∧ check_regresses c.
Proof. apply existsb_fmap. intros c. apply regresses_spec. Qed.

Lemma existsb_improved :
  reasons_improved rs = true ↔ ∃ c, c ∈ checks d ∧ against_baseline c Better.
Proof.
  apply existsb_fmap. intros c. by rewrite bool_decide_eq_true, <-finding_trend_spec.
Qed.

Lemma existsb_comparable :
  comparable rs = true ↔ ∃ c, c ∈ checks d ∧ ∃ t, against_baseline c t.
Proof.
  apply existsb_fmap. intros c. rewrite bool_decide_eq_true.
  setoid_rewrite <-finding_trend_spec. done.
Qed.

Lemma goals_pass_spec :
  goals_pass rs = true ↔
  (∃ c, c ∈ checks d ∧ role c = Goal) ∧
  (∀ c, c ∈ checks d → role c = Goal → check_passes c).
Proof.
  unfold goals_pass. set (p := λ r, bool_decide (cr_role r = Goal)).
  rewrite andb_true_iff, forallb_forall. setoid_rewrite List.filter_In.
  setoid_rewrite <-list_elem_of_In. f_equiv.
  - rewrite negb_true_iff. transitivity (existsb p rs = true).
    + induction rs as [|r l IH]; simpl; [done|]. by destruct (p r).
    + apply existsb_fmap. intros c. apply bool_decide_eq_true.
  - unfold rs. setoid_rewrite list_elem_of_fmap. unfold p. setoid_rewrite bool_decide_eq_true.
    split.
    + intros Hall c Hc Hr. rewrite <-finding_passed_spec.
      apply (Hall (reason baseline candidate c)). eauto.
    + intros Hall r [(c & -> & Hc) Hr]. apply finding_passed_spec. by apply Hall.
Qed.

Lemma keepable_sound : verdict_spec (kind (keepable d baseline candidate)).
Proof.
  unfold keepable. fold rs. simpl.
  destruct (existsb cr_regresses rs) eqn:Hr; simpl; [by apply existsb_regresses|].
  rewrite <-not_true_iff_false, existsb_regresses in Hr.
  assert (∀ c, c ∈ checks d → ¬ check_regresses c) as Hno by naive_solver.
  destruct (mode d) as [|p] eqn:Hm.
  - destruct (goals_pass rs) eqn:Hg; simpl; rewrite ?Hm.
    + apply goals_pass_spec in Hg as []. done.
    + rewrite <-not_true_iff_false, goals_pass_spec in Hg. done.
  - destruct (comparable rs) eqn:Hc; simpl.
    + apply existsb_comparable in Hc as (c & Hc & t & Ht).
      destruct (reasons_improved rs) eqn:Hi; simpl; rewrite ?Hm.
      * split; [done|]. right. by apply existsb_improved.
      * rewrite <-not_true_iff_false, existsb_improved in Hi. split; [done|].
        split; [by eauto|]. split; [by eauto|]. intros c' ? ?. apply Hi. eauto.
    + rewrite Hm. rewrite <-not_true_iff_false, existsb_comparable in Hc.
      split; [done|]. left. intros c t ? ?. apply Hc. eauto.
Qed.

End spec.

Lemma verdict_spec_functional d b c k1 k2 :
  verdict_spec d b c k1 → verdict_spec d b c k2 → k1 = k2.
Proof.
  assert (∀ Q : Prop, verdict_spec d b c VerdictKind_Regression →
            (∀ c', c' ∈ checks d → ¬ check_regresses b c c') ∧ Q → False) as Hreg.
  { intros Q (c' & Hc & Hr) [Hno _]. by apply (Hno c'). }
  assert (verdict_spec d b c VerdictKind_Done → verdict_spec d b c VerdictKind_Discard → False).
  { intros (_ & Hm & _) (_ & [p Hp] & _). congruence. }
  assert (verdict_spec d b c VerdictKind_Done → verdict_spec d b c VerdictKind_Keepable → False).
  { intros (_ & Hm & Hg) [_ Hk]. rewrite Hm in Hk. by apply Hk. }
  assert (verdict_spec d b c VerdictKind_Discard → verdict_spec d b c VerdictKind_Keepable → False).
  { intros (_ & [p Hp] & (c' & t & Hc & Ht) & Hnb) [_ Hk]. rewrite Hp in Hk.
    destruct Hk as [Hk|(c'' & Hc'' & Hb)]; [by apply (Hk c' t)|by apply (Hnb c'')]. }
  destruct k1, k2; intros Hk1 Hk2; try done; exfalso; eauto.
Qed.

(** The verdict kind is exactly the documented one: a regression when an
    invariant does not pass or a ratchet got worse or cannot be compared;
    otherwise done when converging with every goal passing, discard when looping
    with a comparable baseline and no improvement, and keepable in every other
    case. *)
Theorem keepable_iff d baseline candidate k :
  kind (keepable d baseline candidate) = k ↔ verdict_spec d baseline candidate k.
Proof.
  split; [intros <-; apply keepable_sound|].
  apply verdict_spec_functional, keepable_sound.
Qed.

(** ** Complete results *)

(** Every check of [d] has a candidate result of its kind, and every baseline
    result it meets is of its kind. *)
Definition results_complete (d : ObjectiveDefinition) (r : Results) : Prop :=
  ∀ c, c ∈ checks d → ∃ o, r !! check_id c = Some o ∧ output_of_kind (config c) o = true.

Definition results_of_kind (d : ObjectiveDefinition) (r : Results) : Prop :=
  ∀ id o, r !! id = Some o → ∃ c, check d id = Some c ∧ output_of_kind (config c) o = true.

(** A reason that rests on a comparison. *)
Definition judged_reason (r : CheckReason) : bool :=
  match cr_finding r with Finding_Compared _ | Finding_NoBaseline _ => true | _ => false end.

Lemma keepable_judged d baseline candidate :
  NoDup (check_id <$> checks d) →
  results_of_kind d baseline → results_complete d candidate →
  Forall (λ r, judged_reason r = true) (reasons (keepable d baseline candidate)).
Proof.
  intros Hnd Hb Hc. apply Forall_fmap, Forall_forall. intros c Hin.
  unfold judged_reason, reason, finding; simpl.
  destruct (Hc c Hin) as (o & -> & Ho).
  destruct (baseline !! check_id c) as [base|] eqn:E.
  - destruct (Hb _ _ E) as (c' & Hc' & Hk). rewrite check_In in Hc' by done. simplify_eq.
    by destruct (proj2 (compare_is_Ok (config c') base o) (conj Hk Ho)) as [r ->].
  - by destruct (proj2 (compare_is_Ok (config c) o o) (conj Ho Ho)) as [r ->].
Qed.
