(* ===== verification/Ledgers.v ===== *)
(** * Ledgers: the baseline and the settled evaluations of one objective

    Models [crates/objective/src/ledger.rs]. *)

From stdpp Require Import prelude gmap strings.
From S2P Require Import Prelude Checks Objective Verdicts.

Record Baseline := mkBaseline { bl_revision : str; bl_results : Results }.

(** [Decision] in the source; the name is taken by the decidability class. *)
Inductive LedgerDecision :=
| Decision_Keep
| Decision_Discard
| Decision_Done.

#[export] Instance LedgerDecision_eq_dec : EqDecision LedgerDecision.
Proof. solve_decision. Defined.

Record LedgerEntry := mkLedgerEntry {
  le_revision : str;
  le_results : Results;
  le_decision : LedgerDecision;
  le_note : str;
}.

Inductive SettleError := RegressionRefused | NotDone.

Record Ledger := mkLedger {
  baseline : option Baseline;
  entries : list LedgerEntry;
  plateau : N;
}.

Definition default_ledger : Ledger := mkLedger None [] 0.

Definition baseline_results (l : Ledger) : option Results := bl_results <$> baseline l.

(** The predicate of [retain_comparable]: the check has the same configuration
    before and after. *)
Definition same_config (previous next : ObjectiveDefinition) (id : str) : bool :=
  match check previous id, check next id with
  | Some before, Some after => config_eqb (config before) (config after)
  | _, _ => false
  end.

Definition retain_comparable (l : Ledger) (previous next : ObjectiveDefinition) : Ledger :=
  match baseline l with
  | None => l
  | Some b =>
      {| baseline := Some {| bl_revision := bl_revision b;
                             bl_results :=
                               filter (λ p, same_config previous next p.1 = true) (bl_results b) |};
         entries := entries l;
         plateau := plateau l |}
  end.

(** [Ledger::settle]: the guards in source order, then the recorded settle. *)
Definition settle_refusal (decision : LedgerDecision) (v : Verdict) : option SettleError :=
  match decision with
  | Decision_Keep => if refuses_keep v then Some RegressionRefused else None
  | Decision_Done =>
      if refuses_keep v then Some RegressionRefused
      else if bool_decide (kind v ≠ VerdictKind_Done) then Some NotDone else None
  | Decision_Discard => None
  end.

Definition record_settle (l : Ledger) (e : LedgerEntry) (v : Verdict) : Ledger :=
  let adopts := bool_decide (le_decision e ≠ Decision_Discard) in
  let progressed :=
    adopts && (match baseline l with None => true | Some _ => false end || improved v) in
  {| baseline :=
       if adopts then Some {| bl_revision := le_revision e; bl_results := le_results e |}
       else baseline l;
     entries := entries l ++ [e];
     plateau := if progressed then 0 else u32_succ (plateau l) |}.

Definition ledger_settle (l : Ledger) (e : LedgerEntry) (v : Verdict) : result Ledger SettleError :=
  match settle_refusal (le_decision e) v with
  | Some err => Err err
  | None => Ok (record_settle l e v)
  end.

Definition plateau_reached (l : Ledger) (m : Mode) : bool :=
  match m with
  | Loop p => (p <=? plateau l)%N
  | Converge => false
  end.

(** ** Well-formed ledgers *)

(** The last entry that adopted its revision. *)
Definition adopts (e : LedgerEntry) : Prop := le_decision e ≠ Decision_Discard.

#[export] Instance adopts_dec e : Decision (adopts e).
Proof. unfold adopts. apply _. Defined.

Definition last_adopted (es : list LedgerEntry) : option LedgerEntry := last (filter adopts es).

Record ledger_ok (l : Ledger) : Prop := {
  (** the baseline is the last adopted revision, with some of its results *)
  lok_baseline :
    match baseline l with
    | None => filter adopts (entries l) = []
    | Some b => ∃ e, last_adopted (entries l) = Some e ∧
                     bl_revision b = le_revision e ∧ bl_results b ⊆ le_results e
    end;
  (** only the last settle can be a done settle *)
  lok_done : Forall (λ e, le_decision e ≠ Decision_Done) (removelast (entries l));
}.

Lemma ledger_settle_Ok l e v l' :
  ledger_settle l e v = Ok l' →
  settle_refusal (le_decision e) v = None ∧ l' = record_settle l e v.
Proof. unfold ledger_settle. destruct (settle_refusal _ v); by intros [= <-]. Qed.

(** A settle that adopts a revision was not a regression, and a
    done settle had a done verdict. *)
Lemma settle_refusal_None decision v :
  settle_refusal decision v = None ↔
  (decision ≠ Decision_Discard → kind v ≠ VerdictKind_Regression) ∧
  (decision = Decision_Done → kind v = VerdictKind_Done).
Proof.
  unfold settle_refusal, refuses_keep. destruct decision.
  - case_bool_decide; naive_solver.
  - naive_solver.
  - repeat case_bool_decide; naive_solver.
Qed.

Lemma default_ledger_ok : ledger_ok default_ledger.
Proof. split; [done|constructor]. Qed.

Lemma record_settle_ok l e v :
  ledger_ok l → Forall (λ e, le_decision e ≠ Decision_Done) (entries l) →
  ledger_ok (record_settle l e v).
Proof.
  intros [Hb Hd] Hnd. split; simpl.
  - unfold last_adopted in *. rewrite filter_app. case_bool_decide as Ha.
    + exists e. by rewrite filter_cons_True, filter_nil, last_snoc.
    + rewrite filter_cons_False, filter_nil, app_nil_r by (intros Hn; by apply Hn). done.
  - by rewrite removelast_last.
Qed.

Lemma retain_comparable_ok l p n : ledger_ok l → ledger_ok (retain_comparable l p n).
Proof.
  intros [Hb Hd]. unfold retain_comparable.
  destruct (baseline l) as [b|] eqn:E; [|by split; [rewrite E|]].
  split; simpl; [|done]. destruct Hb as (e & He & Hr & Hs). exists e. repeat split; try done.
  etrans; [apply map_filter_subseteq|done].
Qed.

(** [retain_comparable] keeps exactly the baseline results whose check has the
    same configuration in both definitions. *)
Lemma retain_comparable_lookup l p n b :
  baseline l = Some b →
  ∃ b', baseline (retain_comparable l p n) = Some b' ∧ bl_revision b' = bl_revision b ∧
        ∀ id, bl_results b' !! id =
              if same_config p n id then bl_results b !! id else None.
Proof.
  intros E. unfold retain_comparable. rewrite E. eexists. split; [done|]. split; [done|].
  intros id; simpl. destruct (same_config p n id) eqn:Hs.
  - destruct (bl_results b !! id) as [o|] eqn:Ho.
    + by apply map_lookup_filter_Some.
    + apply map_lookup_filter_None. by left.
  - apply map_lookup_filter_None. right. intros o _; simpl. congruence.
Qed.

(** Baseline results stay of their check's kind when the definition changes. *)
Lemma retain_comparable_of_kind l p n r :
  (∀ r0, baseline_results l = Some r0 → results_of_kind p r0) →
  baseline_results (retain_comparable l p n) = Some r → results_of_kind n r.
Proof.
  unfold baseline_results. intros Hk Hr.
  destruct (baseline l) as [b|] eqn:E.
  2: { unfold retain_comparable in Hr. by rewrite E, E in Hr. }
  destruct (retain_comparable_lookup l p n b E) as (b' & Hb' & _ & Hl).
  rewrite Hb' in Hr. simplify_eq/=. intros id o. rewrite Hl.
  destruct (same_config p n id) eqn:Hs; [|done]. intros Ho.
  destruct (Hk _ eq_refl id o Ho) as (c & Hc & Hko).
  unfold same_config in Hs. rewrite Hc in Hs. destruct (check n id) as [c'|]; [|done].
  exists c'. split; [done|]. by rewrite <-(config_eqb_of_kind _ _ _ Hs).
Qed.
