(* ===== verification/Commands.v ===== *)
(** * Commands the engine asks the host to execute, and their admission

    Models [crates/objective/src/command.rs]. The Rust trait [Command] is the
    class [Command]; [Compact] is its instance in the crate. *)

From stdpp Require Import prelude gmap strings pretty.
From S2P Require Import Prelude Checks Objective Verdicts Ledgers.

Inductive Authority := OwnSession | Workspace | External.

#[export] Instance Authority_eq_dec : EqDecision Authority.
Proof. solve_decision. Defined.

Definition requires_user_approval (a : Authority) : bool := bool_decide (a = External).

Record HostState := mkHostState { idle : bool; queue_len : N }.

Inductive DeferReason := HostBusy | QueueNotEmpty.
Inductive RefuseReason := UserApprovalRequired.

Inductive Admission :=
| Admission_Ready
| Admission_Defer (r : DeferReason)
| Admission_Refuse (r : RefuseReason).

Class Command (C : Type) := {
  command_NAME : str;
  command_authority : Authority;
  command_admission : C → HostState → Admission;
  command_idempotency_key : C → str;
}.

(** [admit]: external authority is refused until the user has approved. *)
Definition admit_command {C} `{Command C} (c : C) (host : HostState) (user_approved : bool) : Admission :=
  if requires_user_approval command_authority && negb user_approved
  then Admission_Refuse UserApprovalRequired
  else command_admission c host.

(** ** Briefs *)
Record EntryBrief := mkEntryBrief {
  eb_revision : str;
  eb_decision : LedgerDecision;
  eb_note : str;
}.

Record ObjectiveBrief := mkObjectiveBrief {
  ob_key : str;
  ob_title : str;
  ob_standard_hash : str;
  ob_mode : Mode;
  ob_checks : list CheckDefinition;
  ob_constraints : list str;
  ob_baseline : option str;
  ob_ledger : list EntryBrief;
  ob_open_blockers : list str;
}.

Definition entry_brief (e : LedgerEntry) : EntryBrief :=
  mkEntryBrief (le_revision e) (le_decision e) (le_note e).

(** [ObjectiveBrief::new]. *)
Definition objective_brief `{StandardDigest}
    (d : ObjectiveDefinition) (l : Ledger) (latest : option Verdict) : ObjectiveBrief :=
  {| ob_key := key d;
     ob_title := title d;
     ob_standard_hash := standard_hash d;
     ob_mode := mode d;
     ob_checks := checks d;
     ob_constraints := constraints d;
     ob_baseline := bl_revision <$> baseline l;
     ob_ledger := entry_brief <$> entries l;
     ob_open_blockers :=
       match latest with Some v => cr_check <$> open_blockers v | None => [] end |}.

(** ** Compaction *)
Record Compact := mkCompact { sequence : N; brief : list ObjectiveBrief }.

#[export] Instance Compact_Command : Command Compact := {|
  command_NAME := lit "compact";
  command_authority := OwnSession;
  command_admission _ host :=
    if negb (idle host) then Admission_Defer HostBusy
    else if (0 <? queue_len host)%N then Admission_Defer QueueNotEmpty
    else Admission_Ready;
  command_idempotency_key c := lit "compact" ++ lit ":" ++ show_N (sequence c)
|}.

Inductive CommandCall := CommandCall_Compact (c : Compact).

Definition call_name (c : CommandCall) : str :=
  match c with CommandCall_Compact _ => command_NAME (Command := Compact_Command) end.
Definition call_authority (c : CommandCall) : Authority :=
  match c with CommandCall_Compact _ => command_authority (Command := Compact_Command) end.
Definition call_idempotency_key (c : CommandCall) : str :=
  match c with CommandCall_Compact k => command_idempotency_key k end.

(** ** Facts *)

Lemma lit_inj s t : lit s = lit t → s = t.
Proof.
  unfold lit. revert t. induction s as [|a s IH]; intros [|b t]; simpl; try done.
  intros [= Hab Hst%IH]. subst t. f_equal.
  by rewrite <-(Ascii.ascii_N_embedding a), <-(Ascii.ascii_N_embedding b), Hab.
Qed.

Lemma show_N_inj n m : show_N n = show_N m → n = m.
Proof. unfold show_N. intros Hs%lit_inj. by apply (inj pretty). Qed.

(** Distinct sequence numbers give distinct idempotency keys. *)
Lemma call_idempotency_key_inj c c' :
  call_idempotency_key c = call_idempotency_key c' →
  match c, c' with CommandCall_Compact k, CommandCall_Compact k' => sequence k = sequence k' end.
Proof. destruct c as [k], c' as [k']. simpl. intros [= Hk]. by apply show_N_inj. Qed.

Lemma admit_compact_Ready c host approved :
  admit_command (C := Compact) c host approved = Admission_Ready ↔
  idle host = true ∧ queue_len host = 0%N.
Proof.
  unfold admit_command. simpl. destruct (idle host); simpl; [|by split; [|intros []]].
  destruct (N.ltb_spec 0 (queue_len host)); split; try done; [intros []|]; lia.
Qed.

(** A command with external authority is never admitted or deferred before
    the user has approved it, whatever its own admission says; every other
    command is admitted as it says itself. *)
Lemma admit_external {C} `{Command C} (c : C) host approved :
  admit_command c host approved =
  if decide (command_authority (C := C) = External ∧ approved = false)
  then Admission_Refuse UserApprovalRequired else command_admission c host.
Proof.
  unfold admit_command, requires_user_approval.
  destruct approved; repeat case_decide; case_bool_decide; simpl; naive_solver.
Qed.

(** What survives a compaction is a function of the definition, the kept
    revision, the settled entries' revision, decision and note, and the blockers of
    the latest verdict: check outputs cannot reach the brief. *)
Lemma brief_noninterference `{StandardDigest} d l1 l2 v1 v2 :
  bl_revision <$> baseline l1 = bl_revision <$> baseline l2 →
  entry_brief <$> entries l1 = entry_brief <$> entries l2 →
  fmap cr_check <$> (open_blockers <$> v1) = fmap cr_check <$> (open_blockers <$> v2) →
  objective_brief d l1 v1 = objective_brief d l2 v2.
Proof.
  intros Hb He Hv. unfold objective_brief. rewrite Hb, He. f_equal.
  destruct v1, v2; simpl in *; congruence.
Qed.
