(* ===== verification/Engine.v ===== *)
(** * The objective engine: state, events, reducer and trigger rules

    Models [crates/objective/src/engine/] (mod.rs, event.rs, reduce.rs) and
    [crates/objective/src/trigger.rs]. A handler that takes [&mut State] and
    returns occurrences is a function returning both; a handler that leaves by
    an early return leaves the state it has reached so far. *)

From stdpp Require Import prelude gmap strings sorting.
From S2P Require Import Prelude Checks Objective Verdicts Ledgers Commands.

(** ** State *)

Inductive Status :=
| Status_Open
| Status_Done (usage : Usage)
| Status_Closed (usage : Usage).

#[export] Instance Status_eq_dec : EqDecision Status.
Proof. solve_decision. Defined.

(** The samples a running evaluation has received, by check and sample index. *)
Abbreviation Samples := (gmap str (gmap N SampleOutput)).

Inductive Evaluation :=
| Evaluation_Running (id : N) (revision : str) (samples : Samples)
| Evaluation_Ready (id : N) (revision : str) (results : Results) (verdict : Verdict).

Definition evaluation_id (e : Evaluation) : N :=
  match e with Evaluation_Running id _ _ | Evaluation_Ready id _ _ _ => id end.
Definition evaluation_revision (e : Evaluation) : str :=
  match e with Evaluation_Running _ r _ | Evaluation_Ready _ r _ _ => r end.

#[export] Instance BudgetLimit_countable : Countable BudgetLimit.
Proof.
  refine (inj_countable'
    (λ l, match l with BudgetLimit_Turns => 0 | BudgetLimit_Tokens => 1 | BudgetLimit_WallSecs => 2 end)
    (λ n, match n with 0 => BudgetLimit_Turns | 1 => BudgetLimit_Tokens | _ => BudgetLimit_WallSecs end) _).
  by intros [].
Defined.

Record ObjectiveState := mkObjectiveState {
  definition : ObjectiveDefinition;
  approval : option Approval;
  ledger : Ledger;
  evaluation : option Evaluation;
  evaluations : N;
  latest_verdict : option Verdict;
  status : Status;
  usage_at_start : Usage;
  budget_notified : gset BudgetLimit;
}.

Record State := mkState {
  objectives : gmap str ObjectiveState;
  usage : Usage;
  pending_compact : bool;
  compactions : N;
}.

Definition default_state : State := mkState ∅ default_usage false 0.

(** Field updates. *)
Definition set_approval (a : option Approval) (o : ObjectiveState) : ObjectiveState :=
  mkObjectiveState (definition o) a (ledger o) (evaluation o) (evaluations o)
    (latest_verdict o) (status o) (usage_at_start o) (budget_notified o).
Definition set_evaluation (e : option Evaluation) (o : ObjectiveState) : ObjectiveState :=
  mkObjectiveState (definition o) (approval o) (ledger o) e (evaluations o)
    (latest_verdict o) (status o) (usage_at_start o) (budget_notified o).
Definition set_evaluations (n : N) (o : ObjectiveState) : ObjectiveState :=
  mkObjectiveState (definition o) (approval o) (ledger o) (evaluation o) n
    (latest_verdict o) (status o) (usage_at_start o) (budget_notified o).
Definition set_ledger (l : Ledger) (o : ObjectiveState) : ObjectiveState :=
  mkObjectiveState (definition o) (approval o) l (evaluation o) (evaluations o)
    (latest_verdict o) (status o) (usage_at_start o) (budget_notified o).
Definition set_latest_verdict (v : option Verdict) (o : ObjectiveState) : ObjectiveState :=
  mkObjectiveState (definition o) (approval o) (ledger o) (evaluation o) (evaluations o)
    v (status o) (usage_at_start o) (budget_notified o).
Definition set_status (s : Status) (o : ObjectiveState) : ObjectiveState :=
  mkObjectiveState (definition o) (approval o) (ledger o) (evaluation o) (evaluations o)
    (latest_verdict o) s (usage_at_start o) (budget_notified o).
Definition set_definition (d : ObjectiveDefinition) (o : ObjectiveState) : ObjectiveState :=
  mkObjectiveState d (approval o) (ledger o) (evaluation o) (evaluations o)
    (latest_verdict o) (status o) (usage_at_start o) (budget_notified o).
Definition set_budget_notified (b : gset BudgetLimit) (o : ObjectiveState) : ObjectiveState :=
  mkObjectiveState (definition o) (approval o) (ledger o) (evaluation o) (evaluations o)
    (latest_verdict o) (status o) (usage_at_start o) b.

Definition set_objectives (m : gmap str ObjectiveState) (s : State) : State :=
  mkState m (usage s) (pending_compact s) (compactions s).
Definition set_pending_compact (b : bool) (s : State) : State :=
  mkState (objectives s) (usage s) b (compactions s).

(** Writing back through the [&mut ObjectiveState] of the entry [k]. *)
Definition put_objective (k : str) (o : ObjectiveState) (s : State) : State :=
  set_objectives (<[k := o]> (objectives s)) s.

(** ** Events, notices, occurrences and intents *)

Inductive Event :=
| DefinitionChanged (objective : ObjectiveDefinition)
| ApprovalGranted (objective : str) (approval : Approval)
| Requested (objective : str) (revision : str)
| CheckFinished (objective : str) (evaluation : N) (check : str) (revision : str)
    (sample : N) (output : SampleOutput)
| RevisionDelivered (revision : str)
| Event_Settled (objective : str) (evaluation : N) (decision : LedgerDecision) (note : str)
| Event_Closed (objective : str)
| Event_HostIdle (queue_len : N)
| Event_Usage (usage : Usage).

Inductive IgnoreReason :=
| UnknownObjective
| NotOpen
| StaleApproval
| UnknownCheck
| StaleResult
| SampleOutOfRange
| DuplicateSample
| KindMismatch
| NothingToSettle.

Inductive Notice :=
| DefinitionRejected (objective : str) (diagnostics : list Diagnostic)
| ApprovalRequired (objective : str) (standard_hash : str)
| ApprovalInvalidated (objective : str)
| EvaluationReady (objective : str) (evaluation : N) (revision : str) (verdict : VerdictKind)
| SettleRefused (objective : str) (error : SettleError)
| PlateauReached (objective : str)
| ObjectiveDone (objective : str)
| BudgetExhausted (objective : str) (limit : BudgetLimit)
| EventIgnored (reason : IgnoreReason).

Inductive Intent :=
| RunCheck (objective : str) (evaluation : N) (check : str) (revision : str) (sample : N)
| Execute (call : CommandCall)
| Notify (notice : Notice).

Inductive Occurrence :=
| Occurrence_Notice (n : Notice)
| EvaluationStarted (objective : str)
| Occurrence_Settled (objective : str) (decision : LedgerDecision)
| Occurrence_Closed (objective : str)
| Occurrence_HostIdle (queue_len : N)
| UsageReported.

Section engine.
Context {SD : StandardDigest}.

(** [ObjectiveState::used] and [ObjectiveState::is_approved]. *)
Definition used (o : ObjectiveState) (current : Usage) : Usage :=
  match status o with
  | Status_Open => since current (usage_at_start o)
  | Status_Done u | Status_Closed u => u
  end.

Definition is_approved (o : ObjectiveState) : bool :=
  match approval o with
  | Some a => is_valid_for a (definition o)
  | None => false
  end.

(** ** The reducer ([engine/reduce.rs]) *)

Definition ignored (r : IgnoreReason) : list Occurrence := [Occurrence_Notice (EventIgnored r)].

(** [open]: the open objective, or why the event must be ignored. *)
Definition open_objective (s : State) (k : str) : result ObjectiveState (list Occurrence) :=
  match objectives s !! k with
  | None => Err (ignored UnknownObjective)
  | Some o => if bool_decide (status o ≠ Status_Open) then Err (ignored NotOpen) else Ok o
  end.

Definition approval_required (d : ObjectiveDefinition) : Occurrence :=
  Occurrence_Notice (ApprovalRequired (key d) (standard_hash d)).

Definition new_objective (u : Usage) (d : ObjectiveDefinition) : ObjectiveState :=
  {| definition := d;
     approval := None;
     ledger := default_ledger;
     evaluation := None;
     evaluations := 0;
     latest_verdict := None;
     status := Status_Open;
     usage_at_start := u;
     budget_notified := ∅ |}.

Definition define (s : State) (d : ObjectiveDefinition) : State * list Occurrence :=
  match validate d with
  | (_ :: _) as diagnostics =>
      (s, [Occurrence_Notice (DefinitionRejected (key d) diagnostics)])
  | [] =>
      match objectives s !! key d with
      | None => (put_objective (key d) (new_objective (usage s) d) s, [approval_required d])
      | Some _ =>
          match open_objective s (key d) with
          | Err occ => (s, occ)
          | Ok o =>
              let standard_changed :=
                bool_decide (standard_hash (definition o) ≠ standard_hash d) in
              let previous := definition o in
              let o := set_definition d o in
              let still_exhausted := exhausted (budget d) (used o (usage s)) in
              let o := set_budget_notified
                         (filter (λ l, l ∈ still_exhausted) (budget_notified o)) o in
              if negb standard_changed then (put_objective (key d) o s, [])
              else
                let was_approved := bool_decide (is_Some (approval o)) in
                let o := set_approval None o in
                let o := set_evaluation None o in
                let o := set_latest_verdict None o in
                let o := set_ledger (retain_comparable (ledger o) previous d) o in
                (put_objective (key d) o s,
                 (if was_approved then [Occurrence_Notice (ApprovalInvalidated (key d))] else [])
                 ++ [approval_required d])
          end
      end
  end.

Definition approve (s : State) (k : str) (a : Approval) : State * list Occurrence :=
  match open_objective s k with
  | Err occ => (s, occ)
  | Ok o =>
      if negb (is_valid_for a (definition o)) then (s, ignored StaleApproval)
      else (put_objective k (set_approval (Some a) o) s, [])
  end.

Definition evaluating (o : ObjectiveState) (revision : str) : bool :=
  match evaluation o with
  | Some e => bool_decide (evaluation_revision e = revision)
  | None => false
  end.

(** [start]: unless that revision is already being evaluated. *)
Definition start (o : ObjectiveState) (revision : str) : ObjectiveState * list Occurrence :=
  if evaluating o revision then (o, [])
  else
    let id := evaluations o in
    let o := set_evaluations (u64_succ (evaluations o)) o in
    let o := set_evaluation (Some (Evaluation_Running id revision ∅)) o in
    (o, [EvaluationStarted (key (definition o))]).

Definition request (s : State) (k : str) (revision : str) : State * list Occurrence :=
  match open_objective s k with
  | Err occ => (s, occ)
  | Ok o =>
      if negb (is_approved o) then (s, [approval_required (definition o)])
      else let '(o, occ) := start o revision in (put_objective k o s, occ)
  end.

(** [deliver]: the filter and the body of the iteration over [values_mut]. *)
Definition deliverable (o : ObjectiveState) : bool :=
  bool_decide (status o = Status_Open) && is_approved o.

Definition deliver_one (revision : str) (o : ObjectiveState) : ObjectiveState * list Occurrence :=
  if deliverable o then start o revision else (o, []).

Definition deliver (s : State) (revision : str) : State * list Occurrence :=
  (set_objectives ((λ o, (deliver_one revision o).1) <$> objectives s) s,
   btree_values (objectives s) ≫= λ o, (deliver_one revision o).2).

(** The samples received for one check. *)
Definition received (samples : Samples) (id : str) : gmap N SampleOutput :=
  default ∅ (samples !! id).

(** Every check of [d] has as many samples as it takes. *)
Definition complete (d : ObjectiveDefinition) (ss : Samples) : bool :=
  forallb (λ c, (N.of_nat (match ss !! check_id c with Some m => size m | None => 0 end)
                 =? samples (config c))%N) (checks d).

(** The results of a complete evaluation, in check order. *)
Definition combined (d : ObjectiveDefinition) (ss : Samples) : Results :=
  btree_collect
    (omap (λ c,
       match ss !! check_id c with
       | None => None
       | Some m =>
           match combine (config c) (btree_values m) with
           | Ok o => Some (check_id c, o)
           | Err _ => None
           end
       end) (checks d)).

Definition finish (s : State) (k : str) (ev : N) (ck : str) (revision : str) (sample : N)
    (output : SampleOutput) : State * list Occurrence :=
  match open_objective s k with
  | Err occ => (s, occ)
  | Ok o =>
      match evaluation o with
      | Some (Evaluation_Running id running ss) =>
          if negb (id =? ev)%N || bool_decide (running ≠ revision) then (s, ignored StaleResult)
          else
            match check (definition o) ck with
            | None => (s, ignored UnknownCheck)
            | Some c =>
                if (samples (config c) <=? sample)%N then (s, ignored SampleOutOfRange)
                else if negb (accepts (config c) output) then (s, ignored KindMismatch)
                else
                  (* [samples.entry(check).or_default()] leaves an entry behind *)
                  let ss := <[ck := received ss ck]> ss in
                  let o := set_evaluation (Some (Evaluation_Running id running ss)) o in
                  if bool_decide (is_Some (received ss ck !! sample))
                  then (put_objective k o s, ignored DuplicateSample)
                  else
                    let ss := <[ck := <[sample := output]> (received ss ck)]> ss in
                    let o := set_evaluation (Some (Evaluation_Running id running ss)) o in
                    if negb (complete (definition o) ss) then (put_objective k o s, [])
                    else
                      let results := combined (definition o) ss in
                      let base := default ∅ (baseline_results (ledger o)) in
                      let verdict := keepable (definition o) base results in
                      let o := set_latest_verdict (Some verdict) o in
                      let o := set_evaluation
                                 (Some (Evaluation_Ready id revision results verdict)) o in
                      (put_objective k o s,
                       [Occurrence_Notice (EvaluationReady k id revision (kind verdict))])
            end
      | _ => (s, ignored StaleResult)
      end
  end.

Definition settle (s : State) (k : str) (ev : N) (decision : LedgerDecision) (note : str)
  : State * list Occurrence :=
  match open_objective s k with
  | Err occ => (s, occ)
  | Ok o =>
      match evaluation o with
      | Some (Evaluation_Ready id revision results verdict) =>
          if negb (id =? ev)%N then (s, ignored NothingToSettle)
          else
            match ledger_settle (ledger o) (mkLedgerEntry revision results decision note) verdict with
            | Err error => (s, [Occurrence_Notice (SettleRefused k error)])
            | Ok l =>
                let o := set_evaluation None (set_ledger l o) in
                let o := if bool_decide (decision = Decision_Done)
                         then set_status (Status_Done (used o (usage s))) o else o in
                (put_objective k o s, [Occurrence_Settled k decision])
            end
      | _ => (s, ignored NothingToSettle)
      end
  end.

Definition close (s : State) (k : str) : State * list Occurrence :=
  match objectives s !! k with
  | None => (s, ignored UnknownObjective)
  | Some o =>
      match status o with
      | Status_Closed _ => (s, ignored NotOpen)
      | _ =>
          let o := set_status (Status_Closed (used o (usage s))) o in
          let o := set_evaluation None o in
          (put_objective k o s, [Occurrence_Closed k])
      end
  end.

(** [reduce::apply]. *)
Definition apply_event (s : State) (e : Event) : State * list Occurrence :=
  match e with
  | DefinitionChanged d => define s d
  | ApprovalGranted k a => approve s k a
  | Requested k r => request s k r
  | CheckFinished k ev c r i o => finish s k ev c r i o
  | RevisionDelivered r => deliver s r
  | Event_Settled k ev d n => settle s k ev d n
  | Event_Closed k => close s k
  | Event_HostIdle q => (s, [Occurrence_HostIdle q])
  | Event_Usage u =>
      (mkState (objectives s) u (pending_compact s) (compactions s), [UsageReported])
  end.

(** ** The trigger rules ([trigger.rs]) *)

Definition compact_policy (s : State) (k : str) : option CompactPolicy :=
  (λ o, compact (definition o)) <$> objectives s !! k.

Definition run_checks (s : State) (k : str) : list Intent :=
  match objectives s !! k with
  | None => []
  | Some o =>
      match evaluation o with
      | Some (Evaluation_Running id revision _) =>
          checks (definition o) ≫= λ c,
            (λ i, RunCheck k id (check_id c) revision i) <$> N_range (samples (config c))
      | _ => []
      end
  end.

Definition after_settle (s : State) (k : str) (decision : LedgerDecision) : State * list Intent :=
  match objectives s !! k with
  | None => (s, [])
  | Some o =>
      ((if bool_decide (compact (definition o) = EverySettle) then set_pending_compact true s else s),
       (if plateau_reached (ledger o) (mode (definition o)) then [Notify (PlateauReached k)] else [])
       ++ (if bool_decide (decision = Decision_Done) then [Notify (ObjectiveDone k)] else []))
  end.

Definition compact_when_idle (s : State) (q : N) : State * list Intent :=
  if negb (pending_compact s) then (s, [])
  else
    let c :=
      {| sequence := compactions s;
         brief := (λ o, objective_brief (definition o) (ledger o) (latest_verdict o))
                    <$> btree_values (objectives s) |} in
    match admit_command c {| idle := true; queue_len := q |} false with
    | Admission_Ready =>
        (mkState (objectives s) (usage s) false (u64_succ (compactions s)),
         [Execute (CommandCall_Compact c)])
    | Admission_Defer _ | Admission_Refuse _ => (s, [])
    end.

(** The body of [remind_budgets] for one objective: the limits newly notified. *)
Definition remind_one (u : Usage) (o : ObjectiveState) : ObjectiveState * list BudgetLimit :=
  if bool_decide (status o ≠ Status_Open) then (o, [])
  else
    foldl (λ acc l,
             if bool_decide (l ∈ budget_notified acc.1) then acc
             else (set_budget_notified ({[l]} ∪ budget_notified acc.1) acc.1, acc.2 ++ [l]))
      (o, []) (exhausted (budget (definition o)) (used o u)).

Definition remind_budgets (s : State) : State * list Intent :=
  (set_objectives ((λ o, (remind_one (usage s) o).1) <$> objectives s) s,
   btree_iter (objectives s) ≫= λ p,
     (λ l, Notify (BudgetExhausted p.1 l)) <$> (remind_one (usage s) p.2).2).

Definition fire_one (s : State) (occ : Occurrence) : State * list Intent :=
  match occ with
  | Occurrence_Notice n => (s, [Notify n])
  | EvaluationStarted k => (s, run_checks s k)
  | Occurrence_Settled k d => after_settle s k d
  | Occurrence_Closed k =>
      ((if bool_decide (compact_policy s k = Some OnClose)
        then set_pending_compact true s else s), [])
  | Occurrence_HostIdle q => compact_when_idle s q
  | UsageReported => remind_budgets s
  end.

(** [fire]: the rules over the occurrences, in order. *)
Fixpoint fire (s : State) (occs : list Occurrence) : State * list Intent :=
  match occs with
  | [] => (s, [])
  | occ :: rest =>
      let '(s1, i1) := fire_one s occ in
      let '(s2, i2) := fire s1 rest in
      (s2, i1 ++ i2)
  end.

(** [react]: reduce, then fire. *)
Definition react (s : State) (e : Event) : State * list Intent :=
  let '(next, occs) := apply_event s e in fire next occs.

(** A log of events replayed from a state: the final state and all intents. *)
Fixpoint replay (s : State) (es : list Event) : State * list Intent :=
  match es with
  | [] => (s, [])
  | e :: rest =>
      let '(s1, i1) := react s e in
      let '(s2, i2) := replay s1 rest in
      (s2, i1 ++ i2)
  end.
End engine.
