(* ===== verification/Scenario.v ===== *)
(** * A concrete objective and its log

    A converging objective with a command check as its goal, a metric as its
    ratchet and a two-sample evaluator as its invariant, run through definition,
    approval, evaluation, settle and close. The theorems about the engine are
    instantiated here. The digest of this scenario serializes the parts of the
    standard the scenario varies and hashes them to themselves. *)

From stdpp Require Import prelude gmap strings.
From S2P Require Import Prelude Float64 Checks Objective Verdicts Ledgers Commands Engine.

Definition plain_digest : StandardDigest := {|
  to_vec c := can_key c ++ (can_checks c ≫= check_id) ++ mjoin (can_constraints c);
  sha256 bytes := bytes;
|}.

#[local] Existing Instance plain_digest.

Definition k0 : str := lit "latency".
Definition check_tests : CheckDefinition :=
  mkCheckDefinition (lit "tests") Goal (Config_Command (mkCommandParams (lit "make test"))).
Definition check_review : CheckDefinition :=
  mkCheckDefinition (lit "review") Invariant
    (Config_Evaluator (mkEvaluatorParams [mkRubricItem (lit "clarity") (lit "reads well")] 2 Majority)).
Definition check_p99 : CheckDefinition :=
  mkCheckDefinition (lit "p99") Ratchet
    (Config_Metric (mkMetricParams (lit "bench") Lower None)).

Definition d0 : ObjectiveDefinition :=
  {| key := k0; title := lit "Cut latency"; mode := Converge;
     checks := [check_tests; check_review; check_p99];
     constraints := [lit "no new dependency"];
     budget := mkBudget 10 1000 3600; compact := EverySettle |}.

(** The same standard under another title and a smaller budget. *)
Definition d0_retitled : ObjectiveDefinition :=
  {| key := k0; title := lit "Cut p99 latency"; mode := Converge;
     checks := checks d0; constraints := constraints d0;
     budget := mkBudget 5 1000 3600; compact := OnClose |}.

(** Another standard: one more constraint. *)
Definition d0_stricter : ObjectiveDefinition :=
  {| key := k0; title := title d0; mode := Converge;
     checks := checks d0; constraints := constraints d0 ++ [lit "keep the API"];
     budget := budget d0; compact := EverySettle |}.

Definition approval0 : Approval := mkApproval (standard_hash d0) (lit "user").
Definition rev1 : str := lit "rev1".
Definition rev2 : str := lit "rev2".

Definition tests_pass : SampleOutput := Sample_Command (mkCommandOutput 0).
Definition review_ok : SampleOutput :=
  Sample_Evaluator (mkEvaluatorSample [] (mkFindings 0 1 0)).
Definition p99_of (m : f64) : SampleOutput := Sample_Metric (mkMetricOutput m).

(** The results of the evaluation [ev] of [rev], by check and sample. *)
Definition out0 (id : str) (i : N) : SampleOutput :=
  if bool_decide (id = lit "tests") then tests_pass
  else if bool_decide (id = lit "review") then review_ok else p99_of f64_zero.

Definition finished (ev : N) (rev : str) (p : str * N) : Event :=
  CheckFinished k0 ev p.1 rev p.2 (out0 p.1 p.2).

Definition asked0 : list (str * N) :=
  [(lit "tests", 0); (lit "review", 0); (lit "review", 1); (lit "p99", 0)]%N.

Definition log_approved : list Event := [DefinitionChanged d0; ApprovalGranted k0 approval0].
Definition log_running : list Event := log_approved ++ [Requested k0 rev1].
Definition log_ready : list Event := log_running ++ (finished 0 rev1 <$> asked0).
Definition log_kept : list Event := log_ready ++ [Event_Settled k0 0 Decision_Keep (lit "first")].
Definition log_ready2 : list Event :=
  log_kept ++ [RevisionDelivered rev2] ++ (finished 1 rev2 <$> reverse asked0).
Definition log_done : list Event := log_ready2 ++ [Event_Settled k0 1 Decision_Done (lit "ok")].
Definition log_closed : list Event := log_done ++ [Event_HostIdle 0; Event_Closed k0].

Definition at_log (es : list Event) : State := (replay default_state es).1.

(** The objective of the scenario in a state; the definition's fresh state where
    there is none. *)
Definition objective0 (s : State) : ObjectiveState :=
  default (new_objective default_usage d0) (objectives s !! k0).
