(* ===== verification/EngineInv.v ===== *)
(** * The engine's invariant

    What holds of every objective in every state the engine can reach, and that
    each reducer handler and each trigger rule preserves it. The clauses are
    those the source states in comments: an evaluation exists only for an open,
    approved objective; results were checked on arrival, so every check
    combines; a baseline result belongs to the current configuration of its
    check; the baseline is the last kept revision. *)

From stdpp Require Import prelude gmap strings sorting.
From S2P Require Import Prelude Checks Objective Verdicts Ledgers Commands Engine Scenario.

Section inv.
Context {SD : StandardDigest}.

(** ** The invariant *)

(** Received samples belong to a check of the definition, have an index the
    check asks for, and are of the check's kind. *)
Definition samples_ok (d : ObjectiveDefinition) (ss : Samples) : Prop :=
  ∀ id m, ss !! id = Some m →
    ∃ c, check d id = Some c ∧
         ∀ i o, m !! i = Some o → (i < samples (config c))%N ∧ accepts (config c) o = true.

Definition evaluation_ok (o : ObjectiveState) (e : Evaluation) : Prop :=
  match e with
  | Evaluation_Running _ _ ss =>
      samples_ok (definition o) ss ∧ complete (definition o) ss = false
  | Evaluation_Ready _ _ results verdict =>
      results_complete (definition o) results ∧ results_of_kind (definition o) results ∧
      verdict = keepable (definition o) (default ∅ (baseline_results (ledger o))) results ∧
      latest_verdict o = Some verdict
  end.

Definition no_done (es : list LedgerEntry) : Prop :=
  Forall (λ e, le_decision e ≠ Decision_Done) es.

Record objective_ok (k : str) (o : ObjectiveState) : Prop := {
  ok_key : key (definition o) = k;
  ok_valid : valid_definition (definition o);
  ok_approval : ∀ a, approval o = Some a → is_valid_for a (definition o) = true;
  ok_ledger : ledger_ok (ledger o);
  ok_baseline : ∀ r, baseline_results (ledger o) = Some r → results_of_kind (definition o) r;
  ok_evaluation : ∀ e, evaluation o = Some e →
    status o = Status_Open ∧ is_approved o = true ∧ evaluation_ok o e;
  ok_verdict : ∀ v, latest_verdict o = Some v →
    cr_check <$> reasons v = check_id <$> checks (definition o) ∧
    Forall (λ r, judged_reason r = true) (reasons v);
  ok_status :
    match status o with
    | Status_Open => no_done (entries (ledger o))
    | Status_Done _ => ∃ e, last (entries (ledger o)) = Some e ∧ le_decision e = Decision_Done
    | Status_Closed _ => True
    end;
}.

Definition state_ok (s : State) : Prop := map_Forall objective_ok (objectives s).

(** The hash tells the new definition of an existing objective from its current
    one whenever their standards differ. *)
Definition no_collision (s : State) (e : Event) : Prop :=
  match e with
  | DefinitionChanged d =>
      ∀ o, objectives s !! key d = Some o →
           standard_hash (definition o) = standard_hash d → canonical (definition o) = canonical d
  | _ => True
  end.

(** ** Completion of an evaluation *)

Lemma complete_true d ss :
  complete d ss = true ↔
  ∀ c, c ∈ checks d →
       N.of_nat (match ss !! check_id c with Some m => size m | None => 0 end) = samples (config c).
Proof.
  unfold complete. rewrite forallb_forall. setoid_rewrite <-list_elem_of_In.
  by setoid_rewrite N.eqb_eq.
Qed.

(** A fresh evaluation is not complete: a valid definition asks for a sample. *)
Lemma complete_empty d : valid_definition d → complete d ∅ = false.
Proof.
  intros Hd. apply not_true_iff_false. rewrite complete_true. intros Hc.
  destruct (checks d) as [|c cs] eqn:E; [by apply (vd_checks _ Hd)|].
  specialize (Hc c ltac:(left)). rewrite lookup_empty in Hc. simpl in Hc.
  pose proof (vd_configs _ Hd) as Hv. rewrite E, Forall_cons in Hv.
  destruct Hv as [Hv%valid_config_samples _]. lia.
Qed.

Section combined.
Context (d : ObjectiveDefinition) (ss : Samples).
Context (Hd : valid_definition d) (Hok : samples_ok d ss) (Hc : complete d ss = true).

Lemma check_combines c :
  c ∈ checks d →
  ∃ m o, ss !! check_id c = Some m ∧ combine (config c) (btree_values m) = Ok o ∧
         output_of_kind (config c) o = true.
Proof.
  intros Hin. pose proof (proj1 (complete_true d ss) Hc c Hin) as Hn.
  assert (0 < samples (config c))%N as Hpos.
  { apply valid_config_samples. pose proof (vd_configs _ Hd) as Hv.
    rewrite Forall_forall in Hv. by apply Hv. }
  destruct (ss !! check_id c) as [m|] eqn:Hm; [|simpl in Hn; lia].
  destruct (Hok _ _ Hm) as (c' & Hc' & Hall).
  rewrite check_In in Hc' by (done || apply Hd). simplify_eq.
  destruct (combine_accepted (config c') (btree_values m)) as (o & Ho & Hk).
  - by rewrite length_btree_values.
  - apply Forall_forall. intros s [i Hi]%elem_of_btree_values. by apply (Hall i s).
  - eauto.
Qed.

Definition combined_pairs : list (str * CheckOutput) :=
  omap (λ c,
    match ss !! check_id c with
    | None => None
    | Some m =>
        match combine (config c) (btree_values m) with
        | Ok o => Some (check_id c, o)
        | Err _ => None
        end
    end) (checks d).

Lemma combined_pairs_keys : combined_pairs.*1 = check_id <$> checks d.
Proof.
  unfold combined_pairs. assert (∀ c, c ∈ checks d → c ∈ checks d) as Hsub by done.
  revert Hsub. generalize (checks d) at 1 3 4. intros cs.
  induction cs as [|c cs IH]; intros Hsub; [done|].
  destruct (check_combines c) as (m & o & Hm & Ho & _); [apply Hsub; by left|].
  simpl. rewrite Hm, Ho. simpl. f_equal. apply IH. intros c' Hc'. apply Hsub. by right.
Qed.

Lemma combined_lookup id o :
  combined d ss !! id = Some o ↔
  ∃ c m, c ∈ checks d ∧ check_id c = id ∧ ss !! id = Some m ∧
         combine (config c) (btree_values m) = Ok o.
Proof.
  unfold combined. fold combined_pairs.
  rewrite lookup_btree_collect by (rewrite combined_pairs_keys; apply Hd).
  unfold combined_pairs. rewrite list_elem_of_omap. split.
  - intros (c & Hin & Hm). destruct (ss !! check_id c) as [m|] eqn:E; [|done].
    destruct (combine _ _) eqn:Ec; [|done]. simplify_eq. eauto 10.
  - intros (c & m & Hin & <- & Hm & Ho). exists c. by rewrite Hm, Ho.
Qed.

Lemma combined_complete : results_complete d (combined d ss).
Proof.
  intros c Hin. destruct (check_combines c Hin) as (m & o & Hm & Ho & Hk).
  exists o. split; [|done]. apply combined_lookup. eauto 10.
Qed.

Lemma combined_of_kind : results_of_kind d (combined d ss).
Proof.
  intros id o (c & m & Hin & <- & Hm & Ho)%combined_lookup.
  exists c. split; [apply check_In; [apply Hd|done]|]. by apply combine_of_kind in Ho.
Qed.
End combined.

Lemma samples_ok_insert d ss id c i o :
  samples_ok d ss → check d id = Some c → (i < samples (config c))%N →
  accepts (config c) o = true → samples_ok d (<[id := <[i := o]> (received ss id)]> ss).
Proof.
  intros Hok Hc Hi Ho id' m Hm. apply lookup_insert_Some in Hm as [[<- <-]|[Hne Hm]]; [|by eauto].
  exists c. split; [done|]. intros j x Hx.
  apply lookup_insert_Some in Hx as [[<- <-]|[Hne Hx]]; [done|].
  unfold received in Hx. destruct (ss !! id) as [m|] eqn:Hm; simpl in Hx; [|done].
  destruct (Hok _ _ Hm) as (c' & Hc' & Hall). simplify_eq. by eauto.
Qed.

Lemma keepable_checks d b r : cr_check <$> reasons (keepable d b r) = check_id <$> checks d.
Proof. unfold keepable; simpl. rewrite <-list_fmap_compose. done. Qed.

(** ** Preservation by the reducer *)

Lemma open_objective_Ok s k o :
  open_objective s k = Ok o ↔ objectives s !! k = Some o ∧ status o = Status_Open.
Proof.
  unfold open_objective. destruct (objectives s !! k) as [o'|]; [|by split; [|intros []]].
  case_bool_decide; naive_solver.
Qed.

Lemma open_objective_Err s k occ :
  open_objective s k = Err occ → ∃ r, occ = ignored r.
Proof.
  unfold open_objective. destruct (objectives s !! k); [case_bool_decide|]; naive_solver.
Qed.

Lemma put_objective_ok s k o :
  state_ok s → objective_ok k o → state_ok (put_objective k o s).
Proof. intros Hs Ho. by apply map_Forall_insert_2. Qed.

Lemma new_objective_ok u d : valid_definition d → objective_ok (key d) (new_objective u d).
Proof.
  intros Hd. constructor; try done.
  apply default_ledger_ok.
Qed.

Lemma set_approval_ok k o a :
  objective_ok k o → is_valid_for a (definition o) = true → objective_ok k (set_approval (Some a) o).
Proof.
  intros [] Ha. constructor; simpl; try done.
  - by intros ? [= <-].
  - intros e He. destruct (ok_evaluation0 e He) as (Hst & _ & Hev). done.
Qed.

Lemma start_ok k o r :
  objective_ok k o → status o = Status_Open → is_approved o = true →
  objective_ok k (start o r).1.
Proof.
  intros Hok Hst Ha. unfold start. destruct (evaluating o r); [done|].
  destruct Hok. constructor; simpl; try done.
  intros e [= <-]. split; [done|]. split; [done|]. simpl. split; [by intros ?? ?%lookup_empty_Some|].
  by apply complete_empty.
Qed.

Lemma request_state_ok s k r : state_ok s → state_ok (request s k r).1.
Proof.
  intros Hs. unfold request. destruct (open_objective s k) as [o|] eqn:Ho; [|done].
  apply open_objective_Ok in Ho as [Hl Hst].
  destruct (is_approved o) eqn:Ha; simpl; [|done].
  pose proof (start_ok k o r (Hs _ _ Hl) Hst Ha) as Hok.
  destruct (start o r). by apply put_objective_ok.
Qed.

Lemma deliver_state_ok s r : state_ok s → state_ok (deliver s r).1.
Proof.
  intros Hs k o'. simpl. rewrite lookup_fmap_Some. intros (o & <- & Ho).
  unfold deliver_one, deliverable. case_bool_decide; simpl; [|by apply Hs].
  destruct (is_approved o) eqn:Ha; [|by apply Hs]. apply start_ok; try done. by apply Hs.
Qed.

Lemma approve_state_ok s k a : state_ok s → state_ok (approve s k a).1.
Proof.
  intros Hs. unfold approve. destruct (open_objective s k) as [o|] eqn:Ho; [|done].
  apply open_objective_Ok in Ho as [Hl _].
  destruct (is_valid_for a (definition o)) eqn:Ha; simpl; [|done].
  apply put_objective_ok; [done|]. apply set_approval_ok; [by apply Hs|done].
Qed.

(** An evaluation in progress after one more sample. *)
Lemma receive_running_ok k o id r ss ck c i out :
  objective_ok k o → evaluation o = Some (Evaluation_Running id r ss) →
  check (definition o) ck = Some c → (i < samples (config c))%N → accepts (config c) out = true →
  let ss' := <[ck := <[i := out]> (received ss ck)]> ss in
  complete (definition o) ss' = false →
  objective_ok k (set_evaluation (Some (Evaluation_Running id r ss')) o).
Proof.
  intros Hok He Hc Hi Hout ss' Hco.
  destruct (ok_evaluation _ _ Hok _ He) as (Hst & Ha & Hss & _).
  destruct Hok. constructor; simpl; try done.
  intros e [= <-]. repeat split; try done. by eapply samples_ok_insert.
Qed.

(** The evaluation that its last sample completes. *)
Lemma receive_ready_ok k o id r ss ck c i out :
  objective_ok k o → evaluation o = Some (Evaluation_Running id r ss) →
  check (definition o) ck = Some c → (i < samples (config c))%N → accepts (config c) out = true →
  let ss' := <[ck := <[i := out]> (received ss ck)]> ss in
  complete (definition o) ss' = true →
  let results := combined (definition o) ss' in
  let verdict := keepable (definition o) (default ∅ (baseline_results (ledger o))) results in
  objective_ok k (set_evaluation (Some (Evaluation_Ready id r results verdict))
                    (set_latest_verdict (Some verdict) o)).
Proof.
  intros Hok He Hc Hi Hout ss' Hco results verdict.
  destruct (ok_evaluation _ _ Hok _ He) as (Hst & Ha & Hss & _).
  pose proof (ok_valid _ _ Hok) as Hv.
  assert (samples_ok (definition o) ss') as Hss' by (by eapply samples_ok_insert).
  pose proof (combined_complete _ _ Hv Hss' Hco) as Hrc.
  pose proof (combined_of_kind _ _ Hv Hss' Hco) as Hrk.
  destruct Hok. constructor; simpl; try done.
  - by intros e [= <-].
  - intros v [= <-]. split; [apply keepable_checks|].
    apply keepable_judged; [apply Hv| |done].
    destruct (baseline_results (ledger o)) as [b|] eqn:Hb; simpl; [by apply ok_baseline0|].
    by intros ?? ?%lookup_empty_Some.
Qed.

Lemma received_insert ss ck m : received (<[ck := m]> ss) ck = m.
Proof. unfold received. by rewrite lookup_insert_eq. Qed.

Lemma put_objective_id s k o : objectives s !! k = Some o → put_objective k o s = s.
Proof. intros Ho. unfold put_objective, set_objectives. rewrite insert_id by done. by destruct s. Qed.

Lemma set_evaluation_id o e : evaluation o = e → set_evaluation e o = o.
Proof. intros <-. by destruct o. Qed.

(** The objective after an accepted sample. *)
Definition receive (o : ObjectiveState) (id : N) (r ck : str) (i : N) (out : SampleOutput) (ss : Samples)
  : ObjectiveState :=
  let ss' := <[ck := <[i := out]> (received ss ck)]> ss in
  if complete (definition o) ss' then
    let results := combined (definition o) ss' in
    let verdict := keepable (definition o) (default ∅ (baseline_results (ledger o))) results in
    set_evaluation (Some (Evaluation_Ready id r results verdict)) (set_latest_verdict (Some verdict) o)
  else set_evaluation (Some (Evaluation_Running id r ss')) o.

Definition receive_occurrences (o : ObjectiveState) (k : str) : list Occurrence :=
  match evaluation o with
  | Some (Evaluation_Ready id r _ v) => [Occurrence_Notice (EvaluationReady k id r (kind v))]
  | _ => []
  end.

(** What [finish] waits for: a result of the running evaluation, for a known
    check, in range, of the right kind and not received before. *)
Record awaited (s : State) (k : str) (ev : N) (ck r : str) (i : N) (out : SampleOutput)
    (o : ObjectiveState) (ss : Samples) (c : CheckDefinition) : Prop := {
  aw_objective : objectives s !! k = Some o;
  aw_open : status o = Status_Open;
  aw_running : evaluation o = Some (Evaluation_Running ev r ss);
  aw_check : check (definition o) ck = Some c;
  aw_range : (i < samples (config c))%N;
  aw_kind : accepts (config c) out = true;
  aw_new : received ss ck !! i = None;
}.

Lemma finish_awaited s k ev ck r i out o ss c :
  awaited s k ev ck r i out o ss c →
  finish s k ev ck r i out =
  (put_objective k (receive o ev r ck i out ss) s, receive_occurrences (receive o ev r ck i out ss) k).
Proof.
  intros [Ho Hst He Hc Hi Hk Hn]. unfold finish.
  rewrite (proj2 (open_objective_Ok s k o)) by done. rewrite He, N.eqb_refl. simpl.
  rewrite bool_decide_false by (intros Hne; by apply Hne). rewrite Hc.
  destruct (N.leb_spec (samples (config c)) i); [lia|]. rewrite Hk. simpl.
  rewrite received_insert, Hn, bool_decide_false by (by intros []).
  rewrite insert_insert_eq. unfold receive.
  destruct (complete _ _); simpl; done.
Qed.

(** A result that is not awaited is ignored and changes nothing. *)
Lemma finish_cases s k ev ck r i out :
  (∃ o ss c, awaited s k ev ck r i out o ss c) ∨
  ∃ reason, finish s k ev ck r i out = (s, ignored reason).
Proof.
  unfold finish. destruct (open_objective s k) as [o|occ] eqn:Ho.
  2: { apply open_objective_Err in Ho as [reason ->]. eauto. }
  apply open_objective_Ok in Ho as [Ho Hst].
  destruct (evaluation o) as [[id r' ss|]|] eqn:He; [|by eauto|by eauto].
  destruct (N.eqb_spec id ev) as [->|]; simpl; [|by eauto].
  case_bool_decide as Hr; [by eauto|]. subst r'.
  destruct (check (definition o) ck) as [c|] eqn:Hc; [|by eauto].
  destruct (N.leb_spec (samples (config c)) i); [by eauto|].
  destruct (accepts (config c) out) eqn:Hk; simpl; [|by eauto].
  rewrite received_insert. case_bool_decide as Hd.
  - right. exists DuplicateSample. f_equal.
    assert (<[ck := received ss ck]> ss = ss) as ->.
    { apply insert_id. unfold received in *. destruct (ss !! ck); [done|].
      simpl in Hd. by destruct Hd as [? ?%lookup_empty_Some]. }
    rewrite set_evaluation_id by done. by apply put_objective_id.
  - left. exists o, ss, c. constructor; try done. by apply eq_None_not_Some.
Qed.

Lemma finish_state_ok s k ev ck r i out : state_ok s → state_ok (finish s k ev ck r i out).1.
Proof.
  intros Hs. destruct (finish_cases s k ev ck r i out) as [(o & ss & c & Haw)|[reason ->]]; [|done].
  rewrite (finish_awaited _ _ _ _ _ _ _ _ _ _ Haw). destruct Haw.
  apply put_objective_ok; [done|]. unfold receive. destruct (complete _ _) eqn:Hco.
  - eapply receive_ready_ok; eauto.
  - eapply receive_running_ok; eauto.
Qed.

(** [settle] acts on the ready evaluation it names. *)
Record settleable (s : State) (k : str) (ev : N) (o : ObjectiveState) (r : str)
    (results : Results) (v : Verdict) : Prop := {
  st_objective : objectives s !! k = Some o;
  st_open : status o = Status_Open;
  st_ready : evaluation o = Some (Evaluation_Ready ev r results v);
}.

(** The objective after a recorded settle. *)
Definition settled (u : Usage) (o : ObjectiveState) (l : Ledger) (d : LedgerDecision) : ObjectiveState :=
  let o := set_evaluation None (set_ledger l o) in
  if bool_decide (d = Decision_Done) then set_status (Status_Done (used o u)) o else o.

Lemma settle_settleable s k ev d note o r results v :
  settleable s k ev o r results v →
  settle s k ev d note =
  match settle_refusal d v with
  | Some error => (s, [Occurrence_Notice (SettleRefused k error)])
  | None =>
      (put_objective k
         (settled (usage s) o (record_settle (ledger o) (mkLedgerEntry r results d note) v) d) s,
       [Occurrence_Settled k d])
  end.
Proof.
  intros [Ho Hst He]. unfold settle. rewrite (proj2 (open_objective_Ok s k o)) by done.
  rewrite He, N.eqb_refl. simpl. unfold ledger_settle. simpl.
  by destruct (settle_refusal d v).
Qed.

Lemma settle_cases s k ev d note :
  (∃ o r results v, settleable s k ev o r results v) ∨
  ∃ reason, settle s k ev d note = (s, ignored reason).
Proof.
  unfold settle. destruct (open_objective s k) as [o|occ] eqn:Ho.
  2: { apply open_objective_Err in Ho as [reason ->]. eauto. }
  apply open_objective_Ok in Ho as [Ho Hst].
  destruct (evaluation o) as [[|id r res v]|] eqn:He; [by eauto| |by eauto].
  destruct (N.eqb_spec id ev) as [->|]; simpl; [|by eauto].
  left. exists o, r, res, v. by constructor.
Qed.

Lemma settled_ok u k o r res v ev d note :
  objective_ok k o → status o = Status_Open →
  evaluation o = Some (Evaluation_Ready ev r res v) →
  objective_ok k (settled u o (record_settle (ledger o) (mkLedgerEntry r res d note) v) d).
Proof.
  intros Hok Hst He. destruct (ok_evaluation _ _ Hok _ He) as (_ & _ & _ & Hk & _ & _).
  destruct Hok as [Hkey Hv Ha Hl Hb Hev Hver Hs]. rewrite Hst in Hs.
  assert (ledger_ok (record_settle (ledger o) (mkLedgerEntry r res d note) v)) as Hl'.
  { by apply record_settle_ok. }
  assert (∀ x, baseline_results (record_settle (ledger o) (mkLedgerEntry r res d note) v) = Some x →
               results_of_kind (definition o) x) as Hb'.
  { intros x. unfold baseline_results; simpl. case_bool_decide; [by intros [= <-]|by apply Hb]. }
  unfold settled. case_bool_decide as Hd; constructor; simpl; try done.
  - eexists. split; [apply last_snoc|done].
  - rewrite Hst. unfold no_done. apply Forall_app_2; [done|]. by apply Forall_singleton.
Qed.

Lemma settle_state_ok s k ev d note : state_ok s → state_ok (settle s k ev d note).1.
Proof.
  intros Hs. destruct (settle_cases s k ev d note) as [(o & r & res & v & Hse)|[reason ->]]; [|done].
  rewrite (settle_settleable _ _ _ d note _ _ _ _ Hse). destruct Hse.
  destruct (settle_refusal d v); [done|]. apply put_objective_ok; [done|].
  eapply settled_ok; eauto.
Qed.

Lemma close_state_ok s k : state_ok s → state_ok (close s k).1.
Proof.
  intros Hs. unfold close. destruct (objectives s !! k) as [o|] eqn:Ho; [|done].
  pose proof (Hs _ _ Ho) as []. destruct (status o); simpl; try done;
    apply put_objective_ok; try done; constructor; done.
Qed.

(** A redefinition with the same standard changes title, budget and compaction
    policy only. *)
Lemma canonical_eq d d' :
  canonical d = canonical d' →
  key d = key d' ∧ mode d = mode d' ∧ checks d = checks d' ∧ constraints d = constraints d'.
Proof. unfold canonical. by intros [= -> -> -> ->]. Qed.

Lemma redefine_same_ok k o d b :
  objective_ok k o → valid_definition d → canonical (definition o) = canonical d →
  standard_hash (definition o) = standard_hash d →
  objective_ok k (set_budget_notified b (set_definition d o)).
Proof.
  intros [Hkey Hv Ha Hl Hb Hev Hver Hs] Hd Hcan Hh.
  destruct (canonical_eq _ _ Hcan) as (Ek & Em & Ec & _).
  assert (∀ a, is_valid_for a d = is_valid_for a (definition o)) as Hval.
  { intros a. unfold is_valid_for. by rewrite Hh. }
  assert (∀ id, check d id = check (definition o) id) as Hcheck.
  { intros id. unfold check. by rewrite Ec. }
  assert (∀ r, results_of_kind (definition o) r → results_of_kind d r) as Hkind.
  { intros r Hr id x Hx. destruct (Hr id x Hx) as (c & Hc & ?). exists c. by rewrite Hcheck. }
  constructor; simpl; try done.
  - congruence.
  - intros a Happ. rewrite Hval. by apply Ha.
  - intros r Hr. by apply Hkind, Hb.
  - intros e He. destruct (Hev e He) as (Hst & Hap & Heo). split; [done|]. split.
    + unfold is_approved in *. simpl. destruct (approval o); [|done]. by rewrite Hval.
    + destruct e as [id r ss|id r res v]; simpl in *.
      * destruct Heo as [Hss Hco]. split.
        -- intros i m Hm. destruct (Hss i m Hm) as (c & Hc & ?). exists c. by rewrite Hcheck.
        -- unfold complete in *. by rewrite <-Ec.
      * destruct Heo as (Hrc & Hrk & -> & Hlv). split; [|split; [by apply Hkind|split; [|done]]].
        -- intros c Hc. apply Hrc. by rewrite Ec.
        -- unfold keepable. by rewrite Ec, Em.
  - intros v Hv'. rewrite <-Ec. by apply Hver.
Qed.

(** The objective after a redefinition that changed the standard. *)
Definition restandardized (b : gset BudgetLimit) (o : ObjectiveState) (d : ObjectiveDefinition)
  : ObjectiveState :=
  {| definition := d;
     approval := None;
     ledger := retain_comparable (ledger o) (definition o) d;
     evaluation := None;
     evaluations := evaluations o;
     latest_verdict := None;
     status := status o;
     usage_at_start := usage_at_start o;
     budget_notified := b |}.

Lemma entries_retain_comparable l p n : entries (retain_comparable l p n) = entries l.
Proof. unfold retain_comparable. by destruct (baseline l). Qed.

Lemma restandardized_ok k b o d :
  objective_ok k o → valid_definition d → key d = k → objective_ok k (restandardized b o d).
Proof.
  intros [Hkey Hv Ha Hl Hb Hev Hver Hs] Hd Hk. constructor; simpl; try done.
  - by apply retain_comparable_ok.
  - intros r Hr. by eapply retain_comparable_of_kind.
  - by rewrite entries_retain_comparable.
Qed.

(** The three outcomes of [define] on a valid definition. *)
Lemma define_cases s d :
  (validate d ≠ [] ∧ define s d = (s, [Occurrence_Notice (DefinitionRejected (key d) (validate d))])) ∨
  (∃ reason, define s d = (s, ignored reason)) ∨
  (valid_definition d ∧ objectives s !! key d = None ∧
   define s d = (put_objective (key d) (new_objective (usage s) d) s, [approval_required d])) ∨
  (∃ o b, valid_definition d ∧ objectives s !! key d = Some o ∧ status o = Status_Open ∧
     standard_hash (definition o) = standard_hash d ∧
     define s d = (put_objective (key d) (set_budget_notified b (set_definition d o)) s, [])) ∨
  (∃ o b, valid_definition d ∧ objectives s !! key d = Some o ∧ status o = Status_Open ∧
     standard_hash (definition o) ≠ standard_hash d ∧
     define s d =
       (put_objective (key d) (restandardized b o d) s,
        (if bool_decide (is_Some (approval o))
         then [Occurrence_Notice (ApprovalInvalidated (key d))] else []) ++ [approval_required d])).
Proof.
  unfold define. destruct (validate d) as [|x l] eqn:Hv; [|left; split; [congruence|reflexivity]].
  apply validate_nil_iff in Hv. right.
  destruct (objectives s !! key d) as [o'|] eqn:Ho'; [|right; left; done].
  destruct (open_objective s (key d)) as [o|occ] eqn:Ho.
  2: { apply open_objective_Err in Ho as [reason ->]. eauto. }
  apply open_objective_Ok in Ho as [Ho Hst]. simplify_eq. right; right.
  case_bool_decide as Hh; simpl; [right|left]; exists o'; eexists; eauto 10.
Qed.

Lemma define_state_ok s d :
  state_ok s → no_collision s (DefinitionChanged d) → state_ok (define s d).1.
Proof.
  intros Hs Hnc.
  destruct (define_cases s d) as [[_ ->]|[[r ->]|[(Hd & _ & ->)|[(o & b & Hd & Ho & Hst & Hh & ->)
    |(o & b & Hd & Ho & Hst & Hh & ->)]]]]; try done; apply put_objective_ok; try done.
  - by apply new_objective_ok.
  - apply redefine_same_ok; try done; [by apply Hs|]. by apply Hnc.
  - apply restandardized_ok; try done. by apply Hs.
Qed.

#[local] Hint Resolve define_state_ok approve_state_ok request_state_ok finish_state_ok
  deliver_state_ok settle_state_ok close_state_ok : calm.

Lemma apply_event_state_ok s e : state_ok s → no_collision s e → state_ok (apply_event s e).1.
Proof. intros Hs Hnc. destruct e; cbn [apply_event]; first [by auto with calm | done]. Qed.

(** ** Preservation by the trigger rules

    They touch the objectives only to record the budget limits they notified. *)

Lemma remind_one_fst u o : ∃ b, (remind_one u o).1 = set_budget_notified b o.
Proof.
  unfold remind_one. case_bool_decide.
  { exists (budget_notified o). by destruct o. }
  assert (∃ b, (o, @nil BudgetLimit).1 = set_budget_notified b o) as Hacc.
  { exists (budget_notified o). by destruct o. }
  revert Hacc. generalize (o, @nil BudgetLimit) as acc.
  induction (exhausted _ _) as [|l ls IH]; intros acc [b Hb]; simpl; [by eauto|].
  case_bool_decide; apply IH; [by eauto|]. simpl. rewrite Hb. by eexists.
Qed.

Lemma set_budget_notified_ok k b o : objective_ok k o → objective_ok k (set_budget_notified b o).
Proof. intros []. by constructor. Qed.

Lemma compact_when_idle_objectives s q : objectives (compact_when_idle s q).1 = objectives s.
Proof.
  unfold compact_when_idle. destruct (negb _); [done|]. by destruct (admit_command _ _ _).
Qed.

Lemma fire_one_state_ok s occ : state_ok s → state_ok (fire_one s occ).1.
Proof.
  intros Hs. destruct occ as [n|k|k d|k|q|]; simpl; try done.
  - unfold after_settle. destruct (objectives s !! k); [|done]. simpl. by case_bool_decide.
  - by case_bool_decide.
  - unfold state_ok. by rewrite compact_when_idle_objectives.
  - intros k o'. simpl. rewrite lookup_fmap_Some. intros (o & <- & Ho).
    destruct (remind_one_fst (usage s) o) as [b ->]. by apply set_budget_notified_ok, Hs.
Qed.

Lemma fire_state_ok s occs : state_ok s → state_ok (fire s occs).1.
Proof.
  revert s; induction occs as [|occ occs IH]; intros s Hs; simpl; [done|].
  pose proof (fire_one_state_ok s occ Hs) as H1. destruct (fire_one s occ) as [s1 i1].
  pose proof (IH s1 H1) as H2. by destruct (fire s1 occs).
Qed.

Lemma react_state_ok s e : state_ok s → no_collision s e → state_ok (react s e).1.
Proof.
  intros Hs Hnc. unfold react. pose proof (apply_event_state_ok s e Hs Hnc) as H1.
  destruct (apply_event s e) as [s1 occs]. by apply fire_state_ok.
Qed.

(** ** Traces *)

(** Every redefinition along a log is told apart by the hash. *)
Fixpoint log_collision_free (s : State) (es : list Event) : Prop :=
  match es with
  | [] => True
  | e :: rest => no_collision s e ∧ log_collision_free (react s e).1 rest
  end.

Lemma replay_cons s e es :
  replay s (e :: es) =
  ((replay (react s e).1 es).1, (react s e).2 ++ (replay (react s e).1 es).2).
Proof. simpl. destruct (react s e) as [s1 i1]; simpl. by destruct (replay s1 es). Qed.

Lemma replay_state_ok s es :
  state_ok s → log_collision_free s es → state_ok (replay s es).1.
Proof.
  revert s; induction es as [|e es IH]; intros s Hs Hnc; [done|].
  rewrite replay_cons. simpl. destruct Hnc. apply IH; [|done]. by apply react_state_ok.
Qed.

Lemma default_state_ok : state_ok default_state.
Proof. apply map_Forall_empty. Qed.

(** C1: the invariant of the engine holds after every history of events in which the
    hash tells apart the standards it is asked to tell apart: each objective is
    stored under its key with a valid definition, holds only an approval of its
    current standard, evaluates only while open and approved, with in-range samples
    of the right kind, a ready evaluation has a result of the right kind for every
    check and the verdict of judging them, no verdict rests on a missing or mistyped
    result, the baseline is the last adopted revision, and only the last settle of an
    objective that is done is a done settle. *)
Theorem reachable_state_ok es :
  log_collision_free default_state es → state_ok (replay default_state es).1.
Proof. intros Hes. apply replay_state_ok; [apply default_state_ok|done]. Qed.

(** A log in which every redefinition of an objective changes the hash. *)
Fixpoint log_distinct (s : State) (es : list Event) : bool :=
  match es with
  | [] => true
  | e :: rest =>
      match e with
      | DefinitionChanged d =>
          match objectives s !! key d with
          | Some o => bool_decide (standard_hash (definition o) ≠ standard_hash d)
          | None => true
          end
      | _ => true
      end && log_distinct (react s e).1 rest
  end.

Lemma log_distinct_free s es : log_distinct s es = true → log_collision_free s es.
Proof.
  revert s; induction es as [|e es IH]; intros s; simpl; [done|].
  rewrite andb_true_iff. intros [He Hes]. split; [|by apply IH].
  destruct e as [d| | | | | | | |]; try done. intros o Ho Hh. rewrite Ho in He.
  by apply bool_decide_eq_true in He.
Qed.
End inv.

(** The scenario's history, with the standard made stricter halfway. *)
Lemma reachable_state_ok_witness :
  state_ok (SD := plain_digest)
    (replay (SD := plain_digest) default_state
       (log_running ++ [DefinitionChanged d0_stricter; Event_Closed k0])).1.
Proof.
  apply (reachable_state_ok (SD := plain_digest)), log_distinct_free. vm_compute. reflexivity.
Defined.

(** Every state of the scenario satisfies the invariant. *)
Lemma scenario_state_ok es :
  log_distinct (SD := plain_digest) default_state es = true →
  state_ok (SD := plain_digest) (replay (SD := plain_digest) default_state es).1.
Proof. intros Hes. apply replay_state_ok; [apply default_state_ok|]. by apply log_distinct_free. Qed.
