(* ===== verification/Lifecycle.v ===== *)
(** * The life of one objective

    The engine seen from a single objective is a small automaton: it is created
    by a definition, redefined, approved, evaluated, settled and closed. The
    relation [ostep] is that automaton; [react_objective] shows that every event
    moves every objective by one of its steps (or creates it), so that what the
    automaton cannot do, no log of events can do. *)

From stdpp Require Import prelude gmap strings sorting.
From S2P Require Import Prelude Checks Objective Verdicts Ledgers Commands Engine Scenario EngineInv.

(** ** The outcomes of each handler *)
Section outcomes.
Context {SD : StandardDigest}.

(** The objective after its evaluation of a revision has been started. *)
Definition started (o : ObjectiveState) (r : str) : ObjectiveState :=
  set_evaluation (Some (Evaluation_Running (evaluations o) r ∅))
    (set_evaluations (u64_succ (evaluations o)) o).

(** The objective after a close, [u] being what it used. *)
Definition closed (u : Usage) (o : ObjectiveState) : ObjectiveState :=
  set_evaluation None (set_status (Status_Closed u) o).

Lemma start_cases o r :
  (evaluating o r = true ∧ start o r = (o, [])) ∨
  (evaluating o r = false ∧ start o r = (started o r, [EvaluationStarted (key (definition o))])).
Proof. unfold start. destruct (evaluating o r); [by left|by right]. Qed.

Lemma request_cases s k r :
  (∃ reason, request s k r = (s, ignored reason)) ∨
  (∃ o, objectives s !! k = Some o ∧ status o = Status_Open ∧ is_approved o = false ∧
        request s k r = (s, [approval_required (definition o)])) ∨
  (∃ o, objectives s !! k = Some o ∧ status o = Status_Open ∧ is_approved o = true ∧
        request s k r = (put_objective k (start o r).1 s, (start o r).2)).
Proof.
  unfold request. destruct (open_objective s k) as [o|occ] eqn:Ho.
  2: { apply open_objective_Err in Ho as [reason ->]. eauto. }
  apply open_objective_Ok in Ho as [Ho Hst].
  destruct (is_approved o) eqn:Ha; simpl; [|by eauto 10].
  right; right. exists o. by destruct (start o r).
Qed.

Lemma approve_cases s k a :
  (∃ reason, approve s k a = (s, ignored reason)) ∨
  (∃ o, objectives s !! k = Some o ∧ status o = Status_Open ∧
        is_valid_for a (definition o) = true ∧
        approve s k a = (put_objective k (set_approval (Some a) o) s, [])).
Proof.
  unfold approve. destruct (open_objective s k) as [o|occ] eqn:Ho.
  2: { apply open_objective_Err in Ho as [reason ->]. eauto. }
  apply open_objective_Ok in Ho as [Ho Hst].
  destruct (is_valid_for a (definition o)) eqn:Ha; simpl; [|by eauto]. right. by exists o.
Qed.

Lemma close_cases s k :
  (∃ reason, close s k = (s, ignored reason)) ∨
  (∃ o, objectives s !! k = Some o ∧ (∀ w, status o ≠ Status_Closed w) ∧
        close s k = (put_objective k (closed (used o (usage s)) o) s, [Occurrence_Closed k])).
Proof.
  unfold close. destruct (objectives s !! k) as [o|]; [|by eauto].
  destruct (status o) eqn:Hst; [| |by eauto]; right; exists o; rewrite Hst; done.
Qed.
End outcomes.

(** Case analysis on what the handler in the goal does. *)
Ltac handler_cases :=
  lazymatch goal with
  | |- context [define ?s ?d] =>
      destruct (define_cases s d) as
        [[? ->]|[[? ->]|[(? & ? & ->)|[(? & ? & ? & ? & ? & ? & ->)|(? & ? & ? & ? & ? & ? & ->)]]]]
  | |- context [approve ?s ?k ?a] =>
      destruct (approve_cases s k a) as [[? ->]|(? & ? & ? & ? & ->)]
  | |- context [request ?s ?k ?r] =>
      destruct (request_cases s k r) as [[? ->]|[(? & ? & ? & ? & ->)|(? & ? & ? & ? & ->)]];
      [| |lazymatch goal with
          | |- context [start ?o r] => destruct (start_cases o r) as [[? ->]|[? ->]]
          end]
  | |- context [finish ?s ?k ?ev ?ck ?r ?i ?out] =>
      let Haw := fresh "Haw" in
      destruct (finish_cases s k ev ck r i out) as [(? & ? & ? & Haw)|[? ->]];
      [rewrite (finish_awaited _ _ _ _ _ _ _ _ _ _ Haw); unfold receive_occurrences;
       destruct Haw
      |]
  | |- context [settle ?s ?k ?ev ?d ?n] =>
      let Hse := fresh "Hse" in
      destruct (settle_cases s k ev d n) as [(? & ? & ? & ? & Hse)|[? ->]];
      [rewrite (settle_settleable _ _ _ d n _ _ _ _ Hse);
       let Hr := fresh "Hr" in
       lazymatch goal with
       | |- context [settle_refusal d ?v] => destruct (settle_refusal d v) eqn:Hr
       end; destruct Hse
      |]
  | |- context [close ?s ?k] =>
      destruct (close_cases s k) as [[? ->]|(? & ? & ? & ->)]
  end; cbn [fst snd].

Section lifecycle.
Context {SD : StandardDigest}.

(** ** The automaton *)

(** [ostep k u o e o']: on the event [e], after which the usage is [u], the objective
    at [k] goes from [o] to [o']. *)
Inductive ostep (k : str) (u : Usage) (o : ObjectiveState) : Event → ObjectiveState → Prop :=
| ostep_idle e : ostep k u o e o
| ostep_redefine_same d b :
    status o = Status_Open → key d = k → valid_definition d →
    standard_hash (definition o) = standard_hash d →
    ostep k u o (DefinitionChanged d) (set_budget_notified b (set_definition d o))
| ostep_redefine d b :
    status o = Status_Open → key d = k → valid_definition d →
    standard_hash (definition o) ≠ standard_hash d →
    ostep k u o (DefinitionChanged d) (restandardized b o d)
| ostep_approve a :
    status o = Status_Open → is_valid_for a (definition o) = true →
    ostep k u o (ApprovalGranted k a) (set_approval (Some a) o)
| ostep_request r :
    status o = Status_Open → is_approved o = true → evaluating o r = false →
    ostep k u o (Requested k r) (started o r)
| ostep_deliver r :
    status o = Status_Open → is_approved o = true → evaluating o r = false →
    ostep k u o (RevisionDelivered r) (started o r)
| ostep_receive id r ss ck c i out :
    status o = Status_Open → evaluation o = Some (Evaluation_Running id r ss) →
    check (definition o) ck = Some c → (i < samples (config c))%N →
    accepts (config c) out = true → received ss ck !! i = None →
    ostep k u o (CheckFinished k id ck r i out) (receive o id r ck i out ss)
| ostep_settle id r res v d note :
    status o = Status_Open → evaluation o = Some (Evaluation_Ready id r res v) →
    settle_refusal d v = None →
    ostep k u o (Event_Settled k id d note)
      (settled u o (record_settle (ledger o) (mkLedgerEntry r res d note) v) d)
| ostep_close :
    (∀ w, status o ≠ Status_Closed w) → ostep k u o (Event_Closed k) (closed (used o u) o)
| ostep_budget :
    status o = Status_Open →
    ostep k u o (Event_Usage u)
      (set_budget_notified
         (budget_notified o ∪ list_to_set (exhausted (budget (definition o)) (used o u))) o).

(** ** The handlers follow the automaton *)

Lemma deliver_lookup s r k :
  objectives (deliver s r).1 !! k = (λ o, (deliver_one r o).1) <$> objectives s !! k.
Proof. simpl. by rewrite lookup_fmap. Qed.

(** What one event does to the entry at [k]: it stays, or it follows [ostep], or
    the event defines it. *)
Definition moved (s : State) (e : Event) (s' : State) (k : str) (o' : ObjectiveState) : Prop :=
  (∃ o, objectives s !! k = Some o ∧ ostep k (usage s') o e o') ∨
  (objectives s !! k = None ∧ e = DefinitionChanged (definition o') ∧ key (definition o') = k ∧ valid_definition (definition o') ∧
   o' = new_objective (usage s) (definition o')).

Lemma moved_idle s e k o : objectives s !! k = Some o → moved s e s k o.
Proof. left. exists o. split; [done|]. apply ostep_idle. Qed.

Lemma moved_put s e k o o1 k' o' :
  objectives s !! k = Some o → ostep k (usage s) o e o1 →
  objectives (put_objective k o1 s) !! k' = Some o' → moved s e (put_objective k o1 s) k' o'.
Proof.
  intros Ho Hstep. simpl. rewrite lookup_insert_Some. intros [[<- <-]|[Hne Hl]].
  - left. eauto.
  - left. exists o'. split; [done|]. apply ostep_idle.
Qed.

Lemma define_moved s d k o' :
  objectives (define s d).1 !! k = Some o' → moved s (DefinitionChanged d) (define s d).1 k o'.
Proof.
  handler_cases; try apply moved_idle.
  - simpl. rewrite lookup_insert_Some. intros [[<- <-]|[Hne Hl]]; [by right|].
    left. exists o'. split; [done|]. apply ostep_idle.
  - eapply moved_put; [done|]. by apply ostep_redefine_same.
  - eapply moved_put; [done|]. by apply ostep_redefine.
Qed.

Lemma apply_event_moved s e k o' :
  objectives (apply_event s e).1 !! k = Some o' → moved s e (apply_event s e).1 k o'.
Proof.
  destruct e as [d|ko a|ko r|ko ev ck r i out|r|ko ev d n|ko|q|u]; cbn [apply_event].
  - apply define_moved.
  - handler_cases; [apply moved_idle|]. eapply moved_put; [done|]. by apply ostep_approve.
  - handler_cases; [apply moved_idle..| |]; (eapply moved_put; [done|]);
      [apply ostep_idle|by apply ostep_request].
  - handler_cases; [|apply moved_idle]. eapply moved_put; [done|]. by eapply ostep_receive.
  - rewrite deliver_lookup, fmap_Some. intros (o & Ho & ->). left. exists o. split; [done|].
    unfold deliver_one, deliverable. case_bool_decide; simpl; [|apply ostep_idle].
    destruct (is_approved o) eqn:Ha; [|apply ostep_idle].
    destruct (start_cases o r) as [[_ ->]|[He ->]]; [apply ostep_idle|by apply ostep_deliver].
  - handler_cases; [apply moved_idle| |apply moved_idle].
    eapply moved_put; [done|]. by eapply ostep_settle.
  - handler_cases; [apply moved_idle|]. eapply moved_put; [done|]. by apply ostep_close.
  - apply moved_idle.
  - intros Ho. left. exists o'. split; [done|]. apply ostep_idle.
Qed.

(** ** The trigger rules *)

(** Only a usage report makes a rule touch the objectives. *)
Lemma fire_one_objectives s occ :
  occ ≠ UsageReported →
  objectives (fire_one s occ).1 = objectives s ∧ usage (fire_one s occ).1 = usage s.
Proof.
  intros Hne. destruct occ as [n|k|k d|k|q|]; simpl; try done.
  - unfold after_settle. destruct (objectives s !! k); [|done]. simpl. by case_bool_decide.
  - by case_bool_decide.
  - rewrite compact_when_idle_objectives. split; [done|].
    unfold compact_when_idle. destruct (negb _); [done|]. by destruct (admit_command _ _ _).
Qed.

Lemma fire_objectives s occs :
  Forall (.≠ UsageReported) occs →
  objectives (fire s occs).1 = objectives s ∧ usage (fire s occs).1 = usage s.
Proof.
  intros Hall. revert s. induction Hall as [|occ occs Hne _ IH]; intros s; simpl; [done|].
  destruct (fire_one_objectives s occ Hne) as [H1 H1']. destruct (fire_one s occ) as [s1 i1].
  destruct (IH s1) as [H2 H2']. destruct (fire s1 occs). simpl in *. split; congruence.
Qed.

Lemma fire_singleton s occ : fire s [occ] = ((fire_one s occ).1, (fire_one s occ).2).
Proof. simpl. destruct (fire_one s occ) as [s1 i1]. simpl. by rewrite app_nil_r. Qed.

(** A rule list of notices only forwards them. *)
Lemma fire_notices s ns : fire s (Occurrence_Notice <$> ns) = (s, Notify <$> ns).
Proof. induction ns as [|n ns IH]; [done|]. rewrite !fmap_cons. cbn [fire fire_one]. by rewrite IH. Qed.

(** What the reducer reports of an event other than idling and usage: no idling, no
    usage report, and only notices of its own, not those of the trigger rules. *)
Definition plain (occ : Occurrence) : Prop :=
  match occ with
  | Occurrence_HostIdle _ | UsageReported
  | Occurrence_Notice (PlateauReached _ | ObjectiveDone _ | BudgetExhausted _ _) => False
  | _ => True
  end.

Definition reduced (e : Event) : Prop :=
  match e with Event_HostIdle _ | Event_Usage _ => False | _ => True end.

Lemma start_plain o r : Forall plain (start o r).2.
Proof. destruct (start_cases o r) as [[_ ->]|[_ ->]]; simpl; by repeat constructor. Qed.

Lemma apply_event_plain s e : reduced e → Forall plain (apply_event s e).2.
Proof.
  intros Hred. destruct e as [d|ko a|ko r|ko ev ck r i out|r|ko ev d n|ko|q|u]; cbn [apply_event];
    try done; try (handler_cases; try case_bool_decide; by repeat constructor).
  - handler_cases; [|by repeat constructor].
    destruct (evaluation (receive _ _ _ _ _ _ _)) as [[]|]; by repeat constructor.
  - apply Forall_bind, Forall_forall. intros o _. simpl. unfold deliver_one.
    destruct (deliverable o); [apply start_plain|constructor].
Qed.

Lemma apply_event_no_usage s e :
  (∀ u, e ≠ Event_Usage u) → Forall (.≠ UsageReported) (apply_event s e).2.
Proof.
  intros Hne. destruct e as [| | | | | | |q|u];
    try (eapply Forall_impl; [by apply apply_event_plain|]; by intros [] ?).
  - by repeat constructor.
  - by destruct (Hne u).
Qed.

Lemma react_Usage s u :
  react s (Event_Usage u) =
  remind_budgets (mkState (objectives s) u (pending_compact s) (compactions s)).
Proof. unfold react. cbn [apply_event]. by rewrite fire_singleton. Qed.

Lemma event_usage_dec e : {u | e = Event_Usage u} + {∀ u, e ≠ Event_Usage u}.
Proof. destruct e; [right; done..|left; eauto]. Defined.

Lemma react_fst_objectives s e :
  (∀ u, e ≠ Event_Usage u) →
  objectives (react s e).1 = objectives (apply_event s e).1 ∧
  usage (react s e).1 = usage (apply_event s e).1.
Proof.
  intros Hne. pose proof (apply_event_no_usage s e Hne) as Hocc.
  unfold react. destruct (apply_event s e) as [s1 occs]. by apply fire_objectives.
Qed.

(** The reminders of one objective: the exhausted limits not notified before. *)
Lemma remind_one_spec u o :
  remind_one u o =
  if bool_decide (status o = Status_Open) then
    let ls := exhausted (budget (definition o)) (used o u) in
    (set_budget_notified (budget_notified o ∪ list_to_set ls) o,
     filter (.∉ budget_notified o) ls)
  else (o, []).
Proof.
  unfold remind_one. destruct (decide (status o = Status_Open)) as [Hst|Hst].
  2: { by rewrite bool_decide_true, bool_decide_false. }
  rewrite bool_decide_false, bool_decide_true by (done || intros Hn; by apply Hn). cbn zeta.
  assert (∀ ls pre o1, NoDup ls → (∀ l, l ∈ ls → l ∈ budget_notified o1 ↔ l ∈ budget_notified o) →
    foldl (λ acc l, if bool_decide (l ∈ budget_notified acc.1) then acc
                    else (set_budget_notified ({[l]} ∪ budget_notified acc.1) acc.1, acc.2 ++ [l]))
      (o1, pre) ls =
    (set_budget_notified (budget_notified o1 ∪ list_to_set ls) o1,
     pre ++ filter (.∉ budget_notified o) ls)) as Hfold.
  { induction ls as [|l ls IH]; intros pre o1 Hnd Ho1.
    - simpl. rewrite (right_id_L ∅ (∪)), filter_nil, app_nil_r. by destruct o1.
    - apply NoDup_cons in Hnd as [Hni Hnd]. simpl.
      assert (∀ l', l' ∈ ls → l' ∈ budget_notified o1 ↔ l' ∈ budget_notified o) as Hls
        by (intros l' Hl'; apply Ho1; by right).
      specialize (Ho1 l ltac:(by left)). case_bool_decide as Hl.
      + rewrite IH by done. rewrite filter_cons_False by naive_solver.
        do 2 f_equal. set_solver.
      + rewrite IH; [|done|].
        * rewrite filter_cons_True, <-(assoc_L app) by naive_solver. simpl. f_equal.
          unfold set_budget_notified; simpl. f_equal. set_solver.
        * intros l' Hl'. simpl. rewrite elem_of_union, elem_of_singleton, Hls by done.
          split; [|by right]. intros [->|]; [done|done]. }
  rewrite Hfold; [done|apply exhausted_NoDup|done].
Qed.

(** Every event moves every objective by one step of the automaton. *)
Lemma react_moved s e k o' :
  objectives (react s e).1 !! k = Some o' → moved s e (react s e).1 k o'.
Proof.
  destruct (event_usage_dec e) as [[u ->]|Hne].
  - rewrite react_Usage. simpl. rewrite lookup_fmap_Some. intros (o & <- & Ho).
    left. exists o. split; [done|]. rewrite remind_one_spec. case_bool_decide; simpl.
    + by apply ostep_budget.
    + apply ostep_idle.
  - destruct (react_fst_objectives s e Hne) as [-> Hu]. intros Ho%apply_event_moved.
    unfold moved in *. by rewrite Hu.
Qed.

(** ** No event removes an objective *)

Lemma put_objective_is_Some s k o k' :
  is_Some (objectives s !! k') → is_Some (objectives (put_objective k o s) !! k').
Proof. intros Hk. simpl. apply lookup_insert_is_Some. destruct (decide (k = k')); auto. Qed.

Lemma apply_event_is_Some s e k :
  is_Some (objectives s !! k) → is_Some (objectives (apply_event s e).1 !! k).
Proof.
  intros Hk. destruct e as [d|ko a|ko r|ko ev ck r i out|r|ko ev d n|ko|q|u]; cbn [apply_event];
    try done; try (handler_cases; (done || by apply put_objective_is_Some)).
  rewrite deliver_lookup. by apply fmap_is_Some.
Qed.

Lemma react_is_Some s e k :
  is_Some (objectives s !! k) → is_Some (objectives (react s e).1 !! k).
Proof.
  intros Hk. destruct (event_usage_dec e) as [[u ->]|Hne].
  - rewrite react_Usage. simpl. rewrite lookup_fmap. by apply fmap_is_Some.
  - rewrite (proj1 (react_fst_objectives s e Hne)). by apply apply_event_is_Some.
Qed.

Lemma react_ostep s e k o :
  objectives s !! k = Some o →
  ∃ o', objectives (react s e).1 !! k = Some o' ∧ ostep k (usage (react s e).1) o e o'.
Proof.
  intros Ho. destruct (react_is_Some s e k (mk_is_Some _ _ Ho)) as [o' Ho'].
  exists o'. split; [done|].
  destruct (react_moved s e k o' Ho') as [(o1 & Ho1 & Hstep)|[Hn _]]; congruence.
Qed.

(** Objectives are stored under their own key and have a valid definition. *)
Definition keyed (s : State) : Prop :=
  map_Forall (λ k o, key (definition o) = k ∧ valid_definition (definition o)) (objectives s).

Lemma ostep_keyed k u o e o' :
  ostep k u o e o' → key (definition o) = k ∧ valid_definition (definition o) →
  key (definition o') = k ∧ valid_definition (definition o').
Proof.
  destruct 1; simpl; try done.
  - unfold receive. by destruct (complete _ _).
  - unfold settled. by case_bool_decide.
Qed.

Lemma react_keyed s e : keyed s → keyed (react s e).1.
Proof.
  intros Hs k o' Ho'. destruct (react_moved s e k o' Ho') as [(o & Ho & Hstep)|(_ & _ & Hk & Hv & _)].
  - eapply ostep_keyed; [done|]. by apply Hs.
  - done.
Qed.

Lemma state_ok_keyed s : state_ok s → keyed s.
Proof. intros Hs k o Ho. destruct (Hs k o Ho). done. Qed.

Lemma default_keyed : keyed default_state.
Proof. apply map_Forall_empty. Qed.

(** What every step preserves, every log preserves. *)
Lemma replay_ostep (P : ObjectiveState → Prop) s es k o :
  (∀ u o1 e o2, ostep k u o1 e o2 → P o1 → P o2) →
  objectives s !! k = Some o → P o →
  ∃ o', objectives (replay s es).1 !! k = Some o' ∧ P o'.
Proof.
  intros HP. revert s o. induction es as [|e es IH]; intros s o Ho Po; [by exists o|].
  rewrite replay_cons. simpl. destruct (react_ostep s e k o Ho) as (o1 & Ho1 & Hstep).
  eapply IH; [done|]. by eapply HP.
Qed.

Lemma ostep_closed k u w o e o' : ostep k u o e o' → status o = Status_Closed w → o' = o.
Proof. destruct 1; intros Hst; congruence || (exfalso; eauto; congruence) || (by destruct (H w)). Qed.

Lemma ostep_done k u w o e o' :
  ostep k u o e o' → status o = Status_Done w → o' = o ∨ o' = closed w o.
Proof.
  destruct 1; intros Hst; try congruence; [by left|]. right. unfold used. by rewrite Hst.
Qed.

(** A step of an objective extends its ledger and never moves its usage mark. *)
Lemma receive_ledger o id r ck i out ss : ledger (receive o id r ck i out ss) = ledger o.
Proof. unfold receive. by destruct (complete _ _). Qed.

Lemma ostep_entries k u o e o' : ostep k u o e o' → entries (ledger o) `prefix_of` entries (ledger o').
Proof.
  destruct 1; simpl; try done.
  - by rewrite entries_retain_comparable.
  - by rewrite receive_ledger.
  - unfold settled. case_bool_decide; simpl; by apply prefix_app_r.
Qed.

Lemma ostep_usage_at_start k u o e o' : ostep k u o e o' → usage_at_start o' = usage_at_start o.
Proof.
  destruct 1; simpl; try done.
  - unfold receive. by destruct (complete _ _).
  - unfold settled. by case_bool_decide.
Qed.

(** A closed objective is final: whatever events follow, it is still there and
    nothing about it changes, its definition, approval, ledger, usage and notified
    budgets included. *)
Theorem closed_absorbing s es k o w :
  objectives s !! k = Some o → status o = Status_Closed w →
  objectives (replay s es).1 !! k = Some o.
Proof.
  intros Ho Hst.
  destruct (replay_ostep (λ o', o' = o) s es k o) as (o' & Ho' & ->); try done.
  intros u o1 e o2 Hstep ->. by eapply ostep_closed.
Qed.

(** An objective settled as done can only be closed: through any later events
    it keeps its definition, approval and ledger, and the usage recorded when it was
    done stays the usage it reports. *)
Theorem done_final s es k o w :
  objectives s !! k = Some o → status o = Status_Done w →
  ∃ o', objectives (replay s es).1 !! k = Some o' ∧
        (o' = o ∨ o' = closed w o) ∧
        definition o' = definition o ∧ approval o' = approval o ∧ ledger o' = ledger o ∧
        ∀ current, used o' current = w.
Proof.
  intros Ho Hst.
  destruct (replay_ostep (λ o', o' = o ∨ o' = closed w o) s es k o) as (o' & Ho' & Hc).
  - intros u o1 e o2 Hstep [->| ->]; [by eapply ostep_done|].
    right. by eapply ostep_closed.
  - done.
  - by left.
  - exists o'. split; [done|]. split; [done|].
    destruct Hc as [->| ->]; repeat split; intros; unfold used; simpl; by rewrite ?Hst.
Qed.

(** The ledger is append-only: along any log of events an objective persists,
    the settled entries it had stay its first entries in the same order, and the
    usage its budget is measured from never changes. *)
Theorem ledger_append_only s es k o :
  objectives s !! k = Some o →
  ∃ o', objectives (replay s es).1 !! k = Some o' ∧
        entries (ledger o) `prefix_of` entries (ledger o') ∧
        usage_at_start o' = usage_at_start o.
Proof.
  intros Ho.
  apply (replay_ostep (λ o', entries (ledger o) `prefix_of` entries (ledger o') ∧
                             usage_at_start o' = usage_at_start o) s es k o); try done.
  intros u o1 e o2 Hstep [Hp Hu]. split.
  - etrans; [done|]. by eapply ostep_entries.
  - rewrite <-Hu. by eapply ostep_usage_at_start.
Qed.
End lifecycle.

(** ** Instances in the scenario *)

#[local] Existing Instance plain_digest.

Lemma closed_absorbing_witness :
  objectives (replay (at_log log_closed)
                [DefinitionChanged d0_stricter; ApprovalGranted k0 approval0; Event_Closed k0]).1 !! k0
  = Some (objective0 (at_log log_closed)).
Proof.
  apply (closed_absorbing _ _ _ _ default_usage); vm_compute; reflexivity.
Defined.

Lemma done_final_witness :
  ∃ o', objectives (replay (at_log log_done) [RevisionDelivered rev1; Event_Closed k0]).1 !! k0 = Some o' ∧
        (o' = objective0 (at_log log_done) ∨ o' = closed default_usage (objective0 (at_log log_done))) ∧
        definition o' = definition (objective0 (at_log log_done)) ∧
        approval o' = approval (objective0 (at_log log_done)) ∧
        ledger o' = ledger (objective0 (at_log log_done)) ∧
        ∀ current, used o' current = default_usage.
Proof. apply (done_final _ _ _ _ default_usage); vm_compute; reflexivity. Defined.

Lemma ledger_append_only_witness :
  ∃ o', objectives (replay (at_log log_kept) [DefinitionChanged d0_stricter]).1 !! k0 = Some o' ∧
        entries (ledger (objective0 (at_log log_kept))) `prefix_of` entries (ledger o') ∧
        usage_at_start o' = usage_at_start (objective0 (at_log log_kept)).
Proof. apply ledger_append_only. vm_compute. reflexivity. Defined.
