(* ===== verification/CheckRequests.v ===== *)
(** * The checks the engine asks for

    Which [RunCheck] intents an event produces, for which objectives, and that no
    sample is ever asked for twice. *)

From stdpp Require Import prelude gmap strings sorting.
From S2P Require Import Prelude Checks Objective Verdicts Ledgers Commands Engine Scenario.
From S2P Require Import EngineInv Lifecycle.

Section requests.
Context {SD : StandardDigest}.

(** The samples a list of intents asks for: objective, evaluation, check, revision
    and index; what identifies one is all but the revision. *)
Abbreviation Request := (str * N * str * str * N)%type.

Definition run_request (i : Intent) : option Request :=
  match i with RunCheck k ev c r n => Some (k, ev, c, r, n) | _ => None end.
Definition run_requests (l : list Intent) : list Request := omap run_request l.
Definition request_id (q : Request) : str * N * str * N :=
  let '(k, ev, c, _, n) := q in (k, ev, c, n).

Lemma elem_of_run_requests l k ev c r n :
  (k, ev, c, r, n) ∈ run_requests l ↔ RunCheck k ev c r n ∈ l.
Proof.
  unfold run_requests. rewrite list_elem_of_omap. split.
  - intros ([] & Hin & [=]). by subst.
  - intros Hin. by exists (RunCheck k ev c r n).
Qed.

Lemma run_requests_nil l : Forall (λ i, run_request i = None) l → run_requests l = [].
Proof. unfold run_requests. induction 1 as [|i l Hi _ IH]; simpl; [done|]. by rewrite Hi. Qed.

(** The samples a definition takes, in the order they are asked for. *)
Definition asked (d : ObjectiveDefinition) : list (str * N) :=
  checks d ≫= λ c, (check_id c,.) <$> N_range (samples (config c)).

Lemma elem_of_asked d id i :
  valid_definition d →
  (id, i) ∈ asked d ↔ ∃ c, check d id = Some c ∧ (i < samples (config c))%N.
Proof.
  intros Hd. unfold asked. rewrite list_elem_of_bind. split.
  - intros (c & Hin & Hc). apply list_elem_of_fmap in Hin as (n & [= -> ->] & Hn%elem_of_N_range).
    exists c. split; [|done]. apply check_In; [apply Hd|done].
  - intros (c & [Hin <-]%check_Some & Hi). exists c. split; [|done].
    apply list_elem_of_fmap. exists i. by rewrite elem_of_N_range.
Qed.

Lemma asked_NoDup d : valid_definition d → NoDup (asked d).
Proof.
  intros Hd. apply NoDup_bind.
  - intros c1 c2 [id i] Hc1 Hc2 (n1 & [= -> ->] & _)%list_elem_of_fmap (n2 & [= Hid ->] & _)%list_elem_of_fmap.
    pose proof (check_In d c1 (vd_unique _ Hd) Hc1) as H1.
    pose proof (check_In d c2 (vd_unique _ Hd) Hc2) as H2. congruence.
  - intros c _. apply NoDup_fmap; [by intros ?? [= ->]|auto with calm].
  - apply (NoDup_fmap_1 check_id), Hd.
Qed.

Lemma run_checks_requests s k o id r ss :
  objectives s !! k = Some o → evaluation o = Some (Evaluation_Running id r ss) →
  run_requests (run_checks s k) = (λ p, (k, id, p.1, r, p.2)) <$> asked (definition o).
Proof.
  intros Ho He. unfold run_requests, run_checks, asked. rewrite Ho, He.
  induction (checks (definition o)) as [|c cs IH]; [done|].
  rewrite !bind_cons, omap_app, fmap_app, IH. f_equal.
  induction (N_range (samples (config c))) as [|i l IHl]; [done|].
  rewrite !fmap_cons. cbn [omap list_omap run_request]. simpl. f_equal. exact IHl.
Qed.

(** ** Which occurrences start checks *)

Definition started_key (occ : Occurrence) : option str :=
  match occ with EvaluationStarted k => Some k | _ => None end.
Definition started_keys (occs : list Occurrence) : list str := omap started_key occs.

Lemma fire_one_requests s occ :
  occ ≠ UsageReported →
  run_requests (fire_one s occ).2 =
  match started_key occ with Some k => run_requests (run_checks s k) | None => [] end.
Proof.
  intros Hne. destruct occ as [n|k|k d|k|q|]; try done; simpl.
  - unfold after_settle. destruct (objectives s !! k); [|done]. simpl.
    destruct (plateau_reached _ _); simpl; by case_bool_decide.
  - unfold compact_when_idle. destruct (negb _); [done|]. by destruct (admit_command _ _ _).
Qed.

Lemma run_checks_objectives s s' k :
  objectives s = objectives s' → run_checks s k = run_checks s' k.
Proof. intros Heq. unfold run_checks. by rewrite Heq. Qed.

Lemma fire_requests s occs :
  Forall (.≠ UsageReported) occs →
  run_requests (fire s occs).2 = started_keys occs ≫= λ k, run_requests (run_checks s k).
Proof.
  intros Hall. revert s. induction Hall as [|occ occs Hne _ IH]; intros s; [done|].
  destruct (fire_one_objectives s occ Hne) as [Hobj _].
  pose proof (fire_one_requests s occ Hne) as H1.
  cbn [fire]. destruct (fire_one s occ) as [s1 i1].
  specialize (IH s1). destruct (fire s1 occs) as [s2 i2]. simpl in *.
  unfold run_requests, started_keys in *. rewrite omap_app, H1, IH.
  assert (∀ l, l ≫= (λ k, omap run_request (run_checks s1 k)) =
               l ≫= (λ k, omap run_request (run_checks s k))) as ->.
  { intros l. apply list_bind_ext; [|done]. intros k. by rewrite (run_checks_objectives s1 s). }
  simpl. by destruct (started_key occ).
Qed.

(** ** The objectives whose evaluation an event starts *)

Definition starts (s s' : State) (k : str) : Prop :=
  ∃ o r, objectives s !! k = Some o ∧ status o = Status_Open ∧ is_approved o = true ∧
         objectives s' !! k = Some (started o r).

Lemma deliver_one_started r o :
  started_keys (deliver_one r o).2 =
  if deliverable o && negb (evaluating o r) then [key (definition o)] else [].
Proof.
  unfold deliver_one. destruct (deliverable o); [|done].
  destruct (start_cases o r) as [[-> ->]|[-> ->]]; done.
Qed.

Lemma deliver_started r (l : list (str * ObjectiveState)) :
  (∀ k o, (k, o) ∈ l → key (definition o) = k) →
  let ks := started_keys (l.*2 ≫= λ o, (deliver_one r o).2) in
  ks `sublist_of` l.*1 ∧
  ∀ k, k ∈ ks → ∃ o, (k, o) ∈ l ∧ deliverable o = true ∧ evaluating o r = false.
Proof.
  induction l as [|[k o] l IH]; intros Hk; simpl; [by split; [|intros ? ?%not_elem_of_nil]|].
  destruct IH as [IH1 IH2]; [intros k' o' Hin; apply Hk; by right|].
  unfold started_keys in *. rewrite omap_app. fold (started_keys (deliver_one r o).2).
  rewrite deliver_one_started, (Hk k o) by left.
  destruct (deliverable o) eqn:Hd, (evaluating o r) eqn:He; simpl;
    (split; [by (apply sublist_skip || apply sublist_cons)|]).
  all: try (intros k' (o' & Hin & ?)%IH2; exists o'; split; [by right|done]).
  intros k' [->|(o' & Hin & ?)%IH2]%elem_of_cons; [exists o|exists o'];
    (split; [by (left || right)|done]).
Qed.

Lemma put_starts s k o r :
  objectives s !! k = Some o → status o = Status_Open → is_approved o = true →
  starts s (put_objective k (started o r) s) k.
Proof. intros Ho Hst Ha. exists o, r. simpl. by rewrite lookup_insert_eq. Qed.

Lemma apply_event_started s e :
  keyed s →
  NoDup (started_keys (apply_event s e).2) ∧
  ∀ k, k ∈ started_keys (apply_event s e).2 → starts s (apply_event s e).1 k.
Proof.
  intros Hs.
  assert (∀ s' : State, NoDup (@nil str) ∧ ∀ k, k ∈ @nil str → starts s s' k) as Hnil.
  { intros s'. split; [constructor|]. by intros k ?%not_elem_of_nil. }
  destruct e as [d|ko a|ko r|ko ev ck r i out|r|ko ev d n|ko|q|u]; cbn [apply_event];
    try apply Hnil.
  - handler_cases; try case_bool_decide; apply Hnil.
  - handler_cases; apply Hnil.
  - handler_cases; [apply Hnil..|]. simpl. edestruct (Hs ko) as [-> _]; [done|].
    split; [apply NoDup_singleton|]. intros k ->%list_elem_of_singleton. by apply put_starts.
  - handler_cases; [|apply Hnil]. destruct (evaluation (receive _ _ _ _ _ _ _)) as [[]|]; apply Hnil.
  - destruct (deliver_started r (btree_iter (objectives s))) as [H1 H2].
    { intros k o Hin%elem_of_btree_iter. by apply Hs. }
    split.
    + eapply sublist_NoDup; [|exact H1]. auto with calm.
    + intros k (o & Hin%elem_of_btree_iter & Hd & He)%H2. exists o, r.
      unfold deliverable in Hd. apply andb_true_iff in Hd as [Hst%bool_decide_eq_true Ha].
      repeat split; try done. rewrite deliver_lookup, Hin. simpl. f_equal.
      unfold deliver_one, deliverable. rewrite bool_decide_true, Ha by done. simpl.
      destruct (start_cases o r) as [[? _]|[_ ->]]; [congruence|done].
  - handler_cases; apply Hnil.
  - handler_cases; apply Hnil.
Qed.
(** What an event asks for: every sample of the evaluations it starts. *)
Lemma react_requests s e :
  keyed s →
  ∃ ks, NoDup ks ∧ (∀ k, k ∈ ks → starts s (react s e).1 k) ∧
        run_requests (react s e).2 = ks ≫= λ k, run_requests (run_checks (react s e).1 k).
Proof.
  intros Hs. destruct (event_usage_dec e) as [[u ->]|Hne].
  - exists []. split; [constructor|]. split; [by intros k ?%not_elem_of_nil|].
    rewrite react_Usage. apply run_requests_nil, Forall_bind, Forall_forall. intros p _.
    by apply Forall_fmap, Forall_forall.
  - destruct (apply_event_started s e Hs) as [Hnd Hin].
    pose proof (apply_event_no_usage s e Hne) as Hocc.
    destruct (react_fst_objectives s e Hne) as [Hobj _].
    exists (started_keys (apply_event s e).2). split; [done|]. split.
    + intros k (o & r & Ho & Hst & Ha & Ho')%Hin. exists o, r. by rewrite Hobj.
    + revert Hobj. unfold react. destruct (apply_event s e) as [s1 occs]. simpl in *. intros Hobj.
      rewrite fire_requests by done. apply list_bind_ext; [|done].
      intros k. by rewrite (run_checks_objectives s1 (fire s1 occs).1).
Qed.

Lemma started_requests s s' k q :
  keyed s → starts s s' k → q ∈ run_requests (run_checks s' k) →
  ∃ o r c id i, objectives s !! k = Some o ∧ status o = Status_Open ∧ is_approved o = true ∧
     objectives s' !! k = Some (started o r) ∧ q = (k, evaluations o, id, r, i) ∧
     check (definition o) id = Some c ∧ (i < samples (config c))%N.
Proof.
  intros Hs (o & r & Ho & Hst & Ha & Ho') Hq.
  erewrite run_checks_requests in Hq by done.
  apply list_elem_of_fmap in Hq as ([id i] & -> & Hask).
  apply elem_of_asked in Hask as (c & Hc & Hi); [|by apply (Hs k o)].
  exists o, r, c, id, i. done.
Qed.

(** The engine asks the host to run a check only for an objective that is open
    and whose approval matches its current standard, only while that objective is
    evaluating exactly the revision and evaluation number named in the request with
    no sample received yet, and only for a check of its definition and a sample
    index that check takes. *)
Theorem run_check_sound s e k ev id r i :
  keyed s → RunCheck k ev id r i ∈ (react s e).2 →
  ∃ o c, objectives (react s e).1 !! k = Some o ∧ status o = Status_Open ∧
         is_approved o = true ∧ evaluation o = Some (Evaluation_Running ev r ∅) ∧
         check (definition o) id = Some c ∧ (i < samples (config c))%N.
Proof.
  intros Hs Hin%elem_of_run_requests.
  destruct (react_requests s e Hs) as (ks & _ & Hks & Hreq). rewrite Hreq in Hin.
  apply list_elem_of_bind in Hin as (k' & Hq & Hk').
  destruct (started_requests s _ k' _ Hs (Hks _ Hk') Hq)
    as (o & r' & c & id' & i' & _ & Hst & Ha & Ho' & [= -> -> -> -> ->] & Hc & Hi).
  exists (started o r'), c. done.
Qed.

(** ** No sample is asked for twice *)

(** After [n] events and the requests [qs]: every objective has started at most [n]
    evaluations, and every request names an evaluation already counted. *)
Record numbered (n : N) (s : State) (qs : list Request) : Prop := {
  nb_keyed : keyed s;
  nb_count : ∀ k o, objectives s !! k = Some o → (evaluations o <= n)%N;
  nb_past : ∀ q, q ∈ qs → ∃ o, objectives s !! q.1.1.1.1 = Some o ∧ (q.1.1.1.2 < evaluations o)%N;
  nb_unique : NoDup (request_id <$> qs);
}.

Lemma u64_succ_small n : (n < u64_modulus - 1)%N → u64_succ n = (n + 1)%N.
Proof. intros Hn. unfold u64_succ. apply N.mod_small. lia. Qed.

(** Below the width of the counter, a step counts at most one more evaluation. *)
Lemma ostep_evaluations k u o e o' :
  ostep k u o e o' → (evaluations o < u64_modulus - 1)%N →
  (evaluations o <= evaluations o' <= evaluations o + 1)%N.
Proof.
  destruct 1; intros Hb; simpl; try lia.
  - rewrite u64_succ_small by done. lia.
  - rewrite u64_succ_small by done. lia.
  - unfold receive. destruct (complete _ _); simpl; lia.
  - unfold settled. case_bool_decide; simpl; lia.
Qed.

Lemma numbered_default : numbered 0 default_state [].
Proof.
  constructor.
  - apply default_keyed.
  - intros k o. simpl. by rewrite lookup_empty.
  - by intros q ?%not_elem_of_nil.
  - constructor.
Qed.

Lemma requests_NoDup s s' ks :
  keyed s → NoDup ks → (∀ k, k ∈ ks → starts s s' k) →
  NoDup (request_id <$> (ks ≫= λ k, run_requests (run_checks s' k))).
Proof.
  intros Hs Hnd Hks. rewrite bind_fmap. apply NoDup_bind; [| |done].
  - intros k1 k2 x Hk1 Hk2 (q1 & -> & Hq1)%list_elem_of_fmap (q2 & Heq & Hq2)%list_elem_of_fmap.
    destruct (started_requests s s' k1 q1 Hs (Hks _ Hk1) Hq1) as (? & ? & ? & ? & ? & _ & _ & _ & _ & -> & _).
    destruct (started_requests s s' k2 q2 Hs (Hks _ Hk2) Hq2) as (? & ? & ? & ? & ? & _ & _ & _ & _ & -> & _).
    by simplify_eq/=.
  - intros k (o & r & Ho & _ & _ & Ho')%Hks. erewrite run_checks_requests by done.
    rewrite <-list_fmap_compose. apply NoDup_fmap.
    + intros [] [] [=]. by subst.
    + apply asked_NoDup, (Hs k o Ho).
Qed.

Lemma numbered_react n s qs e :
  (n < u64_modulus - 1)%N → numbered n s qs →
  numbered (n + 1) (react s e).1 (qs ++ run_requests (react s e).2).
Proof.
  intros Hn [Hs Hc Hp Hu]. destruct (react_requests s e Hs) as (ks & Hnd & Hks & ->).
  assert (∀ k o, objectives s !! k = Some o → ∃ o', objectives (react s e).1 !! k = Some o' ∧
            (evaluations o <= evaluations o' <= evaluations o + 1)%N) as Hmono.
  { intros k o Ho. destruct (react_ostep s e k o Ho) as (o' & Ho' & Hstep). exists o'.
    split; [done|]. eapply ostep_evaluations; [done|]. specialize (Hc k o Ho). lia. }
  constructor.
  - by apply react_keyed.
  - intros k o' Ho'. destruct (react_moved s e k o' Ho') as [(o & Ho & _)|(_ & _ & _ & _ & ->)]; [|simpl; lia].
    destruct (Hmono k o Ho) as (o1 & Ho1 & ?). specialize (Hc k o Ho). simplify_eq. lia.
  - intros q [Hq|(k & Hq & Hk)%list_elem_of_bind]%elem_of_app.
    + destruct (Hp q Hq) as (o & Ho & Hlt). destruct (Hmono _ o Ho) as (o' & Ho' & ?).
      exists o'. split; [done|lia].
    + destruct (started_requests s _ k q Hs (Hks k Hk) Hq)
        as (o & r & ? & ? & ? & Ho & _ & _ & Ho' & -> & _). simpl.
      exists (started o r). split; [done|]. simpl. specialize (Hc k o Ho).
      rewrite u64_succ_small by lia. lia.
  - rewrite fmap_app. apply NoDup_app. split; [done|]. split; [|by eapply requests_NoDup].
    intros x (q1 & -> & Hq1)%list_elem_of_fmap (q2 & Heq & Hq2)%list_elem_of_fmap.
    apply list_elem_of_bind in Hq2 as (k & Hq2 & Hk).
    destruct (started_requests s _ k q2 Hs (Hks k Hk) Hq2)
      as (o & r & ? & ? & ? & Ho & _ & _ & _ & -> & _).
    destruct (Hp q1 Hq1) as (o1 & Ho1 & Hlt). destruct q1 as [[[[k1 ev1] id1] r1] i1].
    simplify_eq/=. lia.
Qed.

Lemma numbered_replay n s qs es :
  (n + N.of_nat (length es) < u64_modulus)%N → numbered n s qs →
  numbered (n + N.of_nat (length es)) (replay s es).1 (qs ++ run_requests (replay s es).2).
Proof.
  revert n s qs. induction es as [|e es IH]; intros n s qs Hn Hnb.
  - simpl. by rewrite app_nil_r, N.add_0_r.
  - rewrite replay_cons. cbn [length fst snd] in *. unfold run_requests in *.
    rewrite omap_app, app_assoc. replace (n + N.of_nat (S (length es)))%N
      with (n + 1 + N.of_nat (length es))%N by lia.
    apply IH; [lia|]. apply numbered_react; [lia|done].
Qed.

(** C28: in any history of fewer than 2^64 events the engine never asks for the same
    sample twice: no two requests agree on objective, evaluation number, check and
    sample index, so a result can never answer two requests. *)
Theorem requests_unique es :
  (N.of_nat (length es) < u64_modulus)%N →
  NoDup (request_id <$> run_requests (replay default_state es).2).
Proof.
  intros Hn. apply (numbered_replay 0 default_state [] es); [done|]. apply numbered_default.
Qed.
End requests.

(** ** Instances in the scenario *)

#[local] Existing Instance plain_digest.

Lemma run_check_sound_witness :
  ∃ o c, objectives (react (at_log log_approved) (Requested k0 rev1)).1 !! k0 = Some o ∧
         status o = Status_Open ∧ is_approved o = true ∧
         evaluation o = Some (Evaluation_Running 0 rev1 ∅) ∧
         check (definition o) (lit "review") = Some c ∧ (1 < samples (config c))%N.
Proof.
  apply (run_check_sound (at_log log_approved) (Requested k0 rev1) k0 0 (lit "review") rev1 1).
  - apply state_ok_keyed, scenario_state_ok. vm_compute. reflexivity.
  - apply elem_of_run_requests, (bool_decide_eq_true_1 _). vm_compute. reflexivity.
Defined.

Lemma requests_unique_witness :
  NoDup (request_id <$> run_requests (replay default_state log_closed).2).
Proof. apply requests_unique. vm_compute. reflexivity. Defined.
