(* ===== verification/Reports.v ===== *)
(** * Check results coming in

    A running evaluation collects the samples it asked for. Results reach the
    engine in any order; the evaluation becomes ready exactly with the last one,
    and what it becomes does not depend on the order. *)

From stdpp Require Import prelude gmap strings sorting.
From S2P Require Import Prelude Checks Objective Verdicts Ledgers Commands Engine Scenario.
From S2P Require Import EngineInv Lifecycle CheckRequests.

Section reports.
Context {SD : StandardDigest}.

(** What the host measured: the output of each sample. *)
Context (out : str → N → SampleOutput).

(** The samples collected from a list of results. *)
Definition gather (l : list (str * N)) : Samples :=
  foldl (λ ss p, <[p.1 := <[p.2 := out p.1 p.2]> (received ss p.1)]> ss) ∅ l.

Lemma gather_snoc l p :
  gather (l ++ [p]) = <[p.1 := <[p.2 := out p.1 p.2]> (received (gather l) p.1)]> (gather l).
Proof. unfold gather. by rewrite foldl_app. Qed.

Lemma received_gather l id i x :
  received (gather l) id !! i = Some x ↔ (id, i) ∈ l ∧ x = out id i.
Proof.
  induction l as [|[id' i'] l IH] using rev_ind.
  { unfold received, gather. simpl. rewrite lookup_empty. simpl. rewrite lookup_empty.
    split; [done|]. by intros [?%not_elem_of_nil _]. }
  rewrite gather_snoc, elem_of_app, list_elem_of_singleton. simpl.
  destruct (decide (id' = id)) as [->|Hne].
  - rewrite received_insert, lookup_insert_Some, IH. split.
    + intros [[-> <-]|[Hne [Hin ->]]]; auto.
    + intros [[Hin|[= ->]] ->]; [|by left]. destruct (decide (i' = i)) as [->|]; auto.
  - unfold received at 1. rewrite lookup_insert_ne by done. fold (received (gather l) id).
    rewrite IH. split; intros [? ->]; split; auto. destruct H as [|[=]]; [done|congruence].
Qed.

(** The results of an evaluation whose samples came out as [out]. *)
Definition expected_results (d : ObjectiveDefinition) : Results :=
  btree_collect
    (omap (λ c,
       match combine (config c) (out (check_id c) <$> N_range (samples (config c))) with
       | Ok o => Some (check_id c, o)
       | Err _ => None
       end) (checks d)).

Section definition.
Context (d : ObjectiveDefinition) (Hd : valid_definition d).

Lemma gather_below l c :
  (∀ p, p ∈ l → p ∈ asked d) → c ∈ checks d →
  ∀ i, is_Some (received (gather l) (check_id c) !! i) → (i < samples (config c))%N.
Proof.
  intros Hsub Hc i [x [Hin _]%received_gather]. apply Hsub, elem_of_asked in Hin as (c' & Hc' & Hi); [|done].
  rewrite check_In in Hc' by (done || apply Hd). by simplify_eq.
Qed.

Lemma complete_gather l :
  (∀ p, p ∈ l → p ∈ asked d) →
  complete d (gather l) = true ↔ ∀ p, p ∈ asked d → p ∈ l.
Proof.
  intros Hsub. rewrite complete_true. split.
  - intros Hc [id i] (c & Hck & Hi)%elem_of_asked; [|done].
    pose proof (check_Some d id c Hck) as [Hin <-]. specialize (Hc c Hin).
    replace (match gather l !! check_id c with Some m => size m | None => 0 end)
      with (size (received (gather l) (check_id c))) in Hc
      by (unfold received; by destruct (gather l !! check_id c)).
    apply (size_below _ _ (gather_below l c Hsub Hin)) with (i := i) in Hc; [|done].
    destruct Hc as [x [? _]%received_gather]. done.
  - intros Hall c Hin.
    transitivity (N.of_nat (size (received (gather l) (check_id c)))).
    { unfold received. by destruct (gather l !! check_id c). }
    apply (size_below _ _ (gather_below l c Hsub Hin)). intros i Hi.
    exists (out (check_id c) i). apply received_gather. split; [|done].
    apply Hall, elem_of_asked; [done|]. exists c. split; [|done]. apply check_In; [apply Hd|done].
Qed.

(** All samples in, the combined results are the expected ones. *)
Lemma combined_gather l : l ≡ₚ asked d → combined d (gather l) = expected_results d.
Proof.
  intros Hl. unfold combined, expected_results. f_equal.
  assert (∀ c, c ∈ checks d → ∃ m, gather l !! check_id c = Some m ∧
            btree_values m = out (check_id c) <$> N_range (samples (config c))) as Hm.
  { intros c Hc. assert (0 < samples (config c))%N as Hpos.
    { apply valid_config_samples. pose proof (vd_configs _ Hd) as Hv.
      rewrite Forall_forall in Hv. by apply Hv. }
    assert (∀ i, (check_id c, i) ∈ l ↔ (i < samples (config c))%N) as Hin.
    { intros i. rewrite Hl, elem_of_asked by done. rewrite check_In by (done || apply Hd).
      naive_solver. }
    assert (is_Some (received (gather l) (check_id c) !! 0%N)) as [x Hx].
    { exists (out (check_id c) 0%N). apply received_gather. by rewrite Hin. }
    unfold received in Hx. destruct (gather l !! check_id c) as [m|] eqn:E; simpl in Hx; [|done].
    exists m. split; [done|]. apply btree_values_below. intros i a.
    rewrite <-Hin, <-received_gather. unfold received. by rewrite E. }
  apply omap_ext_in. intros c Hc. by destruct (Hm c Hc) as (m & -> & ->).
Qed.
End definition.

(** ** Running an evaluation to its verdict *)

Section evaluation.
Context (s : State) (k : str) (o : ObjectiveState) (ev : N) (r : str).

Definition report (p : str * N) : Event := CheckFinished k ev p.1 r p.2 (out p.1 p.2).

Definition verdict_of (results : Results) : Verdict :=
  keepable (definition o) (default ∅ (baseline_results (ledger o))) results.

(** The objective once all results are in. *)
Definition evaluated (results : Results) : ObjectiveState :=
  set_evaluation (Some (Evaluation_Ready ev r results (verdict_of results)))
    (set_latest_verdict (Some (verdict_of results)) o).

Definition collecting (l : list (str * N)) : State :=
  put_objective k (set_evaluation (Some (Evaluation_Running ev r (gather l))) o) s.

Context (Hd : valid_definition (definition o)) (Hst : status o = Status_Open).
Context (Hout : ∀ id c i, check (definition o) id = Some c → (i < samples (config c))%N →
                          accepts (config c) (out id i) = true).

Lemma report_collecting l p :
  p ∈ asked (definition o) → p ∉ l → (∀ q, q ∈ l → q ∈ asked (definition o)) →
  react (collecting l) (report p) =
  if complete (definition o) (gather (l ++ [p]))
  then (put_objective k (evaluated (combined (definition o) (gather (l ++ [p])))) s,
        [Notify (EvaluationReady k ev r
                   (kind (verdict_of (combined (definition o) (gather (l ++ [p]))))))])
  else (collecting (l ++ [p]), []).
Proof.
  destruct p as [id i]. intros (c & Hc & Hi)%elem_of_asked Hnew Hsub; [|done].
  unfold react. cbn [apply_event report fst snd].
  set (o1 := set_evaluation (Some (Evaluation_Running ev r (gather l))) o).
  rewrite (finish_awaited (collecting l) k ev id r i (out id i) o1 (gather l) c).
  2: { constructor; try done.
       - unfold collecting; simpl. by rewrite lookup_insert_eq.
       - by apply (Hout id).
       - apply eq_None_not_Some. intros [x [Hx _]%received_gather]. done. }
  rewrite gather_snoc. unfold receive. cbn [fst snd].
  assert (∀ x, put_objective k x (collecting l) = put_objective k x s) as Hput.
  { intros x. unfold collecting, put_objective, set_objectives; simpl. by rewrite insert_insert_eq. }
  change (definition o1) with (definition o). change (ledger o1) with (ledger o).
  destruct (complete _ _); rewrite Hput; [done|]. unfold collecting at 1. by rewrite gather_snoc.
Qed.

Lemma reports_collecting l1 l2 :
  NoDup (l1 ++ l2) → l1 ++ l2 ≡ₚ asked (definition o) → l2 ≠ [] →
  let results := expected_results (definition o) in
  replay (collecting l1) (report <$> l2) =
  (put_objective k (evaluated results) s,
   [Notify (EvaluationReady k ev r (kind (verdict_of results)))]).
Proof.
  revert l1. induction l2 as [|p l2 IH]; intros l1 Hnd Hperm Hne; [done|]. cbn zeta.
  assert (∀ q, q ∈ l1 ++ [p] → q ∈ asked (definition o)) as Hsub.
  { intros q Hq. rewrite <-Hperm. set_solver. }
  assert (p ∉ l1) as Hnew.
  { apply NoDup_app in Hnd as (_ & Hdis & _). intros Hin. apply (Hdis p Hin). by left. }
  rewrite fmap_cons, replay_cons, report_collecting; [|set_solver|done|set_solver].
  destruct (complete _ _) eqn:Hco.
  - rewrite complete_gather in Hco by done.
    assert (l2 = []) as ->.
    { destruct l2 as [|q l2]; [done|]. exfalso. assert (q ∈ l1 ++ [p]) as Hq.
      { apply Hco. rewrite <-Hperm. set_solver. }
      rewrite (cons_middle p l1), (assoc_L app) in Hnd. apply NoDup_app in Hnd as (_ & Hdis & _).
      apply (Hdis q Hq). by left. }
    simpl. by rewrite combined_gather.
  - destruct l2 as [|q l2].
    + exfalso. assert (complete (definition o) (gather (l1 ++ [p])) = true); [|congruence].
      rewrite complete_gather by done. intros q Hq. by rewrite Hperm.
    + cbn [fst snd]. rewrite IH; [done| |  |done].
      * by rewrite <-(assoc_L app).
      * by rewrite <-(assoc_L app).
Qed.

Lemma asked_not_nil : asked (definition o) ≠ [].
Proof.
  destruct (checks (definition o)) as [|c cs] eqn:E; [by destruct (vd_checks _ Hd)|]. intros Hn.
  assert ((check_id c, 0%N) ∈ asked (definition o)) as Hin; [|rewrite Hn in Hin; by apply not_elem_of_nil in Hin].
  assert (c ∈ checks (definition o)) as Hc by (rewrite E; by left).
  apply elem_of_asked; [done|]. exists c. split; [apply check_In; [apply Hd|done]|].
  apply valid_config_samples. pose proof (vd_configs _ Hd) as Hv. rewrite Forall_forall in Hv. by apply Hv.
Qed.
End evaluation.

(** C30: results may arrive in any order. When every sample a fresh evaluation of a
    valid, open objective asked for is reported once, in any order and with an
    output of its check's kind, the evaluation becomes ready, with the results
    combined per check in sample order and the verdict of judging them against the
    current baseline; nothing else changes, and the one notice sent is that the
    evaluation is ready. *)
Theorem evaluation_completes s k o ev r l :
  objectives s !! k = Some o → valid_definition (definition o) → status o = Status_Open →
  evaluation o = Some (Evaluation_Running ev r ∅) →
  (∀ id c i, check (definition o) id = Some c → (i < samples (config c))%N →
             accepts (config c) (out id i) = true) →
  l ≡ₚ asked (definition o) →
  let results := expected_results (definition o) in
  replay s (report k ev r <$> l) =
  (put_objective k (evaluated o ev r results) s,
   [Notify (EvaluationReady k ev r (kind (verdict_of o results)))]).
Proof.
  intros Ho Hd Hst He Hout Hl. cbn zeta.
  assert (s = collecting s k o ev r []) as Hcol.
  { unfold collecting. change (gather []) with (∅ : Samples).
    rewrite set_evaluation_id by done. by rewrite put_objective_id. }
  rewrite Hcol at 1. apply reports_collecting; try done.
  - simpl. rewrite Hl. by apply asked_NoDup.
  - intros ->. apply Permutation_nil_l in Hl. by apply (asked_not_nil o Hd).
Qed.
End reports.

(** ** An instance in the scenario *)

#[local] Existing Instance plain_digest.

(** The samples of the first evaluation, reported backwards. *)
Lemma evaluation_completes_witness :
  let s := at_log log_running in
  let o := objective0 s in
  let results := expected_results out0 (definition o) in
  replay s (report out0 k0 0 rev1 <$> reverse asked0) =
  (put_objective k0 (evaluated o 0 rev1 results) s,
   [Notify (EvaluationReady k0 0 rev1 (kind (verdict_of o results)))]).
Proof.
  apply (evaluation_completes out0).
  - vm_compute. reflexivity.
  - apply validate_nil_iff. vm_compute. reflexivity.
  - vm_compute. reflexivity.
  - vm_compute. reflexivity.
  - intros id c i Hc _. apply check_Some in Hc as [Hin <-].
    assert (checks (definition (objective0 (at_log log_running))) = checks d0) as E
      by (vm_compute; reflexivity).
    rewrite E in Hin. simpl in Hin. rewrite !elem_of_cons, elem_of_nil in Hin.
    destruct Hin as [->|[->|[->|[]]]]; vm_compute; reflexivity.
  - apply (bool_decide_eq_true_1 _). vm_compute. reflexivity.
Defined.
