(* ===== verification/Settlement.v ===== *)
(** * Approval, redefinition, refusal and settlement

    What each event of the engine may change, as the operator sees it: nothing
    runs on a standard nobody approved, a changed standard starts over, a refused
    or ignored event changes nothing, and a settle that adopts a revision was
    justified by the evaluation it names. *)

From stdpp Require Import prelude gmap strings sorting.
From S2P Require Import Prelude Checks Objective Verdicts Ledgers Commands Engine Scenario.
From S2P Require Import EngineInv Lifecycle CheckRequests.

Section settlement.
Context {SD : StandardDigest}.

(** ** Approval *)

(** An approval an objective holds after an event was granted by that event or held
    before it. *)
Lemma ostep_approval k u o e o' a :
  ostep k u o e o' → approval o' = Some a → e = ApprovalGranted k a ∨ approval o = Some a.
Proof.
  destruct 1; simpl; auto; [done|..].
  - intros [= ->]. by left.
  - unfold receive. destruct (complete _ _); auto.
  - unfold settled. case_bool_decide; auto.
Qed.

Lemma react_approval s e k o' a :
  objectives (react s e).1 !! k = Some o' → approval o' = Some a →
  e = ApprovalGranted k a ∨ ∃ o, objectives s !! k = Some o ∧ approval o = Some a.
Proof.
  intros Ho' Ha. destruct (react_moved s e k o' Ho') as [(o & Ho & Hstep)|(_ & _ & _ & _ & Heq)].
  - destruct (ostep_approval _ _ _ _ _ _ Hstep Ha); eauto.
  - rewrite Heq in Ha. done.
Qed.

Lemma replay_keyed s es : keyed s → keyed (replay s es).1.
Proof.
  revert s; induction es as [|e es IH]; intros s Hs; [done|].
  rewrite replay_cons. by apply IH, react_keyed.
Qed.

Lemma replay_snoc_fst s es e : (replay s (es ++ [e])).1 = (react (replay s es).1 e).1.
Proof.
  revert s; induction es as [|e' es IH]; intros s.
  - change ([] ++ [e]) with [e]. by rewrite replay_cons.
  - rewrite <-app_comm_cons, !replay_cons. apply IH.
Qed.

Lemma replay_approval es k o a :
  objectives (replay default_state es).1 !! k = Some o → approval o = Some a →
  ApprovalGranted k a ∈ es.
Proof.
  revert o. induction es as [|e es IH] using rev_ind; intros o; [simpl; by rewrite lookup_empty|].
  rewrite replay_snoc_fst. intros Ho Ha.
  destruct (react_approval _ _ _ _ _ Ho Ha) as [->|(o1 & Ho1 & Ha1)]; set_solver.
Qed.

(** C12: no check runs on a standard nobody approved: whenever the engine, after any
    history, reacts to an event by asking for a check of an objective, the history
    or that event contains an approval of this objective for exactly the hash of
    the standard the objective has at that moment. *)
Theorem checks_need_approval es e k ev id r i :
  RunCheck k ev id r i ∈ (react (replay default_state es).1 e).2 →
  ∃ o a, objectives (react (replay default_state es).1 e).1 !! k = Some o ∧
         ApprovalGranted k a ∈ es ++ [e] ∧
         a_standard_hash a = standard_hash (definition o).
Proof.
  intros Hin%elem_of_run_requests. set (s := (replay default_state es).1) in *.
  assert (keyed s) as Hs by apply replay_keyed, default_keyed.
  destruct (react_requests s e Hs) as (ks & _ & Hks & Hreq). rewrite Hreq in Hin.
  apply list_elem_of_bind in Hin as (k' & Hq & Hk').
  destruct (started_requests s _ k' _ Hs (Hks _ Hk') Hq)
    as (o & r' & c & id' & i' & _ & _ & Ha & Ho' & [= -> -> -> -> ->] & _ & _).
  unfold is_approved in Ha. destruct (approval o) as [a|] eqn:Happ; [|done].
  exists (started o r'), a. split; [done|]. split.
  - eapply replay_approval; [by rewrite replay_snoc_fst|done].
  - unfold is_valid_for in Ha. by apply bool_decide_eq_true in Ha.
Qed.

(** ** Redefinition *)

Lemma react_notices s e s' ns :
  apply_event s e = (s', Occurrence_Notice <$> ns) → react s e = (s', Notify <$> ns).
Proof. intros He. unfold react. rewrite He. apply fire_notices. Qed.

(** A definition is rejected exactly when it is not well-formed (blank texts, no
    or duplicate checks, bad check parameters, no goal to converge to or ratchet to
    loop on, blank constraints, zero budgets); a rejected definition changes
    nothing, and a well-formed one under a new key registers an open, unapproved
    objective with an empty ledger and asks for the approval of its standard. *)
Theorem define_new s d :
  objectives s !! key d = None →
  (valid_definition d →
     react s (DefinitionChanged d) =
     (put_objective (key d) (new_objective (usage s) d) s,
      [Notify (ApprovalRequired (key d) (standard_hash d))])) ∧
  (¬ valid_definition d →
     validate d ≠ [] ∧
     react s (DefinitionChanged d) = (s, [Notify (DefinitionRejected (key d) (validate d))])).
Proof.
  intros Hn. destruct (define_cases s d) as [[Hv Hdef]|[[r Hdef]|[(Hd & _ & Hdef)|[(o & b & _ & Ho & _)
      |(o & b & _ & Ho & _)]]]]; try congruence.
  - split; [by intros Hd%validate_nil_iff|]. intros _. split; [done|].
    by apply (react_notices _ _ _ [_]).
  - exfalso. unfold define in Hdef. rewrite Hn in Hdef. destruct (validate d); simplify_eq.
  - split; [|done]. intros _. by apply (react_notices _ _ _ [_]).
Qed.

(** Redefining an open objective without changing the hash of its standard keeps
    its approval, its evaluation with the samples received so far, its verdict and
    its ledger, and says nothing. A changed standard drops approval, evaluation and
    verdict, keeps the settled entries and, of the baseline, exactly the results of
    checks whose configuration is the same before and after, withdraws a standing
    approval and asks for a new one. *)
Theorem redefinition s d o :
  objectives s !! key d = Some o → status o = Status_Open → valid_definition d →
  ∃ o', objectives (react s (DefinitionChanged d)).1 !! key d = Some o' ∧ definition o' = d ∧
    (standard_hash (definition o) = standard_hash d →
       approval o' = approval o ∧ evaluation o' = evaluation o ∧
       latest_verdict o' = latest_verdict o ∧ ledger o' = ledger o ∧
       (react s (DefinitionChanged d)).2 = []) ∧
    (standard_hash (definition o) ≠ standard_hash d →
       approval o' = None ∧ evaluation o' = None ∧ latest_verdict o' = None ∧
       entries (ledger o') = entries (ledger o) ∧
       (∀ id, baseline_results (ledger o') ≫= (.!! id) =
              if same_config (definition o) d id then baseline_results (ledger o) ≫= (.!! id) else None) ∧
       (react s (DefinitionChanged d)).2 =
         (if bool_decide (is_Some (approval o)) then [Notify (ApprovalInvalidated (key d))] else []) ++
         [Notify (ApprovalRequired (key d) (standard_hash d))]).
Proof.
  intros Ho Hst Hd.
  destruct (define_cases s d) as [[Hv _]|[[r Hdef]|[(_ & ? & _)|[(o1 & b & _ & Ho1 & _ & Hh & Hdef)
      |(o1 & b & _ & Ho1 & _ & Hh & Hdef)]]]]; try congruence.
  - by apply validate_nil_iff in Hd.
  - exfalso. unfold define in Hdef. rewrite (proj2 (validate_nil_iff d) Hd), Ho in Hdef.
    rewrite (proj2 (open_objective_Ok s _ o)) in Hdef by done.
    case_bool_decide; simplify_eq; by destruct (bool_decide _).
  - assert (o1 = o) as -> by congruence. rewrite (react_notices s (DefinitionChanged d) _ [] Hdef).
    eexists. split; [simpl; apply lookup_insert_eq|]. split; [done|]. split; [done|].
    intros Hne. by destruct (Hne Hh).
  - assert (o1 = o) as -> by congruence. rewrite (react_notices s (DefinitionChanged d)
      (put_objective (key d) (restandardized b o d) s)
      ((if bool_decide (is_Some (approval o)) then [ApprovalInvalidated (key d)] else []) ++
       [ApprovalRequired (key d) (standard_hash d)])).
    2: { cbn [apply_event]. rewrite Hdef. by case_bool_decide. }
    eexists. split; [simpl; apply lookup_insert_eq|]. split; [done|]. split; [done|]. intros _.
    simpl. rewrite entries_retain_comparable. repeat split; try done.
    + intros id. unfold baseline_results. destruct (baseline (ledger o)) as [bl|] eqn:Hb.
      * destruct (retain_comparable_lookup _ (definition o) d _ Hb) as (b' & -> & _ & Hl). apply Hl.
      * unfold retain_comparable. rewrite Hb, Hb. simpl. by destruct (same_config _ _ _).
    + by case_bool_decide.
Qed.

(** ** Refusals *)

(** The notices that say an event had no effect. *)
Definition refusal (n : Notice) : bool :=
  match n with EventIgnored _ | SettleRefused _ _ | DefinitionRejected _ _ => true | _ => false end.

(** The rules forward notices and add none that is a refusal. *)
Lemma fire_one_refusal s occ n :
  Notify n ∈ (fire_one s occ).2 → refusal n = true → occ = Occurrence_Notice n.
Proof.
  intros Hin Hr. destruct occ as [n'|k|k d|k|q|]; cbn [fire_one snd] in Hin.
  - by apply list_elem_of_singleton in Hin as [= ->].
  - unfold run_checks in Hin. destruct (objectives s !! k) as [o|]; [|by apply not_elem_of_nil in Hin].
    destruct (evaluation o) as [[]|]; try (by apply not_elem_of_nil in Hin).
    apply list_elem_of_bind in Hin as (c & Hin & _). by apply list_elem_of_fmap in Hin as (? & [=] & _).
  - unfold after_settle in Hin. destruct (objectives s !! k); [|by apply not_elem_of_nil in Hin].
    cbn [snd] in Hin. apply elem_of_app in Hin as [Hin|Hin];
      [destruct (plateau_reached _ _)|case_bool_decide];
      try (by apply not_elem_of_nil in Hin); by apply list_elem_of_singleton in Hin as [= ->].
  - by apply not_elem_of_nil in Hin.
  - unfold compact_when_idle in Hin. destruct (negb _); [by apply not_elem_of_nil in Hin|].
    destruct (admit_command _ _ _); simpl in Hin; try (by apply not_elem_of_nil in Hin).
    by apply list_elem_of_singleton in Hin.
  - simpl in Hin. apply list_elem_of_bind in Hin as (p & Hin & _).
    by apply list_elem_of_fmap in Hin as (l & [= ->] & _).
Qed.

Lemma fire_refusal s occs n :
  Notify n ∈ (fire s occs).2 → refusal n = true → Occurrence_Notice n ∈ occs.
Proof.
  intros Hin Hr. revert s Hin. induction occs as [|occ occs IH]; intros s; cbn [fire].
  { by intros ?%not_elem_of_nil. }
  pose proof (fire_one_refusal s occ n) as H1. destruct (fire_one s occ) as [s1 i1].
  specialize (IH s1). destruct (fire s1 occs) as [s2 i2]. simpl in *.
  rewrite elem_of_app, elem_of_cons. intros [Hin|Hin]; [left; symmetry|right]; auto.
Qed.

Lemma start_refusal o r n : Occurrence_Notice n ∉ (start o r).2.
Proof.
  destruct (start_cases o r) as [[_ ->]|[_ ->]]; simpl; [apply not_elem_of_nil|].
  by intros ?%list_elem_of_singleton.
Qed.

(** Membership in a short list of known occurrences. *)
Ltac notice_cases :=
  unfold ignored, approval_required; simpl; rewrite ?elem_of_cons, ?elem_of_nil;
  let Hin := fresh in intros Hin; destruct_or? Hin; by simplify_eq/=.

Lemma apply_event_refusal s e n :
  Occurrence_Notice n ∈ (apply_event s e).2 → refusal n = true →
  apply_event s e = (s, [Occurrence_Notice n]).
Proof.
  destruct e as [d|ko a|ko r|ko ev ck r i out|r|ko ev d m|ko|q|u]; cbn [apply_event];
    try (by intros ?%list_elem_of_singleton).
  - handler_cases; try case_bool_decide; notice_cases.
  - handler_cases; notice_cases.
  - handler_cases; notice_cases.
  - handler_cases; [destruct (evaluation (receive _ _ _ _ _ _ _)) as [[]|]|]; notice_cases.
  - simpl. intros (o & Hin & _)%list_elem_of_bind. unfold deliver_one in Hin.
    destruct (deliverable o); [by apply start_refusal in Hin|by apply not_elem_of_nil in Hin].
  - handler_cases; notice_cases.
  - handler_cases; notice_cases.
Qed.

(** A refused event has no effect: when the engine answers an event with the
    notice that it was ignored, that a settle was refused or that a definition was
    rejected, the state is unchanged and that notice is all it answers. *)
Theorem refused_unchanged s e n :
  Notify n ∈ (react s e).2 → refusal n = true → react s e = (s, [Notify n]).
Proof.
  intros Hin Hr. apply (react_notices s e s [n]), apply_event_refusal; [|done].
  unfold react in Hin. destruct (apply_event s e) as [s1 occs]. by eapply fire_refusal.
Qed.

(** ** Check results *)

Lemma react_finish_awaited s k ev ck r i out o ss c :
  awaited s k ev ck r i out o ss c →
  (react s (CheckFinished k ev ck r i out)).1 = put_objective k (receive o ev r ck i out ss) s.
Proof.
  intros Haw. unfold react. cbn [apply_event].
  rewrite (finish_awaited _ _ _ _ _ _ _ _ _ _ Haw). unfold receive_occurrences.
  by destruct (evaluation (receive _ _ _ _ _ _ _)) as [[]|].
Qed.

(** A check result has an effect exactly when it is awaited: the objective is
    open and evaluating that evaluation number at that revision, the check is one of
    its checks, the index is one the check takes, the output is of the check's kind
    and that sample has not been received before. Every stale, duplicate,
    out-of-range or mistyped result leaves the state as it is. *)
Theorem finish_effect s k ev ck r i out :
  (react s (CheckFinished k ev ck r i out)).1 ≠ s ↔
  ∃ o ss c, awaited s k ev ck r i out o ss c.
Proof.
  split.
  - intros Hne. destruct (finish_cases s k ev ck r i out) as [|[reason Heq]]; [done|].
    destruct Hne. by rewrite (react_notices s (CheckFinished k ev ck r i out) s [EventIgnored reason]).
  - intros (o & ss & c & Haw). rewrite (react_finish_awaited _ _ _ _ _ _ _ _ _ _ Haw).
    destruct Haw. intros Heq. apply (f_equal objectives) in Heq. simpl in Heq.
    assert (receive o ev r ck i out ss = o) as Hrec.
    { apply (f_equal (.!! k)) in Heq. rewrite lookup_insert_eq in Heq. congruence. }
    apply (f_equal evaluation) in Hrec. unfold receive in Hrec. rewrite aw_running in Hrec.
    destruct (complete _ _); [done|]. simpl in Hrec. injection Hrec as Hss.
    apply (f_equal (λ x, received x ck !! i)) in Hss.
    rewrite received_insert, lookup_insert_eq in Hss. congruence.
Qed.

(** ** Settles *)

Lemma react_settle s k ev d note o r res v :
  settleable s k ev o r res v → settle_refusal d v = None →
  objectives (react s (Event_Settled k ev d note)).1 !! k =
  Some (settled (usage s) o (record_settle (ledger o) (mkLedgerEntry r res d note) v) d).
Proof.
  intros Hse Hr. rewrite (proj1 (react_fst_objectives s (Event_Settled k ev d note) ltac:(done))).
  cbn [apply_event]. rewrite (settle_settleable _ _ _ _ _ _ _ _ _ Hse), Hr. simpl.
  apply lookup_insert_eq.
Qed.

Lemma react_settle_refused s k ev d note o r res v :
  settleable s k ev o r res v → is_Some (settle_refusal d v) →
  (react s (Event_Settled k ev d note)).1 = s.
Proof.
  intros Hse [err Hr]. rewrite (react_notices s (Event_Settled k ev d note) s [SettleRefused k err]);
    [done|]. cbn [apply_event]. by rewrite (settle_settleable _ _ _ _ _ _ _ _ _ Hse), Hr.
Qed.

Lemma verdict_no_regression d base res :
  kind (keepable d base res) ≠ VerdictKind_Regression →
  ∀ c, c ∈ checks d → ¬ check_regresses base res c.
Proof. intros Hk. pose proof (keepable_sound d base res) as Hs. destruct (kind _); [done|apply Hs..]. Qed.

(** C22: a settle is justified by the evaluation it names. In a state satisfying the
    invariant, a settle that takes effect names the ready evaluation of an open
    objective and appends one entry with exactly its revision and results; when it
    adopts the revision (keep or done) no check regressed against the baseline and
    the revision becomes the baseline; a discard leaves the baseline; a done settle
    needs a converging objective whose every goal passes and records the usage. *)
Theorem settle_justified s k ev d note :
  state_ok s → (react s (Event_Settled k ev d note)).1 ≠ s →
  ∃ o r res v o', settleable s k ev o r res v ∧
    objectives (react s (Event_Settled k ev d note)).1 !! k = Some o' ∧
    evaluation o' = None ∧
    entries (ledger o') = entries (ledger o) ++ [mkLedgerEntry r res d note] ∧
    let base := default ∅ (baseline_results (ledger o)) in
    match d with
    | Decision_Discard => baseline (ledger o') = baseline (ledger o) ∧ status o' = Status_Open
    | Decision_Keep =>
        (∀ c, c ∈ checks (definition o) → ¬ check_regresses base res c) ∧
        baseline (ledger o') = Some (mkBaseline r res) ∧ status o' = Status_Open
    | Decision_Done =>
        (∀ c, c ∈ checks (definition o) → ¬ check_regresses base res c) ∧
        mode (definition o) = Converge ∧
        (∀ c, c ∈ checks (definition o) → role c = Goal → check_passes base res c) ∧
        baseline (ledger o') = Some (mkBaseline r res) ∧
        status o' = Status_Done (since (usage s) (usage_at_start o))
    end.
Proof.
  intros Hs Hne. destruct (settle_cases s k ev d note) as [(o & r & res & v & Hse)|[reason Heq]].
  2: { destruct Hne. by rewrite (react_notices s (Event_Settled k ev d note) s [EventIgnored reason]). }
  destruct (settle_refusal d v) as [err|] eqn:Hr.
  { destruct Hne. eapply react_settle_refused; [done|]. by rewrite Hr. }
  exists o, r, res, v, (settled (usage s) o (record_settle (ledger o) (mkLedgerEntry r res d note) v) d).
  split; [done|]. split; [by apply react_settle|].
  destruct Hse as [Ho Hst He].
  destruct (ok_evaluation _ _ (Hs k o Ho) _ He) as (_ & _ & _ & _ & Hv & _).
  apply settle_refusal_None in Hr as [Hkeep Hdone]. rewrite Hv in Hkeep, Hdone.
  destruct d; simpl.
  - split; [done|]. split; [done|]. split; [|done]. by apply verdict_no_regression, Hkeep.
  - done.
  - split; [done|]. split; [done|]. split; [by apply verdict_no_regression, Hkeep|].
    pose proof (keepable_sound (definition o) (default ∅ (baseline_results (ledger o))) res) as Hspec.
    rewrite Hdone in Hspec by done. destruct Hspec as (_ & Hm & _ & Hg).
    repeat split; try done. unfold settled. simpl. unfold used. simpl. by rewrite Hst.
Qed.
End settlement.

(** ** Instances in the scenario *)

#[local] Existing Instance plain_digest.

Lemma checks_need_approval_witness :
  ∃ o a, objectives (react (replay default_state log_approved).1 (Requested k0 rev1)).1 !! k0 = Some o ∧
         ApprovalGranted k0 a ∈ log_approved ++ [Requested k0 rev1] ∧
         a_standard_hash a = standard_hash (definition o).
Proof.
  apply (checks_need_approval log_approved (Requested k0 rev1) k0 0 (lit "tests") rev1 0).
  apply elem_of_run_requests, (bool_decide_eq_true_1 _). vm_compute. reflexivity.
Defined.

Lemma define_new_witness :
  react default_state (DefinitionChanged d0) =
  (put_objective k0 (new_objective default_usage d0) default_state,
   [Notify (ApprovalRequired k0 (standard_hash d0))]).
Proof.
  apply (define_new default_state d0).
  - vm_compute. reflexivity.
  - apply validate_nil_iff. vm_compute. reflexivity.
Defined.

(** A stricter standard in the middle of an evaluation. *)
Lemma redefinition_witness :
  let s := at_log log_running in
  let o := objective0 s in
  ∃ o', objectives (react s (DefinitionChanged d0_stricter)).1 !! k0 = Some o' ∧
        definition o' = d0_stricter ∧
    (standard_hash (definition o) = standard_hash d0_stricter →
       approval o' = approval o ∧ evaluation o' = evaluation o ∧
       latest_verdict o' = latest_verdict o ∧ ledger o' = ledger o ∧
       (react s (DefinitionChanged d0_stricter)).2 = []) ∧
    (standard_hash (definition o) ≠ standard_hash d0_stricter →
       approval o' = None ∧ evaluation o' = None ∧ latest_verdict o' = None ∧
       entries (ledger o') = entries (ledger o) ∧
       (∀ id, baseline_results (ledger o') ≫= (.!! id) =
              if same_config (definition o) d0_stricter id
              then baseline_results (ledger o) ≫= (.!! id) else None) ∧
       (react s (DefinitionChanged d0_stricter)).2 =
         (if bool_decide (is_Some (approval o)) then [Notify (ApprovalInvalidated k0)] else []) ++
         [Notify (ApprovalRequired k0 (standard_hash d0_stricter))]).
Proof.
  apply (redefinition (at_log log_running) d0_stricter (objective0 (at_log log_running))).
  - vm_compute. reflexivity.
  - vm_compute. reflexivity.
  - apply validate_nil_iff. vm_compute. reflexivity.
Defined.

Lemma refused_unchanged_witness :
  react (at_log log_closed) (Event_Closed k0) =
  (at_log log_closed, [Notify (EventIgnored NotOpen)]).
Proof.
  apply refused_unchanged; [|reflexivity].
  replace (react (at_log log_closed) (Event_Closed k0)).2 with [Notify (EventIgnored NotOpen)]
    by (vm_compute; reflexivity).
  left.
Defined.

Lemma settle_justified_witness :
  let s := at_log log_ready2 in
  ∃ o r res v o', settleable s k0 1 o r res v ∧
    objectives (react s (Event_Settled k0 1 Decision_Done (lit "ok"))).1 !! k0 = Some o' ∧
    evaluation o' = None ∧
    entries (ledger o') = entries (ledger o) ++ [mkLedgerEntry r res Decision_Done (lit "ok")] ∧
    let base := default ∅ (baseline_results (ledger o)) in
    (∀ c, c ∈ checks (definition o) → ¬ check_regresses base res c) ∧
    mode (definition o) = Converge ∧
    (∀ c, c ∈ checks (definition o) → role c = Goal → check_passes base res c) ∧
    baseline (ledger o') = Some (mkBaseline r res) ∧
    status o' = Status_Done (since (usage s) (usage_at_start o)).
Proof.
  apply (settle_justified (at_log log_ready2) k0 1 Decision_Done (lit "ok")).
  - apply scenario_state_ok. vm_compute. reflexivity.
  - intros Heq. apply (f_equal (λ s, status (objective0 s))) in Heq. vm_compute in Heq. discriminate.
Defined.
