(* ===== verification/Triggers.v ===== *)
(** * The trigger rules: budget reminders and compaction

    Which limits the engine reminds the operator of, and when it asks the host to
    compact its context. *)

From stdpp Require Import prelude gmap strings sorting.
From S2P Require Import Prelude Checks Objective Verdicts Ledgers Commands Engine Scenario.
From S2P Require Import EngineInv Lifecycle CheckRequests.

Section triggers.
Context {SD : StandardDigest}.

(** ** Budget reminders *)

Definition budget_notice (i : Intent) : option (str * BudgetLimit) :=
  match i with Notify (BudgetExhausted k l) => Some (k, l) | _ => None end.
Definition budget_notices (l : list Intent) : list (str * BudgetLimit) := omap budget_notice l.

(** The limits one objective is reminded of when the usage is [u]. *)
Definition reminders (u : Usage) (o : ObjectiveState) : list BudgetLimit :=
  if bool_decide (status o = Status_Open)
  then filter (.∉ budget_notified o) (exhausted (budget (definition o)) (since u (usage_at_start o)))
  else [].

Lemma remind_one_snd u o : (remind_one u o).2 = reminders u o.
Proof.
  rewrite remind_one_spec. unfold reminders. case_bool_decide as Hst; [|done]. simpl.
  unfold used. by rewrite Hst.
Qed.

Lemma react_Usage_notices s u :
  budget_notices (react s (Event_Usage u)).2 =
  btree_iter (objectives s) ≫= λ p, (p.1,.) <$> reminders u p.2.
Proof.
  rewrite react_Usage. simpl. unfold budget_notices.
  induction (btree_iter (objectives s)) as [|p l IH]; [done|].
  rewrite !bind_cons, omap_app, IH, remind_one_snd. f_equal.
  induction (reminders u p.2) as [|x ls IHl]; [done|]. rewrite !fmap_cons. simpl. f_equal. exact IHl.
Qed.

Lemma elem_of_budget_notices l k b :
  (k, b) ∈ budget_notices l ↔ Notify (BudgetExhausted k b) ∈ l.
Proof.
  unfold budget_notices. rewrite list_elem_of_omap. split.
  - intros ([| |[]] & Hin & [=]). by subst.
  - intros Hin. by exists (Notify (BudgetExhausted k b)).
Qed.

(** On a usage report, the operator is told of a limit exactly for the open
    objectives whose usage since they were defined has reached it and that have
    not been notified of it; closed and done objectives are never reminded. *)
Theorem budget_reminder_iff s u k l :
  Notify (BudgetExhausted k l) ∈ (react s (Event_Usage u)).2 ↔
  ∃ o, objectives s !! k = Some o ∧ status o = Status_Open ∧ (l ∉ budget_notified o) ∧
       (match l with
       | BudgetLimit_Turns => b_turns (budget (definition o)) <= u_turns u - u_turns (usage_at_start o)
       | BudgetLimit_Tokens =>
           b_tokens (budget (definition o)) <= context_tokens u - context_tokens (usage_at_start o)
       | BudgetLimit_WallSecs =>
           b_wall_secs (budget (definition o)) <= elapsed_secs u - elapsed_secs (usage_at_start o)
       end)%N.
Proof.
  rewrite <-elem_of_budget_notices, react_Usage_notices, list_elem_of_bind. split.
  - intros ([k' o] & (l' & [= -> ->] & Hin)%list_elem_of_fmap & Ho%elem_of_btree_iter).
    exists o. unfold reminders in Hin. simpl in Hin.
    case_bool_decide; [|by apply not_elem_of_nil in Hin].
    apply list_elem_of_filter in Hin as [Hn He%elem_of_exhausted]. done.
  - intros (o & Ho & Hst & Hn & He). exists (k, o). rewrite elem_of_btree_iter. split; [|done].
    apply list_elem_of_fmap. exists l. split; [done|]. unfold reminders. simpl.
    rewrite bool_decide_true by done. by rewrite list_elem_of_filter, elem_of_exhausted.
Qed.

Lemma fire_one_plain s occ :
  plain occ →
  budget_notices (fire_one s occ).2 = [] ∧ compactions (fire_one s occ).1 = compactions s ∧
  (pending_compact s = true → pending_compact (fire_one s occ).1 = true).
Proof.
  destruct occ as [n|k|k d|k|q|]; simpl; try done.
  - by destruct n.
  - intros _. split; [|done]. unfold budget_notices, run_checks.
    destruct (objectives s !! k) as [o|]; [|done]. destruct (evaluation o) as [[]|]; try done.
    induction (checks (definition o)) as [|c cs IH]; [done|]. rewrite bind_cons, omap_app, IH.
    rewrite app_nil_r. by induction (N_range _).
  - intros _. unfold after_settle. destruct (objectives s !! k); [|done]. simpl.
    destruct (plateau_reached _ _), (bool_decide (d = _)); simpl; by case_bool_decide.
  - by case_bool_decide.
Qed.

Lemma fire_plain s occs :
  Forall plain occs →
  budget_notices (fire s occs).2 = [] ∧ compactions (fire s occs).1 = compactions s ∧
  (pending_compact s = true → pending_compact (fire s occs).1 = true).
Proof.
  intros Hall. revert s. induction Hall as [|occ occs Hp _ IH]; intros s; [done|]. cbn [fire].
  destruct (fire_one_plain s occ Hp) as (H1 & H2 & H3). destruct (fire_one s occ) as [s1 i1].
  destruct (IH s1) as (IH1 & IH2 & IH3). destruct (fire s1 occs) as [s2 i2]. simpl in *.
  unfold budget_notices in *. rewrite omap_app, H1, IH1. split; [done|]. split; [congruence|auto].
Qed.

Lemma apply_event_compaction s e :
  pending_compact (apply_event s e).1 = pending_compact s ∧
  compactions (apply_event s e).1 = compactions s.
Proof.
  destruct e as [d|ko a|ko r|ko ev ck r i out|r|ko ev d n|ko|q|u]; cbn [apply_event];
    try done; by handler_cases.
Qed.

(** An event other than idling and usage sends no reminder and neither runs nor
    forgets a compaction. *)
Lemma react_reduced s e :
  reduced e →
  budget_notices (react s e).2 = [] ∧ compactions (react s e).1 = compactions s ∧
  (pending_compact s = true → pending_compact (react s e).1 = true).
Proof.
  intros He. pose proof (apply_event_plain s e He) as Hp.
  destruct (apply_event_compaction s e) as [Hpc Hc]. unfold react.
  destruct (apply_event s e) as [s1 occs]. simpl in *. rewrite <-Hpc, <-Hc. by apply fire_plain.
Qed.

Lemma react_HostIdle s q : react s (Event_HostIdle q) = compact_when_idle s q.
Proof. unfold react. cbn [apply_event]. rewrite fire_singleton. symmetry. apply surjective_pairing. Qed.

Lemma ostep_notified k u o e o' :
  ostep k u o e o' → (∀ d, e ≠ DefinitionChanged d) → budget_notified o ⊆ budget_notified o'.
Proof.
  destruct 1; intros Hne; simpl; try done; try (by edestruct Hne).
  - unfold receive. by destruct (complete _ _).
  - unfold settled. by case_bool_decide.
  - set_solver.
Qed.

(** Everything reminded of so far is recorded. *)
Definition recorded (s : State) (ns : list (str * BudgetLimit)) : Prop :=
  ∀ k l, (k, l) ∈ ns → ∃ o, objectives s !! k = Some o ∧ l ∈ budget_notified o.

Lemma react_notices_recorded s e :
  recorded (react s e).1 (budget_notices (react s e).2) ∧
  NoDup (budget_notices (react s e).2) ∧
  ∀ k l, (k, l) ∈ budget_notices (react s e).2 →
         ∃ o, objectives s !! k = Some o ∧ l ∉ budget_notified o.
Proof.
  destruct (decide (budget_notices (react s e).2 = [])) as [->|Hnn].
  { split; [by intros k l ?%not_elem_of_nil|]. split; [constructor|].
    by intros k l ?%not_elem_of_nil. }
  destruct e as [d|ko a|ko r|ko ev ck r i out|r|ko ev d n|ko|q|u];
    try (destruct Hnn; by apply react_reduced).
  - destruct Hnn. rewrite react_HostIdle. unfold compact_when_idle.
    destruct (negb _); [done|]. by destruct (admit_command _ _ _).
  - clear Hnn. rewrite react_Usage_notices.
    assert (∀ k l, (k, l) ∈ (btree_iter (objectives s) ≫= λ p, (p.1,.) <$> reminders u p.2) →
              ∃ o, objectives s !! k = Some o ∧ l ∈ reminders u o) as Hin.
    { intros k l ([k' o] & (l' & [= -> ->] & Hin)%list_elem_of_fmap & Ho%elem_of_btree_iter)%list_elem_of_bind.
      by exists o. }
    split; [|split].
    + intros k l (o & Ho & Hl)%Hin. rewrite react_Usage. simpl. rewrite lookup_fmap, Ho. simpl.
      eexists. split; [done|]. rewrite remind_one_spec. unfold reminders in Hl.
      case_bool_decide as Hst; [|by apply not_elem_of_nil in Hl]. simpl.
      apply list_elem_of_filter in Hl as [_ Hl]. unfold used. rewrite Hst. set_solver.
    + apply NoDup_bind.
      * intros [k1 o1] [k2 o2] [k l] H1%elem_of_btree_iter H2%elem_of_btree_iter
          (? & [= -> ->] & _)%list_elem_of_fmap (? & [= -> ->] & _)%list_elem_of_fmap. congruence.
      * intros [k o] _. apply NoDup_fmap; [by intros ?? [= ->]|]. unfold reminders.
        case_bool_decide; [|constructor]. apply NoDup_filter, exhausted_NoDup.
      * eapply NoDup_fmap_1, btree_iter_NoDup.
    + intros k l (o & Ho & Hl)%Hin. exists o. split; [done|]. unfold reminders in Hl.
      case_bool_decide; [|by apply not_elem_of_nil in Hl]. by apply list_elem_of_filter in Hl as [? _].
Qed.

Lemma recorded_react s e ns :
  (∀ d, e ≠ DefinitionChanged d) → recorded s ns → recorded (react s e).1 ns.
Proof.
  intros Hne Hr k l Hin. destruct (Hr k l Hin) as (o & Ho & Hl).
  destruct (react_ostep s e k o Ho) as (o' & Ho' & Hstep). exists o'. split; [done|].
  by apply (ostep_notified _ _ _ _ _ Hstep Hne).
Qed.

(** As long as no objective is redefined, a limit of an objective is announced
    at most once, however often usage is reported past it. *)
Theorem budget_reminded_once s es :
  (∀ d, DefinitionChanged d ∉ es) → NoDup (budget_notices (replay s es).2).
Proof.
  intros Hes.
  assert (∀ ns, recorded s ns → NoDup ns → NoDup (ns ++ budget_notices (replay s es).2)) as Hgen.
  2: { apply (Hgen []); [|constructor]. by intros k l ?%not_elem_of_nil. }
  revert s. induction es as [|e es IH]; intros s ns Hr Hnd; [by rewrite app_nil_r|].
  rewrite replay_cons. cbn [snd]. unfold budget_notices. rewrite omap_app, app_assoc.
  destruct (react_notices_recorded s e) as (H1 & H2 & H3).
  assert (∀ d, e ≠ DefinitionChanged d) as Hne by (intros d ->; apply (Hes d); by left).
  apply IH.
  - intros d Hin. apply (Hes d). by right.
  - intros k l [Hin|Hin]%elem_of_app; [|by apply H1]. by apply (recorded_react s e ns).
  - apply NoDup_app. split; [done|]. split; [|done]. intros [k l] Hin Hin'.
    destruct (Hr k l Hin) as (o & Ho & Hl). destruct (H3 k l Hin') as (o' & Ho' & Hl').
    congruence.
Qed.

(** ** Compaction *)

Definition execution (i : Intent) : option CommandCall :=
  match i with Execute c => Some c | _ => None end.
Definition executions (l : list Intent) : list CommandCall := omap execution l.

(** The compaction a state asks for. *)
Definition compaction (s : State) : CommandCall :=
  CommandCall_Compact
    {| sequence := compactions s;
       brief := (λ o, objective_brief (definition o) (ledger o) (latest_verdict o))
                  <$> btree_values (objectives s) |}.

Lemma compact_when_idle_spec s q :
  compact_when_idle s q =
  if pending_compact s && (q =? 0)%N
  then (mkState (objectives s) (usage s) false (u64_succ (compactions s)), [Execute (compaction s)])
  else (s, []).
Proof.
  unfold compact_when_idle. destruct (pending_compact s); [|done]. cbn [negb andb].
  destruct (admit_command _ _ _) eqn:Ha.
  - apply admit_compact_Ready in Ha as [_ Hq]. simpl in Hq. by subst q.
  - destruct (N.eqb_spec q 0) as [->|]; [|done]. done.
  - destruct (N.eqb_spec q 0) as [->|]; [|done]. done.
Qed.

Lemma executions_fire_one s occ :
  (∀ q, occ ≠ Occurrence_HostIdle q) → executions (fire_one s occ).2 = [].
Proof.
  intros Hne. destruct occ as [n|k|k d|k|q|]; simpl; try done; unfold executions.
  - unfold run_checks. destruct (objectives s !! k) as [o|]; [|done].
    destruct (evaluation o) as [[]|]; try done.
    induction (checks (definition o)) as [|c cs IH]; [done|]. rewrite bind_cons, omap_app, IH.
    rewrite app_nil_r. by induction (N_range _).
  - unfold after_settle. destruct (objectives s !! k); [|done]. simpl.
    by destruct (plateau_reached _ _), (bool_decide (d = _)).
  - by destruct (Hne q).
  - induction (btree_iter (objectives s)) as [|p l IH]; [done|]. rewrite bind_cons, omap_app, IH.
    rewrite app_nil_r. by induction (remind_one _ _).2.
Qed.

Lemma executions_fire s occs :
  Forall (λ occ, ∀ q, occ ≠ Occurrence_HostIdle q) occs → executions (fire s occs).2 = [].
Proof.
  intros Hall. revert s. induction Hall as [|occ occs Hne _ IH]; intros s; [done|]. cbn [fire].
  pose proof (executions_fire_one s occ Hne) as H1. destruct (fire_one s occ) as [s1 i1].
  specialize (IH s1). destruct (fire s1 occs) as [s2 i2]. simpl in *.
  unfold executions in *. by rewrite omap_app, H1, IH.
Qed.

(** What an event executes. *)
Lemma react_executions s e :
  executions (react s e).2 =
  match e with
  | Event_HostIdle q => if pending_compact s && (q =? 0)%N then [compaction s] else []
  | _ => []
  end.
Proof.
  destruct e as [| | | | | | |q|u] eqn:He;
    try (unfold react; pose proof (apply_event_plain s e) as Hp; rewrite He in Hp;
         destruct (apply_event s _) as [s1 occs]; apply executions_fire;
         eapply Forall_impl; [by apply Hp|]; by intros [] ? ?).
  - rewrite react_HostIdle, compact_when_idle_spec. by destruct (_ && _).
  - apply (executions_fire _ [UsageReported]). by repeat constructor.
Qed.

Lemma react_compactions s e :
  compactions (react s e).1 =
  match executions (react s e).2 with [] => compactions s | _ => u64_succ (compactions s) end.
Proof.
  rewrite react_executions. destruct e as [| | | | | | |q|u]; try (by apply react_reduced).
  - rewrite react_HostIdle, compact_when_idle_spec. by destruct (_ && _).
  - by rewrite react_Usage.
Qed.

(** The engine executes a command exactly when the host reports being idle with
    an empty queue while a compaction is due; the command is the compaction of the
    current objectives under the current sequence number. *)
Theorem execute_iff s e c :
  Execute c ∈ (react s e).2 ↔
  e = Event_HostIdle 0 ∧ pending_compact s = true ∧ c = compaction s.
Proof.
  transitivity (c ∈ executions (react s e).2).
  { unfold executions. rewrite list_elem_of_omap. split.
    - intros Hin. by exists (Execute c).
    - intros ([] & Hin & [=]). by subst. }
  rewrite react_executions. split.
  - destruct e as [| | | | | | |q|u]; try (by intros ?%not_elem_of_nil).
    destruct (pending_compact s), (N.eqb_spec q 0) as [->|]; simpl; try (by intros ?%not_elem_of_nil).
    by intros ->%list_elem_of_singleton.
  - intros (-> & -> & ->). by apply list_elem_of_singleton.
Qed.

(** After at most [n] compactions, every executed one has an earlier number. *)
Lemma executions_numbered n s es :
  (n + N.of_nat (length es) < u64_modulus)%N → (compactions s <= n)%N →
  NoDup (call_idempotency_key <$> executions (replay s es).2) ∧
  ∀ c, c ∈ executions (replay s es).2 →
       match c with CommandCall_Compact k => (compactions s <= sequence k)%N end.
Proof.
  revert n s. induction es as [|e es IH]; intros n s Hn Hc.
  { split; [constructor|]. by intros c ?%not_elem_of_nil. }
  rewrite replay_cons. cbn [length snd] in *. unfold executions at 1 2. rewrite omap_app.
  fold (executions (react s e).2) (executions (replay (react s e).1 es).2).
  pose proof (react_compactions s e) as Hcomp. pose proof (react_executions s e) as Hex.
  assert (compactions s < u64_modulus - 1)%N as Hb by lia.
  destruct (IH (n + 1)%N (react s e).1) as [IH1 IH2]; [lia| |].
  { rewrite Hcomp. destruct (executions (react s e).2); rewrite ?u64_succ_small by lia; lia. }
  assert (executions (react s e).2 = [] ∨ executions (react s e).2 = [compaction s]) as [E|E].
  { rewrite Hex. destruct e; auto. destruct (_ && _); auto. }
  - rewrite E in *. simpl. by rewrite <-Hcomp.
  - rewrite E in *. rewrite u64_succ_small in Hcomp by lia. simpl. split.
    + apply NoDup_cons. split; [|done]. intros (c & Hk & Hin)%list_elem_of_fmap.
      apply IH2 in Hin. apply (call_idempotency_key_inj (compaction s) c) in Hk.
      destruct c as [k]. simpl in Hk. rewrite Hcomp in Hin. lia.
    + intros c [->|Hin%IH2]%elem_of_cons; [simpl; lia|]. destruct c as [k]. rewrite Hcomp in Hin. lia.
Qed.

(** Over any history of fewer than 2^64 events no two executed commands share an
    idempotency key, so a host that deduplicates by key drops none of them. *)
Theorem idempotency_keys_unique es :
  (N.of_nat (length es) < u64_modulus)%N →
  NoDup (call_idempotency_key <$> executions (replay default_state es).2).
Proof. intros Hn. apply (executions_numbered 0 default_state es); simpl; lia. Qed.

Lemma pending_replay s es :
  pending_compact s = true → Event_HostIdle 0 ∉ es →
  executions (replay s es).2 = [] ∧ pending_compact (replay s es).1 = true ∧
  compactions (replay s es).1 = compactions s.
Proof.
  revert s. induction es as [|e es IH]; intros s Hp Hni; [done|].
  assert (executions (react s e).2 = []) as Hex.
  { rewrite react_executions. destruct e as [| | | | | | |q|u]; try done.
    destruct (N.eqb_spec q 0) as [->|]; [set_solver|by rewrite andb_false_r]. }
  pose proof (react_compactions s e) as Hc. rewrite Hex in Hc.
  assert (pending_compact (react s e).1 = true) as Hp'.
  { destruct e as [| | | | | | |q|u]; try (by apply react_reduced).
    - rewrite react_HostIdle, compact_when_idle_spec.
      destruct (N.eqb_spec q 0) as [->|]; [set_solver|by rewrite andb_false_r].
    - by rewrite react_Usage. }
  rewrite replay_cons. cbn [fst snd]. unfold executions in *. rewrite omap_app, Hex.
  rewrite <-Hc. apply IH; [done|set_solver].
Qed.

Lemma replay_app_snd s es1 es2 :
  (replay s (es1 ++ es2)).2 = (replay s es1).2 ++ (replay (replay s es1).1 es2).2.
Proof.
  revert s. induction es1 as [|e es1 IH]; intros s; [done|].
  rewrite <-app_comm_cons, !replay_cons. cbn [fst snd]. by rewrite IH, app_assoc.
Qed.

(** The events that make a compaction due: a settle that took effect under the
    every-settle policy, and a close that took effect under the on-close policy. *)
Lemma settle_pending s k ev d note o :
  objectives s !! k = Some o → compact (definition o) = EverySettle →
  (react s (Event_Settled k ev d note)).1 ≠ s →
  pending_compact (react s (Event_Settled k ev d note)).1 = true ∧
  executions (react s (Event_Settled k ev d note)).2 = [] ∧
  compactions (react s (Event_Settled k ev d note)).1 = compactions s.
Proof.
  intros Ho Hpol Hne. rewrite react_executions. split; [|split; [done|by apply react_reduced]].
  revert Hne. unfold react. cbn [apply_event]. handler_cases; try done. simplify_eq. intros _.
  rewrite fire_singleton. simpl. unfold after_settle. simpl. rewrite lookup_insert_eq. simpl.
  rewrite bool_decide_true; [done|]. unfold settled. by case_bool_decide.
Qed.

Lemma close_pending s k o :
  objectives s !! k = Some o → compact (definition o) = OnClose →
  (react s (Event_Closed k)).1 ≠ s →
  pending_compact (react s (Event_Closed k)).1 = true ∧
  executions (react s (Event_Closed k)).2 = [] ∧
  compactions (react s (Event_Closed k)).1 = compactions s.
Proof.
  intros Ho Hpol Hne. rewrite react_executions. split; [|split; [done|by apply react_reduced]].
  revert Hne. unfold react. cbn [apply_event]. handler_cases; [done|]. simplify_eq. intros _.
  rewrite fire_singleton. simpl. unfold compact_policy. simpl. rewrite lookup_insert_eq. simpl.
  by rewrite Hpol.
Qed.

(** A due compaction is not lost: after a settle of an objective with the
    every-settle policy, or a close of one with the on-close policy, whatever events
    follow, the next time the host is idle with an empty queue exactly one command
    has been executed, the compaction numbered with the current sequence number. *)
Theorem compaction_executed s e k o es :
  objectives s !! k = Some o →
  (compact (definition o) = EverySettle ∧ ∃ ev d note, e = Event_Settled k ev d note) ∨
  (compact (definition o) = OnClose ∧ e = Event_Closed k) →
  (react s e).1 ≠ s → Event_HostIdle 0 ∉ es →
  ∃ c, executions (replay s (e :: es ++ [Event_HostIdle 0])).2 = [CommandCall_Compact c] ∧
       sequence c = compactions s.
Proof.
  intros Ho Hpol Hne Hes.
  assert (pending_compact (react s e).1 = true ∧ executions (react s e).2 = [] ∧
          compactions (react s e).1 = compactions s) as (Hp & Hex & Hc).
  { destruct Hpol as [[Hpol (ev & d & note & ->)]|[Hpol ->]];
      [by eapply settle_pending|by eapply close_pending]. }
  destruct (pending_replay (react s e).1 es Hp Hes) as (Hex' & Hp' & Hc').
  set (s1 := (replay (react s e).1 es).1) in *.
  exists {| sequence := compactions s1;
            brief := (λ o, objective_brief (definition o) (ledger o) (latest_verdict o))
                       <$> btree_values (objectives s1) |}.
  split; [|simpl; congruence].
  rewrite replay_cons. cbn [snd]. rewrite replay_app_snd. unfold executions in *.
  rewrite !omap_app, Hex, Hex'. fold s1. rewrite replay_cons. cbn [snd replay]. rewrite app_nil_r.
  fold (executions (react s1 (Event_HostIdle 0)).2). rewrite react_executions, Hp'. done.
Qed.
End triggers.

(** ** Instances in the scenario *)

#[local] Existing Instance plain_digest.

(** Two usage reports past the turn limit of the scenario. *)
Lemma budget_reminded_once_witness :
  NoDup (budget_notices
           (replay (at_log log_approved)
              [Event_Usage (mkUsage 10 0 0); Event_Usage (mkUsage 12 1000 0)]).2).
Proof.
  apply budget_reminded_once. intros d. rewrite !elem_of_cons, elem_of_nil. intros [|[|]]; done.
Defined.

Lemma idempotency_keys_unique_witness :
  NoDup (call_idempotency_key <$> executions (replay default_state log_closed).2).
Proof. apply idempotency_keys_unique. vm_compute. reflexivity. Defined.

Lemma compaction_executed_witness :
  ∃ c, executions (replay (at_log log_ready)
                     (Event_Settled k0 0 Decision_Keep (lit "first") ::
                      [Event_HostIdle 3; RevisionDelivered rev2] ++ [Event_HostIdle 0])).2
       = [CommandCall_Compact c] ∧
       sequence c = compactions (at_log log_ready).
Proof.
  apply (compaction_executed _ _ k0 (objective0 (at_log log_ready))).
  - vm_compute. reflexivity.
  - left. split; [vm_compute; reflexivity|]. by exists 0%N, Decision_Keep, (lit "first").
  - intros Heq. apply (f_equal pending_compact) in Heq. vm_compute in Heq. discriminate.
  - rewrite !elem_of_cons, elem_of_nil. intros [|[|]]; done.
Defined.
