(* ===== verification/Identity.v ===== *)
(** * Identifiers, actors and the worker-session vocabulary

    Models [crates/calm-types/src/ids.rs], [worker.rs], [runtime.rs] and the role
    and decision enums of [model.rs] and [proposal.rs]. The transparent string
    newtypes ([CardId], [TrackId], [AreaId], [WorkerSessionId]) are strings. *)

From stdpp Require Import prelude gmap strings.
From S2P Require Import Prelude Float64.

Abbreviation CardId := str.
Abbreviation TrackId := str.
Abbreviation AreaId := str.
Abbreviation WorkerSessionId := str.
Abbreviation TimestampMs := Z.

(** A [serde_json::Value]. Numbers keep serde's three representations. *)
Inductive Json :=
| JNull
| JBool (b : bool)
| JInt (z : Z)
| JFloat (x : f64)
| JString (s : str)
| JArray (l : list Json)
| JObject (fields : list (str * Json)).

(** [Value::get] with a string key: a field of an object, nothing of the rest. *)
Fixpoint assoc {A} (k : str) (l : list (str * A)) : option A :=
  match l with
  | [] => None
  | (k', a) :: rest => if bool_decide (k = k') then Some a else assoc k rest
  end.

Definition json_get (v : Json) (k : str) : option Json :=
  match v with JObject fields => assoc k fields | _ => None end.

Definition json_as_str (v : Json) : option str :=
  match v with JString s => Some s | _ => None end.

(** ** Enumerations stored as text

    Every such enum of the source has [as_db_str] and a [TryFrom<String>] that is
    its inverse; the class states that contract. *)
Class DbEnum (A : Type) := {
  as_db_str : A → str;
  try_from : str → result A str;
  try_from_spec : ∀ s a, try_from s = Ok a ↔ s = as_db_str a;
}.

(** The spelling table of an enum, searched for a text. *)
Fixpoint by_spelling {A} (spell : A → str) (all : list A) (s : str) : option A :=
  match all with
  | [] => None
  | a :: rest => if bool_decide (s = spell a) then Some a else by_spelling spell rest s
  end.

(** The decoders of one column: the spelled variant, or the error naming the text. *)
Definition decode {A} (spell : A → str) (all : list A) (column : string) (value : str)
  : result A str :=
  match by_spelling spell all value with
  | Some a => Ok a
  | None => Err (lit "unknown " ++ lit column ++ lit " value `" ++ value ++ lit "`")
  end.

Lemma by_spelling_Some {A} (spell : A → str) all s a : by_spelling spell all s = Some a → s = spell a.
Proof.
  induction all as [|b all IH]; simpl; [done|]. case_bool_decide; [by intros [= ->]|done].
Qed.

Lemma by_spelling_spec {A} (spell : A → str) all s a :
  (∀ b, b ∈ all) → (∀ b c, spell b = spell c → b = c) →
  by_spelling spell all s = Some a ↔ s = spell a.
Proof.
  intros Hall Hinj. split; [apply by_spelling_Some|]. intros ->. specialize (Hall a).
  induction all as [|b all IH]; simpl; [by apply not_elem_of_nil in Hall|].
  case_bool_decide as Hs; [f_equal; by apply Hinj|].
  apply elem_of_cons in Hall as [->|Hin]; [done|by apply IH].
Qed.

Lemma decode_spec {A} (spell : A → str) all column s a :
  (∀ b, b ∈ all) → (∀ b c, spell b = spell c → b = c) →
  decode spell all column s = Ok a ↔ s = spell a.
Proof.
  intros Hall Hinj. rewrite <-(by_spelling_spec spell all s a Hall Hinj). unfold decode.
  destruct (by_spelling spell all s); naive_solver.
Qed.

(** Solves the obligations of an enum given its spelling table. *)
Ltac db_enum :=
  intros; apply decode_spec;
  [intros []; repeat (first [left | right])|intros [] []; vm_compute; congruence].

Inductive CardRole := Worker | Planner | ReportCard | Assistant.
#[export] Instance CardRole_eq_dec : EqDecision CardRole.
Proof. solve_decision. Defined.

Definition card_role_str (r : CardRole) : str :=
  match r with
  | Worker => lit "worker" | Planner => lit "planner"
  | ReportCard => lit "reportcard" | Assistant => lit "assistant"
  end.

Definition card_role_try_from (value : str) : result CardRole str :=
  decode card_role_str [Worker; Planner; ReportCard; Assistant]
    "cards.role" value.

#[export] Program Instance CardRole_db : DbEnum CardRole :=
  {| as_db_str := card_role_str; try_from := card_role_try_from |}.
Next Obligation. db_enum. Qed.

Inductive WorkerContract := Contract_Planner | Contract_Assistant | Executor | Validator.
#[export] Instance WorkerContract_eq_dec : EqDecision WorkerContract.
Proof. solve_decision. Defined.

Definition worker_contract_str (c : WorkerContract) : str :=
  match c with
  | Contract_Planner => lit "planner" | Contract_Assistant => lit "assistant"
  | Executor => lit "executor" | Validator => lit "validator"
  end.

Definition worker_contract_try_from (value : str) : result WorkerContract str :=
  decode worker_contract_str [Contract_Planner; Contract_Assistant; Executor; Validator]
    "worker_sessions.contract" value.

#[export] Program Instance WorkerContract_db : DbEnum WorkerContract :=
  {| as_db_str := worker_contract_str; try_from := worker_contract_try_from |}.
Next Obligation. db_enum. Qed.

Inductive SessionMode := Ephemeral | Resumable.
#[export] Instance SessionMode_eq_dec : EqDecision SessionMode.
Proof. solve_decision. Defined.

Definition session_mode_str (m : SessionMode) : str :=
  match m with Ephemeral => lit "ephemeral" | Resumable => lit "resumable" end.

Definition session_mode_try_from (value : str) : result SessionMode str :=
  decode session_mode_str [Ephemeral; Resumable]
    "worker_sessions.mode" value.

#[export] Program Instance SessionMode_db : DbEnum SessionMode :=
  {| as_db_str := session_mode_str; try_from := session_mode_try_from |}.
Next Obligation. db_enum. Qed.

Inductive WorkerProviderKind :=
| Kind_OpenCode | Kind_Codex | Kind_Claude | Kind_Grok | Kind_Antigravity | Kind_Terminal.
#[export] Instance WorkerProviderKind_eq_dec : EqDecision WorkerProviderKind.
Proof. solve_decision. Defined.

Definition provider_kind_str (p : WorkerProviderKind) : str :=
  match p with
  | Kind_Codex => lit "codex" | Kind_Claude => lit "claude" | Kind_OpenCode => lit "opencode"
  | Kind_Grok => lit "grok" | Kind_Antigravity => lit "antigravity" | Kind_Terminal => lit "terminal"
  end.

Definition provider_kind_try_from (value : str) : result WorkerProviderKind str :=
  decode provider_kind_str
    [Kind_Codex; Kind_Claude; Kind_OpenCode; Kind_Grok; Kind_Antigravity; Kind_Terminal]
    "worker_sessions.provider" value.

#[export] Program Instance WorkerProviderKind_db : DbEnum WorkerProviderKind :=
  {| as_db_str := provider_kind_str; try_from := provider_kind_try_from |}.
Next Obligation. db_enum. Qed.

Inductive WorkerSessionState := Starting | Running | Idle | TurnPending | Exited | Failed | Superseded.
#[export] Instance WorkerSessionState_eq_dec : EqDecision WorkerSessionState.
Proof. solve_decision. Defined.

Definition is_active_authority (s : WorkerSessionState) : bool :=
  match s with Starting | Running | Idle | TurnPending => true | _ => false end.

Definition is_terminal (s : WorkerSessionState) : bool :=
  match s with Exited | Failed | Superseded => true | _ => false end.

Definition session_state_str (s : WorkerSessionState) : str :=
  match s with
  | Starting => lit "starting" | Running => lit "running" | Idle => lit "idle"
  | TurnPending => lit "turn_pending" | Exited => lit "exited" | Failed => lit "failed"
  | Superseded => lit "superseded"
  end.

Definition session_state_try_from (value : str) : result WorkerSessionState str :=
  decode session_state_str
    [Starting; Running; Idle; TurnPending; Exited; Failed; Superseded]
    "worker_sessions.state" value.

#[export] Program Instance WorkerSessionState_db : DbEnum WorkerSessionState :=
  {| as_db_str := session_state_str; try_from := session_state_try_from |}.
Next Obligation. db_enum. Qed.

Inductive LivenessTag := Tag_Alive | Tag_Idle | Tag_Exited | Tag_Unknown.
#[export] Instance LivenessTag_eq_dec : EqDecision LivenessTag.
Proof. solve_decision. Defined.

Definition liveness_str (l : LivenessTag) : str :=
  match l with
  | Tag_Alive => lit "alive" | Tag_Idle => lit "idle" | Tag_Exited => lit "exited"
  | Tag_Unknown => lit "unknown"
  end.

Definition liveness_try_from (value : str) : result LivenessTag str :=
  decode liveness_str [Tag_Alive; Tag_Idle; Tag_Exited; Tag_Unknown]
    "worker_sessions.liveness" value.

#[export] Program Instance LivenessTag_db : DbEnum LivenessTag :=
  {| as_db_str := liveness_str; try_from := liveness_try_from |}.
Next Obligation. db_enum. Qed.

(** ** Providers *)

Inductive AgentProvider := OpenCode | Codex | Claude | Grok | Antigravity.
#[export] Instance AgentProvider_eq_dec : EqDecision AgentProvider.
Proof. solve_decision. Defined.

Inductive AgentProtocol := Protocol_Codex | Protocol_Claude | Acp.
#[export] Instance AgentProtocol_eq_dec : EqDecision AgentProtocol.
Proof. solve_decision. Defined.

Definition ALL_PROVIDERS : list AgentProvider := [Codex; Claude; OpenCode; Grok; Antigravity].

Definition provider_protocol (p : AgentProvider) : AgentProtocol :=
  match p with
  | Codex => Protocol_Codex
  | Claude => Protocol_Claude
  | OpenCode | Grok | Antigravity => Acp
  end.

(** [AgentProtocol::providers]. *)
Definition protocol_providers (p : AgentProtocol) : list AgentProvider :=
  List.filter (λ x, bool_decide (provider_protocol x = p)) ALL_PROVIDERS.

Definition wire_name (p : AgentProvider) : str :=
  match p with
  | Codex => lit "codex" | Claude => lit "claude" | OpenCode => lit "opencode"
  | Grok => lit "grok" | Antigravity => lit "antigravity"
  end.

(** The provider's serde form is the string of its wire name. *)
Definition provider_of_json (v : Json) : option AgentProvider :=
  match v with JString s => by_spelling wire_name ALL_PROVIDERS s | _ => None end.

(** [From<&AgentProvider> for WorkerProviderKind] and its partial inverse. *)
Definition kind_of_provider (p : AgentProvider) : WorkerProviderKind :=
  match p with
  | Codex => Kind_Codex | Claude => Kind_Claude | OpenCode => Kind_OpenCode
  | Grok => Kind_Grok | Antigravity => Kind_Antigravity
  end.

Definition provider_of_kind (k : WorkerProviderKind) : option AgentProvider :=
  match k with
  | Kind_Codex => Some Codex | Kind_Claude => Some Claude | Kind_OpenCode => Some OpenCode
  | Kind_Grok => Some Grok | Kind_Antigravity => Some Antigravity
  | Kind_Terminal => None
  end.

(** [WorkerProviderKind::protocol]. *)
Definition kind_protocol (k : WorkerProviderKind) : option AgentProtocol :=
  provider_protocol <$> provider_of_kind k.

(** ** Sessions and principals *)

Inductive Principal :=
| Principal_User
| Principal_Kernel
| Principal_Agent (session_id : WorkerSessionId) (track_id : TrackId) (area_id : AreaId).

Record WorkerSession := mkWorkerSession {
  ws_id : WorkerSessionId;
  ws_track_id : TrackId;
  ws_provider : WorkerProviderKind;
  ws_mode : SessionMode;
  ws_contract : WorkerContract;
  ws_parent_session_id : option WorkerSessionId;
  ws_requester_session_id : option WorkerSessionId;
  ws_state : WorkerSessionState;
  ws_mcp_token_hash : option str;
  ws_thread_id : option str;
  ws_agent_session_id : option str;
  ws_active_turn_id : option str;
  ws_terminal_run_id : option str;
  ws_card_id : option CardId;
  ws_handle_state_json : option Json;
  ws_liveness : LivenessTag;
  ws_liveness_probed_at_ms : option TimestampMs;
  ws_exit_code : option Z;
  ws_exit_interpretation : option str;
  ws_spawn_op_id : option str;
  ws_last_activity_ms : option TimestampMs;
  ws_last_thread_status : option str;
  ws_created_at_ms : TimestampMs;
  ws_updated_at_ms : TimestampMs;
  ws_completed_at_ms : option TimestampMs;
}.

(** ** Actors *)

Inductive ActorId :=
| User
| Kernel
| KernelDispatcher
| Plugin (id : str)
| AiPlanner (card : CardId)
| AiCodex (card : CardId)
| AiClaude (card : CardId)
| AiManagedCard (card : CardId)
| AiPlannerSession (session : WorkerSessionId)
| AiCodexSession (session : WorkerSessionId)
| AiClaudeSession (session : WorkerSessionId)
| AiManagedSession (session : WorkerSessionId).

#[export] Instance ActorId_eq_dec : EqDecision ActorId.
Proof. solve_decision. Defined.

(** [ActorId::for_agent_session]. *)
Definition for_agent_session (role : CardRole) (provider : AgentProvider) (session : WorkerSessionId)
  : ActorId :=
  match role with
  | Planner => AiPlannerSession session
  | Assistant => AiManagedSession session
  | Worker | ReportCard =>
      match provider_protocol provider with
      | Protocol_Codex => AiCodexSession session
      | Protocol_Claude => AiClaudeSession session
      | Acp => AiManagedSession session
      end
  end.

(** [Display for ActorId]. *)
Definition labelled (label : string) (id : str) : str :=
  if is_empty id then lit label else lit label ++ lit ":" ++ id.

Definition actor_to_string (a : ActorId) : str :=
  match a with
  | User => lit "user"
  | Kernel => lit "kernel"
  | KernelDispatcher => lit "kernel-dispatcher"
  | Plugin id => lit "plugin:" ++ id
  | AiPlanner id => labelled "ai:planner" id
  | AiCodex id => labelled "ai:codex" id
  | AiClaude id => labelled "ai:claude" id
  | AiManagedCard id => labelled "ai:managed-card" id
  | AiPlannerSession id => labelled "ai:planner-session" id
  | AiCodexSession id => labelled "ai:codex-session" id
  | AiClaudeSession id => labelled "ai:claude-session" id
  | AiManagedSession id => labelled "ai:managed-session" id
  end.

Inductive ProposalDecision := Accepted | Rejected | Stale | Withdrawn.
#[export] Instance ProposalDecision_eq_dec : EqDecision ProposalDecision.
Proof. solve_decision. Defined.

Definition proposal_decision_str (d : ProposalDecision) : str :=
  match d with
  | Accepted => lit "accepted" | Rejected => lit "rejected"
  | Stale => lit "stale" | Withdrawn => lit "withdrawn"
  end.

(** ** Facts *)

Lemma state_active_or_terminal s : is_active_authority s = negb (is_terminal s).
Proof. by destruct s. Qed.

(** The text columns of the session and card tables round-trip: for each
    enumeration, decoding a text succeeds exactly when the text is the spelling of a
    variant, and then gives that variant; every other text is an error. *)
Theorem db_spellings :
  (∀ s r, card_role_try_from s = Ok r ↔ s = card_role_str r) ∧
  (∀ s c, worker_contract_try_from s = Ok c ↔ s = worker_contract_str c) ∧
  (∀ s m, session_mode_try_from s = Ok m ↔ s = session_mode_str m) ∧
  (∀ s p, provider_kind_try_from s = Ok p ↔ s = provider_kind_str p) ∧
  (∀ s x, session_state_try_from s = Ok x ↔ s = session_state_str x) ∧
  (∀ s l, liveness_try_from s = Ok l ↔ s = liveness_str l).
Proof.
  do 5 (split; [db_enum|]). db_enum.
Qed.

(** Two actors display alike exactly when they are the same actor, so an audit
    line names one actor only, empty ids included. *)
Theorem actor_display_inj a b : actor_to_string a = actor_to_string b ↔ a = b.
Proof.
  split; [|by intros ->].
  destruct a as [| | |x|x|x|x|x|x|x|x|x], b as [| | |y|y|y|y|y|y|y|y|y];
    cbn [actor_to_string]; unfold labelled;
    repeat match goal with |- context [is_empty ?l] => destruct l; cbn [is_empty] end;
    intros [=]; subst; done.
Qed.
