(* ===== verification/OperationPhase.v ===== *)
(** * Operations and their phases

    Models the vocabulary of [crates/calm-server/src/operation/mod.rs]: the phases of
    an operation, the pair of columns a phase is stored in, the operation itself, the
    blocker of a pending one ([crates/calm-types/src/task_execution/pending.rs]), and
    the result read off a settled one; also the variants of
    [crates/calm-server/src/error.rs] these functions return. The decoder that [serde]
    derives for [PendingBlocker] is the argument [de_blocker]. *)

From stdpp Require Import prelude gmap strings.
From S2P Require Import Prelude Identity.

Local Open Scope calm_scope.

Abbreviation OperationId := str.

(** The variants returned here, without the text of the database and serde errors. *)
Inductive CalmError :=
| Calm_NotFound (m : str)
| Calm_Conflict (m : str)
| Calm_IdempotencyKeyReused (m : str)
| Calm_BadRequest (m : str)
| Calm_Forbidden (m : str)
| Calm_Internal (m : str)
| Calm_ServiceUnavailable (m : str)
| Calm_Db
| Calm_Serde.

#[export] Instance CalmError_eq_dec : EqDecision CalmError.
Proof. solve_decision. Defined.

(** ** Phases *)

Inductive PhaseTag :=
| Tag_Pending | Tag_TxCommitted | Tag_AppServerInteract | Tag_AwaitingRetry | Tag_SpawnStarted
| Tag_SpawnSucceeded | Tag_Parked | Tag_Succeeded | Tag_Compensating | Tag_Failed | Tag_Stuck.

#[export] Instance PhaseTag_eq_dec : EqDecision PhaseTag.
Proof. solve_decision. Defined.

Inductive AppServerInteractKind :=
| MintAndAwait (thread_id : option str)
| RegisterPending (entry_id : option str).

Inductive Phase :=
| Pending
| TxCommitted
| AppServerInteract (kind : AppServerInteractKind)
| AwaitingRetry (kind : AppServerInteractKind)
| SpawnStarted
| SpawnSucceeded
| Parked
| Succeeded
| Compensating
| Failed
| Stuck (reason : str) (since : TimestampMs).

#[export] Instance AppServerInteractKind_eq_dec : EqDecision AppServerInteractKind.
Proof. solve_decision. Defined.
#[export] Instance Phase_eq_dec : EqDecision Phase.
Proof. solve_decision. Defined.

Definition as_str (t : PhaseTag) : str :=
  lit match t with
  | Tag_Pending => "pending"
  | Tag_TxCommitted => "tx_committed"
  | Tag_AppServerInteract => "app_server_interact"
  | Tag_AwaitingRetry => "awaiting_retry"
  | Tag_SpawnStarted => "spawn_started"
  | Tag_SpawnSucceeded => "spawn_succeeded"
  | Tag_Parked => "parked"
  | Tag_Succeeded => "succeeded"
  | Tag_Compensating => "compensating"
  | Tag_Failed => "failed"
  | Tag_Stuck => "stuck"
  end.

Definition all_tags : list PhaseTag :=
  [Tag_Pending; Tag_TxCommitted; Tag_AppServerInteract; Tag_AwaitingRetry; Tag_SpawnStarted;
   Tag_SpawnSucceeded; Tag_Parked; Tag_Succeeded; Tag_Compensating; Tag_Failed; Tag_Stuck].

Definition from_db_str (raw : str) : result PhaseTag CalmError :=
  match by_spelling as_str all_tags raw with
  | Some t => Ok t
  | None => Err (Calm_Internal (lit "unknown operation phase " ++ raw))
  end.

Definition tag (p : Phase) : PhaseTag :=
  match p with
  | Pending => Tag_Pending
  | TxCommitted => Tag_TxCommitted
  | AppServerInteract _ => Tag_AppServerInteract
  | AwaitingRetry _ => Tag_AwaitingRetry
  | SpawnStarted => Tag_SpawnStarted
  | SpawnSucceeded => Tag_SpawnSucceeded
  | Parked => Tag_Parked
  | Succeeded => Tag_Succeeded
  | Compensating => Tag_Compensating
  | Failed => Tag_Failed
  | Stuck _ _ => Tag_Stuck
  end.

(** [Value::as_i64]. *)
Definition json_as_i64 (v : Json) : option Z :=
  match v with
  | JInt z => if (-2 ^ 63 <=? z)%Z && (z <? 2 ^ 63)%Z then Some z else None
  | _ => None
  end.

(** [json!] of an optional string. *)
Definition json_opt_str (s : option str) : Json := match s with Some s => JString s | None => JNull end.

Definition serialize_split (p : Phase) : PhaseTag * option Json :=
  match p with
  | AppServerInteract kind | AwaitingRetry kind =>
      let detail :=
        match kind with
        | MintAndAwait thread_id =>
            JObject [(lit "kind", JString (lit "mint_and_await")); (lit "thread_id", json_opt_str thread_id)]
        | RegisterPending entry_id =>
            JObject [(lit "kind", JString (lit "register_pending")); (lit "entry_id", json_opt_str entry_id)]
        end in
      (tag p, Some detail)
  | Stuck reason since =>
      (Tag_Stuck, Some (JObject [(lit "reason", JString reason); (lit "since", JInt since)]))
  | _ => (tag p, None)
  end.

(** [Option::ok_or_else] with an internal error. *)
Definition or_internal {A} (o : option A) (m : str) : result A CalmError :=
  match o with Some a => Ok a | None => Err (Calm_Internal m) end.

Definition deserialize_join (disc : str) (detail : option Json) : result Phase CalmError :=
  let? t := from_db_str disc in
  match t with
  | Tag_Pending => Ok Pending
  | Tag_TxCommitted => Ok TxCommitted
  | Tag_AppServerInteract | Tag_AwaitingRetry =>
      let? detail := or_internal detail (lit "app_server_interact missing phase detail") in
      let? kind := or_internal (json_get detail (lit "kind") ≫= json_as_str)
                     (lit "app_server_interact missing kind") in
      let? continuation :=
        if bool_decide (kind = lit "mint_and_await") then
          Ok (MintAndAwait (json_get detail (lit "thread_id") ≫= json_as_str))
        else if bool_decide (kind = lit "register_pending") then
          Ok (RegisterPending (json_get detail (lit "entry_id") ≫= json_as_str))
        else Err (Calm_Internal (lit "unknown app_server_interact kind " ++ kind)) in
      Ok (if bool_decide (disc = lit "awaiting_retry") then AwaitingRetry continuation
          else AppServerInteract continuation)
  | Tag_SpawnStarted => Ok SpawnStarted
  | Tag_SpawnSucceeded => Ok SpawnSucceeded
  | Tag_Parked => Ok Parked
  | Tag_Succeeded => Ok Succeeded
  | Tag_Compensating => Ok Compensating
  | Tag_Failed => Ok Failed
  | Tag_Stuck =>
      let? detail := or_internal detail (lit "stuck missing detail") in
      let? reason := or_internal (json_get detail (lit "reason") ≫= json_as_str)
                       (lit "stuck missing reason") in
      let? since := or_internal (json_get detail (lit "since") ≫= json_as_i64)
                      (lit "stuck missing since") in
      Ok (Stuck reason since)
  end.

(** A settled operation: its phase is final. *)
Definition settled_tag (t : PhaseTag) : bool :=
  match t with Tag_Succeeded | Tag_Failed | Tag_Stuck => true | _ => false end.

(** [Phase::Succeeded | Phase::Failed | Phase::Stuck { .. }]. *)
Definition terminal_phase (p : Phase) : bool :=
  match p with Succeeded | Failed | Stuck _ _ => true | _ => false end.

(** ** Operations *)

Record TxOutput := mkTxOutput {
  out_target_type : str;
  out_target_id : option str;
  out_result : Json;
  out_data : Json;
}.

Record SpawnArtifacts := mkSpawnArtifacts {
  sa_pid : Z;
  sa_pgid : Z;
  sa_start_time : N;
  sa_boot_id : str;
  sa_log_path : option str;
  sa_extra : Json;
}.

Record Operation := mkOperation {
  op_id : OperationId;
  op_operation_key : str;
  op_kind : str;
  op_idempotency_key : option str;
  op_payload_hash : str;
  op_target_type : str;
  op_target_id : option str;
  op_target : Json;
  op_payload : Json;
  op_tx_output : option TxOutput;
  op_phase : Phase;
  op_phase_detail : option Json;
  op_attempt : Z;
  op_last_error : option str;
  op_compensation_state : option Json;
  op_lease_owner : option str;
  op_lease_until_ms : option TimestampMs;
  op_spawn_artifacts : option SpawnArtifacts;
  op_parked_at_ms : option TimestampMs;
  op_parked_deadline_ms : option TimestampMs;
}.

Record OperationKey := mkOperationKey {
  key_operation_key : str;
  key_idempotency_key : option str;
  key_payload_hash : str;
}.

Record CompensationStep := mkCompensationStep {
  step_op : str;
  step_args : Json;
  step_completed : bool;
  step_attempts : N;
  step_last_error : option str;
}.

Record CompensationStateVersioned := mkCompensationState {
  cs_version : N;
  cs_from_phase : PhaseTag;
  cs_reason : str;
  cs_steps : list CompensationStep;
}.

Definition required_lease_owner (op : Operation) : result str CalmError :=
  or_internal (op_lease_owner op)
    (lit "operation " ++ op_id op ++ lit " is not claimed by the current driver").

Definition required_output (op : Operation) : result TxOutput CalmError :=
  or_internal (op_tx_output op) (lit "operation " ++ op_id op ++ lit " missing tx_output_json").

Definition idempotency_payload_conflict (idempotency_key : option str) : CalmError :=
  Calm_IdempotencyKeyReused
    (lit "operation idempotency key " ++ default (lit "<missing idempotency key>") idempotency_key
     ++ lit " already used with different payload").

(** What an operation acts on, read from its payload. *)
Definition target_from_payload (payload : Json) : str * option str * Json :=
  match json_get payload (lit "runtime_id") ≫= json_as_str with
  | Some runtime_id =>
      (lit "runtime", Some runtime_id,
       JObject [(lit "type", JString (lit "runtime")); (lit "id", JString runtime_id)])
  | None =>
      let track_id :=
        match json_get payload (lit "track_id") ≫= json_as_str with
        | Some track_id => Some track_id
        | None =>
            (json_get payload (lit "request") ≫= λ request, json_get request (lit "track_id"))
              ≫= json_as_str
        end in
      match track_id with
      | Some track_id =>
          (lit "track", Some track_id,
           JObject [(lit "type", JString (lit "track")); (lit "id", JString track_id)])
      | None =>
          (lit "unknown", None,
           JObject [(lit "type", JString (lit "unknown")); (lit "id", JNull)])
      end
  end.

(** ** Blockers of a pending operation *)

Inductive PendingRetryOwner := Owner_Driver | Owner_Scheduler.

#[export] Instance PendingRetryOwner_eq_dec : EqDecision PendingRetryOwner.
Proof. solve_decision. Defined.

Inductive PendingBlockerClass := DriverBusy | LaunchFence | LocationOwner | WorkspaceRemoval | Checkout.

Record PendingBlocker := mkPendingBlocker {
  pb_class : PendingBlockerClass;
  pb_retry_owner : PendingRetryOwner;
  pb_owner_scope : str;
  pb_resource : str;
  pb_retry_when : str;
}.

Definition with_retry_owner (b : PendingBlocker) (owner : PendingRetryOwner) : PendingBlocker :=
  {| pb_class := pb_class b; pb_retry_owner := owner; pb_owner_scope := pb_owner_scope b;
     pb_resource := pb_resource b; pb_retry_when := pb_retry_when b |}.

(** [serde_json::from_value::<PendingBlocker>], or the message of its error. *)
Definition pending_blocker (de_blocker : Json → result PendingBlocker str) (op : Operation)
  : result (option PendingBlocker) CalmError :=
  match op_phase op with
  | Pending =>
      match op_phase_detail op with
      | None => Ok None
      | Some detail =>
          if match detail with
             | JObject fields =>
                 (length fields =? 1)
                 && bool_decide (assoc (lit "retry_owner") fields ≫= json_as_str = Some (lit "scheduler"))
             | _ => false
             end then Ok None
          else
            match de_blocker detail with
            | Ok b => Ok (Some b)
            | Err error =>
                Err (Calm_Conflict (lit "pending operation " ++ op_id op
                       ++ lit " has unreadable blocker: " ++ error))
            end
      end
  | _ => Ok None
  end.

(** ** Results *)

Inductive OperationOutcome :=
| Outcome_Succeeded (result : Json)
| Outcome_SucceededViaCollision (existing_op_id : OperationId) (result : Json)
| Outcome_Failed (last_error : str) (from_phase : PhaseTag) (last_error_class : option str)
| Outcome_Stuck (reason : str) (from_phase : PhaseTag).

Record OperationResult := mkOperationResult {
  res_op_id : OperationId;
  res_outcome : OperationOutcome;
}.

(** [serde_json::from_value::<PhaseTag>]: a unit variant is its name, as a string or
    as the only key of an object holding [null]. *)
Definition phase_tag_of_value (v : Json) : option PhaseTag :=
  match v with
  | JString s | JObject [(s, JNull)] => by_spelling as_str all_tags s
  | _ => None
  end.

Definition phase_detail_from_phase (detail : option Json) : PhaseTag :=
  default Tag_Failed ((detail ≫= λ v, json_get v (lit "from_phase")) ≫= phase_tag_of_value).

Definition error_class_from_phase (detail : option Json) : option str :=
  (detail ≫= λ v, json_get v (lit "last_error_class")) ≫= json_as_str.

Definition operation_result_from (op : Operation) : option OperationResult :=
  let output_result := match op_tx_output op with Some o => out_result o | None => JNull end in
  match op_phase op with
  | Succeeded =>
      match op_phase_detail op with
      | Some detail =>
          if bool_decide (json_get detail (lit "completion") ≫= json_as_str
                          = Some (lit "idempotency_collision")) then
            Some {| res_op_id := op_id op;
                    res_outcome := Outcome_SucceededViaCollision
                      (default [] (json_get detail (lit "existing_operation_id") ≫= json_as_str))
                      output_result |}
          else Some {| res_op_id := op_id op; res_outcome := Outcome_Succeeded output_result |}
      | None => Some {| res_op_id := op_id op; res_outcome := Outcome_Succeeded output_result |}
      end
  | Failed =>
      Some {| res_op_id := op_id op;
              res_outcome := Outcome_Failed
                (default (lit "operation failed") (op_last_error op))
                (phase_detail_from_phase (op_phase_detail op))
                (error_class_from_phase (op_phase_detail op)) |}
  | Stuck reason _ =>
      Some {| res_op_id := op_id op;
              res_outcome := Outcome_Stuck reason (phase_detail_from_phase (op_phase_detail op)) |}
  | _ => None
  end.

(** ** Lemmas *)

Lemma as_str_inj t1 t2 : as_str t1 = as_str t2 → t1 = t2.
Proof. by destruct t1, t2. Qed.

Lemma from_db_str_spec s t : from_db_str s = Ok t ↔ s = as_str t.
Proof.
  unfold from_db_str. rewrite <-(by_spelling_spec as_str all_tags s t).
  - destruct (by_spelling _ _ _); split; congruence.
  - intros []; unfold all_tags; set_solver.
  - apply as_str_inj.
Qed.

Lemma phase_tag_of_value_tag t : phase_tag_of_value (JString (as_str t)) = Some t.
Proof. by destruct t. Qed.

Lemma settled_tag_spec p : settled_tag (tag p) = terminal_phase p.
Proof. by destruct p. Qed.

(** The phase read is the one the discriminant spells. *)
Lemma deserialize_join_tag disc detail p : deserialize_join disc detail = Ok p → disc = as_str (tag p).
Proof.
  unfold deserialize_join. destruct (from_db_str disc) as [t|] eqn:Ht; simpl; [|done].
  apply from_db_str_spec in Ht. subst disc.
  destruct t; simpl; try (by intros [= <-]).
  3: { destruct detail as [d|]; simpl; [|done]. destruct (json_get d (lit "reason") ≫= _); simpl; [|done].
       destruct (json_get d (lit "since") ≫= _); simpl; [|done]. by intros [= <-]. }
  all: destruct detail as [d|]; simpl; [|done];
    destruct (json_get d (lit "kind") ≫= _); simpl; [|done];
    (case_bool_decide; simpl; [by intros [= <-]|]); (case_bool_decide; simpl; [by intros [= <-]|done]).
Qed.

(** A phase survives the two columns it is stored in: the discriminant and the detail
    [serialize_split] writes are read back by [deserialize_join] as the same phase, for
    every phase whose timestamp fits a 64-bit integer; a text that spells no phase is
    refused with the error that names it. *)
Theorem phase_roundtrip p disc detail :
  (match p with Stuck _ since => -2 ^ 63 ≤ since < 2 ^ 63 | _ => True end)%Z →
  (deserialize_join (as_str (serialize_split p).1) (serialize_split p).2 = Ok p) ∧
  ((∀ t, disc ≠ as_str t) →
    deserialize_join disc detail = Err (Calm_Internal (lit "unknown operation phase " ++ disc))).
Proof.
  intros Hwf. split.
  - destruct p as [| |[[x|]|[x|]]|[[x|]|[x|]]| | | | | | |reason since]; try reflexivity.
    unfold deserialize_join. simpl. unfold json_as_i64.
    destruct Hwf as [Hlo%Z.leb_le Hhi%Z.ltb_lt]. change (from_db_str (as_str Tag_Stuck)) with (@Ok PhaseTag CalmError Tag_Stuck).
    simpl. by rewrite Hlo, Hhi.
  - intros Hdisc. unfold deserialize_join, from_db_str.
    destruct (by_spelling _ _ _) as [t|] eqn:E; [|done].
    apply by_spelling_Some in E. by destruct (Hdisc t).
Qed.

Lemma phase_roundtrip_witness :
  deserialize_join (as_str (serialize_split (Stuck (lit "lost") 17)).1) (serialize_split (Stuck (lit "lost") 17)).2
  = Ok (Stuck (lit "lost") 17).
Proof. apply (phase_roundtrip (Stuck (lit "lost") 17) [] None). simpl. lia. Defined.
