(* ===== verification/Operations.v ===== *)
(** * The operation repository

    Models the table [operations] and its statements
    ([crates/calm-server/src/operation/mod.rs], [repo_sqlite.rs],
    [repo_sqlite/writes.rs], [settlement.rs], [interaction_retry.rs], [tx_only.rs]).
    The clock ([now_ms]) and fresh identifiers ([new_id]) are arguments of each
    operation. JSON columns hold text; [serde_json], the codecs [serde] derives and
    SQLite's JSON functions are the class [OpCodec]. The schema of migration 0174 is
    [op_row_check] and [op_unique]; its foreign keys, JSON validity checks and the
    rule for isolated workers are the argument [foreign]. What adapters write to
    other tables is left out: only their answer appears. *)

From coqutil Require Import Datatypes.RecordSettersUsingExistingGetters.
From stdpp Require Import prelude gmap strings sorting.
From S2P Require Import Prelude Db Identity OperationPhase.

Local Open Scope calm_scope.

(** A column set to a constant reads as that constant. *)
#[global] Arguments RecordSettersUsingExistingGetters.const {E} newValue _ /.

Definition OPERATION_LEASE_MS : Z := 60000.

(** ** Rows *)

Record OpRow := mkOpRow {
  o_operation_key : str;
  o_kind : str;
  o_idempotency_key : option str;
  o_payload_hash : str;
  o_target_type : str;
  o_target_id : option str;
  o_target_json : str;
  o_payload_json : str;
  o_tx_output_json : option str;
  o_phase : str;
  o_phase_detail_json : option str;
  o_attempt : Z;
  o_last_error : option str;
  o_compensation_state : option str;
  o_lease_owner : option str;
  o_lease_until_ms : option Z;
  o_created_at_ms : Z;
  o_updated_at_ms : Z;
  o_completed_at_ms : option Z;
  o_spawn_artifacts_json : option str;
  o_parked_at_ms : option Z;
  o_parked_deadline_ms : option Z;
}.

Abbreviation Ops := (gmap OperationId OpRow).
Abbreviation OpM := (Tx Ops CalmError).

(** JSON as this code uses it: [serde_json] on values, the codecs [serde] derives, and
    SQLite's functions on text: [json_type] of a text and at a path, [json_extract] of
    a string at a path, [json_set(target, path, json_extract(source, path))] as
    [json_copy_at target path source], and [json_set] of a string. [value_eq] is the
    equality of [serde_json] values. *)
Class OpCodec := {
  parse_json : str → option Json;
  print_json : Json → option str;
  de_blocker : Json → result PendingBlocker str;
  ser_blocker : PendingBlocker → Json;
  de_output : Json → option TxOutput;
  ser_output : TxOutput → Json;
  de_artifacts : Json → option SpawnArtifacts;
  ser_artifacts : SpawnArtifacts → Json;
  ser_compensation : CompensationStateVersioned → Json;
  value_eq : Json → Json → bool;
  json_type : str → option str;
  json_type_at : str → str → option str;
  json_extract_at : str → str → option str;
  json_copy_at : str → str → str → str;
  json_set_string : str → str → str → str;
}.

(** [OWNER_STATE_KEYS] of [calm-truth]: fields of the output that other owners keep. *)
Inductive OwnerKey :=
| Key_terminal_launch | Key_gate_execution | Key_forge_execution | Key_workspace_reclaim
| Key_terminal_worker_execution.

Definition OWNER_STATE_KEYS : list OwnerKey :=
  [Key_terminal_launch; Key_gate_execution; Key_forge_execution; Key_workspace_reclaim;
   Key_terminal_worker_execution].

Definition owner_key_str (k : OwnerKey) : str :=
  lit match k with
  | Key_terminal_launch => "terminal_launch"
  | Key_gate_execution => "gate_execution"
  | Key_forge_execution => "forge_execution"
  | Key_workspace_reclaim => "workspace_reclaim"
  | Key_terminal_worker_execution => "terminal_worker_execution"
  end.

(** [$.data.{key}]. *)
Definition owner_path (k : OwnerKey) : str := lit "$.data." ++ owner_key_str k.

(** ** The schema *)

Definition is_some {A} (o : option A) : bool := match o with Some _ => true | None => false end.

Definition op_row_check (r : OpRow) : bool :=
  bool_decide (o_phase r ∈ as_str <$> all_tags) &&
  (bool_decide (o_phase r ≠ lit "awaiting_retry") ||
   is_some (o_idempotency_key r) && is_some (o_tx_output_json r) && is_some (o_phase_detail_json r)
   && negb (is_some (o_lease_owner r)) && negb (is_some (o_lease_until_ms r))
   && negb (is_some (o_completed_at_ms r))) &&
  (bool_decide (o_phase r ≠ lit "parked") ||
   is_some (o_parked_at_ms r) && is_some (o_parked_deadline_ms r)).

(** [UNIQUE (operation_key)] and the unique index on [(kind, idempotency_key)]. *)
Definition op_keys (t : Ops) : list str := (λ p, o_operation_key p.2) <$> map_to_list t.
Definition op_idempotency (t : Ops) : list (str * str) :=
  omap (λ p, pair (o_kind p.2) <$> o_idempotency_key p.2) (map_to_list t).

Definition op_unique (t : Ops) : bool :=
  bool_decide (NoDup (op_keys t)) && bool_decide (NoDup (op_idempotency t)).

(** [phase IN (...)] of the driver's scans. *)
Definition drive_phase (phase : str) : bool :=
  bool_decide (phase ∈ as_str <$> [Tag_Pending; Tag_TxCommitted; Tag_AppServerInteract;
                                   Tag_SpawnStarted; Tag_SpawnSucceeded; Tag_Compensating]).

(** [phase = 'parked']. *)
Definition in_phase (t : PhaseTag) (r : OpRow) : bool := bool_decide (o_phase r = as_str t).

(** [lease_until_ms IS NULL OR lease_until_ms < now]. *)
Definition lease_expired (now : Z) (r : OpRow) : bool :=
  match o_lease_until_ms r with None => true | Some until => (until <? now)%Z end.

(** [lease_owner IS NULL OR lease_until_ms < now]: a comparison with [NULL] is not true. *)
Definition lease_free (now : Z) (r : OpRow) : bool :=
  match o_lease_owner r with
  | None => true
  | Some _ => match o_lease_until_ms r with None => false | Some until => (until <? now)%Z end
  end.

(** [SET lease_owner = ?1, lease_until_ms = ?2, updated_at_ms = ?3]. *)
Definition take_lease (owner : str) (now : Z) (r : OpRow) : OpRow :=
  { r with o_lease_owner := Some owner; o_lease_until_ms := Some (now + OPERATION_LEASE_MS)%Z;
           o_updated_at_ms := now }.

(** [lease_owner = NULL, lease_until_ms = NULL]. *)
Definition drop_lease (r : OpRow) : OpRow :=
  { r with o_lease_owner := None; o_lease_until_ms := None }.

(** The answer of a write that leaves a phase. *)
Inductive LeaveWrite (A : Type) := Applied (a : A) | ClaimLost | Retained.
Arguments Applied {A} a.
Arguments ClaimLost {A}.
Arguments Retained {A}.

Section repo.
Context `{Codec : OpCodec}.
Context (foreign : Ops → Ops → bool).

Definition op_accepts (t t' : Ops) : bool :=
  forallb (λ p, op_row_check p.2) (map_to_list t') && op_unique t' && foreign t t'.

Definition op_exec : (Ops → Ops * N) → OpM N := db_exec op_accepts Calm_Db.

(** [serde_json::to_string], [from_str]; [Option::map] with [transpose]. *)
Definition to_string (v : Json) : result str CalmError :=
  match print_json v with Some s => Ok s | None => Err Calm_Serde end.
Definition from_text {A} (de : Json → option A) (s : str) : result A CalmError :=
  match parse_json s ≫= de with Some a => Ok a | None => Err Calm_Serde end.
Definition transpose {A B} (f : A → result B CalmError) (o : option A) : result (option B) CalmError :=
  match o with None => Ok None | Some a => let? b := f a in Ok (Some b) end.
Definition optional_json_text (v : option Json) : result (option str) CalmError := transpose to_string v.

(** ** Reading a row *)

Definition operation_from_row (id : OperationId) (r : OpRow) : result Operation CalmError :=
  let? phase_detail := transpose (from_text Some) (o_phase_detail_json r) in
  let? tx_output := transpose (from_text de_output) (o_tx_output_json r) in
  let? compensation_state := transpose (from_text Some) (o_compensation_state r) in
  let spawn_artifacts := o_spawn_artifacts_json r ≫= λ text, parse_json text ≫= de_artifacts in
  let? target := from_text Some (o_target_json r) in
  let? payload := from_text Some (o_payload_json r) in
  let? phase := deserialize_join (o_phase r) phase_detail in
  if (-2 ^ 31 <=? o_attempt r)%Z && (o_attempt r <? 2 ^ 31)%Z then
    Ok {| op_id := id; op_operation_key := o_operation_key r; op_kind := o_kind r;
          op_idempotency_key := o_idempotency_key r; op_payload_hash := o_payload_hash r;
          op_target_type := o_target_type r; op_target_id := o_target_id r; op_target := target;
          op_payload := payload; op_tx_output := tx_output; op_phase := phase;
          op_phase_detail := phase_detail; op_attempt := o_attempt r;
          op_last_error := o_last_error r; op_compensation_state := compensation_state;
          op_lease_owner := o_lease_owner r; op_lease_until_ms := o_lease_until_ms r;
          op_spawn_artifacts := spawn_artifacts; op_parked_at_ms := o_parked_at_ms r;
          op_parked_deadline_ms := o_parked_deadline_ms r |}
  else Err Calm_Db.

Definition find_by_id (t : Ops) (id : OperationId) : result (option Operation) CalmError :=
  transpose (operation_from_row id) (t !! id).

(** [fetch_one] of the row [id]. *)
Definition read_row (t : Ops) (id : OperationId) : result Operation CalmError :=
  match t !! id with Some r => operation_from_row id r | None => Err Calm_Db end.

(** The row with an idempotency key; the index leaves at most one. *)
Definition keyed_row (t : Ops) (kind idempotency_key : str) : option (OperationId * OpRow) :=
  head (filter (λ p, o_kind p.2 = kind ∧ o_idempotency_key p.2 = Some idempotency_key)
          (btree_iter t)).

Definition find_by_kind_idempotency (t : Ops) (kind idempotency_key : str)
  : result (option Operation) CalmError :=
  transpose (λ p, operation_from_row p.1 p.2) (keyed_row t kind idempotency_key).

Definition find_by_idempotency_key (t : Ops) (kind : str) (key : OperationKey)
  : result (option Operation) CalmError :=
  match key_idempotency_key key with
  | None => Ok None
  | Some idempotency_key => find_by_kind_idempotency t kind idempotency_key
  end.

Definition get_operation_on_track (t : Ops) (id kind track_id : str)
  : result (option Operation) CalmError :=
  transpose (operation_from_row id)
    (t !! id ≫= λ r,
      if bool_decide (o_kind r = kind) && bool_decide (o_target_type r = lit "track")
         && bool_decide (o_target_id r = Some track_id) then Some r else None).

Definition operation_result (t : Ops) (id : OperationId) : result (option OperationResult) CalmError :=
  let? op := find_by_id t id in
  Ok (op ≫= operation_result_from).

(** [rows.iter().map(operation_from_row).collect()], in creation order; equal times
    come in the order of the primary key. *)
Definition created_le (p q : OperationId * OpRow) : Prop :=
  (o_created_at_ms p.2 ≤ o_created_at_ms q.2)%Z.

#[local] Instance created_le_dec : RelDecision created_le.
Proof. intros p q. unfold created_le. apply _. Defined.

Definition by_creation (cond : OperationId → OpRow → bool) (t : Ops) : list (OperationId * OpRow) :=
  merge_sort created_le (filter (λ p, cond p.1 p.2 = true) (btree_iter t)).

Fixpoint collect {A B} (f : A → result B CalmError) (l : list A) : result (list B) CalmError :=
  match l with
  | [] => Ok []
  | a :: rest => let? b := f a in let? bs := collect f rest in Ok (b :: bs)
  end.

Definition read_rows (cond : OperationId → OpRow → bool) (t : Ops) : result (list Operation) CalmError :=
  collect (λ p, operation_from_row p.1 p.2) (by_creation cond t).

Definition parked_operations (t : Ops) : result (list Operation) CalmError :=
  read_rows (λ _ r, in_phase Tag_Parked r) t.

Definition abandoned_running_operations_on (t : Ops) : result (list Operation) CalmError :=
  read_rows (λ _ r, drive_phase (o_phase r) || in_phase Tag_Parked r) t.

Definition abandoned_running_operations_steady_state (now : Z) (t : Ops)
  : result (list Operation) CalmError :=
  read_rows (λ _ r, drive_phase (o_phase r) && lease_expired now r) t.

(** ** Submitting an operation *)

Definition SCHEDULER_PENDING_DETAIL : str :=
  lit "{" ++ [34%N] ++ lit "retry_owner" ++ [34%N] ++ lit ":" ++ [34%N] ++ lit "scheduler" ++ [34%N] ++ lit "}".

Definition pending_row (now : Z) (kind : str) (key : OperationKey) (payload : Json)
    (phase_detail : option str) : result OpRow CalmError :=
  let '(target_type, target_id, target_json) := target_from_payload payload in
  let? target_text := to_string target_json in
  let? payload_text := to_string payload in
  Ok {| o_operation_key := key_operation_key key; o_kind := kind;
        o_idempotency_key := key_idempotency_key key; o_payload_hash := key_payload_hash key;
        o_target_type := target_type; o_target_id := target_id; o_target_json := target_text;
        o_payload_json := payload_text; o_tx_output_json := None; o_phase := lit "pending";
        o_phase_detail_json := phase_detail; o_attempt := 0; o_last_error := None;
        o_compensation_state := None; o_lease_owner := None; o_lease_until_ms := None;
        o_created_at_ms := now; o_updated_at_ms := now; o_completed_at_ms := None;
        o_spawn_artifacts_json := None; o_parked_at_ms := None; o_parked_deadline_ms := None |}.

Inductive InsertAnswer := Inserted_row | Unique_violation | Refused_row.

(** The one [INSERT]: a key already taken is a unique violation. *)
Definition insert_pending (id : OperationId) (r : OpRow) : OpM InsertAnswer := λ t,
  if is_some (t !! id) || negb (op_unique (<[id := r]> t)) then (t, Ok Unique_violation)
  else if op_accepts t (<[id := r]> t) then (<[id := r]> t, Ok Inserted_row)
  else (t, Ok Refused_row).

(** What an existing row with the key answers. *)
Definition keyed_answer (idempotency_key : str) (key : OperationKey) (existing : Operation)
  : result OperationId CalmError :=
  if bool_decide (op_payload_hash existing = key_payload_hash key) then Ok (op_id existing)
  else Err (idempotency_payload_conflict (Some idempotency_key)).

(** The insertion of a submission that found no row under its key; a unique violation
    means another one came between, and its row answers. *)
Definition insert_missing (now : Z) (id kind : str) (key : OperationKey) (payload : Json)
    (retry_owner : PendingRetryOwner) : OpM OperationId :=
  let* row := db_read (λ _, pending_row now kind key payload
    (if bool_decide (retry_owner = Owner_Scheduler) then Some SCHEDULER_PENDING_DETAIL else None)) in
  let* inserted := insert_pending id row in
  match inserted with
  | Inserted_row => db_ret id
  | Unique_violation =>
      let* existing := db_read (λ t, find_by_idempotency_key t kind key) in
      match key_idempotency_key key, existing with
      | Some idempotency_key, Some existing => db_read (λ _, keyed_answer idempotency_key key existing)
      | _, _ =>
          db_raise (Calm_Conflict (lit "operation key " ++ key_operation_key key
                                   ++ lit " already exists"))
      end
  | Refused_row => db_raise Calm_Db
  end.

(** [insert_operation_for] reads for the key first, in the snapshot [seen] of the read
    pool, and inserts later. *)
Definition insert_operation_for (seen : Ops) (now : Z) (id kind : str) (key : OperationKey)
    (payload : Json) (retry_owner : PendingRetryOwner) : OpM OperationId :=
  let* existing := db_read (λ _, find_by_idempotency_key seen kind key) in
  match key_idempotency_key key, existing with
  | Some idempotency_key, Some existing => db_read (λ _, keyed_answer idempotency_key key existing)
  | _, _ => insert_missing now id kind key payload retry_owner
  end.

(** ** Claims

    A claim stamps the row with a fresh owner for [OPERATION_LEASE_MS]. *)

(** [DRIVER_MAY_CLAIM]: [json_valid] holds of what [json_type] has a type for. *)
Definition driver_may_claim (r : OpRow) : bool :=
  negb (in_phase Tag_Pending r) ||
  match o_phase_detail_json r with
  | None => true
  | Some detail =>
      match json_type detail with
      | None => false
      | Some ty =>
          bool_decide (ty = lit "object") &&
          (negb (is_some (json_type_at detail (lit "$.retry_owner"))) ||
           bool_decide (json_extract_at detail (lit "$.retry_owner") = Some (lit "driver")))
      end
  end.

Definition drivable (now : Z) (exact_id : option OperationId) (id : OperationId) (r : OpRow) : bool :=
  drive_phase (o_phase r) && lease_expired now r &&
  match exact_id with None => true | Some x => bool_decide (id = x) end && driver_may_claim r.

(** The loop of [claim_drivable] over the selected ids. *)
Fixpoint claim_each (now : Z) (lease_owner : str) (ids : list OperationId) : OpM (list Operation) :=
  match ids with
  | [] => db_ret []
  | id :: rest =>
      let* n := op_exec (update_id id (λ r, drive_phase (o_phase r) && lease_expired now r)
                           (take_lease lease_owner now)) in
      let* claimed :=
        if (n =? 1)%N then let* op := db_read (λ t, read_row t id) in db_ret [op]
        else db_ret [] in
      let* more := claim_each now lease_owner rest in
      db_ret (claimed ++ more)
  end.

Definition claim_drivable (now : Z) (lease_owner : str) (limit : nat) (exact_id : option OperationId)
  : OpM (list Operation) :=
  in_tx (let* ids := db_read (λ t, Ok (take limit (by_creation (drivable now exact_id) t)).*1) in
         claim_each now lease_owner ids).

Definition claim_drive_batch (now : Z) (lease_owner : str) (limit : nat) : OpM (list Operation) :=
  claim_drivable now lease_owner limit None.

(** [pop] of at most one. *)
Definition claim_drive_operation (now : Z) (lease_owner : str) (id : OperationId)
  : OpM (option Operation) :=
  let* claimed := claim_drivable now lease_owner 1 (Some id) in
  db_ret (last claimed).

(** A claim by [UPDATE], its row read back by [fetch] when the update took one. *)
Definition claim_then {A} (id : OperationId) (cond : OpRow → bool) (f : OpRow → OpRow)
    (fetch : Ops → result (option A) CalmError) : OpM (option A) :=
  let* n := op_exec (update_id id cond f) in
  if (n =? 0)%N then db_ret None else db_read fetch.

Definition claim_operation_for_boot_recovery (now : Z) (lease_owner : str) (id : OperationId)
  : OpM (option Operation) :=
  claim_then id (λ r, drive_phase (o_phase r) && driver_may_claim r) (take_lease lease_owner now)
    (λ t, find_by_id t id).

Definition fetch_claimed_parked (t : Ops) (id : OperationId) (lease_owner : str)
  : result (option Operation) CalmError :=
  transpose (operation_from_row id)
    (t !! id ≫= λ r,
      if bool_decide (o_lease_owner r = Some lease_owner) && in_phase Tag_Parked r then Some r else None).

Definition claim_parked (now : Z) (lease_owner : str) (id : OperationId) : OpM (option Operation) :=
  claim_then id (λ r, in_phase Tag_Parked r && lease_free now r) (take_lease lease_owner now)
    (λ t, fetch_claimed_parked t id lease_owner).

Definition claim_parked_for_boot (now : Z) (lease_owner : str) (id : OperationId)
  : OpM (option Operation) :=
  claim_then id (in_phase Tag_Parked) (take_lease lease_owner now)
    (λ t, fetch_claimed_parked t id lease_owner).

Definition clear_parked_lease_for_boot (now : Z) (id : OperationId) : OpM unit :=
  let* _ := op_exec (update_id id (in_phase Tag_Parked)
                       (λ r, { drop_lease r with o_updated_at_ms := now })) in
  db_ret tt.

(** ** The fence

    Every write of a claimed operation first checks, in its own transaction, that the
    claim it was made under still stands. *)

(** [original_operation_query]: the inputs the operation was accepted with. *)
Definition original_matches (original : Operation) (payload : str) (r : OpRow) : bool :=
  bool_decide (o_operation_key r = op_operation_key original)
  && bool_decide (o_kind r = op_kind original)
  && bool_decide (o_idempotency_key r = op_idempotency_key original)
  && bool_decide (o_payload_hash r = op_payload_hash original)
  && bool_decide (o_payload_json r = payload).

Definition require_original_operation_tx (original : Operation) : OpM unit :=
  let* payload := db_read (λ _, to_string (op_payload original)) in
  db_read (λ t,
    match t !! op_id original with
    | Some r => if original_matches original payload r then Ok tt
                else Err (Calm_Conflict (lit "original operation inputs changed"))
    | None => Err (Calm_Conflict (lit "original operation inputs changed"))
    end).

(** The predicate of the fence on a row. *)
Definition live_claim (now : Z) (original : Operation) (payload owner : str) (r : OpRow) : bool :=
  original_matches original payload r
  && in_phase (tag (op_phase original)) r
  && bool_decide (o_lease_owner r = Some owner)
  && match o_lease_until_ms r with Some until => (now <=? until)%Z | None => false end
  && negb (is_some (o_completed_at_ms r)).

Definition has_live_claim_tx (now : Z) (original : Operation) : OpM bool :=
  let* payload := db_read (λ _, to_string (op_payload original)) in
  let* owner := db_read (λ _, required_lease_owner original) in
  db_read (λ t,
    Ok match t !! op_id original with
       | Some r => live_claim now original payload owner r
       | None => false
       end).

Definition require_live_claim_tx (now : Z) (original : Operation) : OpM unit :=
  let* live := has_live_claim_tx now original in
  if live : bool then db_ret tt
  else db_raise (Calm_Conflict (lit "operation no longer owns its original live claim")).

(** Whether another owner still holds the operation's resource; it then records the
    refusal. *)
Definition retain_owned_tx (op : Operation) (key : option OwnerKey) : OpM bool :=
  match key with
  | None => db_ret false
  | Some key =>
      let* retained := db_read (λ t,
        match t !! op_id op with
        | Some r => Ok (is_some (o_tx_output_json r ≫= λ text, json_type_at text (owner_path key)))
        | None => Err Calm_Db
        end) in
      if retained : bool then
        let* _ := op_exec (update_id (op_id op) (λ _, true) (λ r,
          { r with o_last_error := Some (lit "owned execution retained: generic phase write refused") })) in
        db_ret true
      else db_ret false
  end.

(** [self.find_by_id(&op.id)] after the commit. *)
Definition reread (op : Operation) : OpM Operation :=
  let* found := db_read (λ t, find_by_id t (op_id op)) in
  match found with
  | Some next => db_ret next
  | None => db_raise (Calm_Internal (lit "operation " ++ op_id op ++ lit " vanished"))
  end.

(** A write that leaves the claimed phase: fenced, refused while the resource is
    retained, then [UPDATE ... WHERE id AND lease_owner]. *)
Definition leave_write (now : Z) (op : Operation) (owner_key : option OwnerKey)
    (write : str → OpM N) : OpM (LeaveWrite unit) :=
  let* live := has_live_claim_tx now op in
  if negb live then db_ret ClaimLost
  else
    let* retained := retain_owned_tx op owner_key in
    if retained : bool then db_ret Retained
    else
      let* owner := db_read (λ _, required_lease_owner op) in
      let* n := write owner in
      db_ret (if (n =? 0)%N then ClaimLost else Applied tt).

Definition leave_answer (op : Operation) (w : LeaveWrite unit) : OpM (LeaveWrite Operation) :=
  match w with
  | Applied _ => let* next := reread op in db_ret (Applied next)
  | ClaimLost => db_ret ClaimLost
  | Retained => db_ret Retained
  end.

(** ** Leaving a phase *)

Definition set_phase (now : Z) (op : Operation) (phase : Phase) (owner_key : option OwnerKey)
  : OpM (LeaveWrite Operation) :=
  if terminal_phase phase then db_raise (Calm_Internal (lit "terminal phase requires settlement"))
  else if match phase, op_phase op with
          | AwaitingRetry _, AppServerInteract _ => false
          | AwaitingRetry _, _ => true
          | _, _ => false
          end then db_ret ClaimLost
  else
    let* w := in_tx (leave_write now op owner_key (λ owner,
      let '(t, detail) := serialize_split phase in
      let* detail_text := db_read (λ _, optional_json_text detail) in
      op_exec (update_id (op_id op) (λ r, bool_decide (o_lease_owner r = Some owner))
        (λ r, { drop_lease r with o_phase := as_str t; o_phase_detail_json := detail_text;
                                  o_updated_at_ms := now })))) in
    leave_answer op w.

(** The output a checkpoint or compensation finds committed. *)
Definition read_output_tx (t : Ops) (id : OperationId) : result (option TxOutput) CalmError :=
  match t !! id with
  | Some r => transpose (from_text de_output) (o_tx_output_json r)
  | None => Err Calm_Db
  end.

Definition set_compensating (now : Z) (op : Operation) (state : CompensationStateVersioned)
    (owner_key : option OwnerKey) : OpM (LeaveWrite Operation) :=
  let* w := in_tx (leave_write now op owner_key (λ owner,
    let* output := db_read (λ t, read_output_tx t (op_id op)) in
    match output with
    | None => db_raise (Calm_Internal (lit "operation " ++ op_id op
                          ++ lit " has no committed output for compensation"))
    | Some _ =>
        let* detail := db_read (λ _, to_string
          (JObject [(lit "from_phase", JString (as_str (cs_from_phase state)));
                    (lit "reason", JString (cs_reason state))])) in
        let* state_text := db_read (λ _, to_string (ser_compensation state)) in
        op_exec (update_id (op_id op) (λ r, bool_decide (o_lease_owner r = Some owner))
          (λ r, { drop_lease r with o_phase := lit "compensating"; o_phase_detail_json := Some detail;
                    o_compensation_state := Some state_text; o_last_error := Some (cs_reason state);
                    o_updated_at_ms := now }))
    end)) in
  leave_answer op w.

Definition update_compensation_state (now : Z) (op : Operation) (state : CompensationStateVersioned)
  : OpM (option Operation) :=
  let* n := in_tx (
    let* live := has_live_claim_tx now op in
    if negb live then db_ret 0%N
    else
      let* text := db_read (λ _, to_string (ser_compensation state)) in
      let* owner := db_read (λ _, required_lease_owner op) in
      op_exec (update_id (op_id op) (λ r, bool_decide (o_lease_owner r = Some owner))
        (λ r, { r with o_compensation_state := Some text; o_updated_at_ms := now }))) in
  if (n =? 0)%N then db_ret None else let* next := reread op in db_ret (Some next).

Definition record_spawn_artifacts (now : Z) (op : Operation) (artifacts : SpawnArtifacts) : OpM unit :=
  in_tx (
    let* _ := require_live_claim_tx now op in
    match op_phase op with
    | SpawnStarted =>
        let* text := db_read (λ _, to_string (ser_artifacts artifacts)) in
        let* _ := op_exec (update_id (op_id op) (λ _, true)
          (λ r, { r with o_spawn_artifacts_json := Some text; o_updated_at_ms := now })) in
        db_ret tt
    | _ => db_raise (Calm_Conflict (lit "spawn artifacts require spawn_started"))
    end).

Definition set_parked (now : Z) (op : Operation) (deadline_ms : Z) (owner_key : option OwnerKey)
  : OpM (option Operation) :=
  let* n := in_tx (
    match op_phase op with
    | SpawnStarted =>
        let* live := has_live_claim_tx now op in
        if negb live then db_ret 0%N
        else op_exec (update_id (op_id op)
          (λ r, is_some (o_spawn_artifacts_json r) ||
                match owner_key with
                | None => false
                | Some key => is_some (o_tx_output_json r ≫= λ text, json_type_at text (owner_path key))
                end)
          (λ r, { drop_lease r with o_phase := lit "parked"; o_phase_detail_json := None;
                    o_parked_at_ms := Some now; o_parked_deadline_ms := Some deadline_ms;
                    o_updated_at_ms := now }))
    | _ => db_ret 0%N
    end) in
  if (n =? 0)%N then db_ret None else db_read (λ t, find_by_id t (op_id op)).

(** ** Output checkpoints *)

(** [preserving_owner_sql]: the new output, with the fields other owners hold in the
    committed one. *)
Definition preserving_owner (old : option str) (new : str) : str :=
  foldl (λ sql key,
    match old with
    | Some text =>
        if bool_decide (json_type_at text (owner_path key) = Some (lit "object"))
        then json_copy_at sql (owner_path key) text else sql
    | None => sql
    end) new OWNER_STATE_KEYS.

(** [output_value]: an output without the fields other owners keep. *)
Definition strip_owner_fields (v : Json) : Json :=
  match v with
  | JObject fields =>
      JObject ((λ f, match f with
        | (k, JObject data) =>
            if bool_decide (k = lit "data")
            then (k, JObject (filter (λ p, p.1 ∉ owner_key_str <$> OWNER_STATE_KEYS) data)) else f
        | _ => f
        end) <$> fields)
  | _ => v
  end.

Definition output_value (output : option TxOutput) : option Json :=
  (λ o, strip_owner_fields (ser_output o)) <$> output.

Definition output_eq (a b : option Json) : bool :=
  match a, b with
  | None, None => true
  | Some a, Some b => value_eq a b
  | _, _ => false
  end.

Definition settlement_output_matches_tx (op : Operation) (output : TxOutput) : OpM bool :=
  let* current := db_read (λ t, read_output_tx t (op_id op)) in
  db_ret (output_eq (output_value current) (output_value (op_tx_output op))
          || output_eq (output_value current) (output_value (Some output))).

(** The target columns of an output. *)
Definition target_text (output : TxOutput) : result str CalmError :=
  to_string (JObject [(lit "type", JString (out_target_type output));
                      (lit "id", json_opt_str (out_target_id output))]).

Definition set_output (output : TxOutput) (target text : str) (r : OpRow) : OpRow :=
  { r with o_tx_output_json := Some (preserving_owner (o_tx_output_json r) text);
           o_target_type := out_target_type output; o_target_id := out_target_id output;
           o_target_json := target }.

Definition checkpoint_app_server_interact_tx (now : Z) (op : Operation) (kind : AppServerInteractKind)
    (expected_output output : TxOutput) : OpM unit :=
  let* _ := require_live_claim_tx now op in
  let* changed :=
    if negb (bool_decide (tag (op_phase op) = Tag_AppServerInteract)) then db_ret true
    else
      let* current := db_read (λ t, read_output_tx t (op_id op)) in
      db_ret (negb (output_eq (output_value current) (output_value (Some expected_output)))) in
  if changed : bool
  then db_raise (Calm_Conflict (lit "operation checkpoint changed"))
  else
    let* detail := db_read (λ _, optional_json_text (serialize_split (AppServerInteract kind)).2) in
    let* text := db_read (λ _, to_string (ser_output output)) in
    let* target := db_read (λ _, target_text output) in
    let* owner := db_read (λ _, required_lease_owner op) in
    let* n := op_exec (update_id (op_id op)
      (λ r, in_phase Tag_AppServerInteract r && bool_decide (o_lease_owner r = Some owner))
      (λ r, { set_output output target text r with o_phase_detail_json := detail;
                                                   o_updated_at_ms := now })) in
    if (n =? 0)%N then
      db_raise (Calm_Internal (lit "operation " ++ op_id op
                  ++ lit " lost lease while checkpointing app_server_interact"))
    else db_ret tt.

Inductive PhaseWrite := Claimed (op : Operation) | Inserted (op : Operation).

Definition write_op (w : PhaseWrite) : Operation := match w with Claimed op | Inserted op => op end.

(** Whether the writer may write: the claim and the committed output, or the row just
    inserted and claimed by nobody. *)
Definition write_admitted (now : Z) (authority : PhaseWrite) (output : TxOutput) : OpM bool :=
  match authority with
  | Claimed op =>
      let* live := has_live_claim_tx now op in
      if negb live then db_ret false else settlement_output_matches_tx op output
  | Inserted op =>
      let* _ := require_original_operation_tx op in
      if is_some (op_lease_owner op) || negb (bool_decide (op_phase op = Pending))
      then db_raise (Calm_Conflict (lit "inserted operation is already claimed"))
      else db_read (λ t,
        Ok match t !! op_id op with
           | Some r => in_phase Tag_Pending r && negb (is_some (o_lease_owner r))
                       && negb (is_some (o_lease_until_ms r)) && negb (is_some (o_completed_at_ms r))
           | None => false
           end)
  end.

Definition write_phase_and_tx_output (now : Z) (authority : PhaseWrite) (phase : Phase)
    (output : TxOutput) : OpM bool :=
  if terminal_phase phase &&
     negb match authority, phase with Inserted _, Succeeded => true | _, _ => false end
  then db_raise (Calm_Internal (lit "terminal phase requires settlement"))
  else
    let* admitted := write_admitted now authority output in
    let op := write_op authority in
    if negb admitted then db_ret false
    else if match phase, op_phase op with
            | AwaitingRetry _, AppServerInteract _ => false
            | AwaitingRetry _, _ => true
            | _, _ => false
            end then db_ret false
    else
      let '(t, detail) := serialize_split phase in
      let* detail_text := db_read (λ _, optional_json_text detail) in
      let* text := db_read (λ _, to_string (ser_output output)) in
      let* target := db_read (λ _, target_text output) in
      let* n := op_exec (update_id (op_id op) (λ _, true)
        (λ r, { drop_lease (set_output output target text r) with
                  o_phase := as_str t; o_phase_detail_json := detail_text;
                  o_completed_at_ms := if terminal_phase phase then Some now else o_completed_at_ms r;
                  o_updated_at_ms := now })) in
      db_ret (0 <? n)%N.

Definition set_phase_and_tx_output (now : Z) (op : Operation) (phase : Phase) (output : TxOutput)
  : OpM (option Operation) :=
  let* written := in_tx (write_phase_and_tx_output now (Claimed op) phase output) in
  if negb written then db_ret None else let* next := reread op in db_ret (Some next).

Inductive TxCommittedAdvance := Advanced | Advance_ClaimLost.

Definition advance_to_tx_committed_tx (now : Z) (op : Operation) (output : TxOutput)
  : OpM TxCommittedAdvance :=
  let* written := write_phase_and_tx_output now (Claimed op) TxCommitted output in
  db_ret (if written : bool then Advanced else Advance_ClaimLost).

Inductive PrepareAdvance := Prepare_Committed (op : Operation) | Prepare_ClaimLost | Prepare_Stale.

(** [checkout] is [require_operation_checkout_tx]; [applied] the adapter's preparation,
    [None] when its evidence went stale. *)
Definition prepare_tx_and_advance (now : Z) (checkout : Ops → result unit CalmError)
    (applied : result (option TxOutput) CalmError) (op : Operation) : OpM PrepareAdvance :=
  let* advanced := in_tx (
    let* live := has_live_claim_tx now op in
    if negb live then db_ret (Some Advance_ClaimLost)
    else
      let* _ := db_read checkout in
      let* output := db_read (λ _, applied) in
      match output with
      | None => db_ret None
      | Some output => let* a := advance_to_tx_committed_tx now op output in db_ret (Some a)
      end) in
  match advanced with
  | None => db_ret Prepare_Stale
  | Some Advance_ClaimLost => db_ret Prepare_ClaimLost
  | Some Advanced => let* next := reread op in db_ret (Prepare_Committed next)
  end.

(** ** Settlement *)

Inductive TerminalOutcome :=
| Terminal_Succeeded
| Terminal_SucceededWithResult (result : Json)
| Terminal_Failed (last_error : str) (from_phase : PhaseTag) (last_error_class : option str)
| Terminal_Stuck (reason : str) (from_phase : PhaseTag).

Inductive ParkedOutcome :=
| Parked_Succeeded (result : Json)
| Parked_Failed (last_error : str) (last_error_class : option str).

Definition terminal_of_parked (outcome : ParkedOutcome) : TerminalOutcome :=
  match outcome with
  | Parked_Succeeded result => Terminal_SucceededWithResult result
  | Parked_Failed last_error last_error_class =>
      Terminal_Failed last_error Tag_Parked last_error_class
  end.

Definition with_result (o : TxOutput) (result : Json) : TxOutput :=
  {| out_target_type := out_target_type o; out_target_id := out_target_id o;
     out_result := result; out_data := out_data o |}.

(** What a terminal decision writes: phase, detail, error, and the answer. *)
Definition terminal_columns (now : Z) (outcome : TerminalOutcome) (output : option TxOutput)
  : result (PhaseTag * option Json * option str * OperationOutcome) CalmError :=
  match outcome with
  | Terminal_Succeeded | Terminal_SucceededWithResult _ =>
      let? o := or_internal output (lit "successful operation has no output") in
      Ok (Tag_Succeeded, None, None, Outcome_Succeeded (out_result o))
  | Terminal_Failed last_error from_phase last_error_class =>
      Ok (Tag_Failed,
          Some (JObject [(lit "from_phase", JString (as_str from_phase));
                         (lit "last_error_class", json_opt_str last_error_class)]),
          Some last_error, Outcome_Failed last_error from_phase last_error_class)
  | Terminal_Stuck reason from_phase =>
      Ok (Tag_Stuck,
          Some (JObject [(lit "reason", JString reason); (lit "since", JInt now);
                         (lit "from_phase", JString (as_str from_phase))]),
          Some reason, Outcome_Stuck reason from_phase)
  end.

(** The row a settlement leaves. *)
Definition settle_row (now : Z) (t : PhaseTag) (detail error output : option str) (r : OpRow) : OpRow :=
  { drop_lease r with o_phase := as_str t; o_phase_detail_json := detail; o_last_error := error;
      o_tx_output_json := output; o_parked_deadline_ms := None; o_completed_at_ms := Some now;
      o_updated_at_ms := now }.

Definition write_terminal_tx (now : Z) (op : Operation) (outcome : TerminalOutcome)
  : OpM OperationResult :=
  let* committed := db_read (λ t, read_output_tx t (op_id op)) in
  let* output := db_read (λ _,
    match outcome with
    | Terminal_SucceededWithResult result =>
        let? o := or_internal committed (lit "successful operation has no output") in
        Ok (Some (with_result o result))
    | _ => Ok committed
    end) in
  let* columns := db_read (λ _, terminal_columns now outcome output) in
  let '(t, detail, error, answer) := columns in
  let* detail_text := db_read (λ _, optional_json_text detail) in
  let* output_text := db_read (λ _, transpose (λ o, to_string (ser_output o)) output) in
  let* _ := op_exec (update_id (op_id op) (λ _, true) (settle_row now t detail_text error output_text)) in
  db_ret {| res_op_id := op_id op; res_outcome := answer |}.

(** [append] is the owner's event, appended in the same transaction. *)
Definition settle_claimed (now : Z) (op : Operation) (outcome : TerminalOutcome)
    (owner_key : option OwnerKey) (append : result unit CalmError) : OpM (LeaveWrite OperationResult) :=
  in_tx (
    let* live := has_live_claim_tx now op in
    if negb live then db_ret ClaimLost
    else
      let* retained := retain_owned_tx op owner_key in
      if retained : bool then db_ret Retained
      else
        let* result := write_terminal_tx now op outcome in
        let* _ := db_read (λ _, append) in
        db_ret (Applied result)).

Inductive ParkedCompletion := Completed (result : OperationResult) | AlreadyResolved (phase : PhaseTag).

Definition complete_parked_tx (now : Z) (id : OperationId) (outcome : ParkedOutcome)
  : OpM ParkedCompletion :=
  let* op := db_read (λ t,
    match t !! id with
    | None => Err (Calm_NotFound (lit "operation " ++ id ++ lit " not found"))
    | Some r => operation_from_row id r
    end) in
  match op_phase op with
  | Parked =>
      let* _ := db_read (λ _, required_output op) in
      let* completed := write_terminal_tx now op (terminal_of_parked outcome) in
      db_ret (Completed completed)
  | phase => db_ret (AlreadyResolved (tag phase))
  end.

Inductive ParkedRecovery :=
| LeaveParked
| Recovery_Complete (outcome : ParkedOutcome)
| Recovery_Fail (reason : str).

(** What [owned_parked::reconcile] does with the recovered outcome: the result it then
    publishes, or the error it returns. *)
Definition reconcile_answer (now : Z) (op : Operation) (recovered : result ParkedRecovery CalmError)
    (append : result unit CalmError) : OpM (option OperationResult) :=
  match recovered with
  | Err e => db_raise e
  | Ok (Recovery_Complete outcome) =>
      in_tx (
        let* _ := require_live_claim_tx now op in
        let* completion := complete_parked_tx now (op_id op) outcome in
        match completion with
        | Completed result => let* _ := db_read (λ _, append) in db_ret (Some result)
        | AlreadyResolved _ => db_ret None
        end)
  | Ok LeaveParked => db_ret None
  | Ok (Recovery_Fail reason) =>
      db_raise (Calm_Conflict (lit "owned resource remains unresolved: " ++ reason))
  end.

(** [owned_parked::reconcile] under the claim of [op]: the outcome, then the release of
    the claim or the note of the error; [error_text] prints an error. *)
Definition reconcile (now : Z) (error_text : CalmError → str) (op : Operation)
    (recovered : result ParkedRecovery CalmError) (append : result unit CalmError)
  : OpM (option OperationResult) := λ t,
  match op_lease_owner op with
  | None => (t, Err (Calm_Conflict (lit "owned parked recovery has no lease")))
  | Some owner =>
      let '(t', answer) := reconcile_answer now op recovered append t in
      let held r := bool_decide (o_lease_owner r = Some owner) && in_phase Tag_Parked r in
      match op_exec (update_id (op_id op) held
              match answer with
              | Err e => λ r, { r with o_last_error := Some (lit "owned execution retained: " ++ error_text e);
                                       o_updated_at_ms := now }
              | Ok _ => drop_lease
              end) t' with
      | (t'', Ok _) => (t'', answer)
      | (t'', Err e) => (t'', Err e)
      end
  end.

(** ** Blocked and retried operations *)

Definition defer_pending_claim (now : Z) (op : Operation) (blocker : PendingBlocker)
    (retry_owner : PendingRetryOwner) : OpM bool :=
  in_tx (
    let* _ := require_live_claim_tx now op in
    let* detail := db_read (λ _, to_string (ser_blocker (with_retry_owner blocker retry_owner))) in
    match op_lease_owner op with
    | None => db_raise (Calm_Conflict (lit "pending blocker claim has no owner"))
    | Some owner =>
        let* n := op_exec (update_id (op_id op)
          (λ r, in_phase Tag_Pending r && bool_decide (o_lease_owner r = Some owner))
          (λ r, { r with o_phase_detail_json := Some detail; o_lease_owner := None;
                    o_updated_at_ms := now;
                    o_lease_until_ms := if bool_decide (retry_owner = Owner_Scheduler) then None
                                        else o_lease_until_ms r })) in
        db_ret (n =? 1)%N
    end).

Definition defer_unclaimed_pending (now : Z) (id : OperationId) (blocker : PendingBlocker) : OpM bool :=
  let* detail := db_read (λ _, to_string (ser_blocker (with_retry_owner blocker Owner_Scheduler))) in
  let* n := op_exec (update_id id (λ r, in_phase Tag_Pending r && lease_free now r)
    (λ r, { drop_lease r with o_phase_detail_json := Some detail; o_updated_at_ms := now })) in
  db_ret (n =? 1)%N.

Definition claim_pending_retry (now : Z) (owner : str) (original : Operation)
  : OpM (option Operation) :=
  let* _ := db_read (λ _, pending_blocker de_blocker original) in
  in_tx (
    let* _ := require_original_operation_tx original in
    let* n := op_exec (update_id (op_id original)
      (λ r, in_phase Tag_Pending r && negb (is_some (o_completed_at_ms r)) && lease_free now r)
      (λ r, { take_lease owner now r with
                o_phase_detail_json := Some (json_set_string (default (lit "{}") (o_phase_detail_json r))
                                               (lit "$.retry_owner") (lit "scheduler")) })) in
    if (n =? 0)%N then db_ret None
    else
      let* claimed := db_read (λ t, read_row t (op_id original)) in
      let* _ := db_read (λ _, pending_blocker de_blocker claimed) in
      db_ret (Some claimed)).

Definition release_pending_for_retry (now : Z) (id : OperationId) : OpM unit :=
  let* _ := op_exec (update_id id (λ r, in_phase Tag_Pending r && lease_free now r) drop_lease) in
  db_ret tt.

(** [interaction_retry::claim_retry]: the generation [attempt] fences the retry. *)
Definition claim_retry (now : Z) (owner : str) (op : Operation) (expected_attempt : Z)
  : OpM (option Operation) :=
  match op_phase op with
  | AwaitingRetry kind =>
      match op_idempotency_key op with
      | None => db_raise (Calm_Internal (lit "unkeyed interaction cannot await explicit retry"))
      | Some key =>
          let* detail := db_read (λ _, optional_json_text (serialize_split (AppServerInteract kind)).2) in
          claim_then (op_id op)
            (λ r, bool_decide (o_kind r = op_kind op) && bool_decide (o_idempotency_key r = Some key)
                  && bool_decide (o_payload_hash r = op_payload_hash op) && in_phase Tag_AwaitingRetry r
                  && bool_decide (o_attempt r = expected_attempt)
                  && bool_decide (is_Some detail ∧ o_phase_detail_json r = detail)
                  && negb (is_some (o_lease_owner r)) && negb (is_some (o_completed_at_ms r)))
            (λ r, { take_lease owner now r with o_phase := lit "app_server_interact";
                      o_phase_detail_json := detail; o_attempt ::= Z.add 1 })
            (λ t, find_by_id t (op_id op))
      end
  | _ => db_ret None
  end.

(** ** Operations of one transaction *)

Inductive KeyedCommit := Replay (id : OperationId) | Committed (result : OperationResult).

(** [prepared] is the adapter's [prepare_tx]. *)
Definition commit_tx_only (now : Z) (id kind : str) (key : OperationKey) (payload : Json)
    (prepared : result TxOutput CalmError) : OpM KeyedCommit :=
  in_tx (
    let* existing := db_read (λ t, Ok (key_idempotency_key key ≫= keyed_row t kind)) in
    match existing with
    | Some (existing_id, r) =>
        if negb (bool_decide (o_payload_hash r = key_payload_hash key))
        then db_raise (idempotency_payload_conflict (key_idempotency_key key))
        else db_ret (Replay existing_id)
    | None =>
        let* row := db_read (λ _, pending_row now kind key payload None) in
        let* inserted := insert_pending id row in
        match inserted with
        | Inserted_row =>
            let* op := db_read (λ t, read_row t id) in
            let* output := db_read (λ _, prepared) in
            let* _ := write_phase_and_tx_output now (Inserted op) Succeeded output in
            let* settled := db_read (λ t, read_row t id) in
            let* result := db_read (λ _, or_internal (operation_result_from settled)
                             (lit "operation " ++ id ++ lit " did not settle")) in
            db_ret (Committed result)
        | _ => db_raise Calm_Db
        end
    end).
End repo.
