(* ===== verification/OperationFence.v ===== *)
(** * The fence around operations

    What each operation of [Operations] does to the rows: it keeps their invariant
    ([op_wf]) and leaves settled rows alone ([op_change]), or it settles the one
    operation it answers for ([ops_settle]). The fence is a rule of the logic of
    transactions ([wp_bind_live]): whatever follows it runs under a live claim. *)

From coqutil Require Import Datatypes.RecordSettersUsingExistingGetters.
From stdpp Require Import prelude gmap strings.
From S2P Require Import Prelude Db Identity OperationPhase Operations.

Local Open Scope calm_scope.

(** ** The invariant of a row *)

Definition settled (r : OpRow) : bool :=
  bool_decide (o_phase r ∈ as_str <$> [Tag_Succeeded; Tag_Failed; Tag_Stuck]).

(** A settled row is completed and carries no lease; a lease always has an end. *)
Record op_wf (r : OpRow) : Prop := {
  wf_completed : settled r = is_some (o_completed_at_ms r);
  wf_released : settled r = true → o_lease_owner r = None ∧ o_lease_until_ms r = None;
  wf_expiry : is_some (o_lease_owner r) = true → is_some (o_lease_until_ms r) = true;
}.

(** The columns accepted with the operation. *)
Definition op_inputs (r : OpRow) :=
  (o_operation_key r, o_kind r, o_idempotency_key r, o_payload_hash r, o_payload_json r, o_created_at_ms r).

(** What any operation that does not settle does to a row. *)
Record op_change (r r' : OpRow) : Prop := {
  change_inputs : op_inputs r' = op_inputs r;
  change_wf : op_wf r → op_wf r';
  change_quiet : op_wf r → settled r' = settled r;
  change_settled : op_wf r → settled r = true → r' = r;
}.

#[export] Instance op_change_preorder : PreOrder op_change.
Proof.
  split; [by intros r; split|]. intros r1 r2 r3 [I1 W1 Q1 S1] [I2 W2 Q2 S2].
  split; [congruence|auto|intros ?; rewrite Q2 by auto; auto|]. intros Hwf Hs. assert (r2 = r1) as -> by auto. auto.
Qed.

(** A row that appears satisfies the invariant and is not settled; no row disappears. *)
Definition entry_change (o o' : option OpRow) : Prop :=
  match o, o' with
  | Some r, Some r' => op_change r r'
  | None, Some r' => op_wf r' ∧ settled r' = false
  | None, None => True
  | Some _, None => False
  end.

#[export] Instance entry_change_preorder : PreOrder entry_change.
Proof.
  split; [by intros [r|]; simpl|]. intros [r1|] [r2|] [r3|]; simpl; try done.
  - by intros ??; transitivity r2.
  - intros [Hwf Hs] [_ Hch Hq _]. split; [by auto|]. rewrite Hq; auto.
Qed.

Definition ops_change : relation Ops := pointwise entry_change.

#[export] Instance ops_change_preorder : PreOrder ops_change.
Proof. apply pointwise_preorder. apply _. Qed.

Lemma settled_as_str r t : o_phase r = as_str t → settled r = settled_tag t.
Proof. unfold settled. intros ->. by destruct t. Qed.

Lemma in_phase_settled t r : in_phase t r = true → settled r = settled_tag t.
Proof. intros ?%bool_decide_eq_true. by apply settled_as_str. Qed.

Lemma drive_phase_settled r : drive_phase (o_phase r) = true → settled r = false.
Proof.
  intros (t & Hp & Ht)%bool_decide_eq_true%list_elem_of_fmap.
  rewrite (settled_as_str _ t) by done.
  repeat (apply elem_of_cons in Ht as [->|Ht]; [done|]). by apply not_elem_of_nil in Ht.
Qed.

(** A change of an unsettled row that keeps what it must. *)
Lemma op_change_unsettled r r' :
  op_inputs r' = op_inputs r → (op_wf r → settled r = false) →
  (op_wf r → op_wf r' ∧ settled r' = false) → op_change r r'.
Proof.
  intros HI Hs Hwf. split; [done|by intros []%Hwf|intros H; rewrite (Hs H); by apply Hwf|].
  intros H. rewrite (Hs H). done.
Qed.

(** An unsettled phase, no completion, and a lease that ends. *)
Lemma op_wf_unsettled r :
  settled r = false → o_completed_at_ms r = None →
  (is_some (o_lease_owner r) = true → is_some (o_lease_until_ms r) = true) → op_wf r.
Proof. intros Hs Hc Hl. split; [by rewrite Hs, Hc|by rewrite Hs|done]. Qed.

Lemma op_wf_settled r :
  settled r = true → is_some (o_completed_at_ms r) = true → o_lease_owner r = None →
  o_lease_until_ms r = None → op_wf r.
Proof. intros Hs Hc Ho Hu. split; [congruence|done|by rewrite Ho]. Qed.

Lemma op_wf_not_completed r : op_wf r → settled r = false → o_completed_at_ms r = None.
Proof. intros [Hc _ _] Hs. rewrite Hs in Hc. by destruct (o_completed_at_ms r). Qed.

Lemma op_wf_completed_none r : op_wf r → is_some (o_completed_at_ms r) = false → settled r = false.
Proof. intros [Hc _ _]. congruence. Qed.

Lemma op_wf_leased r w : op_wf r → o_lease_owner r = Some w → settled r = false.
Proof. intros [_ Hr _] Ho. destruct (settled r); [|done]. destruct Hr; congruence. Qed.

(** The functions the updates apply. *)
Lemma settled_congr r r' : o_phase r' = o_phase r → settled r' = settled r.
Proof. unfold settled. by intros ->. Qed.

(** A statement on an unsettled row that keeps phase and completion. *)
Lemma change_in_phase r r' :
  (op_wf r → settled r = false) → op_inputs r' = op_inputs r →
  settled r' = false → o_completed_at_ms r' = o_completed_at_ms r →
  (op_wf r → is_some (o_lease_owner r') = true → is_some (o_lease_until_ms r') = true) → op_change r r'.
Proof.
  intros Hs HI Hs' Hc Hl. apply op_change_unsettled; auto. intros Hwf. split; [|done].
  apply op_wf_unsettled; [done| |by auto]. rewrite Hc. apply op_wf_not_completed; auto.
Qed.

(** A change of other columns. *)
Lemma same_phase_change r r' :
  op_inputs r' = op_inputs r → o_phase r' = o_phase r → o_completed_at_ms r' = o_completed_at_ms r →
  o_lease_owner r' = o_lease_owner r → o_lease_until_ms r' = o_lease_until_ms r →
  (op_wf r → settled r = false) → op_change r r'.
Proof.
  intros HI Hp Hc Ho Hu Hs. pose proof (settled_congr r r' Hp) as Hset.
  apply op_change_unsettled; [done|done|]. intros Hwf. rewrite Hset. split; [|by apply Hs].
  destruct Hwf as [? ? ?]. split; rewrite ?Hset, ?Hc, ?Ho, ?Hu; done.
Qed.

(** The fields of a decoded operation, one column after the other. *)
Ltac decode_row r :=
  unfold operation_from_row, take_lease; simpl;
  let detail := fresh "detail" in let phase := fresh "phase" in
  destruct (transpose _ (o_phase_detail_json r)) as [detail|]; simpl; [|done];
  destruct (transpose _ (o_tx_output_json r)); simpl; [|done];
  destruct (transpose _ (o_compensation_state r)); simpl; [|done];
  destruct (from_text Some (o_target_json r)); simpl; [|done];
  destruct (from_text Some (o_payload_json r)); simpl; [|done];
  destruct (deserialize_join (o_phase r) detail) as [phase|] eqn:?; simpl; [|done];
  destruct (_ && _); [|done].

Section fence.
Context `{Codec : OpCodec}.
Context (foreign : Ops → Ops → bool).

Lemma original_matches_inputs op payload r :
  original_matches op payload r = true →
  o_kind r = op_kind op ∧ o_idempotency_key r = op_idempotency_key op ∧ o_payload_hash r = op_payload_hash op.
Proof. unfold original_matches. rewrite !andb_true_iff, !bool_decide_eq_true. tauto. Qed.

Lemma live_claim_spec now op payload owner r :
  live_claim now op payload owner r = true →
  o_phase r = as_str (tag (op_phase op)) ∧ o_lease_owner r = Some owner ∧
  is_some (o_lease_until_ms r) = true ∧ is_some (o_completed_at_ms r) = false.
Proof.
  unfold live_claim. rewrite !andb_true_iff, bool_decide_eq_true, negb_true_iff.
  intros ((((_ & Hp%bool_decide_eq_true) & Ho) & Hu) & Hc).
  split_and!; try done. by destruct (o_lease_until_ms r).
Qed.

(** *** The fence as a rule *)

Ltac op_wp :=
  repeat (cbv beta iota zeta;
          first [ wp_step | match goal with |- wp (op_exec _ _) _ _ => unfold op_exec at 1 end ]).

Implicit Types (now : Z) (op : Operation) (t : Ops) (r : OpRow) (id : OperationId).
Implicit Types (cond : OpRow → bool) (f : OpRow → OpRow) (owner payload : str) (key : option OwnerKey) (phase : Phase)
  (output : TxOutput) (okey : OperationKey) (kind : str) (pw : PhaseWrite)
  (outcome : TerminalOutcome) (poutcome : ParkedOutcome) (tg : PhaseTag).

Lemma wp_bind_live {A} now op (k : bool → OpM A) (Q : Ops → result A CalmError → Prop) t :
  (∀ r owner payload, t !! op_id op = Some r → op_lease_owner op = Some owner →
    live_claim now op payload owner r = true → wp (k true) Q t) →
  wp (k false) Q t → (∀ e, Q t (Err e)) → wp (db_bind (has_live_claim_tx now op) k) Q t.
Proof.
  intros Ht Hf He. unfold has_live_claim_tx, required_lease_owner. op_wp; auto.
  destruct (op_lease_owner op) as [w|] eqn:Hw; simplify_eq/=.
  destruct (t !! op_id op) as [r|] eqn:Hr; simplify_eq; [|done].
  destruct (live_claim _ _ _ _ r) eqn:?; eauto.
Qed.

(** *** What the statements do to a row *)

Definition keeps {A} (m : OpM A) : Prop := preserves ops_change m.

Lemma keeps_wp {A} (m : OpM A) t : keeps m → wp m (λ t' _, ops_change t t') t.
Proof. intros Hm. apply Hm. Qed.

Lemma keeps_update id cond f :
  (∀ r, cond r = true → op_change r (f r)) → keeps (op_exec foreign (update_id id cond f)).
Proof.
  intros Hf. apply preserves_db_exec; [apply _|]. intros t _. by apply pointwise_update_id; [apply _|].
Qed.

Lemma take_lease_change owner now r : settled r = false → op_change r (take_lease owner now r).
Proof. intros Hs. by apply change_in_phase. Qed.

Lemma drop_lease_change r : op_change r (drop_lease r).
Proof.
  split; [done| |done|].
  - intros [Hc Hr Hl]. by split.
  - intros [Hc Hr Hl] Hs. destruct (Hr Hs) as [Ho Hu]. destruct r; simpl in *. by subst.
Qed.

(** An update whose condition admits no settled row. *)
Lemma keeps_update_in_phase id cond f :
  (∀ r, cond r = true → op_wf r → settled r = false) →
  (∀ r, op_inputs (f r) = op_inputs r ∧ o_completed_at_ms (f r) = o_completed_at_ms r ∧
        (settled r = false → settled (f r) = false) ∧
        (op_wf r → is_some (o_lease_owner (f r)) = true → is_some (o_lease_until_ms (f r)) = true)) →
  keeps (op_exec foreign (update_id id cond f)).
Proof.
  intros Hc Hf. apply keeps_update. intros r Hr. destruct (Hf r) as (HI & Hcomp & Hs & Hl).
  split; [done| | |].
  - intros Hwf. apply op_wf_unsettled; auto. rewrite Hcomp. apply op_wf_not_completed; auto.
  - intros Hwf. specialize (Hc r Hr Hwf). rewrite Hc. auto.
  - intros Hwf Hset. specialize (Hc r Hr Hwf). congruence.
Qed.

Lemma in_phase_unsettled tg b r :
  in_phase tg r && b = true → settled_tag tg = false → settled r = false.
Proof. intros [Hp _]%andb_true_iff <-. by apply in_phase_settled. Qed.

Ltac update_shape := intros r; split_and!; [done|done|by auto|intros [_ _ ?]; by auto].

Lemma keeps_claim_each now owner ids : keeps (claim_each foreign now owner ids).
Proof.
  induction ids as [|id ids IH]; simpl; unfold keeps; walk.
  - apply keeps_update. intros r [Hd _]%andb_true_iff. by apply take_lease_change, drive_phase_settled.
  - apply IH.
Qed.

Lemma keeps_claim_drivable now owner limit exact :
  keeps (claim_drivable foreign now owner limit exact).
Proof. unfold claim_drivable, keeps. walk. apply keeps_claim_each. Qed.

Lemma keeps_claim_drive_operation now owner id : keeps (claim_drive_operation foreign now owner id).
Proof. unfold claim_drive_operation, keeps. walk. apply keeps_claim_each. Qed.

Lemma keeps_claim_then {A} id cond f (fetch : Ops → result (option A) CalmError) :
  (∀ r, cond r = true → op_change r (f r)) → keeps (claim_then foreign id cond f fetch).
Proof. intros Hf. unfold claim_then, keeps. walk. by apply keeps_update. Qed.

Lemma keeps_claim_operation_for_boot_recovery now owner id :
  keeps (claim_operation_for_boot_recovery foreign now owner id).
Proof.
  apply keeps_claim_then. intros r [Hd _]%andb_true_iff. by apply take_lease_change, drive_phase_settled.
Qed.

Lemma keeps_claim_parked now owner id : keeps (claim_parked foreign now owner id).
Proof.
  apply keeps_claim_then. intros r Hc. apply take_lease_change. by eapply in_phase_unsettled.
Qed.

Lemma keeps_claim_parked_for_boot now owner id : keeps (claim_parked_for_boot foreign now owner id).
Proof.
  apply keeps_claim_then. intros r Hc. apply take_lease_change. by rewrite (in_phase_settled _ _ Hc).
Qed.

Lemma keeps_clear_parked_lease_for_boot now id : keeps (clear_parked_lease_for_boot foreign now id).
Proof.
  unfold clear_parked_lease_for_boot, keeps. walk. apply keeps_update_in_phase; [|update_shape].
  intros r Hp _. by rewrite (in_phase_settled _ _ Hp).
Qed.

Lemma keeps_release_pending_for_retry now id : keeps (release_pending_for_retry foreign now id).
Proof. unfold release_pending_for_retry, keeps. walk. apply keeps_update. intros r _. apply drop_lease_change. Qed.

Lemma keeps_defer_unclaimed_pending now id blocker : keeps (defer_unclaimed_pending foreign now id blocker).
Proof.
  unfold defer_unclaimed_pending, keeps. walk. apply keeps_update_in_phase; [|update_shape].
  intros r Hp _. by eapply in_phase_unsettled.
Qed.

Lemma keeps_claim_pending_retry now owner op : keeps (claim_pending_retry foreign now owner op).
Proof.
  unfold claim_pending_retry, require_original_operation_tx, keeps. walk.
  apply keeps_update_in_phase; [|update_shape]. intros r Hp _.
  rewrite <-andb_assoc in Hp. by eapply in_phase_unsettled.
Qed.

Lemma settled_interact r : settled { r with o_phase := lit "app_server_interact" } = false.
Proof. by apply (settled_as_str _ Tag_AppServerInteract). Qed.

Lemma keeps_claim_retry now owner op attempt : keeps (claim_retry foreign now owner op attempt).
Proof.
  unfold claim_retry, keeps. walk. apply keeps_update. intros r Hc.
  rewrite !andb_true_iff in Hc. destruct Hc as (((((_ & Hp) & _) & _) & _) & _).
  apply change_in_phase; try done. by rewrite (in_phase_settled _ _ Hp).
Qed.

Lemma keeps_insert_pending id r : op_wf r → settled r = false → keeps (insert_pending foreign id r).
Proof.
  intros Hwf Hs t. unfold insert_pending. destruct (t !! id) eqn:Hid; simpl; [reflexivity|].
  destruct (op_unique _); simpl; [|reflexivity]. destruct (op_accepts _ _); simpl; [|reflexivity].
  apply pointwise_insert; [apply _|]. by rewrite Hid.
Qed.

(** *** Fenced writes *)

(** A live claim stands on an unsettled row. *)
Lemma live_claim_unsettled now op payload owner r :
  live_claim now op payload owner r = true → op_wf r → settled r = false.
Proof. intros (_ & _ & _ & Hc)%live_claim_spec Hwf. by apply op_wf_completed_none. Qed.

Lemma change_at id r r' t : t !! id = Some r → op_change r r' → ops_change t (<[id := r']> t).
Proof. intros Hr Hc. apply pointwise_insert; [apply _|]. by rewrite Hr. Qed.

Lemma last_error_change r e :
  (op_wf r → settled r = false) → op_change r { r with o_last_error := e }.
Proof.
  intros Hs. apply op_change_unsettled; [done|done|]. intros Hwf. split; [|by apply Hs].
  destruct Hwf. by split.
Qed.

(** A rule for [retain_owned_tx] on a row under a live claim. *)
Lemma wp_bind_retain {A} now op payload owner r key (k : bool → OpM A)
    (Q : Ops → result A CalmError → Prop) t :
  t !! op_id op = Some r → live_claim now op payload owner r = true →
  (∀ t', ops_change t t' → wp (k true) Q t') → wp (k false) Q t → (∀ e, Q t (Err e)) →
  wp (db_bind (retain_owned_tx foreign op key) k) Q t.
Proof.
  intros Hr Hlive Ht Hf He. unfold retain_owned_tx. op_wp; auto.
  - apply Ht. simplify_eq. apply (change_at _ r); [done|].
    by apply last_error_change, (live_claim_unsettled _ _ _ _ _ Hlive).
  - match goal with Hno : ∀ _, _ → true = false |- _ => by specialize (Hno r Hr) end.
Qed.

Lemma keeps_leave_write now op key (write : str → OpM N) :
  (∀ owner, keeps (write owner)) → keeps (leave_write foreign now op key write).
Proof.
  intros Hw. apply preserves_wp. intros t. unfold leave_write.
  apply wp_bind_live; [|by apply wp_ret|done]. intros r owner payload Hr Ho Hlive. simpl.
  eapply wp_bind_retain; [done|done|by intros t' ?; apply wp_ret| |done].
  apply wp_bind_read; [|done]. intros w _. apply wp_bind. specialize (Hw w t).
  unfold wp. by destruct (write w t) as [t' [n|e]].
Qed.

Lemma keeps_leave_answer op w : keeps (leave_answer op w).
Proof. unfold leave_answer, reread, keeps. walk. Qed.

Lemma keeps_leave now op key (write : str → OpM N) :
  (∀ owner, keeps (write owner)) →
  keeps (let* w := in_tx (leave_write foreign now op key write) in leave_answer op w).
Proof.
  intros Hw. apply preserves_bind; [apply _| |intros w; apply keeps_leave_answer].
  apply preserves_in_tx; [apply _|]. by apply keeps_leave_write.
Qed.

(** An update of the leased row that leaves it unsettled and unleased. *)
Lemma keeps_leave_update id owner f :
  (∀ r, op_inputs (f r) = op_inputs r ∧ o_completed_at_ms (f r) = o_completed_at_ms r ∧
        settled (f r) = false ∧ o_lease_owner (f r) = None) →
  keeps (op_exec foreign (update_id id (λ r, bool_decide (o_lease_owner r = Some owner)) f)).
Proof.
  intros Hf. apply keeps_update. intros r Ho%bool_decide_eq_true.
  destruct (Hf r) as (HI & Hc & Hs & Hl).
  apply change_in_phase; auto; [|by rewrite Hl]. intros Hwf. by apply (op_wf_leased r owner).
Qed.

Lemma settled_phase tg r : o_phase r = as_str tg → settled_tag tg = false → settled r = false.
Proof. intros Hp <-. by apply settled_as_str. Qed.

Lemma serialize_split_tag p : (serialize_split p).1 = tag p.
Proof. by destruct p. Qed.

Lemma keeps_set_phase now op phase key : keeps (set_phase foreign now op phase key).
Proof.
  unfold set_phase. destruct (terminal_phase phase) eqn:Ht; [apply preserves_raise; apply _|].
  match goal with |- keeps (if ?b then _ else _) => destruct b end; [apply preserves_ret; apply _|].
  apply keeps_leave. intros owner.
  destruct (serialize_split phase) as [tg detail] eqn:Hsp. unfold keeps. walk.
  apply keeps_leave_update. intros r. split_and!; try done.
  apply (settled_phase tg); [done|]. rewrite <-Ht, <-settled_tag_spec, <-serialize_split_tag. by rewrite Hsp.
Qed.

Lemma keeps_set_compensating now op state key : keeps (set_compensating foreign now op state key).
Proof.
  apply keeps_leave. intros owner. unfold keeps. walk.
  apply keeps_leave_update. intros r. by split_and!.
Qed.

Lemma keeps_reread op : keeps (reread op).
Proof. unfold reread, keeps. walk. Qed.

(** A write that follows a live claim in one transaction. *)
Lemma keeps_if_live {A} now op (yes no : OpM A) :
  (∀ t r owner payload, t !! op_id op = Some r → live_claim now op payload owner r = true →
    wp yes (λ t' _, ops_change t t') t) →
  keeps no →
  keeps (let* live := has_live_claim_tx now op in if negb live then no else yes).
Proof.
  intros Hy Hn. apply preserves_wp. intros t. apply wp_bind_live; [|apply Hn|done].
  intros r owner payload Hr _ Hlive. by eapply Hy.
Qed.

Lemma keeps_if_required {A} now op (k : OpM A) :
  (∀ t r owner payload, t !! op_id op = Some r → live_claim now op payload owner r = true →
    wp k (λ t' _, ops_change t t') t) →
  keeps (let* _ := require_live_claim_tx now op in k).
Proof.
  intros Hk. apply preserves_wp. intros t. unfold require_live_claim_tx.
  apply wp_bind. apply wp_bind_live; [|by apply wp_raise|done].
  intros r owner payload Hr _ Hlive. apply wp_ret. by eapply Hk.
Qed.

(** One update of the row under a live claim. *)
Lemma wp_live_update {A} now op payload owner r cond f (k : N → OpM A) t :
  t !! op_id op = Some r → live_claim now op payload owner r = true →
  ((op_wf r → settled r = false) → op_change r (f r)) → (∀ n, keeps (k n)) →
  wp (let* n := op_exec foreign (update_id (op_id op) cond f) in k n) (λ t' _, ops_change t t') t.
Proof.
  intros Hr Hlive Hf Hk. unfold op_exec. apply wp_bind, wp_update; [|intros _; apply Hk|done].
  intros r' Hr' _ _. simplify_eq.
  apply (wp_mono _ (λ t' _, ops_change (<[op_id op := f r]> t) t')); [|exact (Hk 1%N _)].
  intros t' _ Ht'. etransitivity; [|exact Ht'].
  apply (change_at _ r); [done|]. by apply Hf, (live_claim_unsettled _ _ _ _ _ Hlive).
Qed.


Lemma keeps_update_compensation_state now op state :
  keeps (update_compensation_state foreign now op state).
Proof.
  unfold update_compensation_state. apply preserves_bind; [apply _| |].
  - apply preserves_in_tx; [apply _|]. apply keeps_if_live; [|apply preserves_ret; apply _].
    intros t r owner payload Hr Hlive. op_wp; try done.
    simplify_eq. apply (change_at _ r); [done|].
    by eapply same_phase_change, live_claim_unsettled.
  - intros n. destruct (n =? 0)%N; unfold reread, keeps; walk.
Qed.

Lemma keeps_record_spawn_artifacts now op artifacts :
  keeps (record_spawn_artifacts foreign now op artifacts).
Proof.
  unfold record_spawn_artifacts. apply preserves_in_tx; [apply _|]. apply keeps_if_required.
  intros t r owner payload Hr Hlive. destruct (op_phase op); try (by apply wp_raise).
  apply wp_bind_read; [intros text _|done].
  eapply wp_live_update; [done|done| |intros n; apply preserves_ret; apply _].
  by apply same_phase_change.
Qed.

Lemma keeps_set_parked now op deadline key : keeps (set_parked foreign now op deadline key).
Proof.
  unfold set_parked. apply preserves_bind; [apply _| |intros n; unfold keeps; walk].
  apply preserves_in_tx; [apply _|]. destruct (op_phase op) eqn:Hp; try (apply preserves_ret; apply _).
  apply keeps_if_live; [|apply preserves_ret; apply _].
  intros t r owner payload Hr Hlive. op_wp; try done.
  simplify_eq. apply (change_at _ r); [done|]. apply change_in_phase; try done.
  by eapply live_claim_unsettled.
Qed.

(** *** Checkpoints and settlement *)

Lemma keeps_checkpoint now op ikind expected output :
  keeps (checkpoint_app_server_interact_tx foreign now op ikind expected output).
Proof.
  unfold checkpoint_app_server_interact_tx. apply keeps_if_required. intros t r owner payload Hr Hlive.
  op_wp; try done; simplify_eq; apply (change_at _ r); try done;
    by eapply same_phase_change, live_claim_unsettled.
Qed.

(** The row a phase write starts from: admitted, it is not completed. *)
Lemma wp_bind_admitted {A} now pw output (k : bool → OpM A) (Q : Ops → result A CalmError → Prop) t :
  (∀ r, t !! op_id (write_op pw) = Some r → is_some (o_completed_at_ms r) = false → wp (k true) Q t) →
  wp (k false) Q t → (∀ e, Q t (Err e)) →
  wp (db_bind (write_admitted now pw output) k) Q t.
Proof.
  intros Ht Hf He. unfold write_admitted. apply wp_bind. destruct pw as [op|op]; simpl in Ht.
  - apply wp_bind_live; [|by apply wp_ret|done]. intros r owner payload Hr _ Hlive.
    simpl. unfold settlement_output_matches_tx. op_wp; try done.
    destruct (_ || _); [|done]. apply (Ht r); [done|]. by apply live_claim_spec in Hlive as (_ & _ & _ & ?).
  - unfold require_original_operation_tx. op_wp; try done. simplify_eq.
    destruct (t !! op_id op) as [r|] eqn:Hr; [|done].
    destruct (in_phase Tag_Pending r), (o_lease_owner r), (o_lease_until_ms r), (o_completed_at_ms r) eqn:?;
      simpl; try done. apply (Ht r); [done|]. by apply (f_equal is_some) in Heqo.
Qed.

Definition phase_row now (phase : Phase) output target text detail r : OpRow :=
  { drop_lease (set_output output target text r) with
      o_phase := as_str (tag phase); o_phase_detail_json := detail;
      o_completed_at_ms := if terminal_phase phase then Some now else o_completed_at_ms r;
      o_updated_at_ms := now }.

(** A phase write either changes nothing or writes the admitted row. *)
Lemma wp_write_phase now pw phase output (Q : Ops → result bool CalmError → Prop) t :
  (∀ r target text detail, t !! op_id (write_op pw) = Some r → is_some (o_completed_at_ms r) = false →
    (terminal_phase phase = true → ∃ op, pw = Inserted op ∧ phase = Succeeded) →
    Q (<[op_id (write_op pw) := phase_row now phase output target text detail r]> t) (Ok true)) →
  Q t (Ok false) → (∀ e, Q t (Err e)) →
  wp (write_phase_and_tx_output foreign now pw phase output) Q t.
Proof.
  intros Ht Hf He. unfold write_phase_and_tx_output.
  destruct (terminal_phase phase && _) eqn:Hterm; [by apply wp_raise|].
  apply wp_bind_admitted; [|by apply wp_ret|done]. intros r Hr Hc. simpl.
  match goal with |- wp (if ?b then _ else _) _ _ => destruct b end; [by apply wp_ret|].
  pose proof (serialize_split_tag phase) as Htag.
  destruct (serialize_split phase) as [tg detail]. simpl in Htag. subst tg. op_wp; try done.
  - simplify_eq. apply Ht; [done|done|]. intros Htrue. rewrite Htrue in Hterm. simpl in Hterm.
    destruct pw, phase; try done. eauto.
Qed.

Lemma keeps_write_phase now pw phase output :
  terminal_phase phase = false → keeps (write_phase_and_tx_output foreign now pw phase output).
Proof.
  intros Hp. apply preserves_wp. intros t. apply wp_write_phase; [|done|done].
  intros r target text detail Hr Hc _. apply (change_at _ r); [done|].
  apply change_in_phase; try done.
  - intros Hwf. by apply op_wf_completed_none.
  - apply (settled_phase (tag phase)); [done|]. by rewrite settled_tag_spec.
  - simpl. by rewrite Hp.
Qed.

Lemma keeps_set_phase_and_tx_output now op phase output :
  keeps (set_phase_and_tx_output foreign now op phase output).
Proof.
  unfold set_phase_and_tx_output. apply preserves_bind; [apply _| |].
  - apply preserves_in_tx; [apply _|]. destruct (terminal_phase phase) eqn:Hp.
    + unfold write_phase_and_tx_output. rewrite Hp. apply preserves_raise; apply _.
    + by apply keeps_write_phase.
  - intros b. destruct b; unfold keeps, reread; walk.
Qed.

Lemma keeps_prepare_tx_and_advance now checkout applied op :
  keeps (prepare_tx_and_advance foreign now checkout applied op).
Proof.
  unfold prepare_tx_and_advance. apply preserves_bind; [apply _| |].
  - apply preserves_in_tx; [apply _|]. apply keeps_if_live; [|apply preserves_ret; apply _].
    intros t r owner payload _ _. apply wp_bind_read; [intros _ _|done].
    apply wp_bind_read; [intros [o|] _|done]; [|by apply wp_ret].
    unfold advance_to_tx_committed_tx. apply wp_bind, wp_bind.
    eapply wp_mono; [|by apply keeps_wp, keeps_write_phase]. by intros t' [b|e].
  - intros [[]|]; unfold keeps, reread; walk.
Qed.

Lemma keeps_defer_pending_claim now op blocker retry_owner :
  keeps (defer_pending_claim foreign now op blocker retry_owner).
Proof.
  unfold defer_pending_claim. apply preserves_in_tx; [apply _|]. apply keeps_if_required.
  intros t r owner payload Hr Hlive. apply wp_bind_read; [intros text _|done].
  destruct (op_lease_owner op); [|by apply wp_raise].
  eapply wp_live_update; [done|done| |intros n; apply preserves_ret; apply _].
  intros Hs. apply op_change_unsettled; [done|done|]. intros Hwf. specialize (Hs Hwf).
  rewrite (settled_congr r) by done. split; [|done].
  apply op_wf_unsettled; [by rewrite (settled_congr r)|exact (op_wf_not_completed r Hwf Hs)|done].
Qed.

Lemma pending_row_wf now kind okey body detail r :
  pending_row now kind okey body detail = Ok r → op_wf r ∧ settled r = false.
Proof.
  unfold pending_row. destruct (target_from_payload body) as [[ty id] v].
  destruct (to_string v); simpl; [|done]. destruct (to_string body); simpl; [|done].
  intros [= <-]. split; [by apply op_wf_unsettled|done].
Qed.

Lemma preserves_insert_operation_for (P : relation Ops) `{!PreOrder P} seen now id kind okey body ro :
  preserves P (insert_missing foreign now id kind okey body ro) →
  preserves P (insert_operation_for foreign seen now id kind okey body ro).
Proof.
  intros Hins. unfold insert_operation_for.
  apply preserves_bind; [apply _|apply preserves_read; apply _|].
  intros existing. destruct (key_idempotency_key okey); [|exact Hins].
  destruct existing; [apply preserves_read; apply _|exact Hins].
Qed.

Lemma keeps_insert_operation_for seen now id kind okey body retry_owner :
  keeps (insert_operation_for foreign seen now id kind okey body retry_owner).
Proof.
  assert (keeps (insert_missing foreign now id kind okey body retry_owner)) as Hins.
  { apply preserves_wp. intros t. unfold insert_missing.
    apply wp_bind_read; [|done]. intros r [Hwf Hs]%pending_row_wf.
    pose proof (keeps_insert_pending id r Hwf Hs t) as Ht. apply wp_bind. unfold wp at 1.
    destruct (insert_pending foreign id r t) as [t' [[]|e]]; simpl in *; try exact Ht; op_wp; exact Ht. }
  apply preserves_insert_operation_for; [apply _|exact Hins].
Qed.

(** *** Settlement *)

(** The row [id] was not settled and is now; every other row changed quietly. *)
Definition ops_settle id t t' : Prop :=
  (∃ r', t' !! id = Some r' ∧ op_wf r' ∧ settled r' = true) ∧
  (∀ r, t !! id = Some r → (op_wf r → settled r = false) ∧
    ∀ r', t' !! id = Some r' → op_inputs r' = op_inputs r) ∧
  ∀ id', id' ≠ id → entry_change (t !! id') (t' !! id').

Lemma wp_write_terminal now op outcome (Q : Ops → result OperationResult CalmError → Prop) t :
  (∀ r committed out tg detail error answer detail_text output_text,
    t !! op_id op = Some r → read_output_tx t (op_id op) = Ok committed →
    match outcome with
    | Terminal_SucceededWithResult v => ∃ o, committed = Some o ∧ out = Some (with_result o v)
    | _ => out = committed
    end →
    terminal_columns now outcome out = Ok (tg, detail, error, answer) →
    optional_json_text detail = Ok detail_text →
    transpose (λ o, to_string (ser_output o)) out = Ok output_text →
    Q (<[op_id op := settle_row now tg detail_text error output_text r]> t)
      (Ok {| res_op_id := op_id op; res_outcome := answer |})) →
  (∀ e, Q t (Err e)) → wp (write_terminal_tx foreign now op outcome) Q t.
Proof.
  intros Ht He. unfold write_terminal_tx.
  apply wp_bind_read; [intros committed Hcom|done]. apply wp_bind_read; [intros output Hout|done].
  apply wp_bind_read; [intros [[[tg detail] error] answer] Hcol|done].
  apply wp_bind_read; [intros dt Hdt|done]. apply wp_bind_read; [intros ot Hot|done].
  op_wp; try done.
  - eapply Ht; eauto. destruct outcome; try congruence. destruct committed as [o|]; simplify_eq/=. eauto.
  - unfold read_output_tx in Hcom. destruct (t !! op_id op) as [r|] eqn:Hr; [|done].
    match goal with Hno : ∀ _, _ → true = false |- _ => by specialize (Hno r eq_refl) end.
Qed.

Lemma terminal_columns_settled now outcome out tg detail error answer :
  terminal_columns now outcome out = Ok (tg, detail, error, answer) → settled_tag tg = true.
Proof. destruct outcome; simpl; try (by intros [= <- <- <- <-]); destruct out; simpl; by intros [= <- <- <- <-]. Qed.

Lemma settle_row_settled now tg detail error text r :
  settled_tag tg = true → op_wf (settle_row now tg detail error text r) ∧
  settled (settle_row now tg detail error text r) = true.
Proof.
  intros Ht. assert (settled (settle_row now tg detail error text r) = true) as Hs.
  { rewrite <-Ht. by apply settled_as_str. }
  split; [|done]. by apply op_wf_settled.
Qed.

Lemma ops_settle_insert id r r' t :
  t !! id = Some r → (op_wf r → settled r = false) → op_inputs r' = op_inputs r →
  op_wf r' → settled r' = true → ops_settle id t (<[id := r']> t).
Proof.
  intros Hr Hs HI Hwf Hs'. split; [|split].
  - exists r'. by rewrite lookup_insert_eq.
  - intros ? [= <-]%(eq_trans (eq_sym Hr)). split; [done|].
    intros ?. by rewrite lookup_insert_eq; intros [= <-].
  - intros id' Hne. by rewrite lookup_insert_ne.
Qed.

(** What a settling operation does: it settles the operation it answers for, or changes
    nothing but quietly. *)
Definition settles_for {A} (won : A → option OperationResult) t t' (a : result A CalmError) : Prop :=
  match a with
  | Ok a => match won a with Some res => ops_settle (res_op_id res) t t' | None => ops_change t t' end
  | Err _ => ops_change t t'
  end.

Definition settle_won (w : LeaveWrite OperationResult) : option OperationResult :=
  match w with Applied res => Some res | _ => None end.
Definition completion_won (c : ParkedCompletion) : option OperationResult :=
  match c with Completed res => Some res | AlreadyResolved _ => None end.
Definition keyed_won (c : KeyedCommit) : option OperationResult :=
  match c with Committed res => Some res | Replay _ => None end.

Lemma settle_claimed_settles now op outcome key append t :
  wp (settle_claimed foreign now op outcome key append) (settles_for settle_won t) t.
Proof.
  assert (∀ e : CalmError, settles_for settle_won t t (Err e)) as He by (intros e; simpl; reflexivity).
  unfold settle_claimed. apply wp_in_tx, wp_bind_live; [|apply wp_ret; simpl; reflexivity|done].
  intros r owner payload Hr _ Hlive. simpl.
  eapply wp_bind_retain; [done|done|intros t' Ht'; by apply wp_ret| |done].
  apply wp_bind, wp_write_terminal; [|done].
  intros r' ? output tg detail error answer dt ot Hr' _ _ Hcol _ _. simplify_eq.
  apply wp_bind_read; [intros _ _|done]. apply wp_ret. simpl.
  destruct (settle_row_settled now tg dt error ot r) as [? ?]; [by eapply terminal_columns_settled|].
  eapply ops_settle_insert; eauto. by eapply live_claim_unsettled.
Qed.

Lemma transpose_Ok {A B} (f : A → result B CalmError) (o : option A) b :
  transpose f o = Ok (Some b) ↔ ∃ a, o = Some a ∧ f a = Ok b.
Proof.
  destruct o as [a|]; simpl; [|naive_solver]. destruct (f a) eqn:?; simpl; split.
  - intros [= <-]. eauto.
  - intros (? & [= <-] & ?). congruence.
  - done.
  - intros (? & [= <-] & ?). congruence.
Qed.

(** Reading a row reads its phase, its lease and its inputs. *)
Lemma operation_from_row_phase id r op :
  operation_from_row id r = Ok op →
  op_id op = id ∧ o_phase r = as_str (tag (op_phase op)) ∧ op_lease_owner op = o_lease_owner r ∧
  op_lease_until_ms op = o_lease_until_ms r ∧ op_payload_hash op = o_payload_hash r.
Proof.
  decode_row r. intros [= <-]. simpl. split_and!; try done. by eapply deserialize_join_tag.
Qed.

(** The completion of a parked operation, for every answer it can give. *)
Lemma wp_complete_parked now id poutcome (Q : Ops → result ParkedCompletion CalmError → Prop) t :
  (∀ r op tg dt error text answer, t !! id = Some r → operation_from_row id r = Ok op →
    in_phase Tag_Parked r = true → settled_tag tg = true →
    Q (<[id := settle_row now tg dt error text r]> t)
      (Ok (Completed {| res_op_id := id; res_outcome := answer |}))) →
  (∀ p, Q t (Ok (AlreadyResolved p))) → (∀ e, Q t (Err e)) →
  wp (complete_parked_tx foreign now id poutcome) Q t.
Proof.
  intros Ht Hp He. unfold complete_parked_tx. apply wp_bind_read; [intros op Hop|done].
  destruct (t !! id) as [r|] eqn:Hr; [|done].
  destruct (operation_from_row_phase _ _ _ Hop) as (Hid & Hphase & _).
  destruct (op_phase op) eqn:Hparked; try (by apply wp_ret).
  apply wp_bind_read; [intros o _|done]. apply wp_bind, wp_write_terminal; [|done].
  intros r' committed out tg detail error answer dt ot Hr' _ _ Hcol _ _. apply wp_ret.
  rewrite Hid in *. simplify_eq. eapply Ht; eauto; [|by eapply terminal_columns_settled].
  by apply bool_decide_eq_true.
Qed.

(** What it answers is about the operation it was asked to complete. *)
Definition settles_only {A} (won : A → option OperationResult) id t t' (a : result A CalmError) : Prop :=
  settles_for won t t' a ∧
  (∀ x res, a = Ok x → won x = Some res → res_op_id res = id).

Lemma complete_parked_settles now id poutcome t :
  wp (complete_parked_tx foreign now id poutcome) (settles_only completion_won id t) t.
Proof.
  apply wp_complete_parked; try (intros ?; split; [simpl; reflexivity|naive_solver]).
  intros r op tg dt error text answer Hr _ Hpk Htg. split; [|naive_solver].
  destruct (settle_row_settled now tg dt error text r Htg).
  eapply ops_settle_insert; eauto. intros _. by rewrite (in_phase_settled _ _ Hpk).
Qed.

(** Settling, then changing quietly. *)
Lemma ops_settle_then id t t' t'' : ops_settle id t t' → ops_change t' t'' → ops_settle id t t''.
Proof.
  intros ((r' & Hr' & Hwf & Hs) & Hbefore & Hrest) Hch. split; [|split].
  2: { intros r Hr. destruct (Hbefore r Hr) as [? HI]. split; [done|]. intros r'' Hr''.
       specialize (Hch id). rewrite Hr', Hr'' in Hch. rewrite (change_inputs _ _ Hch). by apply HI. }
  - specialize (Hch id). rewrite Hr' in Hch. destruct (t'' !! id) as [r''|]; simpl in Hch; [|done].
    exists r''. destruct Hch as [_ H1 H2 _]. split_and!; auto. rewrite H2; auto.
  - intros id' Hne. etransitivity; [by apply Hrest|apply Hch].
Qed.

Lemma reconcile_answer_settles now op recovered append t :
  wp (reconcile_answer foreign now op recovered append) (settles_only id (op_id op) t) t.
Proof.
  assert (∀ e, settles_only id (op_id op) t t (Err e)) as He
    by (intros e; split; [simpl; reflexivity|done]).
  assert (settles_only id (op_id op) t t (Ok None)) as Hn by (split; [simpl; reflexivity|naive_solver]).
  unfold reconcile_answer. destruct recovered as [[|poutcome|reason]|e];
    try (first [apply wp_ret|apply wp_raise]; done).
  apply wp_in_tx. unfold require_live_claim_tx. apply wp_bind, wp_bind_live; [|by apply wp_raise|done].
  intros _ _ _ _ _ _. apply wp_ret, wp_bind. eapply wp_mono; [|apply complete_parked_settles].
  intros t' [[res|p]|e] [Hset Hid]; [| |done].
  - apply wp_bind_read; [intros _ _; apply wp_ret|done]. split; [done|naive_solver].
  - apply wp_ret. split; [done|naive_solver].
Qed.

Lemma reconcile_settles now error_text op recovered append t :
  wp (reconcile foreign now error_text op recovered append) (settles_for id t) t.
Proof.
  unfold reconcile, wp. destruct (op_lease_owner op) as [owner|]; [|simpl; reflexivity].
  pose proof (reconcile_answer_settles now op recovered append t) as [Hans Hid].
  destruct (reconcile_answer foreign now op recovered append t) as [t' answer]; simpl in *.
  set (g := match answer with Ok _ => _ | Err _ => _ end).
  set (held := λ r, bool_decide (o_lease_owner r = Some owner) && in_phase Tag_Parked r).
  assert (∀ r, held r = true → op_change r (g r)) as Hg.
  { intros r [_ Hp]%andb_true_iff. pose proof (in_phase_settled _ _ Hp) as Hs. unfold g.
    destruct answer; [apply drop_lease_change|]. by apply same_phase_change. }
  pose proof (keeps_update (op_id op) held g Hg t') as Hk.
  destruct answer as [[res|]|e']; simpl in *.
  - assert (update_id (op_id op) held g t' = (t', 0%N)) as Hnone.
    { destruct Hans as ((r' & Hr' & _ & Hs) & _). rewrite (Hid _ _ eq_refl eq_refl) in Hr'.
      unfold update_id. rewrite Hr'. destruct (held r') eqn:Hh; [|done].
      apply andb_true_iff in Hh as [_ Hp]. rewrite (in_phase_settled _ _ Hp) in Hs. done. }
    unfold op_exec, db_exec. rewrite Hnone. done.
  - destruct (op_exec _ _ t') as [t'' [n|e]]; simpl in *; by transitivity t'.
  - destruct (op_exec _ _ t') as [t'' [n|e]]; simpl in *; by transitivity t'.
Qed.

Lemma operation_result_from_settled op res :
  operation_result_from op = Some res → res_op_id res = op_id op ∧ terminal_phase (op_phase op) = true.
Proof.
  unfold operation_result_from. destruct (op_phase op); try done;
    repeat case_match; by intros [= <-].
Qed.

Lemma read_row_phase t id op :
  read_row t id = Ok op → ∃ r, t !! id = Some r ∧ operation_from_row id r = Ok op ∧
    op_id op = id ∧ o_phase r = as_str (tag (op_phase op)).
Proof.
  unfold read_row. destruct (t !! id) as [r|]; [|done]. intros Hop.
  destruct (operation_from_row_phase _ _ _ Hop) as (? & ? & _). eauto.
Qed.

Lemma commit_tx_only_settles now id kind okey body prepared t :
  wp (commit_tx_only foreign now id kind okey body prepared) (settles_for keyed_won t) t.
Proof.
  assert (∀ e, settles_for keyed_won t t (Err e)) as He by (intros e; simpl; reflexivity).
  unfold commit_tx_only. apply wp_in_tx, wp_bind_read; [intros existing _|done].
  destruct existing as [[old r]|].
  { destruct (negb _); [by apply wp_raise|]. apply wp_ret. simpl. reflexivity. }
  apply wp_bind_read; [intros r Hrow|done]. destruct (pending_row_wf _ _ _ _ _ _ Hrow) as [Hwf Hset].
  apply wp_bind. unfold wp at 1, insert_pending. destruct (t !! id) eqn:Hid; simpl; [by apply wp_raise|].
  destruct (op_unique _); simpl; [|by apply wp_raise].
  destruct (op_accepts _ _ _); simpl; [|by apply wp_raise].
  apply wp_bind_read; [intros op Hop|done]. apply wp_bind_read; [intros output _|done].
  destruct (read_row_phase _ _ _ Hop) as (r0 & Hr0 & _ & Hopid & _).
  rewrite lookup_insert_eq in Hr0. injection Hr0 as <-.
  apply wp_bind, wp_write_phase; [|apply wp_bind_read; [intros op' Hop'|done]|done].
  - intros r1 target text detail Hr1 _ _. simpl in *. rewrite Hopid, lookup_insert_eq in Hr1.
    injection Hr1 as <-. rewrite Hopid, insert_insert_eq.
    apply wp_bind_read; [intros op' Hop'|done]. apply wp_bind_read; [intros res Hres|done].
    apply wp_ret. simpl. destruct (read_row_phase _ _ _ Hop') as (_ & _ & _ & Hid' & _).
    unfold or_internal in Hres. destruct (operation_result_from op') as [res'|] eqn:Hr'; simplify_eq.
    apply operation_result_from_settled in Hr' as [Hresid _]. rewrite Hresid, Hid'.
    split; [|split].
    + exists (phase_row now Succeeded output target text detail r).
      rewrite lookup_insert_eq. split_and!; [done|by apply op_wf_settled|done].
    + by rewrite Hid.
    + intros id' Hne. by rewrite lookup_insert_ne by done.
  - apply wp_bind_read; [intros res Hres|done]. exfalso.
    destruct (read_row_phase _ _ _ Hop') as (r' & Hr' & _ & _ & Hp').
    rewrite lookup_insert_eq in Hr'. injection Hr' as <-.
    unfold or_internal in Hres. destruct (operation_result_from op') as [res'|] eqn:Hr; simplify_eq.
    apply operation_result_from_settled in Hr as [_ Hterm].
    rewrite (settled_as_str _ _ Hp'), settled_tag_spec in Hset. congruence.
Qed.

End fence.
