(* ===== verification/OperationSettle.v ===== *)
(** * What the operation repository guarantees

    The theorems about histories of calls: settlement is a one-shot register for any
    number of actors in any interleaving; a claim that was lost can write nothing any
    more; a parked row is claimed exactly when it is free, for exactly one lease; an
    idempotency key names one operation; a result reads back as it was settled. *)

From coqutil Require Import Datatypes.RecordSettersUsingExistingGetters.
From stdpp Require Import prelude gmap strings.
From S2P Require Import Prelude Db Identity OperationPhase Operations OperationFence.

Local Open Scope calm_scope.

Section histories.
Context `{Codec : OpCodec}.
Context (foreign : Ops → Ops → bool).
Implicit Types (now : Z) (op : Operation) (t : Ops) (r : OpRow) (id : OperationId).
Implicit Types (cond : OpRow → bool) (f : OpRow → OpRow) (owner payload : str) (key : option OwnerKey) (phase : Phase)
  (output : TxOutput) (okey : OperationKey) (kind : str) (pw : PhaseWrite)
  (outcome : TerminalOutcome) (poutcome : ParkedOutcome) (tg : PhaseTag) (w : str).

(** ** Histories *)

(** One call of the repository, with the arguments its caller chose; the clock and the
    fresh identifiers are arguments too, and nothing is assumed of them. *)
Inductive OpAction :=
| Act_insert (seen : Ops) now id kind okey (body : Json) (retry_owner : PendingRetryOwner)
| Act_claim_batch now owner (limit : nat)
| Act_claim_drive now owner id
| Act_claim_boot now owner id
| Act_claim_parked now owner id
| Act_claim_parked_boot now owner id
| Act_clear_lease now id
| Act_claim_pending now owner op
| Act_release_pending now id
| Act_claim_retry now owner op (attempt : Z)
| Act_defer_claim now op (blocker : PendingBlocker) (retry_owner : PendingRetryOwner)
| Act_defer_unclaimed now id (blocker : PendingBlocker)
| Act_set_phase now op phase key
| Act_set_phase_output now op phase output
| Act_set_compensating now op (state : CompensationStateVersioned) key
| Act_update_compensation now op (state : CompensationStateVersioned)
| Act_record_artifacts now op (artifacts : SpawnArtifacts)
| Act_set_parked now op (deadline : Z) key
| Act_checkpoint now op (ikind : AppServerInteractKind) (expected : TxOutput) output
| Act_prepare now (checkout : Ops → result unit CalmError) (applied : result (option TxOutput) CalmError) op
| Act_settle now op outcome key (append : result unit CalmError)
| Act_complete_parked now id poutcome
| Act_reconcile now (error_text : CalmError → str) op (recovered : result ParkedRecovery CalmError)
    (append : result unit CalmError)
| Act_commit now id kind okey (body : Json) (prepared : result TxOutput CalmError).

(** Running a call: the table it leaves, and the result it answers that it settled. *)
Definition quiet {A} (m : OpM A) t : Ops * option OperationResult := ((m t).1, None).
Definition settling {A} (won : A → option OperationResult) (m : OpM A) t : Ops * option OperationResult :=
  ((m t).1, match (m t).2 with Ok a => won a | Err _ => None end).

Definition op_run (a : OpAction) : Ops → Ops * option OperationResult :=
  match a with
  | Act_insert seen now id kind okey body ro =>
      quiet (insert_operation_for foreign seen now id kind okey body ro)
  | Act_claim_batch now owner limit => quiet (claim_drive_batch foreign now owner limit)
  | Act_claim_drive now owner id => quiet (claim_drive_operation foreign now owner id)
  | Act_claim_boot now owner id => quiet (claim_operation_for_boot_recovery foreign now owner id)
  | Act_claim_parked now owner id => quiet (claim_parked foreign now owner id)
  | Act_claim_parked_boot now owner id => quiet (claim_parked_for_boot foreign now owner id)
  | Act_clear_lease now id => quiet (clear_parked_lease_for_boot foreign now id)
  | Act_claim_pending now owner op => quiet (claim_pending_retry foreign now owner op)
  | Act_release_pending now id => quiet (release_pending_for_retry foreign now id)
  | Act_claim_retry now owner op attempt => quiet (claim_retry foreign now owner op attempt)
  | Act_defer_claim now op blocker ro => quiet (defer_pending_claim foreign now op blocker ro)
  | Act_defer_unclaimed now id blocker => quiet (defer_unclaimed_pending foreign now id blocker)
  | Act_set_phase now op phase key => quiet (set_phase foreign now op phase key)
  | Act_set_phase_output now op phase output => quiet (set_phase_and_tx_output foreign now op phase output)
  | Act_set_compensating now op state key => quiet (set_compensating foreign now op state key)
  | Act_update_compensation now op state => quiet (update_compensation_state foreign now op state)
  | Act_record_artifacts now op artifacts => quiet (record_spawn_artifacts foreign now op artifacts)
  | Act_set_parked now op deadline key => quiet (set_parked foreign now op deadline key)
  | Act_checkpoint now op ikind expected output =>
      quiet (in_tx (checkpoint_app_server_interact_tx foreign now op ikind expected output))
  | Act_prepare now checkout applied op => quiet (prepare_tx_and_advance foreign now checkout applied op)
  | Act_settle now op outcome key append =>
      settling settle_won (settle_claimed foreign now op outcome key append)
  | Act_complete_parked now id poutcome =>
      settling completion_won (in_tx (complete_parked_tx foreign now id poutcome))
  | Act_reconcile now error_text op recovered append =>
      settling Datatypes.id (reconcile foreign now error_text op recovered append)
  | Act_commit now id kind okey body prepared =>
      settling keyed_won (commit_tx_only foreign now id kind okey body prepared)
  end.

Definition run_change t t' (won : option OperationResult) : Prop :=
  match won with Some res => ops_settle (res_op_id res) t t' | None => ops_change t t' end.

Lemma settling_change {A} (won : A → option OperationResult) (m : OpM A) t :
  wp m (settles_for won t) t → run_change t (settling won m t).1 (settling won m t).2.
Proof. unfold wp, settling, settles_for, run_change. destruct (m t) as [t' [a|e]]; done. Qed.

Lemma op_run_change a t : run_change t (op_run a t).1 (op_run a t).2.
Proof.
  destruct a; cbn [op_run];
    try (apply settling_change;
         first [ apply settle_claimed_settles | apply reconcile_settles | apply commit_tx_only_settles
               | apply wp_in_tx; eapply wp_mono; [|apply complete_parked_settles];
                 intros t' [c|e] [Hset _]; [exact Hset|simpl; reflexivity] ]);
    match goal with |- run_change _ (quiet ?m _).1 _ => change (ops_change t (m t).1); revert t; change (keeps m) end.
  - apply keeps_insert_operation_for.
  - apply keeps_claim_drivable.
  - apply keeps_claim_drive_operation.
  - apply keeps_claim_operation_for_boot_recovery.
  - apply keeps_claim_parked.
  - apply keeps_claim_parked_for_boot.
  - apply keeps_clear_parked_lease_for_boot.
  - apply keeps_claim_pending_retry.
  - apply keeps_release_pending_for_retry.
  - apply keeps_claim_retry.
  - apply keeps_defer_pending_claim.
  - apply keeps_defer_unclaimed_pending.
  - apply keeps_set_phase.
  - apply keeps_set_phase_and_tx_output.
  - apply keeps_set_compensating.
  - apply keeps_update_compensation_state.
  - apply keeps_record_spawn_artifacts.
  - apply keeps_set_parked.
  - apply preserves_in_tx; [apply _|]. apply keeps_checkpoint.
  - apply keeps_prepare_tx_and_advance.
Qed.

Definition ops_wf t : Prop := ∀ id r, t !! id = Some r → op_wf r.

Definition settled_ids t : gset OperationId := dom (filter (λ p, settled p.2 = true) t).

Lemma elem_of_settled_ids t id : id ∈ settled_ids t ↔ ∃ r, t !! id = Some r ∧ settled r = true.
Proof.
  unfold settled_ids. rewrite elem_of_dom. unfold is_Some. setoid_rewrite map_lookup_filter_Some. done.
Qed.

Lemma ops_change_wf t t' : ops_change t t' → ops_wf t → ops_wf t'.
Proof.
  intros Hch Hwf id r' Hr'. specialize (Hch id). rewrite Hr' in Hch.
  destruct (t !! id) as [r|] eqn:Hr; simpl in Hch; [|by destruct Hch]. eapply change_wf; eauto.
Qed.

Lemma run_change_wf t t' won : run_change t t' won → ops_wf t → ops_wf t'.
Proof.
  destruct won as [res|]; simpl; [|apply ops_change_wf].
  intros ((r0 & Hr0 & Hwf0 & _) & _ & Hrest) Hwf id r' Hr'.
  destruct (decide (id = res_op_id res)) as [->|Hne]; [by simplify_eq|].
  specialize (Hrest id Hne). rewrite Hr' in Hrest.
  destruct (t !! id) as [r|] eqn:Hr; simpl in Hrest; [|by destruct Hrest]. eapply change_wf; eauto.
Qed.

(** A quiet change settles nothing and unsettles nothing. *)
Lemma entry_change_settled o o' :
  entry_change o o' → (∀ r, o = Some r → op_wf r) →
  (∃ r', o' = Some r' ∧ settled r' = true) ↔ (∃ r, o = Some r ∧ settled r = true).
Proof.
  intros Hch Hwf. destruct o as [r|], o' as [r'|]; simpl in Hch; try done.
  - pose proof (change_quiet _ _ Hch (Hwf r eq_refl)) as Hq.
    split; intros (x & [= <-] & Hx); eexists; (split; [done|congruence]).
  - destruct Hch as [_ Hs]. split; [intros (x & [= <-] & Hx); congruence|by intros (x & ? & _)].
Qed.

(** The contract: a set of finished operations; a call that answers with a result adds
    its operation, which was not there, and any other call adds nothing. *)
Inductive one_shot_step (done : gset OperationId) : option OperationResult → gset OperationId → Prop :=
| shot_quiet : one_shot_step done None done
| shot_settle res : res_op_id res ∉ done →
    one_shot_step done (Some res) ({[res_op_id res]} ∪ done).

Lemma run_change_one_shot t t' won :
  ops_wf t → run_change t t' won → one_shot_step (settled_ids t) won (settled_ids t').
Proof.
  intros Hwf Hrun. destruct won as [res|]; simpl in Hrun.
  - destruct Hrun as ((r' & Hr' & _ & Hs') & Hbefore & Hrest).
    assert (settled_ids t' = {[res_op_id res]} ∪ settled_ids t) as ->.
    { apply set_eq. intros id. rewrite elem_of_union, elem_of_singleton, !elem_of_settled_ids.
      destruct (decide (id = res_op_id res)) as [->|Hne]; [naive_solver|].
      rewrite (entry_change_settled _ _ (Hrest id Hne)) by apply Hwf. naive_solver. }
    constructor. rewrite elem_of_settled_ids. intros (r & Hr & Hs).
    destruct (Hbefore r Hr) as [Hun _]. rewrite Hun in Hs by (by eapply Hwf). done.
  - assert (settled_ids t' = settled_ids t) as ->; [|constructor].
    apply set_eq. intros id. rewrite !elem_of_settled_ids. apply entry_change_settled; [apply Hrun|apply Hwf].
Qed.

Lemma run_change_frozen t t' won id r :
  ops_wf t → run_change t t' won → t !! id = Some r → settled r = true → t' !! id = Some r.
Proof.
  intros Hwf Hrun Hr Hs.
  assert (entry_change (t !! id) (t' !! id)) as Hch.
  { destruct won as [res|]; simpl in Hrun; [|apply Hrun]. destruct Hrun as (_ & Hbefore & Hrest).
    destruct (decide (id = res_op_id res)) as [->|Hne]; [|auto].
    destruct (Hbefore r Hr) as [Hun _]. rewrite Hun in Hs by (by eapply Hwf). done. }
  rewrite Hr in Hch. destruct (t' !! id) as [r'|]; simpl in Hch; [|done].
  f_equal. eapply change_settled; eauto.
Qed.

(** A history of calls, and the results they answered that they settled. *)
Fixpoint op_history (l : list OpAction) t : Ops * list OperationResult :=
  match l with
  | [] => (t, [])
  | a :: rest =>
      let '(t', won) := op_run a t in
      let '(t'', results) := op_history rest t' in
      (t'', match won with Some res => res :: results | None => results end)
  end.

(** C2: Refinement: whoever calls the repository, with whatever arguments, each call is
    a step of the one-shot contract [one_shot_step] on the set of settled operations: a
    call that answers with a result settles an operation nobody had settled, and no
    other call settles or reopens one. The invariant of the rows is kept: a settled
    operation is completed and unleased, and every lease has an end. *)
Theorem settlement_refines_one_shot a t :
  ops_wf t →
  one_shot_step (settled_ids t) (op_run a t).2 (settled_ids (op_run a t).1) ∧ ops_wf (op_run a t).1.
Proof.
  intros Hwf. pose proof (op_run_change a t) as Hrun. split.
  - by apply run_change_one_shot.
  - by eapply run_change_wf.
Qed.

Lemma op_history_spec l t :
  ops_wf t →
  let '(t', results) := op_history l t in
  ops_wf t' ∧ settled_ids t' = list_to_set (res_op_id <$> results) ∪ settled_ids t ∧
  NoDup (res_op_id <$> results) ∧ (∀ res, res ∈ results → res_op_id res ∉ settled_ids t) ∧
  (∀ id r, t !! id = Some r → settled r = true → t' !! id = Some r).
Proof.
  revert t; induction l as [|a l IH]; intros t Hwf; simpl.
  - split_and!; try done; [set_solver|constructor|set_solver].
  - pose proof (op_run_change a t) as Hrun. destruct (op_run a t) as [t1 won]; simpl in Hrun.
    pose proof (run_change_one_shot _ _ _ Hwf Hrun) as Hshot.
    pose proof (λ id r, run_change_frozen _ _ _ id r Hwf Hrun) as Hfrozen.
    specialize (IH t1 (run_change_wf _ _ _ Hrun Hwf)).
    destruct (op_history l t1) as [t2 results]. destruct IH as (Hwf2 & Hset & Hnd & Hnew & Hfr).
    inversion Hshot as [Hwon Heq|res Hres Hwon Heq]; subst won; rewrite <-Heq in *.
    + split_and!; auto.
    + simpl. split_and!; auto.
      * rewrite Hset. set_solver.
      * constructor; [|done]. intros (res' & Hid & Hin)%list_elem_of_fmap.
        specialize (Hnew res' Hin). rewrite <-Hid in Hnew. set_solver.
      * intros res' [->|Hin]%elem_of_cons; [done|]. specialize (Hnew res' Hin). set_solver.
Qed.

(** Any number of drivers, sweeps, boot recoveries, observers and cancellers may call
    the repository in any interleaving, at any times and with any claims: no operation
    is ever settled twice (the results answered are for distinct operations, none
    settled before), an operation is settled in the end exactly when it was at the
    start or some call answered with its result, and a settled row is never touched
    again. *)
Theorem settlement_once l t :
  ops_wf t →
  NoDup (res_op_id <$> (op_history l t).2) ∧
  (∀ id, id ∈ settled_ids (op_history l t).1 ↔
    id ∈ settled_ids t ∨ ∃ res, res ∈ (op_history l t).2 ∧ res_op_id res = id) ∧
  (∀ res, res ∈ (op_history l t).2 → res_op_id res ∉ settled_ids t) ∧
  (∀ id r, t !! id = Some r → settled r = true → (op_history l t).1 !! id = Some r).
Proof.
  intros Hwf. pose proof (op_history_spec l t Hwf) as Hspec.
  destruct (op_history l t) as [t' results]; simpl. destruct Hspec as (_ & Hset & Hnd & Hnew & Hfr).
  split_and!; try done. intros id. rewrite Hset, elem_of_union, elem_of_list_to_set, list_elem_of_fmap.
  naive_solver.
Qed.

(** ** A lost claim

    Owners are fresh identifiers: a claim stamps the row with one that no earlier claim
    used. [claims_as] is the owner a call may stamp. *)

Definition claims_as (a : OpAction) : option str :=
  match a with
  | Act_claim_batch _ owner _ | Act_claim_drive _ owner _ | Act_claim_boot _ owner _
  | Act_claim_parked _ owner _ | Act_claim_parked_boot _ owner _ | Act_claim_pending _ owner _
  | Act_claim_retry _ owner _ _ => Some owner
  | _ => None
  end.

(** The claim a call acts under. *)
Definition acts_under (a : OpAction) : option Operation :=
  match a with
  | Act_defer_claim _ op _ _ | Act_set_phase _ op _ _ | Act_set_phase_output _ op _ _
  | Act_set_compensating _ op _ _ | Act_update_compensation _ op _ | Act_record_artifacts _ op _
  | Act_set_parked _ op _ _ | Act_checkpoint _ op _ _ _ | Act_prepare _ _ _ op
  | Act_settle _ op _ _ _ | Act_reconcile _ _ op _ _ => Some op
  | _ => None
  end.

(** No row comes to be leased by [w] that was not. *)
Definition entry_lease (w : str) (o o' : option OpRow) : Prop :=
  (o' ≫= o_lease_owner) = Some w → (o ≫= o_lease_owner) = Some w.

#[local] Instance entry_lease_preorder w : PreOrder (entry_lease w).
Proof. unfold entry_lease. split; [by intros o Ho|intros o1 o2 o3 H1 H2 Ho; auto]. Qed.

Definition unleased (w : str) {A} (m : OpM A) : Prop := preserves (pointwise (entry_lease w)) m.

Lemma unleased_update w id cond f :
  (∀ r, o_lease_owner (f r) = Some w → o_lease_owner r = Some w) →
  unleased w (op_exec foreign (update_id id cond f)).
Proof.
  intros Hf. apply preserves_db_exec; [apply _|]. intros t _. apply pointwise_update_id; [apply _|].
  intros r _. exact (Hf r).
Qed.

Lemma unleased_insert_pending w id r :
  o_lease_owner r = None → unleased w (insert_pending foreign id r).
Proof.
  intros Hl t. unfold insert_pending. destruct (_ || _); [reflexivity|]. destruct (op_accepts _ _ _); [|reflexivity].
  apply pointwise_insert; [apply _|]. unfold entry_lease. simpl. by rewrite Hl.
Qed.

Lemma unleased_claim_each w now owner ids : owner ≠ w → unleased w (claim_each foreign now owner ids).
Proof.
  intros Hne. induction ids as [|id ids IH]; simpl; unfold unleased; walk; [|apply IH].
  apply unleased_update. intros r Ho. unfold take_lease in Ho. simpl in Ho. congruence.
Qed.

Lemma unleased_pending {A} w now id kind okey (body : Json) (detail : option str) (k : InsertAnswer → OpM A) :
  (∀ i, unleased w (k i)) →
  unleased w (let* row := db_read (λ _, pending_row now kind okey body detail) in
              let* inserted := insert_pending foreign id row in k inserted).
Proof.
  intros Hk. apply preserves_wp. intros t. apply wp_bind_read; [|done]. intros r Hr.
  assert (o_lease_owner r = None) as Hl.
  { unfold pending_row in Hr. destruct (target_from_payload body) as [[ty tid] v].
    destruct (to_string v); simpl in Hr; [|done]. destruct (to_string body); simpl in Hr; [|done].
    by injection Hr as <-. }
  pose proof (unleased_insert_pending w id r Hl t) as Ht. apply wp_bind. unfold wp at 1.
  destruct (insert_pending foreign id r t) as [t' [i|e]]; simpl in *; [|done].
  specialize (Hk i t'). unfold wp. by transitivity t'.
Qed.

Ltac lease_walk :=
  unfold unleased; walk;
  try (apply unleased_update; intros r Ho; unfold take_lease, drop_lease, set_output, settle_row in Ho;
       simpl in Ho; congruence).

Lemma unleased_insert_missing w now id kind okey body ro :
  unleased w (insert_missing foreign now id kind okey body ro).
Proof. apply unleased_pending. intros i. lease_walk. Qed.

Lemma unleased_write_phase w now pw phase output :
  unleased w (write_phase_and_tx_output foreign now pw phase output).
Proof. unfold write_phase_and_tx_output, write_admitted. lease_walk. Qed.

Lemma unleased_write_terminal w now op outcome : unleased w (write_terminal_tx foreign now op outcome).
Proof. unfold write_terminal_tx. lease_walk. Qed.

Lemma unleased_complete_parked w now id poutcome : unleased w (complete_parked_tx foreign now id poutcome).
Proof. unfold complete_parked_tx. lease_walk; apply unleased_write_terminal. Qed.

Lemma unleased_leave w now op key (write : str → OpM N) :
  (∀ owner, unleased w (write owner)) →
  unleased w (let* l := in_tx (leave_write foreign now op key write) in leave_answer op l).
Proof.
  intros Hw. unfold leave_write, retain_owned_tx, leave_answer, reread. lease_walk. apply Hw.
Qed.

Lemma unleased_reconcile w now error_text op recovered append :
  unleased w (reconcile foreign now error_text op recovered append).
Proof.
  intros t. unfold reconcile. destruct (op_lease_owner op) as [owner|]; [|reflexivity].
  assert (unleased w (reconcile_answer foreign now op recovered append)) as Hans.
  { unfold reconcile_answer, require_live_claim_tx. lease_walk; apply unleased_complete_parked. }
  specialize (Hans t). destruct (reconcile_answer foreign now op recovered append t) as [t' answer].
  set (held := λ r : OpRow, _). set (g := match answer with Ok _ => _ | Err _ => _ end).
  assert (unleased w (op_exec foreign (update_id (op_id op) held g))) as Hup.
  { apply unleased_update. intros r. unfold g. by destruct answer. }
  specialize (Hup t'). destruct (op_exec _ _ t') as [t'' [n|e]]; simpl in *; by transitivity t'.
Qed.

(** [walk] stops at the operations treated above. *)
#[local] Opaque write_phase_and_tx_output write_terminal_tx complete_parked_tx insert_missing.

Lemma unleased_run w a t :
  claims_as a ≠ Some w → pointwise (entry_lease w) t (op_run a t).1.
Proof.
  intros Hw. destruct a; cbn [op_run claims_as] in *;
    match goal with |- pointwise _ _ (?run ?m _).1 => change (pointwise (entry_lease w) t (m t).1); revert t; change (unleased w m) end.
  all: try (assert (owner ≠ w) as Hne by congruence).
  - apply preserves_insert_operation_for; [apply _|]. apply unleased_insert_missing.
  - unfold claim_drive_batch, claim_drivable. lease_walk. by apply unleased_claim_each.
  - unfold claim_drive_operation, claim_drivable. lease_walk. by apply unleased_claim_each.
  - unfold claim_operation_for_boot_recovery, claim_then. lease_walk.
  - unfold claim_parked, claim_then. lease_walk.
  - unfold claim_parked_for_boot, claim_then. lease_walk.
  - unfold clear_parked_lease_for_boot. lease_walk.
  - unfold claim_pending_retry. lease_walk.
  - unfold release_pending_for_retry. lease_walk.
  - unfold claim_retry, claim_then. lease_walk.
  - unfold defer_pending_claim, require_live_claim_tx. lease_walk.
  - unfold defer_unclaimed_pending. lease_walk.
  - unfold set_phase. destruct (terminal_phase phase); [lease_walk|].
    match goal with |- unleased _ (if ?b then _ else _) => destruct b end; [lease_walk|].
    apply unleased_leave. intros owner. destruct (serialize_split phase). lease_walk.
  - unfold set_phase_and_tx_output, reread. lease_walk. apply unleased_write_phase.
  - apply unleased_leave. intros owner. lease_walk.
  - unfold update_compensation_state, reread. lease_walk.
  - unfold record_spawn_artifacts, require_live_claim_tx. lease_walk.
  - unfold set_parked. lease_walk.
  - unfold checkpoint_app_server_interact_tx, require_live_claim_tx. lease_walk.
  - unfold prepare_tx_and_advance, advance_to_tx_committed_tx, reread. lease_walk; apply unleased_write_phase.
  - unfold settle_claimed, retain_owned_tx. lease_walk. apply unleased_write_terminal.
  - lease_walk. apply unleased_complete_parked.
  - apply unleased_reconcile.
  - apply preserves_in_tx; [apply _|].
    apply preserves_bind; [apply _|apply preserves_read; apply _|]. intros [[old r]|]; [lease_walk|].
    apply unleased_pending. intros i. lease_walk. apply unleased_write_phase.
Qed.

#[local] Transparent write_phase_and_tx_output write_terminal_tx complete_parked_tx insert_missing.

(** The claim [op] was taken under no longer stands: its row, if any, is not leased by
    its owner. *)
Definition claim_lost op t : Prop :=
  is_Some (op_lease_owner op) ∧ ∀ r, t !! op_id op = Some r → o_lease_owner r ≠ op_lease_owner op.

Lemma wp_bind_lost {A} now op (k : bool → OpM A) (Q : Ops → result A CalmError → Prop) t :
  claim_lost op t → wp (k false) Q t → (∀ e, Q t (Err e)) → wp (db_bind (has_live_claim_tx now op) k) Q t.
Proof.
  intros [_ Hlost] Hf He. apply wp_bind_live; [|done|done]. intros r owner payload Hr Ho Hlive.
  apply live_claim_spec in Hlive as (_ & Hl & _). destruct (Hlost r Hr). congruence.
Qed.

(** The table is as it was and no result is answered. *)
Definition powerless {A} (won : A → option OperationResult) t t' (a : result A CalmError) : Prop :=
  t' = t ∧ match a with Ok x => won x = None | Err _ => True end.

Definition no_result {A} (_ : A) : option OperationResult := None.

Lemma powerless_quiet {A} (m : OpM A) t : wp m (powerless no_result t) t → quiet m t = (t, None).
Proof. unfold wp, quiet. by intros [-> _]. Qed.

Lemma powerless_settling {A} (won : A → option OperationResult) (m : OpM A) t :
  wp m (powerless won t) t → settling won m t = (t, None).
Proof. unfold wp, settling. destruct (m t) as [t' [a|e]]; simpl; by intros [-> ?]; simpl; f_equal. Qed.

Lemma powerless_err {A} (won : A → option OperationResult) t e : powerless won t t (Err e).
Proof. by split. Qed.

Lemma lost_require {A} (won : A → option OperationResult) now op (k : OpM A) t :
  claim_lost op t → wp (let* _ := require_live_claim_tx now op in k) (powerless won t) t.
Proof.
  intros Hl. unfold require_live_claim_tx. apply wp_bind, wp_bind_lost; [done|by apply wp_raise|done].
Qed.

Lemma lost_if_live {A} (won : A → option OperationResult) now op (yes no : OpM A) t :
  claim_lost op t → wp no (powerless won t) t →
  wp (let* live := has_live_claim_tx now op in if negb live then no else yes) (powerless won t) t.
Proof. intros Hl Hn. by apply wp_bind_lost. Qed.

Lemma powerless_in_tx {A} (won : A → option OperationResult) (m : OpM A) t :
  wp m (powerless won t) t → wp (in_tx m) (powerless won t) t.
Proof. intros Hm. apply wp_in_tx. eapply wp_mono; [|exact Hm]. by intros t' [a|e]. Qed.

Lemma lost_leave now op key (write : str → OpM N) t :
  claim_lost op t →
  wp (let* l := in_tx (leave_write foreign now op key write) in leave_answer op l) (powerless no_result t) t.
Proof.
  intros Hl. apply wp_bind, wp_in_tx. unfold leave_write. apply wp_bind_lost; [done| |done].
  apply wp_ret. by apply wp_ret.
Qed.

Lemma lost_write_phase now op phase output t :
  claim_lost op t →
  wp (write_phase_and_tx_output foreign now (Claimed op) phase output)
     (λ t' a, t' = t ∧ match a with Ok b => b = false | Err _ => True end) t.
Proof.
  intros Hl. unfold write_phase_and_tx_output. destruct (_ && _); [by apply wp_raise|].
  apply wp_bind, wp_bind_lost; [done| |done]. by repeat apply wp_ret.
Qed.

Lemma lost_reconcile now error_text op recovered append t :
  claim_lost op t →
  wp (reconcile foreign now error_text op recovered append) (powerless Datatypes.id t) t.
Proof.
  intros Hlost. assert (wp (reconcile_answer foreign now op recovered append) (powerless Datatypes.id t) t) as Hans.
  { unfold reconcile_answer. destruct recovered as [[|poutcome|reason]|e];
      try (first [by apply wp_ret|by apply wp_raise]).
    by apply powerless_in_tx, lost_require. }
  unfold wp, reconcile in *. destruct Hlost as [[owner Ho] Hl]. rewrite Ho in *.
  destruct (reconcile_answer foreign now op recovered append t) as [t' answer]; simpl in *.
  destruct Hans as [-> Hnone]. set (g := match answer with Ok _ => _ | Err _ => _ end).
  set (held := λ r : OpRow, _). unfold op_exec, db_exec, update_id.
  destruct (t !! op_id op) as [r|] eqn:Hr; simpl; [|done].
  assert (held r = false) as ->; [|done]. apply andb_false_intro1, bool_decide_eq_false. by apply Hl.
Qed.

Lemma lost_run a op t : acts_under a = Some op → claim_lost op t → op_run a t = (t, None).
Proof.
  intros Ha Hl. destruct a; simpl in Ha; simplify_eq; cbn [op_run];
    first [apply powerless_quiet | apply powerless_settling].
  - by apply powerless_in_tx, lost_require.
  - unfold set_phase. destruct (terminal_phase phase); [by apply wp_raise|].
    match goal with |- wp (if ?b then _ else _) _ _ => destruct b end; [by apply wp_ret|by apply lost_leave].
  - apply wp_bind, wp_in_tx. eapply wp_mono; [|by apply lost_write_phase].
    intros t' [b|e] [-> Hb]; [|done]. subst b. by apply wp_ret.
  - by apply lost_leave.
  - apply wp_bind, wp_in_tx, wp_bind_lost; [done| |done]. apply wp_ret. by apply wp_ret.
  - by apply powerless_in_tx, lost_require.
  - apply wp_bind, wp_in_tx. destruct (op_phase op); try (apply wp_ret; by apply wp_ret).
    apply wp_bind_lost; [done| |done]. apply wp_ret. by apply wp_ret.
  - by apply powerless_in_tx, lost_require.
  - apply wp_bind, wp_in_tx, wp_bind_lost; [done| |done]. apply wp_ret. by apply wp_ret.
  - by apply powerless_in_tx, lost_if_live; [|apply wp_ret].
  - by apply lost_reconcile.
Qed.

Lemma claim_lost_run a op w t :
  op_lease_owner op = Some w → claims_as a ≠ Some w → claim_lost op t → claim_lost op (op_run a t).1.
Proof.
  intros Ho Hw [_ Hl]. split; [by rewrite Ho|]. intros r Hr Heq.
  pose proof (unleased_run w a t Hw (op_id op)) as Hun. unfold entry_lease in Hun. rewrite Hr in Hun.
  simpl in Hun. rewrite Heq, Ho in Hun. specialize (Hun eq_refl).
  destruct (t !! op_id op) as [r0|] eqn:Hr0; simpl in Hun; [|done]. destruct (Hl r0 eq_refl). congruence.
Qed.

(** C27: Fencing: once the row of an operation is no longer leased by the owner a claim
    was taken under (another claimed it, or its lease was released or settled), that
    claim is powerless for ever: after any further history in which later claims use
    other owner identifiers, every call made under it leaves the table as it is and
    answers no result. *)
Theorem lost_claim_powerless l a op w t :
  op_lease_owner op = Some w → claim_lost op t →
  (∀ b, b ∈ l → claims_as b ≠ Some w) → acts_under a = Some op →
  op_run a (op_history l t).1 = ((op_history l t).1, None).
Proof.
  intros Ho Hl Hfresh Ha. apply (lost_run _ op); [done|].
  revert t Hl; induction l as [|b l IH]; intros t Hl; simpl; [done|].
  pose proof (claim_lost_run b op w t Ho (Hfresh b ltac:(by left)) Hl) as Hl'.
  destruct (op_run b t) as [t1 won]; simpl in Hl'.
  specialize (IH ltac:(intros b' ?; apply Hfresh; by right) t1 Hl').
  destruct (op_history l t1) as [t2 results]. exact IH.
Qed.

(** ** Claiming a parked operation *)

(** Decoding a row does not look at its lease. *)
Lemma from_row_take_lease id owner now r op :
  operation_from_row id r = Ok op →
  ∃ op', operation_from_row id (take_lease owner now r) = Ok op' ∧ op_phase op' = op_phase op.
Proof.
  decode_row r. intros [= <-]. by eexists.
Qed.

Lemma op_exec_update id cond f t :
  op_exec foreign (update_id id cond f) t =
  match t !! id with
  | Some r => if cond r then if op_accepts foreign t (<[id := f r]> t) then (<[id := f r]> t, Ok 1%N)
                             else (t, Err Calm_Db) else (t, Ok 0%N)
  | None => (t, Ok 0%N)
  end.
Proof. unfold op_exec, db_exec, update_id. destruct (t !! id) as [r|]; [|done]. by destruct (cond r). Qed.

Lemma claim_then_Some {A} id cond f (fetch : Ops → result (option A) CalmError) t t' a :
  claim_then foreign id cond f fetch t = (t', Ok (Some a)) ↔
  ∃ r, t !! id = Some r ∧ cond r = true ∧ op_accepts foreign t (<[id := f r]> t) = true ∧
       t' = <[id := f r]> t ∧ fetch t' = Ok (Some a).
Proof.
  unfold claim_then, db_bind. rewrite op_exec_update. destruct (t !! id) as [r|] eqn:Hr.
  2: { simpl. unfold db_ret. split; [done|]. by intros (? & ? & _). }
  destruct (cond r) eqn:Hc; simpl; [destruct (op_accepts _ _ _) eqn:Ha; simpl|]; unfold db_read, db_ret.
  - split; [intros [= <- ?]; eauto 6|]. intros (? & [= <-] & _ & _ & -> & ->). done.
  - split; [done|]. intros (? & [= <-] & _ & ? & _). congruence.
  - split; [done|]. intros (? & [= <-] & ? & _). congruence.
Qed.

Lemma claim_then_refused {A} id cond f (fetch : Ops → result (option A) CalmError) t :
  (∀ r, t !! id = Some r → cond r = false) → claim_then foreign id cond f fetch t = (t, Ok None).
Proof.
  intros Hc. unfold claim_then, db_bind. rewrite op_exec_update.
  destruct (t !! id) as [r|]; [by rewrite Hc|done].
Qed.

(** A claim that has ended is free. *)
Lemma lease_free_taken owner now now' r :
  lease_free now' (take_lease owner now r) = bool_decide (now + OPERATION_LEASE_MS < now')%Z.
Proof.
  unfold lease_free, take_lease. simpl. case_bool_decide as H.
  - by apply Z.ltb_lt.
  - apply Z.ltb_ge. lia.
Qed.

(** The claim of a parked operation is exclusive for exactly one lease. A claim that
    succeeds found the row parked and free, stamps it with the claimant for
    [OPERATION_LEASE_MS] and answers that row; until the lease ends every other claim
    of the sweep is refused and changes nothing, and once it has ended the next claim
    succeeds (as soon as the schema accepts its update), so a dead claimant cannot
    hold the operation. *)
Theorem claim_parked_exclusive now owner id t t' op :
  claim_parked foreign now owner id t = (t', Ok (Some op)) →
  (∃ r, t !! id = Some r ∧ in_phase Tag_Parked r = true ∧ lease_free now r = true ∧
        t' = <[id := take_lease owner now r]> t) ∧
  (op_id op = id ∧ op_phase op = Parked ∧ op_lease_owner op = Some owner ∧
   op_lease_until_ms op = Some (now + OPERATION_LEASE_MS)%Z) ∧
  ∀ now' owner',
    if bool_decide (now + OPERATION_LEASE_MS < now')%Z then
      (∀ r, t' !! id = Some r →
        op_accepts foreign t' (<[id := take_lease owner' now' r]> t') = true →
        ∃ t'' op', claim_parked foreign now' owner' id t' = (t'', Ok (Some op')))
    else claim_parked foreign now' owner' id t' = (t', Ok None).
Proof.
  unfold claim_parked. rewrite claim_then_Some. intros (r & Hr & Hc & Ha & -> & Hf).
  apply andb_true_iff in Hc as [Hp Hfree]. unfold fetch_claimed_parked in Hf.
  rewrite lookup_insert_eq in Hf. simpl in Hf. rewrite bool_decide_eq_true_2 in Hf by done.
  assert (in_phase Tag_Parked (take_lease owner now r) = true) as Hp' by exact Hp.
  rewrite Hp' in Hf. simpl in Hf.
  destruct (operation_from_row id (take_lease owner now r)) as [op'|] eqn:Hop; simplify_eq/=.
  destruct (operation_from_row_phase _ _ _ Hop) as (Hid & Hphase & Hown & Huntil & _).
  split; [by eauto 6|]. split.
  { split_and!; try done. apply bool_decide_eq_true in Hp'. rewrite Hp' in Hphase.
    apply as_str_inj in Hphase. by destruct (op_phase op). }
  intros now' owner'. case_bool_decide as Ht.
  - intros r'. rewrite lookup_insert_eq. intros [= <-] Hacc.
    destruct (from_row_take_lease _ owner' now' _ _ Hop) as (op' & Hop' & _).
    exists (<[id := take_lease owner' now' (take_lease owner now r)]> (<[id := take_lease owner now r]> t)), op'.
    apply claim_then_Some. exists (take_lease owner now r). rewrite lookup_insert_eq.
    split_and!; try done.
    + rewrite lease_free_taken, bool_decide_eq_true_2 by done. by rewrite Hp'.
    + unfold fetch_claimed_parked. rewrite lookup_insert_eq. simpl. rewrite bool_decide_eq_true_2 by done.
      assert (in_phase Tag_Parked (take_lease owner' now' (take_lease owner now r)) = true) as -> by exact Hp.
      simpl. by rewrite Hop'.
  - apply claim_then_refused. intros r'. rewrite lookup_insert_eq. intros [= <-].
    rewrite lease_free_taken, bool_decide_eq_false_2 by done. apply andb_false_r.
Qed.

(** ** Idempotency keys *)

(** Rows stay, with the inputs they were accepted with. *)
Definition inputs_kept t t' : Prop :=
  ∀ id r, t !! id = Some r → ∃ r', t' !! id = Some r' ∧ op_inputs r' = op_inputs r.

Lemma run_change_kept t t' won : run_change t t' won → inputs_kept t t'.
Proof.
  intros Hrun id r Hr.
  assert (entry_change (t !! id) (t' !! id) → ∃ r', t' !! id = Some r' ∧ op_inputs r' = op_inputs r) as Hq.
  { rewrite Hr. intros Hch. destruct (t' !! id) as [r'|]; simpl in Hch; [|done].
    exists r'. split; [done|]. by apply change_inputs. }
  destruct won as [res|]; simpl in Hrun; [|by apply Hq].
  destruct Hrun as ((r' & Hr' & _) & Hbefore & Hrest).
  destruct (decide (id = res_op_id res)) as [->|Hne]; [|by apply Hq, Hrest].
  exists r'. split; [done|]. by apply (Hbefore r Hr).
Qed.

Lemma inputs_kept_trans t1 t2 t3 : inputs_kept t1 t2 → inputs_kept t2 t3 → inputs_kept t1 t3.
Proof.
  intros H12 H23 id r (r2 & Hr2 & HI)%H12. destruct (H23 _ _ Hr2) as (r3 & ? & ?). exists r3.
  split; [done|congruence].
Qed.

(** After any history, as the key theorem below asks of what was read earlier. *)
Lemma op_history_kept l t : inputs_kept t (op_history l t).1.
Proof.
  revert t; induction l as [|a l IH]; intros t; simpl; [by intros id r Hr; eauto|].
  pose proof (run_change_kept _ _ _ (op_run_change a t)) as Hk. destruct (op_run a t) as [t1 won].
  specialize (IH t1). destruct (op_history l t1). by eapply inputs_kept_trans.
Qed.

(** The row bound to a key: what an answered submission leaves. *)
Definition key_bound t kind (k hash : str) id : Prop :=
  ∃ r, t !! id = Some r ∧ o_kind r = kind ∧ o_idempotency_key r = Some k ∧ o_payload_hash r = hash.

Lemma key_bound_kept t t' kind (k hash : str) id :
  inputs_kept t t' → key_bound t kind k hash id → key_bound t' kind k hash id.
Proof.
  intros Hk (r & Hr & H1 & H2 & H3). destruct (Hk _ _ Hr) as (r' & Hr' & HI).
  exists r'. unfold op_inputs in HI. simplify_eq. split_and!; congruence.
Qed.

Lemma key_bound_unique t kind (k h1 h2 : str) id1 id2 :
  op_unique t = true → key_bound t kind k h1 id1 → key_bound t kind k h2 id2 → id1 = id2 ∧ h1 = h2.
Proof.
  intros [_ Hnd%bool_decide_eq_true]%andb_true_iff (r1 & Hr1 & Hk1 & Hi1 & <-) (r2 & Hr2 & Hk2 & Hi2 & <-).
  assert ((id1, r1) = (id2, r2)) as [= -> ->]; [|done].
  eapply NoDup_omap_inj; [exact Hnd| | | |].
  - by apply elem_of_map_to_list.
  - by apply elem_of_map_to_list.
  - simpl. by rewrite Hi1, Hk1.
  - simpl. by rewrite Hi2, Hk2.
Qed.

Lemma keyed_answer_bound t kind okey (k : str) op id :
  key_idempotency_key okey = Some k → find_by_idempotency_key t kind okey = Ok (Some op) →
  keyed_answer k okey op = Ok id → key_bound t kind k (key_payload_hash okey) id.
Proof.
  intros Hk Hfind Hans. unfold find_by_idempotency_key in Hfind. rewrite Hk in Hfind.
  apply transpose_Ok in Hfind as ([id' r] & Hrow & Hop). simpl in Hop.
  destruct (operation_from_row_phase _ _ _ Hop) as (<- & _ & _ & _ & Hh).
  unfold keyed_row in Hrow. destruct (filter _ _) as [|p rest] eqn:Hf; simplify_eq/=.
  assert ((op_id op, r) ∈ (op_id op, r) :: rest) as Hin by left. rewrite <-Hf in Hin.
  apply list_elem_of_filter in Hin as [[Hkind Hidem] Hin%elem_of_btree_iter]. simpl in *.
  unfold keyed_answer in Hans. case_bool_decide; simplify_eq. exists r. split_and!; congruence.
Qed.

(** A submission that is answered leaves its key bound to the answer. *)
Lemma insert_bound seen now id kind okey body ro t (k : str) :
  key_idempotency_key okey = Some k → inputs_kept seen t →
  wp (insert_operation_for foreign seen now id kind okey body ro)
     (λ t' a, match a with Ok id' => key_bound t' kind k (key_payload_hash okey) id' | Err _ => True end) t.
Proof.
  intros Hk Hseen. unfold insert_operation_for. apply wp_bind_read; [intros existing Hex|done].
  rewrite Hk. destruct existing as [existing|].
  { apply wp_read. intros [id'|e] Hans; [|done].
    eapply key_bound_kept; [done|]. by eapply keyed_answer_bound. }
  unfold insert_missing. apply wp_bind_read; [intros r Hrow|done]. apply wp_bind.
  unfold wp at 1, insert_pending. destruct (_ || _); simpl.
  - apply wp_bind_read; [intros found Hfound|done]. rewrite Hk.
    destruct found as [found|]; [|by apply wp_raise]. apply wp_read. intros [id'|e] Hans; [|done].
    by eapply keyed_answer_bound.
  - destruct (op_accepts _ _ _); simpl; [|by apply wp_raise]. apply wp_ret. exists r.
    rewrite lookup_insert_eq. split; [done|]. unfold pending_row in Hrow.
    destruct (target_from_payload body) as [[ty tid] v].
    destruct (to_string v); simpl in Hrow; [|done]. destruct (to_string body); simpl in Hrow; [|done].
    by injection Hrow as <-.
Qed.

(** An idempotency key names one operation. Two submissions of one kind under one
    key, however they race (each looks the key up in any earlier snapshot and inserts
    later, with anything in between), are answered with the same operation and only if
    their payload hashes agree: a reused key with another payload is never answered. *)
Theorem insert_idempotent seen1 now1 id1 kind okey1 body1 ro1 t1 t1' a1
    seen2 now2 id2 okey2 body2 ro2 t2 t2' a2 (k : str) :
  key_idempotency_key okey1 = Some k → key_idempotency_key okey2 = Some k →
  inputs_kept seen1 t1 →
  insert_operation_for foreign seen1 now1 id1 kind okey1 body1 ro1 t1 = (t1', Ok a1) →
  inputs_kept t1' t2 → inputs_kept seen2 t2 →
  insert_operation_for foreign seen2 now2 id2 kind okey2 body2 ro2 t2 = (t2', Ok a2) →
  op_unique t2' = true →
  a1 = a2 ∧ key_payload_hash okey1 = key_payload_hash okey2.
Proof.
  intros Hk1 Hk2 Hseen1 Hins1 Hkept Hseen2 Hins2 Huniq.
  pose proof (insert_bound seen1 now1 id1 kind okey1 body1 ro1 t1 k Hk1 Hseen1) as Hb1.
  pose proof (insert_bound seen2 now2 id2 kind okey2 body2 ro2 t2 k Hk2 Hseen2) as Hb2.
  pose proof (run_change_kept _ _ _ (op_run_change (Act_insert seen2 now2 id2 kind okey2 body2 ro2) t2)) as Hk.
  unfold wp in Hb1, Hb2. cbn [op_run quiet fst] in Hk. rewrite Hins1 in Hb1. rewrite Hins2 in Hb2, Hk. simpl in *.
  eapply key_bound_unique; [done| |exact Hb2].
  eapply key_bound_kept; [exact Hk|]. eapply key_bound_kept; [exact Hkept|]. exact Hb1.
Qed.

(** ** Reading a result back *)

(** The row a settlement leaves decodes to what was settled. *)
Lemma settled_row_result now id r old outcome out tg detail error answer dt ot :
  (∀ v s, print_json v = Some s → parse_json s = Some v) →
  (∀ o, de_output (ser_output o) = Some o) →
  (-2 ^ 63 ≤ now < 2 ^ 63)%Z →
  operation_from_row id r = Ok old →
  terminal_columns now outcome out = Ok (tg, detail, error, answer) →
  optional_json_text detail = Ok dt →
  transpose (λ o, to_string (ser_output o)) out = Ok ot →
  ∃ op, operation_from_row id (settle_row now tg dt error ot r) = Ok op ∧
        operation_result_from op = Some {| res_op_id := id; res_outcome := answer |}.
Proof.
  intros Hprint Hser Hnow Hold Hcol Hdt Hot.
  assert (∀ v s, to_string v = Ok s → parse_json s = Some v) as Htext.
  { intros v s. unfold to_string. destruct (print_json v) eqn:Hv; [|done]. intros [= <-]. auto. }
  assert (transpose (from_text Some) dt = Ok detail) as Hd.
  { unfold optional_json_text in Hdt. destruct detail as [v|]; simpl in Hdt; [|by injection Hdt as <-].
    destruct (to_string v) as [s|] eqn:Hs; simplify_eq/=. unfold from_text. by rewrite (Htext _ _ Hs). }
  assert (transpose (from_text de_output) ot = Ok out) as Ho.
  { destruct out as [o|]; simpl in Hot; [|by injection Hot as <-].
    destruct (to_string (ser_output o)) as [s|] eqn:Hs; simplify_eq/=. unfold from_text.
    rewrite (Htext _ _ Hs). simpl. by rewrite Hser. }
  revert Hold. unfold operation_from_row, settle_row. simpl. rewrite Hd, Ho. simpl.
  destruct (transpose _ (o_phase_detail_json r)) as [d|]; simpl; [|done].
  destruct (transpose _ (o_tx_output_json r)); simpl; [|done].
  destruct (transpose _ (o_compensation_state r)); simpl; [|done].
  destruct (from_text Some (o_target_json r)); simpl; [|done].
  destruct (from_text Some (o_payload_json r)); simpl; [|done].
  destruct (deserialize_join (o_phase r) d); simpl; [|done]. destruct (_ && _); [|done]. intros _.
  destruct outcome as [|v|e fp cls|reason fp]; simpl in Hcol.
  1,2: destruct out as [o|]; simplify_eq/=; by eexists.
  - simplify_eq/=. eexists. split; [done|]. unfold operation_result_from. simpl. do 3 f_equal.
    + by destruct fp.
    + unfold error_class_from_phase. simpl. by destruct cls.
  - simplify_eq/=. destruct Hnow as [Hlo%Z.leb_le Hhi%Z.ltb_lt].
    unfold deserialize_join. change (from_db_str (as_str Tag_Stuck)) with (@Ok PhaseTag CalmError Tag_Stuck).
    simpl. rewrite Hlo, Hhi. simpl.
    eexists. split; [done|]. unfold operation_result_from. simpl. do 3 f_equal.
    by destruct fp.
Qed.

(** The answer of a settlement is what every later reader gets: when a claimed
    operation whose row decodes is settled, reading its result after any further
    history of calls gives exactly the result the settling call answered (success with
    its result, failure with its error, phase and class, or stuck with its reason). *)
Theorem settled_result_reads_back now op outcome key append t t' res r old l :
  (∀ v s, print_json v = Some s → parse_json s = Some v) →
  (∀ o, de_output (ser_output o) = Some o) →
  (-2 ^ 63 ≤ now < 2 ^ 63)%Z →
  ops_wf t → t !! op_id op = Some r → operation_from_row (op_id op) r = Ok old →
  settle_claimed foreign now op outcome key append t = (t', Ok (Applied res)) →
  operation_result (op_history l t').1 (op_id op) = Ok (Some res).
Proof.
  intros Hprint Hser Hnow Hwf Hr Hold Hset.
  assert (wp (settle_claimed foreign now op outcome key append) (λ t' a, ∀ res, a = Ok (Applied res) →
    ∃ r' op', t' !! op_id op = Some r' ∧ settled r' = true ∧ ops_wf t' ∧
      operation_from_row (op_id op) r' = Ok op' ∧ operation_result_from op' = Some res) t) as Hw.
  { apply wp_in_tx, wp_bind_live; [|by apply wp_ret|done]. intros r0 owner payload Hr0 _ Hlive. simpl.
    eapply wp_bind_retain; [done|done|by intros; apply wp_ret| |done].
    apply wp_bind, wp_write_terminal; [|done].
    intros r1 committed out tg detail error answer dt ot Hr1 _ _ Hcol Hdt Hot. simplify_eq.
    apply wp_bind_read; [intros _ _|done]. apply wp_ret. intros res0 [= <-].
    destruct (settle_row_settled now tg dt error ot r) as [Hwf' Hs]; [by eapply terminal_columns_settled|].
    destruct (settled_row_result now (op_id op) r old outcome out tg detail error answer dt ot)
      as (op' & Hop' & Hres); try done.
    exists (settle_row now tg dt error ot r), op'. rewrite lookup_insert_eq. split_and!; try done.
    intros id0 r1 Hr1. apply lookup_insert_Some in Hr1 as [[? ?]|[_ Hr1]]; [by subst|by eapply Hwf]. }
  unfold wp in Hw. rewrite Hset in Hw. destruct (Hw res eq_refl) as (r' & op' & Hr' & Hs & Hwf' & Hop' & Hres).
  pose proof (op_history_spec l t' Hwf') as Hspec. destruct (op_history l t') as [t'' results]; simpl.
  destruct Hspec as (_ & _ & _ & _ & Hfr). unfold operation_result, find_by_id.
  rewrite (Hfr _ _ Hr' Hs). simpl. rewrite Hop'. simpl. by rewrite Hres.
Qed.
End histories.

(** ** An instance

    A codec for a few values, and one parked operation, at which the theorems above are
    applied. *)
Module Sample.

Definition toy_print (v : Json) : option str :=
  match v with
  | JNull => Some [110%N]
  | JString s => Some (115%N :: s)
  | JArray [JString ty; JNull; JNull; JNull] => Some (111%N :: ty)
  | JObject [(k1, JString ty); (k2, JNull)] =>
      if bool_decide (k1 = lit "type" ∧ k2 = lit "id") then Some (117%N :: ty) else None
  | _ => None
  end.

Definition toy_parse (s : str) : option Json :=
  match s with
  | [110%N] => Some JNull
  | c :: s =>
      if (c =? 115)%N then Some (JString s)
      else if (c =? 111)%N then Some (JArray [JString s; JNull; JNull; JNull])
      else if (c =? 117)%N then Some (JObject [(lit "type", JString s); (lit "id", JNull)])
      else None
  | [] => None
  end.

Definition toy_ser (o : TxOutput) : Json :=
  JArray [JString (out_target_type o); json_opt_str (out_target_id o); out_result o; out_data o].

Definition toy_de (v : Json) : option TxOutput :=
  match v with
  | JArray [JString ty; JString id; result; data] => Some (mkTxOutput ty (Some id) result data)
  | JArray [JString ty; _; result; data] => Some (mkTxOutput ty None result data)
  | _ => None
  end.

Definition toy_codec : OpCodec := {|
  parse_json := toy_parse;
  print_json := toy_print;
  de_blocker := λ _, Err [];
  ser_blocker := λ _, JNull;
  de_output := toy_de;
  ser_output := toy_ser;
  de_artifacts := λ _, None;
  ser_artifacts := λ _, JNull;
  ser_compensation := λ _, JNull;
  value_eq := λ _ _, true;
  json_type := λ _, None;
  json_type_at := λ _ _, None;
  json_extract_at := λ _ _, None;
  json_copy_at := λ target _ _, target;
  json_set_string := λ target _ _, target;
|}.
#[local] Existing Instance toy_codec.

Definition accept_all (_ _ : Ops) : bool := true.

Lemma toy_roundtrip v s : toy_print v = Some s → toy_parse s = Some v.
Proof.
  destruct v as [| | | |x|l|l]; simpl; try done.
  - by intros [= <-].
  - intros [= <-]. by destruct x.
  - destruct l as [|[] [|[] [|[] [|[] [|]]]]]; try done. intros [= <-]. simpl. by destruct s0.
  - destruct l as [|[k1 []] [|[k2 []] [|]]]; try done. case_bool_decide as Hk; [|done].
    destruct Hk as [-> ->]. intros [= <-]. simpl. by destruct s0.
Qed.

Lemma toy_output_roundtrip o : toy_de (toy_ser o) = Some o.
Proof. by destruct o as [ty [id|] result data]. Qed.

(** A parked operation with its output, and the row it is claimed from. *)
Definition parked_row : OpRow := {|
  o_operation_key := lit "k1"; o_kind := lit "task"; o_idempotency_key := Some (lit "i1");
  o_payload_hash := lit "h1"; o_target_type := lit "card"; o_target_id := None;
  o_target_json := lit "n"; o_payload_json := lit "n"; o_tx_output_json := Some (lit "ocard");
  o_phase := lit "parked"; o_phase_detail_json := None; o_attempt := 0; o_last_error := None;
  o_compensation_state := None; o_lease_owner := None; o_lease_until_ms := None;
  o_created_at_ms := 1; o_updated_at_ms := 2; o_completed_at_ms := None;
  o_spawn_artifacts_json := None; o_parked_at_ms := Some 2%Z; o_parked_deadline_ms := Some 900%Z |}.

Definition table : Ops := {[ lit "op1" := parked_row ]}.

Lemma table_wf : ops_wf table.
Proof.
  intros id r Hr. unfold table in Hr. apply lookup_singleton_Some in Hr as [_ <-]. by apply op_wf_unsettled.
Qed.

(** The operation as its first claimant holds it. *)
Definition claimed : Operation := {|
  op_id := lit "op1"; op_operation_key := lit "k1"; op_kind := lit "task";
  op_idempotency_key := Some (lit "i1"); op_payload_hash := lit "h1"; op_target_type := lit "card";
  op_target_id := None; op_target := JNull; op_payload := JNull;
  op_tx_output := Some (mkTxOutput (lit "card") None JNull JNull); op_phase := Parked;
  op_phase_detail := None; op_attempt := 0; op_last_error := None; op_compensation_state := None;
  op_lease_owner := Some (lit "alice"); op_lease_until_ms := Some 60010%Z;
  op_spawn_artifacts := None; op_parked_at_ms := Some 2%Z; op_parked_deadline_ms := Some 900%Z |}.

Definition claimed_table : Ops := (claim_parked accept_all 10 (lit "alice") (lit "op1") table).1.

Lemma claimed_table_wf : ops_wf claimed_table.
Proof.
  intros id r Hr. eapply (ops_change_wf table claimed_table); [|exact table_wf|exact Hr].
  exact (keeps_claim_parked accept_all 10 (lit "alice") (lit "op1") table).
Qed.

(** An observer completes the operation while its claimant would fail it. *)
Definition race : list OpAction :=
  [Act_claim_parked 10 (lit "alice") (lit "op1");
   Act_complete_parked 20 (lit "op1") (Parked_Succeeded JNull);
   Act_settle 30 claimed (Terminal_Failed (lit "late") Tag_Parked None) None (Ok tt)].

Lemma settlement_refines_one_shot_witness :
  one_shot_step (settled_ids table) (Some (mkOperationResult (lit "op1") (Outcome_Succeeded JNull)))
    (settled_ids (op_run accept_all (Act_complete_parked 20 (lit "op1") (Parked_Succeeded JNull)) table).1).
Proof.
  exact (proj1 (settlement_refines_one_shot accept_all
    (Act_complete_parked 20 (lit "op1") (Parked_Succeeded JNull)) table table_wf)).
Defined.

Lemma settlement_once_witness :
  (op_history accept_all race table).2 = [mkOperationResult (lit "op1") (Outcome_Succeeded JNull)] ∧
  NoDup (res_op_id <$> (op_history accept_all race table).2).
Proof.
  split; [vm_compute; reflexivity|]. exact (proj1 (settlement_once accept_all race table table_wf)).
Defined.

Lemma lost_claim_powerless_witness :
  op_run accept_all (Act_set_compensating 30 claimed (mkCompensationState 1 Tag_Parked (lit "cancelled") []) None)
    (op_history accept_all [Act_clear_lease 15 (lit "op1")] table).1 =
  ((op_history accept_all [Act_clear_lease 15 (lit "op1")] table).1, None).
Proof.
  apply (lost_claim_powerless accept_all [Act_clear_lease 15 (lit "op1")] _ claimed (lit "alice")).
  - reflexivity.
  - split; [by eexists|]. intros r. vm_compute. by intros [= <-].
  - intros b Hb. apply list_elem_of_singleton in Hb as ->. done.
  - reflexivity.
Defined.

Lemma claim_parked_exclusive_witness :
  claim_parked accept_all 11 (lit "bob") (lit "op1") claimed_table = (claimed_table, Ok None).
Proof.
  assert (claim_parked accept_all 10 (lit "alice") (lit "op1") table = (claimed_table, Ok (Some claimed)))
    as Hclaim by (vm_compute; reflexivity).
  exact (proj2 (proj2 (claim_parked_exclusive accept_all 10 (lit "alice") (lit "op1") table claimed_table claimed
    Hclaim)) 11%Z (lit "bob")).
Defined.

Definition key_a : OperationKey := mkOperationKey (lit "ka") (Some (lit "i9")) (lit "h9").
Definition key_b : OperationKey := mkOperationKey (lit "kb") (Some (lit "i9")) (lit "h9").
Definition submitted : Ops :=
  (insert_operation_for accept_all table 5 (lit "opA") (lit "task") key_a JNull Owner_Driver table).1.

Lemma insert_idempotent_witness : lit "opA" = lit "opA" ∧ key_payload_hash key_a = key_payload_hash key_b.
Proof.
  apply (insert_idempotent accept_all table 5 (lit "opA") (lit "task") key_a JNull Owner_Driver
    table submitted (lit "opA") table 6 (lit "opB") key_b JNull Owner_Driver submitted submitted (lit "opA") (lit "i9")).
  - reflexivity.
  - reflexivity.
  - intros id r Hr. eauto.
  - vm_compute; reflexivity.
  - intros id r Hr. eauto.
  - intros id r Hr. exists r. split; [|done].
    unfold table in Hr. apply lookup_singleton_Some in Hr as [<- <-]. vm_compute; reflexivity.
  - vm_compute; reflexivity.
  - vm_compute; reflexivity.
Defined.

Lemma settled_result_reads_back_witness :
  operation_result (op_history accept_all [Act_clear_lease 50 (lit "op1")]
    (settle_claimed accept_all 30 claimed (Terminal_Succeeded) None (Ok tt) claimed_table).1).1 (lit "op1")
  = Ok (Some (mkOperationResult (lit "op1") (Outcome_Succeeded JNull))).
Proof.
  eapply (settled_result_reads_back accept_all 30 claimed Terminal_Succeeded None (Ok tt) claimed_table);
    [exact toy_roundtrip|exact toy_output_roundtrip|lia|exact claimed_table_wf
    |vm_compute; reflexivity|vm_compute; reflexivity|vm_compute; reflexivity].
Defined.
End Sample.
