(* ===== verification/HarnessQueue.v ===== *)
(** * The planner's pending queue

    Models [crates/calm-server/src/harness/queue.rs]: the entries waiting for a
    planner's next turn, the mutations a person addresses to one of them by id and
    revision, and the folds of adjacent entries; with the observations of
    [crates/calm-types/src/observation.rs] that entries carry and the attachment limit
    of [planner_attachments/bind.rs]. A [VecDeque] is a list, its back the last element.
    Fresh identifiers and the clock are arguments. Observations the queue only moves
    keep their fields as one value. *)

From coqutil Require Import Datatypes.RecordSettersUsingExistingGetters.
From stdpp Require Import prelude gmap strings.
From S2P Require Import Prelude Identity OperationPhase Operations.

Local Open Scope calm_scope.

Definition u32_max : N := 4294967295.
Definition MAX_ATTACHMENTS_PER_MESSAGE : nat := 8.

Abbreviation QueueEntryId := str.

(** ** Observations *)

Inductive EditAuthor := Author_Planner | Author_User | Author_Assistant | Author_Kernel | Author_Plugin.

Record ReportBlockRef := mkReportBlockRef { br_id : str; br_rev : N }.

Inductive ReportEditPresentation := Presentation_Legacy | Knowledge (knowledge_text : str).

Record ReportEdit := mkReportEdit {
  re_presentation : ReportEditPresentation;
  re_track_id : TrackId;
  re_body_sha256 : str;
  re_body : str;
  re_author : option EditAuthor;
  re_body_before : option str;
  re_doc_rev_after : option N;
  re_blocks_after : option (list ReportBlockRef);
}.

Inductive HookKind := CodexStop | ClaudeStop.

Inductive Observation :=
| TrackGoal (text : str)
| ReportEdited (edit : ReportEdit)
| TaskCompleted (fields : Json)
| TaskFailed (fields : Json)
| WorkerHookStop (track_id : TrackId) (card_id : CardId) (kind : HookKind) (idempotency_key : str)
| SystemContext (text : str)
| UserMessage (text : str)
| TaskGateResult (fields : Json)
| TaskGitDeliverySettled (fields : Json)
| TrackWake (source key text : str)
| WorkspaceLeased (fields : Json)
| WorkspaceReleased (fields : Json)
| ForgePrMerged (fields : Json)
| ForgeScanCompleted (fields : Json)
| ForgePrOpened (fields : Json)
| ForgePrChecks (fields : Json)
| ForgeIssueClosed (fields : Json)
| WorktreeProvisioned (fields : Json)
| WorktreeCommitted (fields : Json)
| AskAnswered (fields : Json).

(** [Observation::is_hard_fire]. *)
Definition obs_hard_fire (o : Observation) : bool :=
  match o with
  | TaskCompleted _ | TaskFailed _ | WorkerHookStop _ _ _ _ | SystemContext _ | UserMessage _
  | TaskGateResult _ | TaskGitDeliverySettled _ | TrackWake _ _ _ | ForgePrMerged _
  | ForgeScanCompleted _ | ForgePrOpened _ | ForgePrChecks _ | ForgeIssueClosed _
  | WorktreeProvisioned _ | WorktreeCommitted _ | AskAnswered _ => true
  | TrackGoal _ | ReportEdited _ | WorkspaceLeased _ | WorkspaceReleased _ => false
  end.

Definition obs_report_sha256 (o : Observation) : option str :=
  match o with ReportEdited e => Some (re_body_sha256 e) | _ => None end.

(** ** Entries *)

Record BoundAttachment := mkBoundAttachment { ba_id : str; ba_size : N; ba_path : str }.

Record UserEntry := mkUserEntry {
  ue_id : QueueEntryId;
  ue_text : str;
  ue_rev : N;
  ue_queued_at_ms : Z;
  ue_envelope_id : option Z;
  ue_message_ids : list str;
  ue_attachments : list BoundAttachment;
}.

Inductive QueueEntry :=
| User (u : UserEntry)
| LegacyUser (text : str) (envelope_id : option Z) (message_ids : list str)
| System (observation : Observation) (envelope_id : option Z) (message_ids : list str).

Definition bump_rev_for_restore (e : QueueEntry) : QueueEntry * bool :=
  match e with
  | User u =>
      if (ue_rev u =? u32_max)%N then (e, false)
      else (User { u with ue_rev := (ue_rev u + 1)%N }, true)
  | _ => (e, false)
  end.

(** [user_message]: [id] and [message_id] are fresh. *)
Definition user_message (id message_id : str) (now : Z) (text : str) (envelope_id : option Z)
    (attachments : list BoundAttachment) : QueueEntry :=
  User {| ue_id := id; ue_text := text; ue_rev := 0; ue_queued_at_ms := now;
          ue_envelope_id := envelope_id; ue_message_ids := [message_id]; ue_attachments := attachments |}.

Record HarnessQueueEntryRef := mkEntryRef { ref_id : str; ref_rev : N }.

Definition user_message_moved (message_id : str) (now : Z) (text : str) (message_ids : list str)
    (entry_ref : option HarnessQueueEntryRef) : QueueEntry :=
  match entry_ref with
  | None => LegacyUser text None message_ids
  | Some reference =>
      User {| ue_id := ref_id reference; ue_text := text; ue_rev := ref_rev reference;
              ue_queued_at_ms := now; ue_envelope_id := None;
              ue_message_ids := if is_empty message_ids then [message_id] else message_ids;
              ue_attachments := [] |}
  end.

Definition system (observation : Observation) (envelope_id : option Z) : result QueueEntry CalmError :=
  match observation with
  | UserMessage _ =>
      Err (Calm_Internal (lit "QueueEntry::system refuses Observation::UserMessage; mint user input through QueueEntry::user_message"))
  | _ => Ok (System observation envelope_id [])
  end.

Definition entry_observation (e : QueueEntry) : Observation :=
  match e with
  | User u => UserMessage (ue_text u)
  | LegacyUser text _ _ => UserMessage text
  | System o _ _ => o
  end.

Definition envelope_id (e : QueueEntry) : option Z :=
  match e with User u => ue_envelope_id u | LegacyUser _ v _ | System _ v _ => v end.

Definition message_ids (e : QueueEntry) : list str :=
  match e with User u => ue_message_ids u | LegacyUser _ _ ids | System _ _ ids => ids end.

(** [message_ids_mut] and [envelope_id_mut]. *)
Definition with_message_ids (f : list str → list str) (e : QueueEntry) : QueueEntry :=
  match e with
  | User u => User { u with ue_message_ids ::= f }
  | LegacyUser text v ids => LegacyUser text v (f ids)
  | System o v ids => System o v (f ids)
  end.

Definition with_envelope_id (v : option Z) (e : QueueEntry) : QueueEntry :=
  match e with
  | User u => User { u with ue_envelope_id := v }
  | LegacyUser text _ ids => LegacyUser text v ids
  | System o _ ids => System o v ids
  end.

Definition is_user_authored (e : QueueEntry) : bool :=
  match e with User _ | LegacyUser _ _ _ => true | System _ _ _ => false end.

Definition ensure_message_id (message_id : str) (e : QueueEntry) : QueueEntry :=
  if is_user_authored e && is_empty (message_ids e) then with_message_ids (λ ids, ids ++ [message_id]) e
  else e.

Definition remove_message_ids (returned : gset str) (e : QueueEntry) : QueueEntry * bool :=
  let had_ids := negb (is_empty (message_ids e)) in
  let e' := with_message_ids (filter (λ id, id ∉ returned)) e in
  (e', had_ids && is_empty (message_ids e')).

Definition entry_id (e : QueueEntry) : option QueueEntryId :=
  match e with User u => Some (ue_id u) | _ => None end.

(** [user_view]: the addressable half of an entry. *)
Definition user_view (e : QueueEntry) : option UserEntry :=
  match e with User u => Some u | _ => None end.

Definition user_ref (e : QueueEntry) : option HarnessQueueEntryRef :=
  (λ u, mkEntryRef (ue_id u) (ue_rev u)) <$> user_view e.

Definition attachments (e : QueueEntry) : list BoundAttachment :=
  match e with User u => ue_attachments u | _ => [] end.

Definition is_hard_fire (e : QueueEntry) : bool :=
  match e with
  | User _ | LegacyUser _ _ _ => obs_hard_fire (UserMessage [])
  | System o _ _ => obs_hard_fire o
  end.

Definition report_sha256 (e : QueueEntry) : option str :=
  match e with System o _ _ => obs_report_sha256 o | _ => None end.

Definition hook_idempotency_key (e : QueueEntry) : option str :=
  match e with
  | System (WorkerHookStop _ _ _ key) _ _ => if is_empty key then None else Some key
  | _ => None
  end.

(** ** Mutations *)

Inductive QueueMutation :=
| Edit (entry : QueueEntryId) (text : str) (if_entry_rev : N)
| Delete (entry : QueueEntryId) (if_entry_rev : N)
| Steer (entry : QueueEntryId) (if_entry_rev : N).

Definition mutation_entry_id (m : QueueMutation) : QueueEntryId :=
  match m with Edit id _ _ | Delete id _ | Steer id _ => id end.

Definition if_entry_rev (m : QueueMutation) : N :=
  match m with Edit _ _ r | Delete _ r | Steer _ r => r end.

Inductive HarnessQueueChange := Edited | Deleted | Steered | Restored | Dropped.

Record MutationApplied := mkMutationApplied {
  ma_entry_id : QueueEntryId;
  ma_change : HarnessQueueChange;
  ma_rev : N;
  ma_text : option str;
  ma_removed : option QueueEntry;
  ma_queue_now_empty : bool;
  ma_remaining_hard_fire : bool;
}.

Inductive MutationRefused :=
| Refused_NotFound
| Refused_Stale (entry : QueueEntryId) (text : str) (rev : N)
| Refused_AmbiguousId (entry : QueueEntryId) (count : nat)
| Refused_RevisionExhausted (entry : QueueEntryId).

(** [iter().enumerate().filter(..).map(|(index, _)| index)]. *)
Fixpoint positions {A} (p : A → bool) (n : nat) (l : list A) : list nat :=
  match l with
  | [] => []
  | a :: rest => if p a then n :: positions p (S n) rest else positions p (S n) rest
  end.

Definition names (id : QueueEntryId) (e : QueueEntry) : bool := bool_decide (entry_id e = Some id).

(** The index of the entry, and its view; an entry matched by id is a user entry. *)
Definition locate_entry (queue : list QueueEntry) (id : QueueEntryId) (rev : N)
  : result (nat * UserEntry) MutationRefused :=
  match positions (names id) 0 queue with
  | [] => Err Refused_NotFound
  | [index] =>
      match queue !! index ≫= user_view with
      | Some view =>
          if negb (ue_rev view =? rev)%N then Err (Refused_Stale id (ue_text view) (ue_rev view))
          else Ok (index, view)
      | None => Err Refused_NotFound
      end
  | many => Err (Refused_AmbiguousId id (length many))
  end.

Definition apply_mutation (queue : list QueueEntry) (mutation : QueueMutation)
  : list QueueEntry * result MutationApplied MutationRefused :=
  let id := mutation_entry_id mutation in
  match locate_entry queue id (if_entry_rev mutation) with
  | Err refused => (queue, Err refused)
  | Ok (index, u) =>
      if match mutation with Edit _ _ _ | Steer _ _ => true | Delete _ _ => false end
         && (ue_rev u =? u32_max)%N
      then (queue, Err (Refused_RevisionExhausted id))
      else
        let '(queue', (change, rev, text, removed)) :=
          match mutation with
          | Edit _ new_text _ =>
              let u' := { u with ue_text := new_text; ue_rev := (ue_rev u + 1)%N } in
              (<[index := User u']> queue, (Edited, ue_rev u', Some new_text, None))
          | Delete _ _ => (delete index queue, (Deleted, ue_rev u, None, None))
          | Steer _ _ => (delete index queue, (Steered, ue_rev u, None, Some (User u)))
          end in
        (queue', Ok {| ma_entry_id := id; ma_change := change; ma_rev := rev; ma_text := text;
                       ma_removed := removed; ma_queue_now_empty := is_empty queue';
                       ma_remaining_hard_fire := existsb is_hard_fire queue' |})
  end.

(** ** Folds *)

Inductive FoldOutcome := NotFolded | Folded (entry : option QueueEntryId).

Definition is_report_edit (e : QueueEntry) : bool :=
  match e with System (ReportEdited _) _ _ => true | _ => false end.

(** [fold_user_text]: the saturating sum of two lengths and two. *)
Definition fold_user_text (text new_text : str) (max_folded_user_chars : N) : option str :=
  if (max_folded_user_chars <? N.of_nat (length text) + N.of_nat (length new_text) + 2)%N then None
  else Some (text ++ [10%N; 10%N] ++ new_text).

(** The attachments of the incoming message that the held one does not have. *)
Definition merged_attachments (held incoming : list BoundAttachment) : list BoundAttachment :=
  filter (λ a, ba_id a ∉ ba_id <$> held) incoming.

(** The entry the tail becomes, when the incoming one folds into it. *)
Definition fold_entry (last incoming : QueueEntry) (max_folded_user_chars : N) : option QueueEntry :=
  match last, incoming with
  | User u, User v =>
      let merged := merged_attachments (ue_attachments u) (ue_attachments v) in
      if (ue_rev u =? u32_max)%N
         || (MAX_ATTACHMENTS_PER_MESSAGE <? length (ue_attachments u) + length merged)
      then None
      else
        match fold_user_text (ue_text u) (ue_text v) max_folded_user_chars with
        | Some text => Some (User { u with ue_text := text; ue_attachments ::= λ held, held ++ merged;
                                           ue_rev := (ue_rev u + 1)%N })
        | None => None
        end
  | LegacyUser text v ids, User u =>
      if is_empty (ue_attachments u) then
        match fold_user_text text (ue_text u) max_folded_user_chars with
        | Some text => Some (LegacyUser text v ids)
        | None => None
        end
      else None
  | System (TrackGoal _) v ids, System (TrackGoal text) _ _ => Some (System (TrackGoal text) v ids)
  | System (ReportEdited held) v ids, System (ReportEdited new) _ _ =>
      match re_presentation held, re_presentation new with
      | _, Knowledge _ =>
          if bool_decide (re_track_id held = re_track_id new)
          then Some (System (ReportEdited new) v ids) else None
      | Presentation_Legacy, Presentation_Legacy =>
          if bool_decide (re_track_id held = re_track_id new)
             && bool_decide (re_body_before new = Some (re_body held))
          then Some (System (ReportEdited
                 { held with re_body_sha256 := re_body_sha256 new; re_body := re_body new;
                     re_author := re_author new; re_doc_rev_after := re_doc_rev_after new;
                     re_blocks_after := re_blocks_after new }) v ids)
          else None
      | Knowledge _, Presentation_Legacy => None
      end
  | _, _ => None
  end.

Definition try_fold_tail (queue : list QueueEntry) (incoming : QueueEntry) (max_folded_user_chars : N)
  : list QueueEntry * FoldOutcome :=
  match reverse queue with
  | [] => (queue, NotFolded)
  | last :: front =>
      match fold_entry last incoming max_folded_user_chars with
      | None => (queue, NotFolded)
      | Some folded =>
          let survivor := with_message_ids (λ ids, ids ++ message_ids incoming)
                            (with_envelope_id (envelope_id incoming) folded) in
          (reverse (survivor :: front), Folded (entry_id survivor))
      end
  end.

Definition try_fold_report_edit_tail (queue : list QueueEntry) (incoming : QueueEntry)
  : list QueueEntry * FoldOutcome :=
  if is_report_edit incoming && match last queue with Some e => is_report_edit e | None => false end
  then try_fold_tail queue incoming 0
  else (queue, NotFolded).

(** [validate_attachment_list]: not too long, and nothing named twice. *)
Fixpoint named_twice (seen ids : list str) : option str :=
  match ids with
  | [] => None
  | id :: rest => if bool_decide (id ∈ seen) then Some id else named_twice (seen ++ [id]) rest
  end.

Definition validate_attachment_list (ids : list str) : result unit CalmError :=
  if (MAX_ATTACHMENTS_PER_MESSAGE <? length ids) then
    Err (Calm_BadRequest (lit "a message may carry at most " ++ show_N (N.of_nat MAX_ATTACHMENTS_PER_MESSAGE)
           ++ lit " attachments; got " ++ show_N (N.of_nat (length ids))))
  else
    match named_twice [] ids with
    | Some id => Err (Calm_BadRequest (lit "attachment `" ++ id ++ lit "` is named twice in the same message"))
    | None => Ok tt
    end.

(** ** What the pending queue promises

    A mutation is a compare-and-swap: on a queue whose
    ids are distinct, [apply_mutation] refines [cas] on the map from ids to the
    addressable entries, and every other entry keeps its place. [queue_wf] is the
    well-formedness that mutations and folds keep. *)

(** ** Positions *)

Lemma positions_app {A} (p : A → bool) n l1 l2 :
  positions p n (l1 ++ l2) = positions p n l1 ++ positions p (n + length l1) l2.
Proof.
  revert n; induction l1 as [|a l1 IH]; intros n; simpl; [by rewrite Nat.add_0_r|].
  rewrite IH, Nat.add_succ_comm. by destruct (p a).
Qed.

Lemma positions_none {A} (p : A → bool) n l :
  Forall (λ a, p a = false) l → positions p n l = [].
Proof. intros H; revert n; induction H as [|a l Ha _ IH]; intros n; simpl; [done|]. by rewrite Ha. Qed.

Lemma positions_elem {A} (p : A → bool) n l i :
  i ∈ positions p n l → n ≤ i ∧ ∃ a, l !! (i - n) = Some a ∧ p a = true.
Proof.
  revert n; induction l as [|a l IH]; intros n; simpl; [by intros ?%elem_of_nil|].
  assert (i ∈ positions p (S n) l → n ≤ i ∧ ∃ b, (a :: l) !! (i - n) = Some b ∧ p b = true) as Hrec.
  { intros (Hle & b & Hb & ?)%IH. split; [lia|]. exists b. by replace (i - n) with (S (i - S n)) by lia. }
  destruct (p a) eqn:Ha; [|done]. intros [->|H]%elem_of_cons; [|auto].
  split; [done|]. exists a. by rewrite Nat.sub_diag.
Qed.

Lemma insert_middle {A} (l1 l2 : list A) a b : <[length l1 := b]> (l1 ++ a :: l2) = l1 ++ b :: l2.
Proof. by rewrite insert_app_r_alt, Nat.sub_diag by done. Qed.

(** ** The addressable entries *)

Definition ids (queue : list QueueEntry) : list QueueEntryId := omap entry_id queue.

Definition keyed (e : QueueEntry) : option (QueueEntryId * UserEntry) :=
  (λ u, (ue_id u, u)) <$> user_view e.

Definition addressable (queue : list QueueEntry) : gmap QueueEntryId UserEntry :=
  list_to_map (omap keyed queue).

(** The entries a mutation of [id] does not address. *)
Definition others (id : QueueEntryId) (queue : list QueueEntry) : list QueueEntry :=
  filter (λ e, names id e = false) queue.

Lemma keyed_ids queue : (omap keyed queue).*1 = ids queue.
Proof.
  unfold ids, keyed, entry_id, user_view.
  induction queue as [|[] queue IH]; csimpl; by f_equal/=.
Qed.

Lemma ids_app l1 l2 : ids (l1 ++ l2) = ids l1 ++ ids l2.
Proof. apply omap_app. Qed.

Lemma addressable_app l1 l2 : addressable (l1 ++ l2) = addressable l1 ∪ addressable l2.
Proof. unfold addressable. by rewrite omap_app, list_to_map_app. Qed.

Lemma addressable_User u l : addressable (User u :: l) = <[ue_id u := u]> (addressable l).
Proof. done. Qed.

Lemma addressable_None queue id : id ∉ ids queue ↔ addressable queue !! id = None.
Proof. unfold addressable. rewrite <- keyed_ids. apply not_elem_of_list_to_map. Qed.

Lemma names_false id e : names id e = false ↔ entry_id e ≠ Some id.
Proof. unfold names. apply bool_decide_eq_false. Qed.

Lemma absent_names id queue : id ∉ ids queue ↔ Forall (λ e, names id e = false) queue.
Proof.
  unfold ids. rewrite Forall_forall, list_elem_of_omap. setoid_rewrite names_false. naive_solver.
Qed.

Lemma others_app id l1 l2 : others id (l1 ++ l2) = others id l1 ++ others id l2.
Proof. apply filter_app. Qed.

Lemma others_named id u l : ue_id u = id → others id (User u :: l) = others id l.
Proof.
  intros <-. unfold others. rewrite filter_cons. case_decide as H; [|done].
  apply names_false in H. by simpl in H.
Qed.

(** A queue that holds an id, around its entry. *)
Lemma addressable_split queue id u :
  NoDup (ids queue) → addressable queue !! id = Some u →
  ∃ l1 l2, queue = l1 ++ User u :: l2 ∧ ue_id u = id ∧ (id ∉ ids l1) ∧ (id ∉ ids l2).
Proof.
  intros Hnd Hu. apply elem_of_list_to_map_2 in Hu.
  apply list_elem_of_omap in Hu as (e & He & Hk).
  destruct e as [v| |]; unfold keyed in Hk; simplify_eq/=.
  apply list_elem_of_split in He as (l1 & l2 & ->). exists l1, l2.
  rewrite ids_app in Hnd. change (ids (User u :: l2)) with (ue_id u :: ids l2) in Hnd.
  apply NoDup_app in Hnd as (_ & H1 & H2). apply NoDup_cons in H2 as [H2 _].
  split; [done|]. split; [done|]. split; [|done]. intros Hin. apply (H1 _ Hin). left.
Qed.

Lemma locate_absent queue id rev : id ∉ ids queue → locate_entry queue id rev = Err Refused_NotFound.
Proof. intros H. unfold locate_entry. by rewrite positions_none by (by apply absent_names). Qed.

Lemma locate_present l1 u l2 rev :
  ue_id u ∉ ids l1 → ue_id u ∉ ids l2 →
  locate_entry (l1 ++ User u :: l2) (ue_id u) rev
  = if (ue_rev u =? rev)%N then Ok (length l1, u)
    else Err (Refused_Stale (ue_id u) (ue_text u) (ue_rev u)).
Proof.
  intros H1%absent_names H2%absent_names. unfold locate_entry.
  rewrite positions_app, (positions_none _ _ l1) by done. simpl.
  unfold names at 1; simpl. rewrite bool_decide_eq_true_2 by done.
  rewrite positions_none by done. simpl.
  rewrite list_lookup_middle by done. simpl. by destruct (ue_rev u =? rev)%N.
Qed.

(** ** The specification: a compare-and-swap on the map *)

(** What a mutation answers about its entry. *)
Abbreviation Answer := (HarnessQueueChange * N * option str * option QueueEntry)%type.

Definition cas (entries : gmap QueueEntryId UserEntry) (m : QueueMutation)
  : gmap QueueEntryId UserEntry * result Answer MutationRefused :=
  let id := mutation_entry_id m in
  match entries !! id with
  | None => (entries, Err Refused_NotFound)
  | Some u =>
      if negb (ue_rev u =? if_entry_rev m)%N then (entries, Err (Refused_Stale id (ue_text u) (ue_rev u)))
      else
        match m with
        | Delete _ _ => (delete id entries, Ok (Deleted, ue_rev u, None, None))
        | Edit _ text _ =>
            if (ue_rev u =? u32_max)%N then (entries, Err (Refused_RevisionExhausted id))
            else (<[id := { u with ue_text := text; ue_rev := (ue_rev u + 1)%N }]> entries,
                  Ok (Edited, (ue_rev u + 1)%N, Some text, None))
        | Steer _ _ =>
            if (ue_rev u =? u32_max)%N then (entries, Err (Refused_RevisionExhausted id))
            else (delete id entries, Ok (Steered, ue_rev u, None, Some (User u)))
        end
  end.

Definition answer_of (r : result MutationApplied MutationRefused) : result Answer MutationRefused :=
  match r with
  | Ok a => Ok (ma_change a, ma_rev a, ma_text a, ma_removed a)
  | Err e => Err e
  end.

(** What the queue and the map share: the entries, and ids that are distinct. *)
Definition queue_refines (queue : list QueueEntry) (entries : gmap QueueEntryId UserEntry) : Prop :=
  NoDup (ids queue) ∧ addressable queue = entries.

Section around.
Context (l1 l2 : list QueueEntry) (u : UserEntry).
Hypothesis Hnd : NoDup (ids (l1 ++ User u :: l2)).

Lemma around_fresh : (ue_id u ∉ ids l1) ∧ (ue_id u ∉ ids l2) ∧ NoDup (ids (l1 ++ l2)).
Proof using Hnd.
  revert Hnd. rewrite !ids_app. change (ids (User u :: l2)) with (ue_id u :: ids l2).
  rewrite !NoDup_app, NoDup_cons. set_solver.
Qed.

Lemma refines_delete :
  queue_refines (l1 ++ l2) (delete (ue_id u) (addressable (l1 ++ User u :: l2))).
Proof using Hnd.
  destruct around_fresh as (H1 & H2 & H). split; [done|].
  rewrite !addressable_app, addressable_User. apply addressable_None in H1, H2.
  by rewrite <- insert_union_r, delete_insert_id by (done || by apply lookup_union_None).
Qed.

Lemma refines_replace u' : ue_id u' = ue_id u →
  queue_refines (l1 ++ User u' :: l2) (<[ue_id u := u']> (addressable (l1 ++ User u :: l2))).
Proof using Hnd.
  intros Hid. destruct around_fresh as (H1 & _ & _). split.
  - revert Hnd. rewrite !ids_app. simpl. unfold ids at 2 4; csimpl. by rewrite Hid.
  - rewrite !addressable_app, !addressable_User, Hid. apply addressable_None in H1.
    by rewrite <- !insert_union_r, insert_insert_eq by done.
Qed.

Lemma others_around u' : ue_id u' = ue_id u →
  others (ue_id u) (l1 ++ User u' :: l2) = others (ue_id u) (l1 ++ User u :: l2)
  ∧ others (ue_id u) (l1 ++ l2) = others (ue_id u) (l1 ++ User u :: l2).
Proof using. intros Hid. rewrite !others_app. by rewrite !others_named. Qed.
End around.

(** C17: apply_mutation on a queue with distinct ids is a compare-and-swap on the
    addressable entries: the same entries afterwards, the same answer or refusal, ids
    still distinct, and the entries it does not name in place and in order. *)
Theorem mutation_refines_cas queue entries m :
  queue_refines queue entries →
  let '(queue', answer) := apply_mutation queue m in
  let '(entries', answer') := cas entries m in
  queue_refines queue' entries'
  ∧ answer_of answer = answer'
  ∧ others (mutation_entry_id m) queue' = others (mutation_entry_id m) queue.
Proof.
  intros [Hnd <-]. unfold apply_mutation, cas.
  destruct (addressable queue !! mutation_entry_id m) as [u|] eqn:Hu.
  2:{ rewrite locate_absent by (by apply addressable_None). by repeat split. }
  destruct (addressable_split _ _ _ Hnd Hu) as (l1 & l2 & -> & Hid & H1 & H2).
  rewrite <- Hid, locate_present by (by rewrite Hid).
  destruct (ue_rev u =? if_entry_rev m)%N; simpl; [|by repeat split].
  pose proof (refines_delete _ _ _ Hnd) as Hdel.
  destruct (others_around l1 l2 u u eq_refl) as [_ Hothers].
  destruct m; simpl; [destruct (ue_rev u =? u32_max)%N; simpl; [by repeat split|]
                     | |destruct (ue_rev u =? u32_max)%N; simpl; [by repeat split|]].
  - rewrite insert_middle. split; [by apply refines_replace|]. split; [done|].
    by apply others_around.
  - rewrite delete_middle. by split.
  - rewrite delete_middle. by split.
Qed.

(** ** Well-formed entries *)

(** [cap] bounds the text: the fold's cap, above what a message may carry. *)
Definition entry_wf (cap : N) (e : QueueEntry) : Prop :=
  match e with
  | User u =>
      (ue_rev u ≤ u32_max)%N ∧ length (ue_attachments u) ≤ MAX_ATTACHMENTS_PER_MESSAGE
      ∧ NoDup (ba_id <$> ue_attachments u) ∧ (N.of_nat (length (ue_text u)) ≤ cap)%N
  | LegacyUser text _ _ => (N.of_nat (length text) ≤ cap)%N
  | System o _ ids => ids = [] ∧ ∀ text, o ≠ UserMessage text
  end.

Definition queue_wf (cap : N) (queue : list QueueEntry) : Prop :=
  NoDup (ids queue) ∧ Forall (entry_wf cap) queue.

(** The instances the queue still holds. *)
Definition held_messages (queue : list QueueEntry) : list str := queue ≫= message_ids.

Lemma held_messages_app l1 l2 : held_messages (l1 ++ l2) = held_messages l1 ++ held_messages l2.
Proof. apply bind_app. Qed.

Lemma fold_user_text_spec text new_text cap folded :
  fold_user_text text new_text cap = Some folded →
  folded = text ++ [10%N; 10%N] ++ new_text ∧ (N.of_nat (length folded) ≤ cap)%N.
Proof.
  unfold fold_user_text. destruct (N.ltb_spec cap (N.of_nat (length text) + N.of_nat (length new_text) + 2))%N; [done|].
  intros [= <-]. split; [done|]. rewrite !length_app. simpl. lia.
Qed.

Lemma merged_NoDup held incoming :
  NoDup (ba_id <$> held) → NoDup (ba_id <$> incoming) →
  NoDup (ba_id <$> (held ++ merged_attachments held incoming)).
Proof.
  intros H1 H2. rewrite fmap_app. apply NoDup_app. split; [done|]. split.
  - intros x Hx (a & -> & Ha)%list_elem_of_fmap. apply list_elem_of_filter in Ha as [Ha _]. done.
  - unfold merged_attachments. eapply sublist_NoDup; [done|].
    apply fmap_sublist, sublist_filter.
Qed.

(** The last entry of a fold becomes, in everything that names or arms it, itself. *)
Lemma fold_entry_spec cap cap' last incoming e :
  (cap' ≤ cap)%N → entry_wf cap last → entry_wf cap incoming → fold_entry last incoming cap' = Some e →
  entry_wf cap e ∧ entry_id e = entry_id last ∧ message_ids e = message_ids last
  ∧ is_user_authored e = is_user_authored incoming
  ∧ is_hard_fire e = is_hard_fire last ∧ is_hard_fire last = is_hard_fire incoming.
Proof.
  intros Hcap Hl Hi. unfold fold_entry. destruct last as [u|t v i|o v i], incoming as [u'|t' v' i'|o' v' i'];
    try done; try (by destruct o); [| |destruct o; try done; destruct o'; try done].
  - destruct Hl as (Hr & Hn & Hnd & Ht), Hi as (_ & _ & Hnd' & _).
    destruct ((ue_rev u =? u32_max)%N || _) eqn:Hb; [done|].
    apply orb_false_iff in Hb as [Hrev%N.eqb_neq Hlen%Nat.ltb_ge].
    destruct (fold_user_text _ _ _) eqn:Hf; [|done]. intros [= <-].
    apply fold_user_text_spec in Hf as [_ Hf]. simpl. repeat split; try done; [lia| |by apply merged_NoDup|lia].
    rewrite length_app. lia.
  - destruct (is_empty _); [|done]. destruct (fold_user_text _ _ _) eqn:Hf; [|done]. intros [= <-].
    apply fold_user_text_spec in Hf as [_ Hf]. simpl. repeat split; try done. lia.
  - intros [= <-]. destruct Hl as [-> _]. by repeat split.
  - destruct Hl as [-> _].
    destruct (re_presentation edit), (re_presentation edit0); try done; case_bool_decide; try done;
      [case_bool_decide; try done| |]; intros [= <-]; by repeat split.
Qed.

Lemma try_fold_tail_not queue incoming cap queue' :
  try_fold_tail queue incoming cap = (queue', NotFolded) → queue' = queue.
Proof.
  unfold try_fold_tail. destruct (reverse queue); [by intros [= <-]|].
  destruct (fold_entry _ _ _); [done|by intros [= <-]].
Qed.

(** What an entry that found its place in the queue did to it. *)
Record absorbed (cap : N) (queue : list QueueEntry) (incoming : QueueEntry) (queue' : list QueueEntry) : Prop := {
  absorbed_wf : queue_wf cap queue';
  absorbed_held : held_messages queue' = held_messages queue ++ message_ids incoming;
  absorbed_armed : existsb is_hard_fire queue' = existsb is_hard_fire queue || is_hard_fire incoming;
  absorbed_nonempty : queue' ≠ [];
  absorbed_ids : ids queue' = ids queue ∨ ids queue' = ids queue ++ ids [incoming];
}.

Lemma entry_wf_system cap e : entry_wf cap e → is_user_authored e = false → message_ids e = [].
Proof. destruct e; naive_solver. Qed.

Lemma try_fold_tail_absorbed cap cap' queue incoming queue' id :
  (cap' ≤ cap)%N → queue_wf cap queue → entry_wf cap incoming →
  try_fold_tail queue incoming cap' = (queue', Folded id) →
  absorbed cap queue incoming queue' ∧ length queue' = length queue ∧ option_list id ⊆ ids queue'.
Proof.
  intros Hcap [Hnd Hwf] Hi. unfold try_fold_tail.
  destruct (reverse queue) as [|last front] eqn:Hr; [done|].
  assert (queue = reverse front ++ [last]) as ->
    by (by rewrite <- reverse_cons, <- Hr, reverse_involutive).
  apply Forall_app in Hwf as [Hwl [Hw _]%Forall_cons].
  destruct (fold_entry last incoming cap') as [e|] eqn:Hf; [|done].
  rewrite reverse_cons. intros [= <- <-].
  revert Hnd Hwl. generalize (reverse front) as l. clear Hr front. intros l Hnd Hwl.
  destruct (fold_entry_spec _ _ _ _ _ Hcap Hw Hi Hf) as (He & Hid & Hm & Hu & Hh & Hh').
  set (e' := with_message_ids _ _).
  assert (entry_id e' = entry_id last) as Hid' by (rewrite <- Hid; by destruct e).
  assert (message_ids e' = message_ids last ++ message_ids incoming) as Hm'
    by (rewrite <- Hm; by destruct e).
  assert (is_hard_fire e' = is_hard_fire last) as Hhf by (rewrite <- Hh; by destruct e).
  assert (entry_wf cap e') as He'.
  { destruct e; try done. simpl in *. destruct He as [-> ?]. split; [|done].
    apply (entry_wf_system cap); [done|]. by rewrite <- Hu. }
  assert (ids (l ++ [e']) = ids (l ++ [last])) as Hids
    by (rewrite !ids_app; f_equal; unfold ids; simpl; by rewrite Hid').
  split; [|split; [by rewrite !length_app|]].
  2:{ rewrite ids_app. unfold ids at 2; simpl. destruct (entry_id e'); set_solver. }
  split.
  - split; [by rewrite Hids|]. apply Forall_app; auto.
  - unfold held_messages. rewrite !bind_app. simpl. by rewrite Hm', !app_nil_r, app_assoc.
  - rewrite !existsb_app. simpl. rewrite Hhf, Hh'. by destruct (existsb _ l), (is_hard_fire incoming).
  - by destruct l.
  - by left.
Qed.

Lemma soft_unnamed e : is_hard_fire e = false → entry_id e = None.
Proof. by destruct e. Qed.

(** A queue that loses an entry no one can name, and gains one at its back. *)
Lemma evict_push_absorbed cap l1 e l2 incoming :
  is_hard_fire e = false → queue_wf cap (l1 ++ e :: l2) → entry_wf cap incoming →
  NoDup (ids (l1 ++ e :: l2) ++ ids [incoming]) →
  absorbed cap (l1 ++ e :: l2) incoming ((l1 ++ l2) ++ [incoming]).
Proof.
  intros Hh [_ Hwf] Hi Hnd. apply Forall_app in Hwf as [Hw1 [He Hw2]%Forall_cons].
  assert (ids (l1 ++ e :: l2) = ids (l1 ++ l2)) as Hids.
  { rewrite !ids_app. f_equal. unfold ids; simpl. by rewrite soft_unnamed. }
  split.
  - split; [by rewrite ids_app, <- Hids|]. rewrite !Forall_app. auto.
  - unfold held_messages. rewrite !bind_app. simpl.
    rewrite (entry_wf_system cap e), !app_nil_r by (done || by destruct e). done.
  - rewrite !existsb_app. simpl. rewrite Hh, orb_false_r. simpl. done.
  - by destruct (l1 ++ l2).
  - right. by rewrite ids_app, Hids.
Qed.

Lemma push_absorbed cap queue incoming :
  queue_wf cap queue → entry_wf cap incoming → NoDup (ids queue ++ ids [incoming]) →
  absorbed cap queue incoming (queue ++ [incoming]).
Proof.
  intros [_ Hwf] Hi Hnd. split.
  - split; [by rewrite ids_app|]. apply Forall_app; auto.
  - unfold held_messages. rewrite bind_app. simpl. by rewrite app_nil_r.
  - by rewrite existsb_app; simpl; rewrite orb_false_r.
  - by destruct queue.
  - right. apply ids_app.
Qed.
