(* ===== verification/HarnessSnapshot.v ===== *)
(** * The stored queue

    Models the pending queue of [crates/calm-server/src/harness/snapshot.rs]: one queue
    split over four parallel arrays, written by [set_pending_entries], decoded
    leniently element by element, and read back by [pending_entries]. The decoders of
    one element ([serde_json::from_value]) are parameters. With the truncation of an
    over-long stored queue ([run_loop.rs]). *)

From coqutil Require Import Datatypes.RecordSettersUsingExistingGetters.
From stdpp Require Import prelude gmap strings.
From S2P Require Import Prelude Identity OperationPhase Operations HarnessQueue.

Local Open Scope calm_scope.

Definition MAX_PENDING_QUEUE_LEN : nat := 256.

Record QueueEntryMeta := mkQueueEntryMeta {
  qm_id : QueueEntryId;
  qm_rev : N;
  qm_queued_at_ms : Z;
  qm_attachments : list BoundAttachment;
}.

(** The fields of [HarnessSnapshot] that store the queue. *)
Record HarnessSnapshot := mkHarnessSnapshot {
  sn_pending_queue : list (option Observation);
  sn_pending_envelope_ids : list (option Z);
  sn_pending_entry_meta : list (option QueueEntryMeta);
  sn_pending_message_ids : list (list str);
}.

(** [lenient_parallel_array]: an element that does not parse is the default. *)
Definition lenient_parallel_array {T} (parse : Json → option T) (default : T) (raw : list Json) : list T :=
  (λ value, from_option id default (parse value)) <$> raw.

(** [deserialize_pending_entry_meta]: [seen] holds the ids met so far. *)
Fixpoint deserialize_pending_entry_meta (parse : Json → option QueueEntryMeta) (seen : gset str)
    (raw : list Json) : list (option QueueEntryMeta) :=
  match raw with
  | [] => []
  | value :: rest =>
      match parse value with
      | None => None :: deserialize_pending_entry_meta parse seen rest
      | Some meta =>
          if is_empty (qm_id meta) then None :: deserialize_pending_entry_meta parse seen rest
          else if bool_decide (qm_id meta ∈ seen) then None :: deserialize_pending_entry_meta parse seen rest
          else Some meta :: deserialize_pending_entry_meta parse ({[qm_id meta]} ∪ seen) rest
      end
  end.

(** One position of the four arrays; a hole has no observation. *)
Definition pending_entry (observation : option Observation) (envelope : option Z)
    (meta : option QueueEntryMeta) (ids : list str) : option QueueEntry :=
  match observation, meta with
  | None, _ => None
  | Some (UserMessage text), Some meta =>
      Some (User {| ue_id := qm_id meta; ue_text := text; ue_rev := qm_rev meta;
                    ue_queued_at_ms := qm_queued_at_ms meta; ue_envelope_id := envelope;
                    ue_message_ids := ids; ue_attachments := qm_attachments meta |})
  | Some (UserMessage text), None => Some (LegacyUser text envelope ids)
  | Some other, _ => Some (System other envelope ids)
  end.

(** [pending_entries]: a side array that is short is padded. *)
Definition pending_entries (s : HarnessSnapshot) : list QueueEntry :=
  omap id (imap (λ index observation,
    pending_entry observation (mjoin (sn_pending_envelope_ids s !! index))
      (mjoin (sn_pending_entry_meta s !! index))
      (default [] (sn_pending_message_ids s !! index))) (sn_pending_queue s)).

Definition meta_of (e : QueueEntry) : option QueueEntryMeta :=
  match e with
  | User u => Some (mkQueueEntryMeta (ue_id u) (ue_rev u) (ue_queued_at_ms u) (ue_attachments u))
  | _ => None
  end.

Definition set_pending_entries (entries : list QueueEntry) : HarnessSnapshot :=
  {| sn_pending_queue := (λ e, Some (entry_observation e)) <$> entries;
     sn_pending_envelope_ids := envelope_id <$> entries;
     sn_pending_entry_meta := meta_of <$> entries;
     sn_pending_message_ids := message_ids <$> entries |}.

Definition pending_observations (s : HarnessSnapshot) : list Observation := omap id (sn_pending_queue s).

Definition pending_len (s : HarnessSnapshot) : nat := length (pending_observations s).

(** [truncate_snapshot_pending_queue]: the newest entries stay, and the addressable
    ids among the dropped are returned. *)
Definition truncate_snapshot_pending_queue (s : HarnessSnapshot) : HarnessSnapshot * list QueueEntryId :=
  let len := pending_len s in
  if (len <=? MAX_PENDING_QUEUE_LEN) then (s, [])
  else
    let drop_count := len - MAX_PENDING_QUEUE_LEN in
    let entries := pending_entries s in
    (set_pending_entries (drop drop_count entries), omap entry_id (take drop_count entries)).

(** ** Reading back *)

(** What the constructors of [HarnessQueue] produce: no system entry is a message. *)
Definition storable (e : QueueEntry) : Prop :=
  match e with System o _ _ => ∀ text, o ≠ UserMessage text | _ => True end.

Lemma pending_entry_stored e : storable e →
  pending_entry (Some (entry_observation e)) (envelope_id e) (meta_of e) (message_ids e) = Some e.
Proof. destruct e as [[]| |o v ids]; try done. simpl. intros H. destruct o; try done. by destruct (H text). Qed.

(** One position, and the rest of every array. *)
Lemma pending_entries_cons o os vs ms idss :
  pending_entries (mkHarnessSnapshot (o :: os) vs ms idss)
  = option_list (pending_entry o (mjoin (head vs)) (mjoin (head ms)) (default [] (head idss)))
    ++ pending_entries (mkHarnessSnapshot os (tail vs) (tail ms) (tail idss)).
Proof.
  assert (∀ A (l : list A), l !! 0 = head l) as Hh by (by intros ? []).
  assert (∀ A (l : list A) n, l !! S n = tail l !! n) as Ht by (by intros ? []).
  unfold pending_entries; simpl. rewrite !Hh.
  destruct (pending_entry _ _ _ _); simpl; [f_equal|]; f_equal; apply imap_ext; intros n x _; simpl;
    by rewrite !Ht.
Qed.

Lemma pending_entries_set entries :
  Forall storable entries → pending_entries (set_pending_entries entries) = entries.
Proof.
  unfold set_pending_entries. induction 1 as [|e entries He _ IH]; [done|].
  csimpl. rewrite pending_entries_cons. trans (option_list (Some e) ++ entries); [|done].
  f_equal; [|exact IH]. f_equal. by apply pending_entry_stored.
Qed.

(** ** Any stored arrays *)

Section decode.
Context (parse : Json → option QueueEntryMeta).

Lemma meta_decoded seen raw m :
  m ∈ omap id (deserialize_pending_entry_meta parse seen raw) → qm_id m ≠ [] ∧ qm_id m ∉ seen.
Proof.
  revert seen; induction raw as [|v raw IH]; intros seen; simpl; [by intros ?%elem_of_nil|].
  destruct (parse v) as [m'|]; simpl; [|apply IH].
  destruct (qm_id m') as [|c s] eqn:Hid; simpl; [apply IH|].
  case_bool_decide as Hs; simpl; [apply IH|]. rewrite <- Hid in Hs |- *.
  intros [->|H]%elem_of_cons; [split; [by rewrite Hid|done]|]. apply IH in H. set_solver.
Qed.

Lemma meta_decoded_NoDup seen raw :
  NoDup (qm_id <$> omap id (deserialize_pending_entry_meta parse seen raw)).
Proof.
  revert seen; induction raw as [|v raw IH]; intros seen; simpl; [constructor|].
  destruct (parse v) as [m'|]; simpl; [|apply IH].
  destruct (qm_id m') as [|c s] eqn:Hid; simpl; [apply IH|].
  case_bool_decide as Hs; simpl; [apply IH|]. constructor; [|apply IH].
  intros (m & Hm & H)%list_elem_of_fmap. apply meta_decoded in H as [_ H].
  apply H. rewrite <- Hm, Hid. set_solver.
Qed.
End decode.

Lemma pending_entry_id o v m i e : pending_entry o v m i = Some e → entry_id e = None ∨ entry_id e = qm_id <$> m.
Proof. destruct o as [[]|]; intros H; simplify_eq/=; auto. destruct m; simplify_eq/=; auto. Qed.

Lemma ids_option_list o : ids (option_list o) = option_list (o ≫= entry_id).
Proof. destruct o as [e|]; [|done]. unfold ids; simpl. by destruct (entry_id e). Qed.

(** The ids read back are ids of the metadata array, in its order. *)
Lemma pending_ids_sublist s : ids (pending_entries s) `sublist_of` (qm_id <$> omap id (sn_pending_entry_meta s)).
Proof.
  destruct s as [os vs ms idss]. revert vs ms idss; induction os as [|o os IH]; intros vs ms idss; [apply sublist_nil_l|].
  rewrite pending_entries_cons.
  rewrite ids_app, ids_option_list. specialize (IH (tail vs) (tail ms) (tail idss)). simpl in IH |- *.
  destruct (pending_entry _ _ _ _) as [e|] eqn:He; simpl.
  - apply pending_entry_id in He as [-> | ->]; destruct ms as [|[m|] ms]; simpl in *;
      try done; [by constructor|by constructor].
  - destruct ms as [|[m|] ms]; simpl in *; try done. by constructor.
Qed.

(** Whatever the stored arrays hold, the entries read back have distinct, non-empty
    ids, so that an id addresses at most one of them. *)
Theorem decoded_ids_unambiguous parse os vs raw idss :
  let queue := pending_entries {| sn_pending_queue := os; sn_pending_envelope_ids := vs;
    sn_pending_entry_meta := deserialize_pending_entry_meta parse ∅ raw; sn_pending_message_ids := idss |} in
  NoDup (ids queue) ∧ [] ∉ ids queue.
Proof.
  intros queue. pose proof (pending_ids_sublist (mkHarnessSnapshot os vs
    (deserialize_pending_entry_meta parse ∅ raw) idss)) as Hs. split.
  - eapply sublist_NoDup; [|exact Hs]. apply meta_decoded_NoDup.
  - intros H. eapply elem_of_sublist in H; [|exact Hs]. apply list_elem_of_fmap in H as (m & Hm & H).
    apply meta_decoded in H as [H _]. done.
Qed.

Lemma pending_len_entries s : pending_len s = length (pending_entries s).
Proof.
  destruct s as [os vs ms idss]. unfold pending_len, pending_observations; simpl.
  revert vs ms idss; induction os as [|o os IH]; intros vs ms idss; [done|].
  rewrite pending_entries_cons, length_app, <- IH.
  destruct o as [[]|]; simpl; try done. by destruct (mjoin (head ms)).
Qed.

Lemma pending_entries_storable s : Forall storable (pending_entries s).
Proof.
  destruct s as [os vs ms idss]. revert vs ms idss; induction os as [|o os IH]; intros vs ms idss; [constructor|].
  rewrite pending_entries_cons. apply Forall_app. split; [|apply IH].
  destruct o as [[]|]; simpl; repeat constructor; try done. destruct (mjoin (head ms)); by repeat constructor.
Qed.

Lemma truncate_entries s :
  pending_entries (truncate_snapshot_pending_queue s).1
  = drop (length (pending_entries s) - MAX_PENDING_QUEUE_LEN) (pending_entries s).
Proof.
  unfold truncate_snapshot_pending_queue. rewrite pending_len_entries.
  destruct (Nat.leb_spec (length (pending_entries s)) MAX_PENDING_QUEUE_LEN) as [H|H].
  - by replace (length (pending_entries s) - MAX_PENDING_QUEUE_LEN) with 0 by lia.
  - by apply pending_entries_set, Forall_drop, pending_entries_storable.
Qed.

(** A stored queue that is too long loses its oldest entries only: what is read
    back afterwards is the newest 256 in order, and the ids returned for announcement
    are exactly those of the addressable entries that were dropped. *)
Theorem truncation_keeps_newest s :
  let '(s', dropped) := truncate_snapshot_pending_queue s in
  let excess := length (pending_entries s) - MAX_PENDING_QUEUE_LEN in
  pending_entries s' = drop excess (pending_entries s)
  ∧ dropped = ids (take excess (pending_entries s))
  ∧ length (pending_entries s') ≤ MAX_PENDING_QUEUE_LEN.
Proof.
  pose proof (truncate_entries s) as H. revert H. unfold truncate_snapshot_pending_queue. rewrite pending_len_entries.
  destruct (Nat.leb_spec (length (pending_entries s)) MAX_PENDING_QUEUE_LEN) as [Hl|Hl]; simpl; intros H.
  - replace (length (pending_entries s) - MAX_PENDING_QUEUE_LEN) with 0 by lia. done.
  - rewrite H, length_drop. repeat split. lia.
Qed.

(** ** Through the stored JSON *)

(** Writers and readers of one element of each array. *)
Record ArrayCodecs := {
  print_observation : option Observation → Json;
  parse_observation : Json → option (option Observation);
  print_envelope : option Z → Json;
  parse_envelope : Json → option (option Z);
  print_meta : option QueueEntryMeta → Json;
  parse_meta : Json → option QueueEntryMeta;
  print_ids : list str → Json;
  parse_ids : Json → option (list str);
}.

Definition serialize_pending (c : ArrayCodecs) (s : HarnessSnapshot)
  : list Json * list Json * list Json * list Json :=
  (print_observation c <$> sn_pending_queue s, print_envelope c <$> sn_pending_envelope_ids s,
   print_meta c <$> sn_pending_entry_meta s, print_ids c <$> sn_pending_message_ids s).

Definition deserialize_pending (c : ArrayCodecs)
    (raw : list Json * list Json * list Json * list Json) : HarnessSnapshot :=
  let '(observations, envelopes, metas, idss) := raw in
  {| sn_pending_queue := lenient_parallel_array (parse_observation c) None observations;
     sn_pending_envelope_ids := lenient_parallel_array (parse_envelope c) None envelopes;
     sn_pending_entry_meta := deserialize_pending_entry_meta (parse_meta c) ∅ metas;
     sn_pending_message_ids := lenient_parallel_array (parse_ids c) [] idss |}.

(** The elements of one entry read back as they were written. *)
Definition reads_back (c : ArrayCodecs) (e : QueueEntry) : Prop :=
  parse_observation c (print_observation c (Some (entry_observation e))) = Some (Some (entry_observation e))
  ∧ parse_envelope c (print_envelope c (envelope_id e)) = Some (envelope_id e)
  ∧ parse_meta c (print_meta c (meta_of e)) = meta_of e
  ∧ parse_ids c (print_ids c (message_ids e)) = Some (message_ids e).

Lemma lenient_printed {A T} (print : T → Json) parse (d : T) (f : A → T) l :
  Forall (λ a, parse (print (f a)) = Some (f a)) l →
  lenient_parallel_array parse d (print <$> (f <$> l)) = f <$> l.
Proof. unfold lenient_parallel_array. induction 1 as [|a l Ha _ IH]; csimpl; [done|]. by rewrite Ha, IH. Qed.

Lemma metas_printed c seen entries :
  Forall (λ e, parse_meta c (print_meta c (meta_of e)) = meta_of e) entries →
  NoDup (ids entries) → (∀ id, id ∈ ids entries → id ≠ [] ∧ id ∉ seen) →
  deserialize_pending_entry_meta (parse_meta c) seen (print_meta c <$> (meta_of <$> entries)) = meta_of <$> entries.
Proof.
  intros Hp; revert seen; induction Hp as [|e entries He _ IH]; intros seen Hnd Hid; [done|].
  csimpl. rewrite He. destruct e as [u| |]; simpl; [|by rewrite IH..].
  change (ids (User u :: entries)) with (ue_id u :: ids entries) in Hnd, Hid.
  apply NoDup_cons in Hnd as [Hu Hnd]. destruct (Hid (ue_id u)) as [Hne Hns]; [left|].
  replace (is_empty (ue_id u)) with false by (by destruct (ue_id u)).
  rewrite bool_decide_eq_false_2 by done. rewrite IH; [done|done|].
  intros id H. destruct (Hid id); [by right|]. set_solver.
Qed.

(** A queue of distinct, named entries written to the four stored arrays and read
    back by the lenient decoders is the same queue, entry by entry: nothing is demoted
    to an unaddressable message and no position shifts. *)
Theorem pending_entries_roundtrip c entries :
  Forall storable entries → Forall (reads_back c) entries → NoDup (ids entries) → [] ∉ ids entries →
  pending_entries (deserialize_pending c (serialize_pending c (set_pending_entries entries))) = entries.
Proof.
  intros Hs Hr Hnd Hne.
  assert (deserialize_pending c (serialize_pending c (set_pending_entries entries))
          = set_pending_entries entries) as ->; [|by apply pending_entries_set].
  unfold deserialize_pending, serialize_pending, set_pending_entries; simpl. f_equal.
  - apply lenient_printed. apply (Forall_impl (reads_back c)); [exact Hr|]. by intros e (? & _).
  - apply lenient_printed. apply (Forall_impl (reads_back c)); [exact Hr|]. by intros e (_ & ? & _).
  - apply metas_printed; [|done|set_solver]. apply (Forall_impl (reads_back c)); [exact Hr|]. by intros e (_ & _ & ? & _).
  - apply lenient_printed. apply (Forall_impl (reads_back c)); [exact Hr|]. by intros e (_ & _ & _ & ?).
Qed.
