(* ===== verification/HarnessIntake.v ===== *)
(** * The planner harness: phases, intake and the issuance gate

    Models the in-memory half of [crates/calm-server/src/harness/]: the phases of
    [state.rs], the cadence of [config.rs], and of [run_loop.rs] the intake of
    observations and of durable sends, queue mutations, drains and re-buffering, with
    the gate of [run_loop/issuance.rs] that lets a turn start. [Inner] has the fields
    these functions read and write; the actor runs one of them at a time. An instant is
    a number of milliseconds; what the database answers is an argument. *)

From coqutil Require Import Datatypes.RecordSettersUsingExistingGetters.
From stdpp Require Import prelude gmap strings.
From S2P Require Import Prelude Identity OperationPhase Operations HarnessQueue HarnessSnapshot.

Local Open Scope calm_scope.

Definition RECENT_HOOK_KEY_CACHE_LEN : nat := 256.
Definition MAX_FOLDED_USER_MESSAGE_CHARS : N := 131072.

Abbreviation Instant := Z.

(** [now.duration_since(then)]: zero when [then] is later. *)
Definition duration_since (now earlier : Instant) : Z := Z.max 0 (now - earlier).

(** ** Phases *)

Inductive IssuingKind := TurnStart | Interrupt (target_turn_id reason : str).

Inductive HarnessState :=
| HS_PendingThreadStart
| HS_Idle
| HS_Issuing (since : Instant) (kind : IssuingKind)
| HS_Compacting (since : Instant)
| HS_CompactionRunning (turn_id : str) (started_at : Instant)
| HS_TurnRunning (turn_id : str) (started_at watchdog_from : Instant)
| HS_TurnCompleted (last_turn_id : str)
| HS_Resumed (resumed_at : Instant)
| HS_Wedged (since : Instant) (reason : str).

Inductive HarnessPhaseTag :=
| Tag_PendingThreadStart | Tag_Idle | Tag_IssuingTurn | Tag_Compacting | Tag_IssuingInterrupt
| Tag_TurnRunning | Tag_TurnCompleted | Tag_Resumed | Tag_Wedged.

Definition run_status_for (state : HarnessState) : WorkerSessionState :=
  match state with
  | HS_PendingThreadStart => Starting
  | HS_Idle | HS_TurnCompleted _ | HS_Resumed _ => Idle
  | HS_CompactionRunning _ _ | HS_Compacting _ | HS_Issuing _ _ | HS_TurnRunning _ _ _ => TurnPending
  | HS_Wedged _ _ => Identity.Failed
  end.

Definition turn_running (turn_id : str) (started_at : Instant) : HarnessState :=
  HS_TurnRunning turn_id started_at started_at.

Definition can_issue_turn (s : HarnessState) : bool :=
  match s with HS_Idle | HS_TurnCompleted _ => true | _ => false end.

Definition running_turn (s : HarnessState) (now : Instant) : option (str * Z) :=
  match s with
  | HS_CompactionRunning turn_id started_at | HS_TurnRunning turn_id started_at _ =>
      Some (turn_id, duration_since now started_at)
  | _ => None
  end.

Definition active_turn_id (s : HarnessState) : option str :=
  match s with
  | HS_CompactionRunning turn_id _ | HS_TurnRunning turn_id _ _ => Some turn_id
  | HS_Issuing _ (Interrupt target_turn_id _) => Some target_turn_id
  | _ => None
  end.

Definition accepts_context_boundary (s : HarnessState) (turn : str) (last_user maintenance : option str) : bool :=
  match active_turn_id s with
  | Some active => bool_decide (active = turn)
  | None =>
      match s with HS_TurnCompleted _ | HS_Wedged _ _ | HS_Resumed _ => true | _ => false end
      && (bool_decide (last_user = Some turn) || bool_decide (maintenance = Some turn))
  end.

(** [HarnessPhaseTag::from]. *)
Definition phase_tag (s : HarnessState) : HarnessPhaseTag :=
  match s with
  | HS_PendingThreadStart => Tag_PendingThreadStart
  | HS_Idle => Tag_Idle
  | HS_Compacting _ | HS_CompactionRunning _ _ => Tag_Compacting
  | HS_Issuing _ TurnStart => Tag_IssuingTurn
  | HS_Issuing _ (Interrupt _ _) => Tag_IssuingInterrupt
  | HS_TurnRunning _ _ _ => Tag_TurnRunning
  | HS_TurnCompleted _ => Tag_TurnCompleted
  | HS_Resumed _ => Tag_Resumed
  | HS_Wedged _ _ => Tag_Wedged
  end.

(** ** State *)

Record HarnessConfig := mkHarnessConfig {
  debounce_min_idle : Z;
  debounce_max_wait : Z;
  report_edit_min_idle : Z;
  report_edit_max_wait : Z;
}.

Definition default_config : HarnessConfig := mkHarnessConfig 250 5000 20000 120000.

Record DebounceState := mkDebounce {
  first_pending_at : option Instant;
  last_pending_at : option Instant;
  hard_fire : bool;
}.

Definition default_debounce : DebounceState := mkDebounce None None false.

(** [RuntimeInputs]: a canonical runtime has no queue of its own. *)
Inductive RuntimeInputs := Historical (queue : list QueueEntry) | Canonical.

Record Inner := mkInner {
  in_inputs : RuntimeInputs;
  in_debounce : DebounceState;
  in_push_watermark : Z;
  in_recent_hook_keys : list str;
  in_recent_hook_key_set : gset str;
  in_last_report_body_sha256 : option str;
  in_restored_projections : list QueueEntryId;
}.

Definition historical_queue (inner : Inner) : result (list QueueEntry) CalmError :=
  match in_inputs inner with
  | Historical queue => Ok queue
  | Canonical => Err (Calm_Conflict (lit "canonical inputs cannot use the historical body queue"))
  end.

(** ** Loading *)

Definition debounce_from_initial_queue (now : Instant) (queue : list QueueEntry) : DebounceState :=
  if is_empty queue then default_debounce
  else mkDebounce (Some now) (Some now) (existsb is_hard_fire queue).

(** [while keys.len() > RECENT_HOOK_KEY_CACHE_LEN { keys.pop_front() .. }]. *)
Fixpoint evict_keys (keys : list str) (set : gset str) : list str * gset str :=
  if (RECENT_HOOK_KEY_CACHE_LEN <? length keys) then
    match keys with
    | evicted :: rest => evict_keys rest (set ∖ {[evicted]})
    | [] => (keys, set)
    end
  else (keys, set).

Definition remember_key (key : str) (cache : list str * gset str) : list str * gset str :=
  let '(keys, set) := cache in evict_keys (keys ++ [key]) ({[key]} ∪ set).

Definition recent_hook_keys_from_pending_queue (queue : list QueueEntry) : list str * gset str :=
  foldl (λ cache e,
    match hook_idempotency_key e with
    | None => cache
    | Some key => if bool_decide (key ∈ cache.2) then cache else remember_key key cache
    end) ([], ∅) queue.

(** The queue's part of building [Inner] from a stored snapshot. *)
Definition load_inner (now : Instant) (push_watermark : Z) (sha : option str) (stored : HarnessSnapshot)
  : Inner * list QueueEntryId :=
  let '(snapshot, dropped) := truncate_snapshot_pending_queue stored in
  let queue := pending_entries snapshot in
  let '(keys, key_set) := recent_hook_keys_from_pending_queue queue in
  ({| in_inputs := Historical queue; in_debounce := debounce_from_initial_queue now queue;
      in_push_watermark := push_watermark; in_recent_hook_keys := keys; in_recent_hook_key_set := key_set;
      in_last_report_body_sha256 := sha; in_restored_projections := [] |}, dropped).

(** ** Intake *)

Inductive EnqueueOutcome := Unsupported | Rejected | Accepted (entry : option QueueEntryId).

Fixpoint remove_first {A} (p : A → bool) (l : list A) : option (list A) :=
  match l with
  | [] => None
  | a :: rest => if p a then Some rest else (λ rest', a :: rest') <$> remove_first p rest
  end.

Definition enqueue_pending_observation (inner : Inner) (e : QueueEntry) : Inner * EnqueueOutcome :=
  match in_inputs inner with
  | Canonical => (inner, Unsupported)
  | Historical queue =>
      match try_fold_report_edit_tail queue e with
      | (queue, Folded id) => ({ inner with in_inputs := Historical queue }, Accepted id)
      | (queue, NotFolded) =>
          if (MAX_PENDING_QUEUE_LEN <=? length queue) then
            match try_fold_tail queue e MAX_FOLDED_USER_MESSAGE_CHARS with
            | (queue, Folded id) => ({ inner with in_inputs := Historical queue }, Accepted id)
            | (queue, NotFolded) =>
                match remove_first (λ queued, negb (is_hard_fire queued)) queue with
                | Some queue => ({ inner with in_inputs := Historical (queue ++ [e]) }, Accepted (entry_id e))
                | None => (inner, Rejected)
                end
            end
          else ({ inner with in_inputs := Historical (queue ++ [e]) }, Accepted (entry_id e))
      end
  end.

Definition suppress_duplicate_hook_stop (inner : Inner) (e : QueueEntry) : Inner * bool :=
  match hook_idempotency_key e with
  | None => (inner, false)
  | Some key =>
      if bool_decide (key ∈ in_recent_hook_key_set inner) then (inner, true)
      else
        let '(keys, set) := remember_key key (in_recent_hook_keys inner, in_recent_hook_key_set inner) in
        ({ inner with in_recent_hook_keys := keys; in_recent_hook_key_set := set }, false)
  end.

Definition arm_debounce (now : Instant) (hard : bool) (d : DebounceState) : DebounceState :=
  mkDebounce (Some (default now (first_pending_at d))) (Some now) (hard_fire d || hard).

Definition on_observation (now : Instant) (inner : Inner) (e : QueueEntry) : Inner * EnqueueOutcome :=
  let inner :=
    match envelope_id e with
    | Some id => { inner with in_push_watermark ::= λ watermark, Z.max watermark id }
    | None => inner
    end in
  match suppress_duplicate_hook_stop inner e with
  | (inner, true) => (inner, Rejected)
  | (inner, false) =>
      match enqueue_pending_observation inner e with
      | (inner, Rejected) => (inner, Rejected)
      | (inner, outcome) =>
          let inner :=
            match report_sha256 e with
            | Some hash => { inner with in_last_report_body_sha256 := Some hash }
            | None => inner
            end in
          ({ inner with in_debounce ::= arm_debounce now (is_hard_fire e) }, outcome)
      end
  end.

(** ** Durable sends *)

Record Checkpoint := mkCheckpoint { ck_queue : list QueueEntry; ck_debounce : DebounceState }.

Definition checkpoint_durable_user_message (inner : Inner) : result Checkpoint CalmError :=
  let? queue := historical_queue inner in
  Ok (mkCheckpoint queue (in_debounce inner)).

(** A canonical runtime refuses; it has no checkpoint to restore. *)
Definition restore_durable_user_message (inner : Inner) (c : Checkpoint) : Inner * result unit CalmError :=
  match historical_queue inner with
  | Ok _ => ({ inner with in_inputs := Historical (ck_queue c); in_debounce := ck_debounce c }, Ok tt)
  | Err error => (inner, Err error)
  end.

(** The deliveries of one send, each with the instant it is taken in. *)
Fixpoint stage_deliveries (inner : Inner) (c : Checkpoint) (deliveries : list (Instant * QueueEntry))
    (ack : option QueueEntryId) : Inner * result (option QueueEntryId) CalmError :=
  match deliveries with
  | [] => (inner, Ok ack)
  | (now, e) :: rest =>
      match on_observation now inner e with
      | (inner, Accepted id) => stage_deliveries inner c rest (if is_user_authored e then id else ack)
      | (inner, Rejected) =>
          match restore_durable_user_message inner c with
          | (inner, Ok _) =>
              (inner, Err (Calm_ServiceUnavailable (lit "planner harness pending queue full, retry shortly")))
          | (inner, Err error) => (inner, Err error)
          end
      | (inner, Unsupported) =>
          (inner, Err (Calm_Conflict (lit "canonical input must be accepted by its conversation owner")))
      end
  end.

Definition stage_durable_entries (inner : Inner) (deliveries : list (Instant * QueueEntry))
  : Inner * result (option QueueEntryId * Checkpoint) CalmError :=
  match checkpoint_durable_user_message inner with
  | Err error => (inner, Err error)
  | Ok c =>
      match stage_deliveries inner c deliveries None with
      | (inner, Ok ack) => (inner, Ok (ack, c))
      | (inner, Err error) => (inner, Err error)
      end
  end.

(** [handle_durable]: whether the card may still be written, and what storing the
    snapshot with the acknowledged entry answers. *)
Definition handle_durable (inner : Inner) (admitted : result unit CalmError)
    (persist : option QueueEntryId → result unit CalmError) (deliveries : list (Instant * QueueEntry))
  : Inner * result (option QueueEntryId) CalmError :=
  match admitted with
  | Err error => (inner, Err error)
  | Ok _ =>
      match stage_durable_entries inner deliveries with
      | (inner, Err error) => (inner, Err error)
      | (inner, Ok (ack, c)) =>
          match persist ack with
          | Ok _ => (inner, Ok ack)
          | Err error =>
              match restore_durable_user_message inner c with
              | (inner, Ok _) => (inner, Err error)
              | (inner, Err error) => (inner, Err error)
              end
          end
      end
  end.

(** ** Mutations, drains and re-buffering *)

Definition rearm_debounce_after_departure (applied : MutationApplied) (d : DebounceState) : DebounceState :=
  if ma_queue_now_empty applied then mkDebounce None None (ma_remaining_hard_fire applied)
  else { d with hard_fire := ma_remaining_hard_fire applied }.

Definition handle_queue_mutation (inner : Inner) (mutation : QueueMutation) (persisted : result unit CalmError)
  : Inner * result (result MutationApplied MutationRefused) CalmError :=
  match mutation with
  | Steer _ _ =>
      (inner, Err (Calm_Internal (lit "a steer is not a queue mutation: it goes through steer_pending_entry, which delivers what it takes")))
  | _ =>
      match checkpoint_durable_user_message inner with
      | Err error => (inner, Err error)
      | Ok c =>
          match apply_mutation (ck_queue c) mutation with
          | (_, Err refused) => (inner, Ok (Err refused))
          | (queue, Ok applied) =>
              let inner := { inner with in_inputs := Historical queue } in
              let inner :=
                match ma_change applied with
                | Deleted => { inner with in_debounce ::= rearm_debounce_after_departure applied }
                | _ => inner
                end in
              match persisted with
              | Ok _ => (inner, Ok (Ok applied))
              | Err error =>
                  match restore_durable_user_message inner c with
                  | (inner, Ok _) => (inner, Err error)
                  | (inner, Err error) => (inner, Err error)
                  end
              end
          end
      end
  end.

(** The entry a steer takes out, under the lock of the queue. *)
Definition take_for_steer (inner : Inner) (entry : QueueEntryId) (rev : N)
  : Inner * result (result QueueEntry MutationRefused) CalmError :=
  match historical_queue inner with
  | Err error => (inner, Err error)
  | Ok queue =>
      match apply_mutation queue (Steer entry rev) with
      | (_, Err refused) => (inner, Ok (Err refused))
      | (queue, Ok applied) =>
          match ma_removed applied with
          | Some e =>
              ({ inner with in_inputs := Historical queue;
                            in_debounce ::= rearm_debounce_after_departure applied }, Ok (Ok e))
          | None => (inner, Err (Calm_Internal (lit "QueueMutation::Steer hands the removed entry back")))
          end
      end
  end.

Definition rebuffer_head_retiring (now : Instant) (inner : Inner) (drained : list QueueEntry)
    (restored : list QueueEntryId) : Inner * result unit CalmError :=
  match historical_queue inner with
  | Err error => (inner, Err error)
  | Ok queue =>
      ({ inner with in_restored_projections ::= λ projections, projections ++ restored;
           in_inputs := Historical (drained ++ queue);
           in_debounce := mkDebounce (Some now) (Some now) true }, Ok tt)
  end.

Definition rebuffer_head (now : Instant) (inner : Inner) (drained : list QueueEntry) : Inner * result unit CalmError :=
  rebuffer_head_retiring now inner drained [].

(** The drain of an issuance. *)
Definition drain (inner : Inner) : Inner * result (list QueueEntry) CalmError :=
  match historical_queue inner with
  | Err error => (inner, Err error)
  | Ok [] => (inner, Ok [])
  | Ok queue => ({ inner with in_inputs := Historical []; in_debounce := default_debounce }, Ok queue)
  end.

(** ** The issuance gate *)

Definition queue_is_only_report_edits (queue : list QueueEntry) : bool :=
  negb (is_empty queue) && forallb is_report_edit queue.

Definition queue_report_edits_all_carry_diffs (queue : list QueueEntry) : bool :=
  negb (is_empty queue)
  && forallb (λ e, match e with System (ReportEdited r) _ _ => bool_decide (is_Some (re_body_before r)) | _ => false end) queue.

(** The gates of [maybe_issue_turn] that memory decides, from the queue to the phase. *)
Definition may_issue (config : HarnessConfig) (now : Instant) (paused provider_holds : bool)
    (retry_after : option Instant) (state : HarnessState) (queue : list QueueEntry) (d : DebounceState) : bool :=
  negb paused
  && negb (is_empty queue)
  && negb provider_holds
  && match retry_after with Some t => (t <=? now)%Z | None => true end
  && (let '(min_idle, max_wait) :=
        if queue_is_only_report_edits queue
        then (report_edit_min_idle config, report_edit_max_wait config)
        else (debounce_min_idle config, debounce_max_wait config) in
      hard_fire d
      || match first_pending_at d, last_pending_at d with
         | Some first, Some last =>
             (min_idle <=? duration_since now last)%Z || (max_wait <=? duration_since now first)%Z
         | _, _ => false
         end)
  && can_issue_turn state.
