(* ===== verification/IntakeRules.v ===== *)
(** * What the intake promises

    Theorems about [HarnessIntake]: an accepted entry keeps every message instance the
    queue held and adds its own; a refused one changes nothing but the watermark and
    the hook cache; a durable send happens wholly or not at all; the hook cache is a
    window of the last 256 admitted keys; and, over the steps of the run loop
    ([step]), the invariant [loop_ok], from which queued input is never stranded. *)

From coqutil Require Import Datatypes.RecordSettersUsingExistingGetters.
From stdpp Require Import prelude gmap strings.
From S2P Require Import Prelude Identity OperationPhase Operations HarnessQueue HarnessSnapshot HarnessIntake.

Local Open Scope calm_scope.

Abbreviation CAP := MAX_FOLDED_USER_MESSAGE_CHARS.

Lemma remove_first_Some {A} (p : A → bool) l l' :
  remove_first p l = Some l' → ∃ l1 a l2, l = l1 ++ a :: l2 ∧ p a = true ∧ l' = l1 ++ l2.
Proof.
  revert l'; induction l as [|a l IH]; intros l'; simpl; [done|].
  destruct (p a) eqn:Ha; [intros [= <-]; by exists [], a, l|].
  destruct (remove_first p l) as [r|]; [|done]. intros [= <-].
  destruct (IH r eq_refl) as (l1 & b & l2 & -> & Hb & ->). by exists (a :: l1), b, l2.
Qed.

Lemma remove_first_None {A} (p : A → bool) l : remove_first p l = None ↔ Forall (λ a, p a = false) l.
Proof.
  induction l as [|a l IH]; simpl; [by split; constructor|]. rewrite Forall_cons.
  destruct (p a); [by split; [|intros []]|]. rewrite fmap_None. naive_solver.
Qed.

(** ** One entry *)

(** What enqueueing touches: the queue. *)
Definition same_but_queue (inner inner' : Inner) : Prop :=
  inner' = { inner with in_inputs := in_inputs inner' }.

(** When nothing can make room for an entry. *)
Definition no_room (queue : list QueueEntry) (e : QueueEntry) : Prop :=
  MAX_PENDING_QUEUE_LEN ≤ length queue ∧ Forall (λ queued, is_hard_fire queued = true) queue
  ∧ (try_fold_tail queue e CAP).2 = NotFolded.

Lemma report_fold_cases queue e :
  (∃ queue' id, try_fold_report_edit_tail queue e = (queue', Folded id) ∧ try_fold_tail queue e 0 = (queue', Folded id))
  ∨ try_fold_report_edit_tail queue e = (queue, NotFolded).
Proof.
  unfold try_fold_report_edit_tail. destruct (_ && _); [|by right].
  destruct (try_fold_tail queue e 0) as [q [|id]] eqn:H; [|by eauto].
  right. by rewrite (try_fold_tail_not _ _ _ _ H).
Qed.

Lemma own_id queue e : option_list (entry_id e) ⊆ ids (queue ++ [e]).
Proof. rewrite ids_app. unfold ids at 2; simpl. destruct (entry_id e); set_solver. Qed.

Lemma enqueue_spec inner queue e :
  in_inputs inner = Historical queue → queue_wf CAP queue → entry_wf CAP e → NoDup (ids queue ++ ids [e]) →
  match enqueue_pending_observation inner e with
  | (inner', Accepted id) =>
      same_but_queue inner inner'
      ∧ ∃ queue', in_inputs inner' = Historical queue' ∧ absorbed CAP queue e queue'
                  ∧ length queue' ≤ Nat.max MAX_PENDING_QUEUE_LEN (length queue)
                  ∧ option_list id ⊆ ids queue'
  | (inner', Rejected) => inner' = inner ∧ no_room queue e
  | (_, Unsupported) => False
  end.
Proof.
  intros Hq Hwf He Hnd. unfold enqueue_pending_observation. rewrite Hq.
  destruct (report_fold_cases queue e) as [(q & i & -> & Hf)| ->].
  { apply (try_fold_tail_absorbed CAP) in Hf as (Ha & Hl & Hi); [|done..].
    split; [done|]. exists q. split_and!; [done|done|lia|done]. }
  destruct (Nat.leb_spec MAX_PENDING_QUEUE_LEN (length queue)) as [Hlen|Hlen].
  - destruct (try_fold_tail queue e CAP) as [q [|i]] eqn:Hf.
    + pose proof (try_fold_tail_not _ _ _ _ Hf) as ->.
      destruct (remove_first _ queue) as [q'|] eqn:Hr.
      * apply remove_first_Some in Hr as (l1 & a & l2 & -> & Ha & ->).
        apply negb_true_iff in Ha. split; [done|]. eexists. split; [done|].
        split; [by apply evict_push_absorbed|]. split; [rewrite !length_app; simpl; lia|apply own_id].
      * apply remove_first_None in Hr. split; [done|]. split; [done|]. split; [|by rewrite Hf].
        eapply Forall_impl; [exact Hr|]. intros a. apply negb_false_iff.
    + apply (try_fold_tail_absorbed CAP) in Hf as (Ha & Hl & Hi); [|done..].
      split; [done|]. exists q. split_and!; [done|done|lia|done].
  - split; [done|]. eexists. split; [done|]. split; [by apply push_absorbed|].
    split; [rewrite length_app; simpl; lia|apply own_id].
Qed.

(** ** The hook cache *)

Definition hook_cache (inner : Inner) : list str * gset str :=
  (in_recent_hook_keys inner, in_recent_hook_key_set inner).

(** The set is the list, which has no repetition and is bounded. *)
Definition cache_ok (cache : list str * gset str) : Prop :=
  cache.2 = list_to_set cache.1 ∧ NoDup cache.1 ∧ length cache.1 ≤ RECENT_HOOK_KEY_CACHE_LEN.

(** The last [n] of a list. *)
Definition lastn {A} (n : nat) (l : list A) : list A := drop (length l - n) l.

Lemma lastn_snoc {A} n (l : list A) a : 0 < n → lastn n (lastn n l ++ [a]) = lastn n (l ++ [a]).
Proof.
  intros Hn. unfold lastn. rewrite !length_app, length_drop. simpl.
  destruct (decide (length l ≤ n)) as [H|H].
  - replace (length l - n) with 0 by lia. simpl. by rewrite Nat.sub_0_r.
  - replace (length l - (length l - n) + 1 - n) with 1 by lia.
    replace (length l + 1 - n) with (S (length l - n)) by lia.
    rewrite !drop_app_le by (rewrite ?length_drop; lia). by rewrite drop_drop, Nat.add_1_r.
Qed.

Lemma evict_keys_spec keys :
  NoDup keys →
  evict_keys keys (list_to_set keys)
  = (lastn RECENT_HOOK_KEY_CACHE_LEN keys, list_to_set (lastn RECENT_HOOK_KEY_CACHE_LEN keys)).
Proof.
  intros Hnd. induction Hnd as [|k keys Hk Hnd IH]; [done|].
  cbn [evict_keys]. destruct (Nat.ltb_spec RECENT_HOOK_KEY_CACHE_LEN (length (k :: keys))) as [H|H].
  - replace (list_to_set (k :: keys) ∖ {[k]} : gset str) with (list_to_set keys : gset str).
    2:{ apply set_eq. intros x. rewrite elem_of_difference, !elem_of_list_to_set, elem_of_singleton, elem_of_cons.
        split; [|naive_solver]. intros Hx. split; [by right|]. by intros ->. }
    rewrite IH. unfold lastn. simpl length in *.
    replace (S (length keys) - RECENT_HOOK_KEY_CACHE_LEN) with (S (length keys - RECENT_HOOK_KEY_CACHE_LEN)) by lia.
    done.
  - unfold lastn. replace (length (k :: keys) - RECENT_HOOK_KEY_CACHE_LEN) with 0 by lia. done.
Qed.

Lemma remember_key_spec key cache :
  cache_ok cache → key ∉ cache.2 →
  remember_key key cache
  = (lastn RECENT_HOOK_KEY_CACHE_LEN (cache.1 ++ [key]),
     list_to_set (lastn RECENT_HOOK_KEY_CACHE_LEN (cache.1 ++ [key]))).
Proof.
  destruct cache as [keys set]. intros (Hs & Hnd & _) Hk. simpl in *. subst set.
  rewrite <- evict_keys_spec.
  - f_equal. set_solver.
  - apply NoDup_app. split; [done|]. split; [set_solver|apply NoDup_singleton].
Qed.

Lemma lastn_NoDup {A} n (l : list A) : NoDup l → NoDup (lastn n l).
Proof. intros. eapply sublist_NoDup; [done|]. apply sublist_drop. Qed.

Lemma remember_key_ok key cache : cache_ok cache → key ∉ cache.2 → cache_ok (remember_key key cache).
Proof.
  intros Hok Hk. rewrite remember_key_spec by done. destruct Hok as (Hs & Hnd & Hl).
  split; [done|]. split; simpl.
  - apply lastn_NoDup. apply NoDup_app. split; [done|]. rewrite Hs in Hk. 
    split; [set_solver|apply NoDup_singleton].
  - unfold lastn. rewrite length_drop, length_app. simpl. lia.
Qed.

(** Suppression touches the cache alone, and keeps it. *)
Lemma suppress_spec inner e :
  let '(inner', suppressed) := suppress_duplicate_hook_stop inner e in
  in_inputs inner' = in_inputs inner ∧ in_debounce inner' = in_debounce inner
  ∧ (cache_ok (hook_cache inner) → cache_ok (hook_cache inner'))
  ∧ (suppressed = true ↔ ∃ key, hook_idempotency_key e = Some key ∧ key ∈ in_recent_hook_key_set inner).
Proof.
  unfold suppress_duplicate_hook_stop.
  destruct (hook_idempotency_key e) as [key|].
  2:{ simpl. split_and!; try done. split; [done|by intros (? & ? & _)]. }
  case_bool_decide as Hk.
  { simpl. split_and!; try done. split; [by exists key|done]. }
  destruct (remember_key _ _) as [keys set] eqn:Hr. simpl. split_and!; try done.
  - intros Hok. pose proof (remember_key_ok key _ Hok Hk) as H. unfold hook_cache in H at 1.
    by rewrite Hr in H.
  - split; [done|by intros (? & [= <-] & ?)].
Qed.

Lemma enqueue_cache inner e : hook_cache (enqueue_pending_observation inner e).1 = hook_cache inner.
Proof.
  unfold enqueue_pending_observation. destruct (in_inputs inner); [|done].
  destruct (try_fold_report_edit_tail _ _) as [? []]; [|done].
  destruct (_ <=? _); [|done]. destruct (try_fold_tail _ _ _) as [? []]; [|done].
  by destruct (remove_first _ _).
Qed.

Lemma on_observation_cache now inner e :
  cache_ok (hook_cache inner) → cache_ok (hook_cache (on_observation now inner e).1).
Proof.
  intros Hok. unfold on_observation. set (inner1 := match envelope_id e with Some _ => _ | None => _ end).
  assert (hook_cache inner1 = hook_cache inner) as H1 by (unfold inner1; by destruct (envelope_id e)).
  rewrite <- H1 in Hok. pose proof (suppress_spec inner1 e) as Hs.
  destruct (suppress_duplicate_hook_stop inner1 e) as [inner2 []]; destruct Hs as (_ & _ & Hc & _); [by apply Hc|].
  pose proof (enqueue_cache inner2 e) as H2.
  destruct (enqueue_pending_observation inner2 e) as [inner3 []]; destruct (report_sha256 e);
    simpl in *; unfold hook_cache in *; simpl; rewrite H2; by apply Hc.
Qed.

(** The state of the intake an entry arrives at. *)
Record admits (inner : Inner) (queue : list QueueEntry) (e : QueueEntry) : Prop := {
  admits_queue : in_inputs inner = Historical queue;
  admits_wf : queue_wf CAP queue;
  admits_entry : entry_wf CAP e;
  admits_fresh : NoDup (ids queue ++ ids [e]);
}.

Lemma on_observation_spec now inner queue e :
  admits inner queue e →
  match on_observation now inner e with
  | (inner', Accepted id) =>
      in_debounce inner' = arm_debounce now (is_hard_fire e) (in_debounce inner)
      ∧ ∃ queue', in_inputs inner' = Historical queue' ∧ absorbed CAP queue e queue'
                  ∧ length queue' ≤ Nat.max MAX_PENDING_QUEUE_LEN (length queue)
                  ∧ option_list id ⊆ ids queue'
  | (inner', Rejected) =>
      in_inputs inner' = in_inputs inner ∧ in_debounce inner' = in_debounce inner
      ∧ (no_room queue e ∨ ∃ key, hook_idempotency_key e = Some key ∧ key ∈ in_recent_hook_key_set inner)
  | (_, Unsupported) => False
  end.
Proof.
  intros [Hq Hwf He Hnd]. unfold on_observation.
  set (inner1 := match envelope_id e with Some _ => _ | None => _ end).
  assert (in_inputs inner1 = in_inputs inner ∧ in_debounce inner1 = in_debounce inner
          ∧ in_recent_hook_key_set inner1 = in_recent_hook_key_set inner) as (H1 & H1' & H1'')
    by (unfold inner1; by destruct (envelope_id e)).
  pose proof (suppress_spec inner1 e) as Hs.
  destruct (suppress_duplicate_hook_stop inner1 e) as [inner2 []]; destruct Hs as (H2 & H2' & _ & Hiff).
  { rewrite H2, H2', H1, H1'. repeat split. right. rewrite <- H1''. by apply Hiff. }
  pose proof (enqueue_spec inner2 queue e) as H3.
  destruct (enqueue_pending_observation inner2 e) as [inner3 [| |i]];
    [by apply H3; congruence|destruct H3 as [-> Hr]; [congruence|done..|]|].
  - rewrite H2, H2', H1, H1'. auto.
  - destruct H3 as (Hsame & Hex); [congruence|done..|].
    rewrite <- H1', <- H2'. replace (in_debounce inner2) with (in_debounce inner3) by (by rewrite Hsame).
    destruct (report_sha256 e); by split.
Qed.

(** C32: Intake of one entry. Accepted, it leaves a well-formed queue that still holds
    every message instance the queue held, in order, with its own added at the end;
    the queue is no longer than before or than 256; and the debounce is armed with the
    entry's hard fire. Rejected, queue and debounce are as they were, and the entry was
    a repeated hook or nothing in a full queue could fold with it or make way. *)
Theorem intake_keeps_input now inner queue e :
  admits inner queue e →
  match on_observation now inner e with
  | (inner', Accepted _) =>
      in_debounce inner' = arm_debounce now (is_hard_fire e) (in_debounce inner)
      ∧ ∃ queue', in_inputs inner' = Historical queue' ∧ queue_wf CAP queue'
          ∧ held_messages queue' = held_messages queue ++ message_ids e
          ∧ length queue' ≤ Nat.max MAX_PENDING_QUEUE_LEN (length queue)
  | (inner', Rejected) =>
      in_inputs inner' = in_inputs inner ∧ in_debounce inner' = in_debounce inner
      ∧ (no_room queue e ∨ ∃ key, hook_idempotency_key e = Some key ∧ key ∈ in_recent_hook_key_set inner)
  | (_, Unsupported) => False
  end.
Proof.
  intros H. pose proof (on_observation_spec now inner queue e H) as Hs.
  destruct (on_observation now inner e) as [inner' []]; [done..|].
  destruct Hs as (? & q & ? & [] & ? & _). eauto 10.
Qed.

(** ** The window of hook keys *)

(** The entries offered one after the other: the cache at the end, and the keys that
    were let through, in order. *)
Fixpoint offer_hooks (inner : Inner) (entries : list QueueEntry) : Inner * list str :=
  match entries with
  | [] => (inner, [])
  | e :: rest =>
      let '(inner, suppressed) := suppress_duplicate_hook_stop inner e in
      let '(inner, admitted) := offer_hooks inner rest in
      (inner, match hook_idempotency_key e with
              | Some key => if suppressed then admitted else key :: admitted
              | None => admitted
              end)
  end.

Definition no_hooks (inner : Inner) : Prop := hook_cache inner = ([], ∅).

Lemma offer_hooks_window inner entries log :
  hook_cache inner = (lastn RECENT_HOOK_KEY_CACHE_LEN log, list_to_set (lastn RECENT_HOOK_KEY_CACHE_LEN log)) →
  NoDup (lastn RECENT_HOOK_KEY_CACHE_LEN log) →
  let '(inner', admitted) := offer_hooks inner entries in
  let recent := lastn RECENT_HOOK_KEY_CACHE_LEN (log ++ admitted) in
  hook_cache inner' = (recent, list_to_set recent) ∧ NoDup recent.
Proof.
  revert inner log. induction entries as [|e entries IH]; intros inner log Hc Hnd; simpl.
  { by rewrite app_nil_r. }
  unfold suppress_duplicate_hook_stop. destruct (hook_idempotency_key e) as [key|].
  2:{ specialize (IH inner log Hc Hnd). by destruct (offer_hooks inner entries). }
  case_bool_decide as Hk.
  { specialize (IH inner log Hc Hnd). by destruct (offer_hooks inner entries). }
  assert (cache_ok (hook_cache inner)) as Hok.
  { rewrite Hc. split; [done|]. split; [done|]. simpl. unfold lastn. rewrite length_drop. lia. }
  pose proof (remember_key_ok key (hook_cache inner) Hok Hk) as Hok'.
  assert (remember_key key (hook_cache inner)
    = (lastn RECENT_HOOK_KEY_CACHE_LEN (log ++ [key]), list_to_set (lastn RECENT_HOOK_KEY_CACHE_LEN (log ++ [key])))) as Hr.
  { rewrite remember_key_spec by done. rewrite Hc. simpl. by rewrite lastn_snoc by (unfold RECENT_HOOK_KEY_CACHE_LEN; lia). }
  rewrite Hr in Hok'. destruct Hok' as (_ & Hnd' & _). unfold hook_cache in Hr at 1. rewrite Hr.
  match goal with |- context [offer_hooks ?i entries] => specialize (IH i (log ++ [key]) eq_refl Hnd') end.
  destruct (offer_hooks _ entries) as [inner' admitted]. by rewrite <- app_assoc in IH.
Qed.

(** From an empty cache, over any sequence of offered entries, the cache is exactly
    the last 256 keys let through, without repetition; and the next hook is suppressed
    exactly when its key is among them. *)
Theorem hook_window inner entries e key :
  no_hooks inner → hook_idempotency_key e = Some key →
  let '(inner', admitted) := offer_hooks inner entries in
  let recent := lastn RECENT_HOOK_KEY_CACHE_LEN admitted in
  in_recent_hook_keys inner' = recent ∧ NoDup recent ∧ length recent ≤ RECENT_HOOK_KEY_CACHE_LEN
  ∧ ((suppress_duplicate_hook_stop inner' e).2 = true ↔ key ∈ recent).
Proof.
  intros H0 He. pose proof (offer_hooks_window inner entries []) as H.
  destruct (offer_hooks inner entries) as [inner' admitted]. simpl in H.
  destruct H as [Hc Hnd]; [by rewrite H0|constructor|]. injection Hc as Hk Hs.
  split_and!; [done|done|unfold lastn; rewrite length_drop; lia|].
  pose proof (suppress_spec inner' e) as Hsp.
  destruct (suppress_duplicate_hook_stop inner' e) as [? s]. destruct Hsp as (_ & _ & _ & ->).
  rewrite Hs. setoid_rewrite elem_of_list_to_set. naive_solver.
Qed.

(** ** Durable sends *)

Lemma on_observation_historical now inner queue e :
  in_inputs inner = Historical queue →
  (on_observation now inner e).2 ≠ Unsupported
  ∧ ∃ queue', in_inputs (on_observation now inner e).1 = Historical queue'.
Proof.
  intros Hq. unfold on_observation. set (inner1 := match envelope_id e with Some _ => _ | None => _ end).
  assert (in_inputs inner1 = Historical queue) as H1 by (unfold inner1; by destruct (envelope_id e)).
  pose proof (suppress_spec inner1 e) as Hs.
  destruct (suppress_duplicate_hook_stop inner1 e) as [inner2 []]; destruct Hs as (H2 & _);
    rewrite H1 in H2; [by split; [|exists queue]|].
  assert ((enqueue_pending_observation inner2 e).2 ≠ Unsupported
    ∧ ∃ queue', in_inputs (enqueue_pending_observation inner2 e).1 = Historical queue') as [Hu (q & Hq')].
  { unfold enqueue_pending_observation. rewrite H2.
    destruct (try_fold_report_edit_tail _ _) as [? []]; [|by eauto].
    destruct (_ <=? _); [|by eauto]. destruct (try_fold_tail _ _ _) as [? []]; [|by eauto].
    destruct (remove_first _ _); by eauto. }
  destruct (enqueue_pending_observation inner2 e) as [inner3 []], (report_sha256 e); simpl in *; by eauto.
Qed.

Lemma restore_historical inner queue c :
  in_inputs inner = Historical queue →
  restore_durable_user_message inner c
  = ({ inner with in_inputs := Historical (ck_queue c); in_debounce := ck_debounce c }, Ok tt).
Proof. intros H. unfold restore_durable_user_message, historical_queue. by rewrite H. Qed.

(** What a send that fails leaves. *)
Definition restored (c : Checkpoint) (inner : Inner) : Prop :=
  in_inputs inner = Historical (ck_queue c) ∧ in_debounce inner = ck_debounce c.

Lemma stage_deliveries_spec inner queue c deliveries ack :
  in_inputs inner = Historical queue → queue_wf CAP queue → Forall (λ d, entry_wf CAP d.2) deliveries →
  NoDup (ids queue ++ ids deliveries.*2) → option_list ack ⊆ ids queue →
  match stage_deliveries inner c deliveries ack with
  | (inner', Ok ack') =>
      ∃ queue', in_inputs inner' = Historical queue' ∧ queue_wf CAP queue'
        ∧ held_messages queue' = held_messages queue ++ held_messages deliveries.*2
        ∧ option_list ack' ⊆ ids queue'
  | (inner', Err _) => restored c inner'
  end.
Proof.
  intros Hq Hwf Hd. revert inner queue ack Hq Hwf.
  induction Hd as [|[now e] deliveries He _ IH]; intros inner queue ack Hq Hwf Hnd Hack.
  { exists queue. by rewrite app_nil_r. }
  cbn [stage_deliveries].
  change (((now, e) :: deliveries).*2) with ([e] ++ deliveries.*2) in Hnd |- *.
  rewrite ids_app, app_assoc in Hnd. rewrite held_messages_app. simpl in He.
  change (held_messages [e]) with (message_ids e ++ []). rewrite app_nil_r.
  pose proof (on_observation_spec now inner queue e) as Hs.
  destruct (on_observation_historical now inner queue e Hq) as [_ (q & Hq')].
  destruct (on_observation now inner e) as [inner' [| |i]]; simpl in Hq'.
  - destruct Hs. split; try done. by apply NoDup_app in Hnd as [? _].
  - by rewrite (restore_historical _ q).
  - destruct Hs as (_ & q' & Hq'' & [Hwf' Hheld _ _ Hids] & _ & Hi).
    { split; try done. by apply NoDup_app in Hnd as [? _]. }
    assert (ids queue ⊆ ids q') as Hsub by (destruct Hids as [-> | ->]; set_solver).
    specialize (IH inner' q' (if is_user_authored e then i else ack) Hq'' Hwf').
    destruct (stage_deliveries inner' c deliveries _) as [inner'' []].
    + destruct IH as (q'' & ? & ? & Hh & ?).
      * destruct Hids as [-> | ->]; [|done]. eapply sublist_NoDup; [exact Hnd|].
        rewrite <- app_assoc. apply sublist_app; [done|]. apply sublist_inserts_l. done.
      * destruct (is_user_authored e); set_solver.
      * exists q''. split_and!; try done. rewrite Hh, Hheld, <- app_assoc. done.
    + apply IH; [|destruct (is_user_authored e); set_solver].
      destruct Hids as [-> | ->]; [|done]. eapply sublist_NoDup; [exact Hnd|].
      rewrite <- app_assoc. apply sublist_app; [done|]. by apply sublist_inserts_l.
Qed.

(** C36: A durable send happens wholly or not at all. Acknowledged, it was admitted and
    stored, and the queue holds all it held and every delivery's instances; the id it
    acknowledges addresses an entry of the queue. Refused, whatever failed, queue and
    debounce are as before it. *)
Theorem durable_send_atomic inner queue admitted persist deliveries :
  in_inputs inner = Historical queue → queue_wf CAP queue → Forall (λ d, entry_wf CAP d.2) deliveries →
  NoDup (ids queue ++ ids deliveries.*2) →
  match handle_durable inner admitted persist deliveries with
  | (inner', Ok ack) =>
      admitted = Ok tt ∧ persist ack = Ok tt
      ∧ ∃ queue', in_inputs inner' = Historical queue' ∧ queue_wf CAP queue'
          ∧ held_messages queue' = held_messages queue ++ held_messages deliveries.*2
          ∧ ∀ id, ack = Some id → is_Some (addressable queue' !! id)
  | (inner', Err _) => in_inputs inner' = Historical queue ∧ in_debounce inner' = in_debounce inner
  end.
Proof.
  intros Hq Hwf Hd Hnd. unfold handle_durable. destruct admitted as [[]|]; [|done].
  unfold stage_durable_entries, checkpoint_durable_user_message, historical_queue. rewrite Hq. simpl.
  pose proof (stage_deliveries_spec inner queue (mkCheckpoint queue (in_debounce inner)) deliveries None
    Hq Hwf Hd Hnd) as Hs.
  destruct (stage_deliveries _ _ deliveries None) as [inner' [ack|]]; [|by apply Hs; set_solver].
  destruct Hs as (q & Hq' & ? & ? & Hack); [set_solver|].
  destruct (persist ack) as [[]|] eqn:Hp.
  - split_and!; [done..|]. exists q. split_and!; [done..|]. intros id ->.
    apply not_eq_None_Some. rewrite <- addressable_None. set_solver.
  - by rewrite (restore_historical _ q).
Qed.
