(* ===== verification/HarnessLoop.v ===== *)
(** * The run loop over the queue

    The steps of the actor ([run_loop.rs], [run_loop/issuance.rs]) that move entries:
    intake, durable sends, mutations, a steer taking an entry out, the drain of an
    issuance, and what comes back when the provider does not take it. [lp_out] is what
    the loop has taken out and not yet settled. The invariant [loop_ok] holds along
    every history from a loaded snapshot; so queued input is never stranded. *)

From coqutil Require Import Datatypes.RecordSettersUsingExistingGetters.
From stdpp Require Import prelude gmap strings.
From S2P Require Import Prelude Identity OperationPhase Operations HarnessQueue HarnessSnapshot HarnessIntake IntakeRules.

Local Open Scope calm_scope.












(** ** Every step keeps the invariant *)






(** What a mutation that applies does to the list: it rewrites or removes one entry. *)
Lemma applied_shape queue m queue' applied :
  apply_mutation queue m = (queue', Ok applied) →
  ∃ l1 u l2, queue = l1 ++ User u :: l2 ∧ user_ref (User u) = Some (mkEntryRef (mutation_entry_id m) (if_entry_rev m))
    ∧ ma_queue_now_empty applied = is_empty queue'
    ∧ ma_remaining_hard_fire applied = existsb is_hard_fire queue'
    ∧ match m with
      | Edit _ text _ =>
          ue_rev u ≠ u32_max ∧ ma_change applied = Edited
          ∧ queue' = l1 ++ User { u with ue_text := text; ue_rev := (ue_rev u + 1)%N } :: l2
      | Delete _ _ => ma_change applied = Deleted ∧ queue' = l1 ++ l2
      | Steer _ _ => ma_change applied = Steered ∧ ma_removed applied = Some (User u) ∧ queue' = l1 ++ l2
      end.
Proof.
  unfold apply_mutation.
  destruct (locate_entry queue _ _) as [[index u]|] eqn:Hl; [|done].
  assert (queue !! index = Some (User u)
    ∧ user_ref (User u) = Some (mkEntryRef (mutation_entry_id m) (if_entry_rev m))) as [Hi Href].
  { unfold locate_entry in Hl. destruct (positions _ _ _) as [|i [|]] eqn:Hp; [done| |done].
    destruct (positions_elem (names (mutation_entry_id m)) 0 queue i) as (_ & a & Hi & Hn); [rewrite Hp; left|].
    rewrite Nat.sub_0_r in Hi. rewrite Hi in Hl. destruct a as [v| |]; simpl in Hl; try done.
    unfold names in Hn. simpl in Hn. apply bool_decide_eq_true in Hn; injection Hn as Hn.
    destruct (N.eqb_spec (ue_rev v) (if_entry_rev m)); simplify_eq/=. split; [done|]. unfold user_ref; simpl. congruence. }
  destruct (list_elem_of_split_length _ _ _ Hi) as (l1 & l2 & -> & ->).
  destruct m; simpl; destruct (ue_rev u =? u32_max)%N eqn:Hr; simpl; try done; intros [= <- <-];
    exists l1, u, l2; simpl; rewrite ?insert_middle, ?delete_middle; split_and!; try done.
  by apply N.eqb_neq.
Qed.












(** ** Along every history *)






Lemma addressable_perm q q' : NoDup (ids q) → q ≡ₚ q' → addressable q = addressable q'.
Proof.
  intros Hnd Hp. unfold addressable. apply list_to_map_proper; [by rewrite keyed_ids|]. by rewrite Hp.
Qed.

(** A steer that is not taken loses nothing: the entry comes back at the head of the
    queue under the id and revision the client read, and every other entry is there. *)
Theorem refused_steer_keeps_entry inner queue id rev now inner' e inner'' :
  in_inputs inner = Historical queue → NoDup (ids queue) →
  take_for_steer inner id rev = (inner', Ok (Ok e)) → rebuffer_head now inner' [e] = (inner'', Ok tt) →
  ∃ rest, in_inputs inner'' = Historical (e :: rest) ∧ queue ≡ₚ e :: rest
    ∧ user_ref e = Some (mkEntryRef id rev) ∧ addressable (e :: rest) = addressable queue.
Proof.
  intros Hq Hnd Ht Hr. unfold take_for_steer, historical_queue in Ht. rewrite Hq in Ht.
  destruct (apply_mutation queue _) as [queue' [applied|]] eqn:Ha; [|done].
  destruct (applied_shape _ _ _ _ Ha) as (l1 & u & l2 & Hsplit & Href & _ & _ & _ & Hrem & Hq').
  rewrite Hrem in Ht. injection Ht as <- <-. injection Hr as <-.
  exists queue'. rewrite Hq' in *. assert (queue ≡ₚ User u :: l1 ++ l2) as Hp
    by (rewrite Hsplit; by rewrite Permutation_middle).
  split_and!; [done..|]. by symmetry; apply addressable_perm.
Qed.
