(* ===== verification/HarnessSample.v ===== *)
(** * A concrete queue, and the theorems on it

    One queue with an addressable message, a legacy one, a report edit and a goal; a
    loop over it; and the theorems of [HarnessQueue], [HarnessSnapshot], [IntakeRules] and
    [HarnessLoop] applied there. With the history in which a full queue swallows a
    worker's stop for good. *)

From coqutil Require Import Datatypes.RecordSettersUsingExistingGetters.
From stdpp Require Import prelude gmap strings.
From S2P Require Import Prelude Identity OperationPhase Operations HarnessQueue HarnessSnapshot HarnessIntake IntakeRules HarnessLoop.

Local Open Scope calm_scope.

Definition hello : UserEntry :=
  {| ue_id := lit "q1"; ue_text := lit "hello"; ue_rev := 3; ue_queued_at_ms := 10;
     ue_envelope_id := None; ue_message_ids := [lit "m1"];
     ue_attachments := [mkBoundAttachment (lit "a1") 12 (lit "/a1")] |}.

Definition queue0 : list QueueEntry :=
  [User hello; LegacyUser (lit "old") None []; System (TrackGoal (lit "ship")) (Some 4%Z) []].

Definition reply : QueueEntry := user_message (lit "q2") (lit "m2") 20 (lit "and more") (Some 7%Z) [].

Definition stop : QueueEntry := System (WorkerHookStop (lit "t") (lit "c") CodexStop (lit "k1")) (Some 8%Z) [].

Definition inner0 : Inner := (load_inner 0 0 None (set_pending_entries queue0)).1.

Lemma queue0_wf : queue_wf CAP queue0.
Proof.
  split; [apply (bool_decide_unpack _); by vm_compute|].
  unfold queue0. rewrite !Forall_cons. split_and!; [|done|by split|constructor].
  split_and!; [done|by apply Nat.leb_le|by apply (bool_decide_unpack _)|done].
Qed.

Lemma mutation_refines_cas_witness :
  let '(queue', answer) := apply_mutation queue0 (Edit (lit "q1") (lit "bye") 3) in
  let '(entries', answer') := cas (addressable queue0) (Edit (lit "q1") (lit "bye") 3) in
  queue_refines queue' entries' ∧ answer_of answer = answer' ∧ others (lit "q1") queue' = others (lit "q1") queue0.
Proof.
  apply (mutation_refines_cas queue0 (addressable queue0) (Edit (lit "q1") (lit "bye") 3)).
  split; [apply queue0_wf|done].
Defined.

(** Writers and readers under which the sample's elements read back. *)
Definition sample_codecs : ArrayCodecs := {|
  print_observation o :=
    match o with
    | Some (UserMessage text) => JString text
    | Some (TrackGoal text) => JArray [JString text]
    | _ => JNull
    end;
  parse_observation v :=
    match v with
    | JString text => Some (Some (UserMessage text))
    | JArray [JString text] => Some (Some (TrackGoal text))
    | _ => None
    end;
  print_envelope v := match v with Some z => JInt z | None => JNull end;
  parse_envelope v := match v with JInt z => Some (Some z) | JNull => Some None | _ => None end;
  print_meta m :=
    match m with
    | Some m => JArray (JString (qm_id m) :: JInt (Z.of_N (qm_rev m)) :: JInt (qm_queued_at_ms m)
        :: ((λ a, JArray [JString (ba_id a); JInt (Z.of_N (ba_size a)); JString (ba_path a)]) <$> qm_attachments m))
    | None => JNull
    end;
  parse_meta v :=
    match v with
    | JArray (JString id :: JInt rev :: JInt at_ms :: attachments) =>
        Some (mkQueueEntryMeta id (Z.to_N rev) at_ms
          (omap (λ a, match a with
             | JArray [JString i; JInt s; JString p] => Some (mkBoundAttachment i (Z.to_N s) p)
             | _ => None end) attachments))
    | _ => None
    end;
  print_ids l := JArray (JString <$> l);
  parse_ids v := match v with JArray l => mapM json_as_str l | _ => None end;
|}.

Lemma pending_entries_roundtrip_witness :
  pending_entries (deserialize_pending sample_codecs (serialize_pending sample_codecs (set_pending_entries queue0)))
  = queue0.
Proof.
  apply (pending_entries_roundtrip sample_codecs queue0).
  - unfold queue0. rewrite !Forall_cons. split_and!; [done..|by constructor].
  - unfold queue0. rewrite !Forall_cons. split_and!; [done..|by constructor].
  - apply queue0_wf.
  - apply (bool_decide_unpack _). by vm_compute.
Defined.

Lemma reply_wf : entry_wf CAP reply.
Proof. split_and!; [done|by apply Nat.leb_le|constructor|done]. Qed.

Lemma inner0_queue : in_inputs inner0 = Historical queue0.
Proof. by vm_compute. Qed.

Lemma reply_fresh : NoDup (ids queue0 ++ ids [reply]).
Proof. apply (bool_decide_unpack _). by vm_compute. Qed.

Lemma intake_keeps_input_witness :
  match on_observation 30 inner0 reply with
  | (inner', Accepted _) =>
      in_debounce inner' = arm_debounce 30 (is_hard_fire reply) (in_debounce inner0)
      ∧ ∃ queue', in_inputs inner' = Historical queue' ∧ queue_wf CAP queue'
          ∧ held_messages queue' = held_messages queue0 ++ message_ids reply
          ∧ length queue' ≤ Nat.max MAX_PENDING_QUEUE_LEN (length queue0)
  | (inner', Rejected) =>
      in_inputs inner' = in_inputs inner0 ∧ in_debounce inner' = in_debounce inner0
      ∧ (no_room queue0 reply
         ∨ ∃ key, hook_idempotency_key reply = Some key ∧ key ∈ in_recent_hook_key_set inner0)
  | (_, Unsupported) => False
  end.
Proof.
  apply (intake_keeps_input 30 inner0 queue0 reply).
  split; [apply inner0_queue|apply queue0_wf|apply reply_wf|apply reply_fresh].
Defined.

Lemma hook_window_witness :
  let '(inner', admitted) := offer_hooks inner0 [stop; reply; stop] in
  let recent := lastn RECENT_HOOK_KEY_CACHE_LEN admitted in
  in_recent_hook_keys inner' = recent ∧ NoDup recent ∧ length recent ≤ RECENT_HOOK_KEY_CACHE_LEN
  ∧ ((suppress_duplicate_hook_stop inner' stop).2 = true ↔ lit "k1" ∈ recent).
Proof. apply (hook_window inner0 [stop; reply; stop] stop (lit "k1")); by vm_compute. Defined.

Lemma durable_send_atomic_witness :
  match handle_durable inner0 (Ok tt) (λ _, Ok tt) [(30%Z, reply)] with
  | (inner', Ok ack) =>
      Ok tt = Ok (E := CalmError) tt ∧ Ok tt = Ok (E := CalmError) tt
      ∧ ∃ queue', in_inputs inner' = Historical queue' ∧ queue_wf CAP queue'
          ∧ held_messages queue' = held_messages queue0 ++ held_messages ([(30%Z, reply)].*2)
          ∧ ∀ id, ack = Some id → is_Some (addressable queue' !! id)
  | (inner', Err _) => in_inputs inner' = Historical queue0 ∧ in_debounce inner' = in_debounce inner0
  end.
Proof.
  apply (durable_send_atomic inner0 queue0 (Ok tt) (λ _, Ok tt) [(30%Z, reply)]).
  - apply inner0_queue.
  - apply queue0_wf.
  - apply Forall_singleton, reply_wf.
  - apply reply_fresh.
Defined.







Lemma refused_steer_keeps_entry_witness :
  ∃ rest, in_inputs (rebuffer_head 40 (take_for_steer inner0 (lit "q1") 3).1 [User hello]).1
      = Historical (User hello :: rest)
    ∧ queue0 ≡ₚ User hello :: rest
    ∧ user_ref (User hello) = Some (mkEntryRef (lit "q1") 3) ∧ addressable (User hello :: rest) = addressable queue0.
Proof.
  apply (refused_steer_keeps_entry inner0 queue0 (lit "q1") 3 40 (take_for_steer inner0 (lit "q1") 3).1 (User hello)).
  - apply inner0_queue.
  - apply queue0_wf.
  - by vm_compute.
  - by vm_compute.
Defined.

(** A queue full of entries that may not be evicted. *)
Definition full_inner : Inner :=
  { inner0 with in_inputs := Historical (replicate MAX_PENDING_QUEUE_LEN (System (SystemContext []) None [])) }.

(** A worker's stop that a full queue refuses is remembered all the same: once the queue
    has been drained, the retry with the same key is taken for a repetition. *)
Example full_queue_swallows_hook :
  let '(refused, outcome) := on_observation 1 full_inner stop in
  let '(emptied, _) := drain refused in
  let '(retried, outcome') := on_observation 2 emptied stop in
  outcome = Rejected ∧ outcome' = Rejected ∧ in_inputs retried = Historical [].
Proof. by vm_compute. Qed.
