(* ===== verification/Events.v ===== *)
(** * Events and their scopes

    Models the event surface of [crates/calm-types/src/event.rs]: [EventScope] and
    its persisted row form, the [Event] variants with the fields that identify and
    route an event, the classifier [Event::metadata], the stored tag
    [Event::kind_tag] and the subscription [topics]. Payload fields that none of
    these functions reads (texts, hashes, counters, JSON bodies) are left out of
    the constructors. *)

From stdpp Require Import prelude gmap strings.
From S2P Require Import Prelude Identity.

(** ** Scopes *)

Inductive EventScope :=
| System
| Area (area : AreaId)
| Track (track : TrackId) (area : AreaId)
| Card (card : CardId) (track : TrackId) (area : AreaId).

#[export] Instance EventScope_eq_dec : EqDecision EventScope.
Proof. solve_decision. Defined.

Definition scope_kind (s : EventScope) : str :=
  match s with
  | System => lit "system" | Area _ => lit "area" | Track _ _ => lit "track" | Card _ _ _ => lit "card"
  end.

Definition scope_area_id (s : EventScope) : option AreaId :=
  match s with System => None | Area a | Track _ a | Card _ _ a => Some a end.

Definition scope_track_id (s : EventScope) : option TrackId :=
  match s with System | Area _ => None | Track t _ | Card _ t _ => Some t end.

Definition scope_card_id (s : EventScope) : option CardId :=
  match s with Card c _ _ => Some c | _ => None end.

(** [EventScope::from_row]: malformed or incomplete rows fall back to [System]. *)
Definition from_row (kind area track card : option str) : EventScope :=
  let k := default (lit "system") kind in
  if bool_decide (k = lit "area") then
    match area with Some c => Area c | None => System end
  else if bool_decide (k = lit "track") then
    match track, area with Some w, Some c => Track w c | _, _ => System end
  else if bool_decide (k = lit "card") then
    match card, track, area with Some d, Some w, Some c => Card d w c | _, _, _ => System end
  else System.

(** ** Events *)

Inductive PlannerNotification := Notify | Suppress | Legacy.
#[export] Instance PlannerNotification_eq_dec : EqDecision PlannerNotification.
Proof. solve_decision. Defined.

Inductive Event :=
| AreaUpdated (id : AreaId)
| AreaDeleted (id : AreaId)
| TrackUpdated (id : TrackId) (area_id : AreaId)
| TrackDeleted (id : TrackId) (area_id : AreaId)
| CardAdded (id : CardId) (track_id : TrackId)
| CardUpdated (id : CardId) (track_id : TrackId)
| CardDeleted (id : CardId) (track_id : TrackId)
| WorkerSessionStarted (worker_session_id : str) (card_id : str)
| WorkerSessionStatusChanged (worker_session_id : str) (card_id : str)
    (old_status new_status : WorkerSessionState)
| WorkerSessionSuperseded (old_worker_session_id new_worker_session_id : str) (card_id : str)
| HarnessItemAdded (worker_session_id : str) (card_id : CardId) (track_id : TrackId)
| HarnessPhaseChanged (worker_session_id : str) (card_id : CardId) (track_id : TrackId)
| HarnessTranscriptCleared (worker_session_id : str) (card_id : CardId) (track_id : TrackId)
| HarnessTranscriptRewound (worker_session_id : str) (card_id : CardId) (track_id : TrackId)
| HarnessUserMessageEnqueued (worker_session_id : str) (card_id : CardId) (track_id : TrackId)
| HarnessQueueChanged (worker_session_id : str) (card_id : CardId) (track_id : TrackId) (actor : ActorId)
| TrackReportEdited (track_id : TrackId) (card_id : CardId)
| TrackWakeRequested (track_id : TrackId)
| AssistantInputRequested (card_id : CardId) (track_id : TrackId)
| OverlaySet (plugin_id entity_kind entity_id : str)
| OverlayDeleted (plugin_id entity_kind entity_id : str)
| TerminalDeleted (id : str) (card_id : CardId)
| PluginState (id : str)
| PluginDataChanged (plugin_id : str)
| PluginToolRegistered (plugin_id tool_name : str)
| CodexHook (card_id : CardId)
| ClaudeHook (card_id : CardId)
| CodexWorkerRequested (idempotency_key : str)
| TerminalWorkerRequested (idempotency_key : str)
| TaskCompleted (notification : PlannerNotification) (idempotency_key : str)
| TaskFailed (notification : PlannerNotification) (idempotency_key : str)
| TaskGitDeliverySettled (task_id idempotency_key : str) (track_id : TrackId) (card_id : CardId)
| PlanUpdated (track_id : TrackId) (changed_keys : list str)
| TaskDispatched (idempotency_key : str)
| TaskContextFrozen (track_id : TrackId) (task_id : str)
| TaskContextAdvanced (track_id : TrackId) (task_id : str)
| WorkspaceLeased (track_id : TrackId) (card_id : CardId) (lease_id : str)
| WorkspaceReleased (track_id : TrackId) (card_id : CardId) (lease_id : str)
| ForgePrMerged (track_id : TrackId)
| AskRequested (track_id : TrackId)
| AskAnswered (ask_id : Z) (track_id : TrackId)
| AskWithdrawn (ask_id : Z) (track_id : TrackId)
| ProposalSubmitted (track_id : TrackId) (proposal_id plugin_id : str)
| ProposalResolved (track_id : TrackId) (proposal_id plugin_id : str) (decision : ProposalDecision)
| ForgeScanCompleted (track_id : TrackId)
| ForgePrOpened (track_id : TrackId) (pr_number : N)
| ForgePrPublished (track_id : TrackId) (pr_number : N)
| ForgePrDiffRead (track_id : TrackId) (pr_number : N)
| ForgePrChecks (track_id : TrackId) (pr_number : N)
| ForgeCiEvidenceRead (track_id : TrackId) (pr_number : N)
| ForgeIssueRead (track_id : TrackId) (issue_number : N)
| ForgeIssueCreated (track_id : TrackId) (issue_number : N)
| ForgeIssueSearched (track_id : TrackId)
| ForgeIssueClosed (track_id : TrackId) (issue_number : N)
| WorktreeProvisioned (track_id : TrackId) (card_id : CardId)
| WorktreeCommitted (track_id : TrackId) (card_id : CardId)
| WorktreeRemoved (track_id : TrackId) (card_id : CardId)
| TaskGateResult (task_id idempotency_key : str)
| TaskRegateRequested (attempt_id : str)
| HarnessPresentationChanged (card_id : CardId) (track_id : TrackId).

(** [Event::kind_tag]. *)
Definition kind_tag (e : Event) : str :=
  match e with
  | AreaUpdated _ => lit "area.updated"
  | AreaDeleted _ => lit "area.deleted"
  | TrackUpdated _ _ => lit "track.updated"
  | TrackDeleted _ _ => lit "track.deleted"
  | CardAdded _ _ => lit "card.added"
  | CardUpdated _ _ => lit "card.updated"
  | CardDeleted _ _ => lit "card.deleted"
  | WorkerSessionStarted _ _ => lit "worker_session.started"
  | WorkerSessionStatusChanged _ _ _ _ => lit "worker_session.status_changed"
  | WorkerSessionSuperseded _ _ _ => lit "worker_session.superseded"
  | HarnessPresentationChanged _ _ => lit "harness.presentation.changed"
  | HarnessItemAdded _ _ _ => lit "harness.item.added"
  | HarnessPhaseChanged _ _ _ => lit "harness.phase.changed"
  | HarnessTranscriptCleared _ _ _ => lit "harness.transcript.cleared"
  | HarnessTranscriptRewound _ _ _ => lit "harness.transcript.rewound"
  | HarnessUserMessageEnqueued _ _ _ => lit "harness.user_message.enqueued"
  | HarnessQueueChanged _ _ _ _ => lit "harness.queue.changed"
  | TrackReportEdited _ _ => lit "track.report_edited"
  | TrackWakeRequested _ => lit "track.wake_requested"
  | AssistantInputRequested _ _ => lit "assistant.input_requested"
  | OverlaySet _ _ _ => lit "overlay.set"
  | OverlayDeleted _ _ _ => lit "overlay.deleted"
  | TerminalDeleted _ _ => lit "terminal.deleted"
  | PluginState _ => lit "plugin.state"
  | PluginToolRegistered _ _ => lit "plugin.tool.registered"
  | PluginDataChanged _ => lit "plugin.data.changed"
  | CodexHook _ => lit "codex.hook"
  | ClaudeHook _ => lit "claude.hook"
  | CodexWorkerRequested _ => lit "codex.worker_requested"
  | TerminalWorkerRequested _ => lit "terminal.worker_requested"
  | TaskCompleted _ _ => lit "task.completed"
  | TaskFailed _ _ => lit "task.failed"
  | PlanUpdated _ _ => lit "plan.updated"
  | TaskDispatched _ => lit "task.dispatched"
  | TaskGitDeliverySettled _ _ _ _ => lit "task.git_delivery_settled"
  | TaskContextFrozen _ _ => lit "task.context_frozen"
  | TaskContextAdvanced _ _ => lit "task.context_advanced"
  | WorkspaceLeased _ _ _ => lit "workspace.leased"
  | WorkspaceReleased _ _ _ => lit "workspace.released"
  | ForgePrMerged _ => lit "forge.pr.merged"
  | AskRequested _ => lit "ask.requested"
  | AskAnswered _ _ => lit "ask.answered"
  | AskWithdrawn _ _ => lit "ask.withdrawn"
  | ProposalSubmitted _ _ _ => lit "proposal.submitted"
  | ProposalResolved _ _ _ _ => lit "proposal.resolved"
  | ForgeScanCompleted _ => lit "forge.scan.completed"
  | ForgePrOpened _ _ => lit "forge.pr.opened"
  | ForgePrPublished _ _ => lit "forge.pr.published"
  | ForgePrDiffRead _ _ => lit "forge.pr.diff.read"
  | ForgePrChecks _ _ => lit "forge.pr.checks"
  | ForgeCiEvidenceRead _ _ => lit "forge.ci.evidence.read"
  | ForgeIssueRead _ _ => lit "forge.issue.read"
  | ForgeIssueCreated _ _ => lit "forge.issue.created"
  | ForgeIssueSearched _ => lit "forge.issue.searched"
  | ForgeIssueClosed _ _ => lit "forge.issue.closed"
  | WorktreeProvisioned _ _ => lit "worktree.provisioned"
  | WorktreeCommitted _ _ => lit "worktree.committed"
  | WorktreeRemoved _ _ => lit "worktree.removed"
  | TaskGateResult _ _ => lit "task.gate_result"
  | TaskRegateRequested _ => lit "task.regate_requested"
  end.

Record EventMetadata := mkEventMetadata {
  em_kind_tag : str;
  em_plugin_id : option str;
  em_entity_kind : option str;
  em_entity_id : option str;
}.

(** [Event::metadata]. *)
Definition metadata (e : Event) : EventMetadata :=
  let tag := kind_tag e in
  let on (kind : string) (id : str) := mkEventMetadata tag None (Some (lit kind)) (Some id) in
  let bare := mkEventMetadata tag None None None in
  match e with
  | AreaUpdated id | AreaDeleted id => mkEventMetadata tag None None (Some id)
  | TrackUpdated id _ | TrackDeleted id _ => on "track" id
  | CardAdded id _ | CardUpdated id _ | CardDeleted id _ => on "card" id
  | WorkerSessionStarted _ c | WorkerSessionStatusChanged _ c _ _ | WorkerSessionSuperseded _ _ c =>
      on "card" c
  | HarnessPresentationChanged c _ | HarnessItemAdded _ c _ | HarnessPhaseChanged _ c _
  | HarnessTranscriptCleared _ c _ | HarnessTranscriptRewound _ c _
  | HarnessUserMessageEnqueued _ c _ | HarnessQueueChanged _ c _ _ => on "card" c
  | TrackReportEdited _ c => on "card" c
  | AssistantInputRequested c _ => on "card" c
  | TrackWakeRequested t => on "track" t
  | OverlaySet p k i | OverlayDeleted p k i => mkEventMetadata tag (Some p) (Some k) (Some i)
  | TerminalDeleted id _ => mkEventMetadata tag None None (Some id)
  | PluginState id => mkEventMetadata tag (Some id) None (Some id)
  | PluginDataChanged p | PluginToolRegistered p _ => mkEventMetadata tag (Some p) None (Some p)
  | CodexHook c | ClaudeHook c => on "card" c
  | CodexWorkerRequested _ | TerminalWorkerRequested _ | TaskCompleted _ _ | TaskFailed _ _ => bare
  | PlanUpdated t _ => on "track" t
  | TaskDispatched _ | TaskGitDeliverySettled _ _ _ _ => bare
  | TaskContextFrozen _ _ | TaskContextAdvanced _ _ => bare
  | WorkspaceLeased _ c _ | WorkspaceReleased _ c _ => on "card" c
  | ForgePrMerged t | AskRequested t | AskAnswered _ t | AskWithdrawn _ t | ForgeScanCompleted t
  | ForgePrOpened t _ | ForgePrPublished t _ | ForgePrDiffRead t _ | ForgePrChecks t _
  | ForgeCiEvidenceRead t _ | ForgeIssueRead t _ | ForgeIssueCreated t _ | ForgeIssueSearched t
  | ForgeIssueClosed t _ => on "track" t
  | ProposalSubmitted t _ p | ProposalResolved t _ p _ =>
      mkEventMetadata tag (Some p) (Some (lit "track")) (Some t)
  | WorktreeProvisioned _ c | WorktreeCommitted _ c | WorktreeRemoved _ c => on "card" c
  | TaskGateResult _ _ | TaskRegateRequested _ => bare
  end.

(** [Event::task_notification]. *)
Definition task_notification (e : Event) : option PlannerNotification :=
  match e with TaskCompleted n _ | TaskFailed n _ => Some n | _ => None end.

(** A topic [<prefix>:<id>], and the two wildcard topics. *)
Definition topic (prefix : str) (id : str) : str := prefix ++ lit ":" ++ id.
Definition star : str := lit "*".
Definition plugin_star : str := lit "plugin:*".

(** [topics]. *)
Definition topics (e : Event) : list str :=
  let area := topic (lit "area") in
  let track := topic (lit "track") in
  let card := topic (lit "card") in
  let plugin := topic (lit "plugin") in
  match e with
  | AreaUpdated id | AreaDeleted id => [area id; star]
  | TrackUpdated id a | TrackDeleted id a => [track id; area a; star]
  | CardAdded id t | CardUpdated id t | CardDeleted id t => [card id; track t; star]
  | WorkerSessionStarted _ c | WorkerSessionStatusChanged _ c _ _ | WorkerSessionSuperseded _ _ c =>
      [card c; star]
  | HarnessPresentationChanged c t | HarnessItemAdded _ c t | HarnessPhaseChanged _ c t
  | HarnessTranscriptCleared _ c t | HarnessTranscriptRewound _ c t
  | HarnessUserMessageEnqueued _ c t | HarnessQueueChanged _ c t _ => [card c; track t; star]
  | TrackReportEdited t c => [card c; track t; star]
  | OverlaySet p k i | OverlayDeleted p k i => [topic k i; plugin p; plugin_star; star]
  | TerminalDeleted id _ => [topic (lit "terminal") id; star]
  | PluginState id => [plugin id; plugin_star; star]
  | PluginDataChanged p | PluginToolRegistered p _ => [plugin p; plugin_star; star]
  | CodexHook c | ClaudeHook c => [card c; star]
  | CodexWorkerRequested _ | TerminalWorkerRequested _ | TaskCompleted _ _ | TaskFailed _ _
  | TaskDispatched _ | TaskGitDeliverySettled _ _ _ _ | TaskContextFrozen _ _
  | TaskContextAdvanced _ _ | TaskGateResult _ _ | TaskRegateRequested _ => [star]
  | WorkspaceLeased t c _ | WorkspaceReleased t c _ => [card c; track t; star]
  | ForgePrMerged t | AskRequested t | AskAnswered _ t | AskWithdrawn _ t | ForgeScanCompleted t
  | ForgePrOpened t _ | ForgePrPublished t _ | ForgePrDiffRead t _ | ForgePrChecks t _
  | ForgeCiEvidenceRead t _ | ForgeIssueRead t _ | ForgeIssueCreated t _ | ForgeIssueSearched t
  | ForgeIssueClosed t _ => [track t; star]
  | ProposalSubmitted t _ p | ProposalResolved t _ p _ => [track t; plugin p; plugin_star; star]
  | WorktreeProvisioned t c | WorktreeCommitted t c | WorktreeRemoved t c => [card c; track t; star]
  | AssistantInputRequested c t => [card c; track t; star]
  | PlanUpdated t _ | TrackWakeRequested t => [track t; star]
  end.

(** ** Facts *)

(** The persisted row of a scope loses nothing: rebuilding a scope from its kind
    and its ancestor ids gives it back; and a scope rebuilt from any row, complete or
    not, only carries ids the row has, a track always with its area and a card always
    with its track. *)
Theorem scope_row_roundtrip :
  (∀ s, from_row (Some (scope_kind s)) (scope_area_id s) (scope_track_id s) (scope_card_id s) = s) ∧
  (∀ kind area track card, let s := from_row kind area track card in
     (is_Some (scope_area_id s) → scope_area_id s = area) ∧
     (is_Some (scope_track_id s) → scope_track_id s = track ∧ scope_area_id s = area) ∧
     (is_Some (scope_card_id s) → scope_card_id s = card ∧ scope_track_id s = track)).
Proof.
  split; [by intros []|]. intros kind area track card. cbn zeta. unfold from_row.
  repeat case_bool_decide; destruct area, track, card; simpl;
    (split; [|split]); intros Hs; done || by destruct Hs.
Qed.

(** An event reaches the subscribers of the entity it is about: every event is on
    the catch-all topic, an event the classifier attributes to an entity kind and id
    is on the topic of that entity, and an event attributed to a plugin is on the
    plugin's topic and on the all-plugins topic. *)
Theorem topics_cover_metadata e :
  star ∈ topics e ∧
  (∀ k i, em_entity_kind (metadata e) = Some k → em_entity_id (metadata e) = Some i →
          topic k i ∈ topics e) ∧
  (∀ p, em_plugin_id (metadata e) = Some p → topic (lit "plugin") p ∈ topics e ∧ plugin_star ∈ topics e).
Proof.
  destruct e; cbn [metadata topics em_entity_kind em_entity_id em_plugin_id];
    (split; [set_solver|]); (split; [intros k i [=] [=]|intros p [=]]); subst; set_solver.
Qed.
