(* ===== verification/Caches.v ===== *)
(** * The authorization caches

    Models [crates/calm-truth/src/card_role_cache.rs] and
    [crates/calm-truth/src/track_area_cache.rs]. Both wrap one map behind a lock
    (or a concurrent map) and every operation runs under it, so a cache is a value
    and an operation a function on it. The SQL queries of the boot-time seeds are
    arguments: the rows they return, or their error. *)

From stdpp Require Import prelude gmap strings.
From S2P Require Import Prelude Identity.

Record CardCacheEntry := mkCardCacheEntry { cce_role : CardRole; cce_track_id : TrackId }.

Abbreviation CardRoleCache := (gmap CardId CardCacheEntry).
Abbreviation TrackAreaCache := (gmap TrackId AreaId).

(** What a failed query or an undecodable row surfaces. *)
Inductive TruthError :=
| Sqlx
| Decode (message : str)
| Internal (message : str)
| SerdeJson
| Forbidden (message : str)
| NotFound (message : str)
| Conflict (message : str)
| BadRequest (message : str).

Module CardRoles.
Definition new : CardRoleCache := ∅.

Definition get (c : CardRoleCache) (id : CardId) : option CardRole := cce_role <$> c !! id.

Definition track_of (c : CardRoleCache) (id : CardId) : option TrackId := cce_track_id <$> c !! id.

Definition insert (c : CardRoleCache) (id : CardId) (role : CardRole) (track_id : TrackId)
  : CardRoleCache :=
  <[id := mkCardCacheEntry role track_id]> c.

(** Both entries are published under one write lock: no state in between is seen. *)
Definition publish_pair (c : CardRoleCache) (old new : CardId * CardCacheEntry) : CardRoleCache :=
  <[new.1 := new.2]> (<[old.1 := old.2]> c).

Definition roles_snapshot (c : CardRoleCache) (ids : list CardId) : gmap CardId CardRole :=
  foldl (λ m id, match c !! id with Some e => <[id := cce_role e]> m | None => m end) ∅ ids.

Definition remove (c : CardRoleCache) (id : CardId) : CardRoleCache := delete id c.

Definition len (c : CardRoleCache) : nat := size c.

Definition is_empty (c : CardRoleCache) : bool := bool_decide (c = ∅).

(** The loop of [seed_from_db]: decode each row, or stop at the first that fails. *)
Fixpoint seed_rows (rows : list (str * str * str)) (entries : CardRoleCache)
  : result CardRoleCache TruthError :=
  match rows with
  | [] => Ok entries
  | (id, role, track_id) :: rest =>
      match card_role_try_from role with
      | Err e => Err (Decode e)
      | Ok r => seed_rows rest (<[id := mkCardCacheEntry r track_id]> entries)
      end
  end.

(** [seed_from_db]: the whole map is replaced once every row has been decoded. *)
Definition seed_from_db (c : CardRoleCache) (fetched : result (list (str * str * str)) TruthError)
  : CardRoleCache * result unit TruthError :=
  match fetched with
  | Err e => (c, Err e)
  | Ok rows =>
      match seed_rows rows ∅ with
      | Err e => (c, Err e)
      | Ok entries => (entries, Ok tt)
      end
  end.
End CardRoles.

Module TrackAreas.
Definition new : TrackAreaCache := ∅.

Definition area_of (c : TrackAreaCache) (id : TrackId) : option AreaId := c !! id.

Definition insert (c : TrackAreaCache) (track : TrackId) (area : AreaId) : TrackAreaCache :=
  <[track := area]> c.

Definition remove (c : TrackAreaCache) (track : TrackId) : TrackAreaCache := delete track c.

Definition len (c : TrackAreaCache) : nat := size c.

Definition is_empty (c : TrackAreaCache) : bool := bool_decide (c = ∅).

(** [seed_from_db] clears before it queries. *)
Definition seed_from_db (c : TrackAreaCache) (fetched : result (list (str * str)) TruthError)
  : TrackAreaCache * result unit TruthError :=
  let cleared : TrackAreaCache := ∅ in
  match fetched with
  | Err e => (cleared, Err e)
  | Ok rows => (foldl (λ m row, <[row.1 := row.2]> m) cleared rows, Ok tt)
  end.
End TrackAreas.

(** ** Facts *)

Lemma roles_snapshot_lookup c ids id :
  CardRoles.roles_snapshot c ids !! id =
  if bool_decide (id ∈ ids) then CardRoles.get c id else None.
Proof.
  unfold CardRoles.roles_snapshot, CardRoles.get.
  induction ids as [|x ids IH] using rev_ind; [done|].
  rewrite foldl_app. simpl. destruct (decide (x = id)) as [->|Hne].
  - rewrite bool_decide_true by set_solver. destruct (c !! id) as [e|] eqn:E; simpl.
    + apply lookup_insert_eq.
    + rewrite IH. by destruct (bool_decide _).
  - assert (bool_decide (id ∈ ids ++ [x]) = bool_decide (id ∈ ids)) as ->.
    { apply bool_decide_ext. set_solver. }
    destruct (c !! x); [by rewrite lookup_insert_ne|done].
Qed.

(** After the two entries of a switch are published (with distinct ids), every
    snapshot gives the new role of both cards, and all other cards are as they were. *)
Lemma publish_pair_lookup c a ea b eb ids id :
  a ≠ b →
  let c' := CardRoles.publish_pair c (a, ea) (b, eb) in
  CardRoles.roles_snapshot c' ids !! id =
  if bool_decide (id ∈ ids) then
    if bool_decide (id = a) then Some (cce_role ea)
    else if bool_decide (id = b) then Some (cce_role eb)
    else CardRoles.get c id
  else None.
Proof.
  intros Hab. cbn zeta. rewrite roles_snapshot_lookup. case_bool_decide; [|done].
  unfold CardRoles.get, CardRoles.publish_pair. simpl. repeat case_bool_decide; subst.
  - by rewrite lookup_insert_ne, lookup_insert_eq.
  - by rewrite lookup_insert_eq.
  - by rewrite !lookup_insert_ne.
Qed.

(** One row of the cards table, decoded. *)
Definition decodes (row : str * str * str) (e : CardCacheEntry) : Prop :=
  card_role_try_from row.1.2 = Ok (cce_role e) ∧ row.2 = cce_track_id e.

Lemma seed_rows_lookup rows entries c :
  NoDup (rows.*1).*1 → (∀ id, id ∈ (rows.*1).*1 → entries !! id = None) →
  CardRoles.seed_rows rows entries = Ok c →
  ∀ id e, c !! id = Some e ↔
          entries !! id = Some e ∨ ∃ row, row ∈ rows ∧ row.1.1 = id ∧ decodes row e.
Proof.
  revert entries. induction rows as [|[[id' role] track] rows IH]; intros entries Hnd Hfresh; simpl.
  { intros [= <-] id e. split; [by left|]. intros [|(? & ?%not_elem_of_nil & _)]; done. }
  destruct (card_role_try_from role) as [r|] eqn:Hr; [|done]. intros Hs id e.
  cbn [fmap list_fmap fst] in Hnd. apply NoDup_cons in Hnd as [Hni Hnd].
  assert (entries !! id' = None) as Hid' by (apply Hfresh; simpl; by left).
  rewrite (IH (<[id' := mkCardCacheEntry r track]> entries) Hnd); [|intros x Hx|done].
  2: { rewrite lookup_insert_ne; [apply Hfresh; simpl; by right|]. intros ->. done. }
  rewrite lookup_insert_Some. split.
  - intros [[[<- <-]|[Hne He]]|(row & Hin & ? & ?)]; [|by left|].
    + right. exists (id', role, track). split; [by left|done].
    + right. exists row. split; [by right|done].
  - intros [He|(row & [->|Hin]%elem_of_cons & <- & Hd)].
    + left. right. split; [|done]. intros ->. congruence.
    + left. left. split; [done|]. destruct Hd as [Hd1 Hd2]. simpl in *.
      destruct e. simpl in *. congruence.
    + right. by exists row.
Qed.

Lemma seed_rows_is_Ok rows entries :
  (∃ c, CardRoles.seed_rows rows entries = Ok c) ↔
  Forall (λ row, ∃ r, card_role_try_from row.1.2 = Ok r) rows.
Proof.
  revert entries. induction rows as [|[[id role] track] rows IH]; intros entries; simpl.
  - split; [constructor|by eauto].
  - rewrite Forall_cons. simpl. destruct (card_role_try_from role) as [r|].
    + rewrite IH. naive_solver.
    + split; [by intros [? [=]]|by intros [[? [=]] _]].
Qed.

(** The boot-time seed of the role cache gives exactly the table: with the primary
    key unique it succeeds if and only if every role text decodes, and then a card is
    in the cache with a role and a home track exactly when its row says so, whatever
    was cached before; when the query or one row fails, the cache is left as it was. *)
Theorem seed_from_db_exact c rows :
  NoDup (rows.*1).*1 →
  (Forall (λ row, ∃ r, card_role_try_from row.1.2 = Ok r) rows →
     ∃ c', CardRoles.seed_from_db c (Ok rows) = (c', Ok tt) ∧
           ∀ id e, c' !! id = Some e ↔ ∃ row, row ∈ rows ∧ row.1.1 = id ∧ decodes row e) ∧
  (¬ Forall (λ row, ∃ r, card_role_try_from row.1.2 = Ok r) rows →
     ∃ err, CardRoles.seed_from_db c (Ok rows) = (c, Err err)) ∧
  (∀ err, CardRoles.seed_from_db c (Err err) = (c, Err err)).
Proof.
  intros Hnd. unfold CardRoles.seed_from_db. split; [|split; [|done]].
  - intros Hall. apply (seed_rows_is_Ok rows ∅) in Hall as [c' Hc']. rewrite Hc'.
    exists c'. split; [done|]. intros id e.
    rewrite (seed_rows_lookup rows ∅ c' Hnd); [|done..]. rewrite lookup_empty. naive_solver.
  - intros Hn. rewrite <-(seed_rows_is_Ok rows ∅) in Hn.
    destruct (CardRoles.seed_rows rows ∅) as [c'|err]; [|by exists err]. destruct Hn. eauto.
Qed.

Lemma seed_from_db_exact_witness :
  let rows := [(lit "a", lit "worker", lit "t1"); (lit "b", lit "planner", lit "t1")] in
  ∃ c', CardRoles.seed_from_db ∅ (Ok rows) = (c', Ok tt) ∧
        ∀ id e, c' !! id = Some e ↔ ∃ row, row ∈ rows ∧ row.1.1 = id ∧ decodes row e.
Proof.
  apply seed_from_db_exact.
  - apply (bool_decide_eq_true_1 _). vm_compute. reflexivity.
  - repeat constructor; simpl; eexists; vm_compute; reflexivity.
Defined.
