(* ===== verification/SessionRow.v ===== *)
(** * Worker-session rows

    Models [crates/calm-truth/src/db/sqlite/session_row.rs]: the rows of the table
    [worker_sessions], their decoding, and the operations that insert, observe and
    move a session through its states or change its credential. A transaction is a
    state monad with errors over the table; a statement the schema refuses fails
    with a database error. The schema's own constraints on this table (migration
    0163) are [schema_ok]; foreign keys and the triggers of other tables are the
    argument [foreign]. Text is decoded and encoded by [serde_json], which stands as
    the arguments [parse_json] and [print_json]. Not modelled: the two columns these
    functions neither read nor write ([queue_harvested_at_ms], [failure_epoch]), the
    tables [tracks] and [card_mcp_tokens], and debug logging. *)

From stdpp Require Import prelude gmap strings.
From S2P Require Import Prelude Db Identity Caches.

(** ** Rows

    The table maps the primary key [id] to the other columns. *)

Record SessionRow := mkSessionRow {
  r_track_id : str;
  r_provider : str;
  r_mode : str;
  r_contract : str;
  r_parent_session_id : option str;
  r_requester_session_id : option str;
  r_state : str;
  r_mcp_token_hash : option str;
  r_thread_id : option str;
  r_agent_session_id : option str;
  r_active_turn_id : option str;
  r_terminal_run_id : option str;
  r_card_id : option str;
  r_handle_state_json : option str;
  r_liveness : str;
  r_liveness_probed_at_ms : option Z;
  r_exit_code : option Z;
  r_exit_interpretation : option str;
  r_spawn_op_id : option str;
  r_last_activity_ms : option Z;
  r_last_thread_status : option str;
  r_created_at_ms : Z;
  r_updated_at_ms : Z;
  r_completed_at_ms : option Z;
  r_last_turn_completed_ms : option Z;
  r_provider_execution_json : option str;
}.

Abbreviation Sessions := (gmap WorkerSessionId SessionRow).

(** The columns each [UPDATE] sets. *)

Definition set_token (h : option str) (r : SessionRow) : SessionRow :=
  {| r_track_id := r_track_id r; r_provider := r_provider r; r_mode := r_mode r;
     r_contract := r_contract r; r_parent_session_id := r_parent_session_id r;
     r_requester_session_id := r_requester_session_id r; r_state := r_state r;
     r_mcp_token_hash := h; r_thread_id := r_thread_id r;
     r_agent_session_id := r_agent_session_id r; r_active_turn_id := r_active_turn_id r;
     r_terminal_run_id := r_terminal_run_id r; r_card_id := r_card_id r;
     r_handle_state_json := r_handle_state_json r; r_liveness := r_liveness r;
     r_liveness_probed_at_ms := r_liveness_probed_at_ms r; r_exit_code := r_exit_code r;
     r_exit_interpretation := r_exit_interpretation r; r_spawn_op_id := r_spawn_op_id r;
     r_last_activity_ms := r_last_activity_ms r;
     r_last_thread_status := r_last_thread_status r; r_created_at_ms := r_created_at_ms r;
     r_updated_at_ms := r_updated_at_ms r; r_completed_at_ms := r_completed_at_ms r;
     r_last_turn_completed_ms := r_last_turn_completed_ms r;
     r_provider_execution_json := r_provider_execution_json r |}.

Definition set_liveness (tag : LivenessTag) (probed_at_ms : Z) (r : SessionRow) : SessionRow :=
  {| r_track_id := r_track_id r; r_provider := r_provider r; r_mode := r_mode r;
     r_contract := r_contract r; r_parent_session_id := r_parent_session_id r;
     r_requester_session_id := r_requester_session_id r; r_state := r_state r;
     r_mcp_token_hash := r_mcp_token_hash r; r_thread_id := r_thread_id r;
     r_agent_session_id := r_agent_session_id r; r_active_turn_id := r_active_turn_id r;
     r_terminal_run_id := r_terminal_run_id r; r_card_id := r_card_id r;
     r_handle_state_json := r_handle_state_json r; r_liveness := liveness_str tag;
     r_liveness_probed_at_ms := Some probed_at_ms; r_exit_code := r_exit_code r;
     r_exit_interpretation := r_exit_interpretation r; r_spawn_op_id := r_spawn_op_id r;
     r_last_activity_ms := r_last_activity_ms r;
     r_last_thread_status := r_last_thread_status r; r_created_at_ms := r_created_at_ms r;
     r_updated_at_ms := r_updated_at_ms r; r_completed_at_ms := r_completed_at_ms r;
     r_last_turn_completed_ms := r_last_turn_completed_ms r;
     r_provider_execution_json := r_provider_execution_json r |}.

Definition set_activity (last_activity_ms : Z) (status : str) (r : SessionRow) : SessionRow :=
  {| r_track_id := r_track_id r; r_provider := r_provider r; r_mode := r_mode r;
     r_contract := r_contract r; r_parent_session_id := r_parent_session_id r;
     r_requester_session_id := r_requester_session_id r; r_state := r_state r;
     r_mcp_token_hash := r_mcp_token_hash r; r_thread_id := r_thread_id r;
     r_agent_session_id := r_agent_session_id r; r_active_turn_id := r_active_turn_id r;
     r_terminal_run_id := r_terminal_run_id r; r_card_id := r_card_id r;
     r_handle_state_json := r_handle_state_json r; r_liveness := r_liveness r;
     r_liveness_probed_at_ms := r_liveness_probed_at_ms r; r_exit_code := r_exit_code r;
     r_exit_interpretation := r_exit_interpretation r; r_spawn_op_id := r_spawn_op_id r;
     r_last_activity_ms := Some last_activity_ms; r_last_thread_status := Some status;
     r_created_at_ms := r_created_at_ms r; r_updated_at_ms := r_updated_at_ms r;
     r_completed_at_ms := r_completed_at_ms r;
     r_last_turn_completed_ms := r_last_turn_completed_ms r;
     r_provider_execution_json := r_provider_execution_json r |}.

Definition set_turn_completed (turn_completed_ms : option Z) (r : SessionRow) : SessionRow :=
  {| r_track_id := r_track_id r; r_provider := r_provider r; r_mode := r_mode r;
     r_contract := r_contract r; r_parent_session_id := r_parent_session_id r;
     r_requester_session_id := r_requester_session_id r; r_state := r_state r;
     r_mcp_token_hash := r_mcp_token_hash r; r_thread_id := r_thread_id r;
     r_agent_session_id := r_agent_session_id r; r_active_turn_id := r_active_turn_id r;
     r_terminal_run_id := r_terminal_run_id r; r_card_id := r_card_id r;
     r_handle_state_json := r_handle_state_json r; r_liveness := r_liveness r;
     r_liveness_probed_at_ms := r_liveness_probed_at_ms r; r_exit_code := r_exit_code r;
     r_exit_interpretation := r_exit_interpretation r; r_spawn_op_id := r_spawn_op_id r;
     r_last_activity_ms := r_last_activity_ms r;
     r_last_thread_status := r_last_thread_status r; r_created_at_ms := r_created_at_ms r;
     r_updated_at_ms := r_updated_at_ms r; r_completed_at_ms := r_completed_at_ms r;
     r_last_turn_completed_ms := match turn_completed_ms with
       | None => r_last_turn_completed_ms r
       | Some x => Some (default 0 (r_last_turn_completed_ms r) `max` x)%Z end;
     r_provider_execution_json := r_provider_execution_json r |}.

Definition set_exit (to : WorkerSessionState) (at_ms : Z) (exit_code : option Z) (why : str) (r : SessionRow) : SessionRow :=
  {| r_track_id := r_track_id r; r_provider := r_provider r; r_mode := r_mode r;
     r_contract := r_contract r; r_parent_session_id := r_parent_session_id r;
     r_requester_session_id := r_requester_session_id r; r_state := session_state_str to;
     r_mcp_token_hash := if bool_decide (r_contract r = lit "assistant") then None else r_mcp_token_hash r;
     r_thread_id := r_thread_id r; r_agent_session_id := r_agent_session_id r;
     r_active_turn_id := r_active_turn_id r; r_terminal_run_id := r_terminal_run_id r;
     r_card_id := r_card_id r; r_handle_state_json := r_handle_state_json r;
     r_liveness := lit "exited"; r_liveness_probed_at_ms := Some at_ms;
     r_exit_code := exit_code; r_exit_interpretation := Some why;
     r_spawn_op_id := r_spawn_op_id r; r_last_activity_ms := r_last_activity_ms r;
     r_last_thread_status := r_last_thread_status r; r_created_at_ms := r_created_at_ms r;
     r_updated_at_ms := at_ms; r_completed_at_ms := Some at_ms;
     r_last_turn_completed_ms := r_last_turn_completed_ms r;
     r_provider_execution_json := r_provider_execution_json r |}.

Definition set_state (to : WorkerSessionState) (now : Z) (completed_at_ms : option Z) (r : SessionRow) : SessionRow :=
  {| r_track_id := r_track_id r; r_provider := r_provider r; r_mode := r_mode r;
     r_contract := r_contract r; r_parent_session_id := r_parent_session_id r;
     r_requester_session_id := r_requester_session_id r; r_state := session_state_str to;
     r_mcp_token_hash := if bool_decide (r_contract r = lit "assistant") && bool_decide (is_Some completed_at_ms)
       then None else r_mcp_token_hash r;
     r_thread_id := r_thread_id r; r_agent_session_id := r_agent_session_id r;
     r_active_turn_id := r_active_turn_id r; r_terminal_run_id := r_terminal_run_id r;
     r_card_id := r_card_id r; r_handle_state_json := r_handle_state_json r;
     r_liveness := r_liveness r; r_liveness_probed_at_ms := r_liveness_probed_at_ms r;
     r_exit_code := r_exit_code r; r_exit_interpretation := r_exit_interpretation r;
     r_spawn_op_id := r_spawn_op_id r; r_last_activity_ms := r_last_activity_ms r;
     r_last_thread_status := r_last_thread_status r; r_created_at_ms := r_created_at_ms r;
     r_updated_at_ms := now;
     r_completed_at_ms := match completed_at_ms with Some x => Some x | None => r_completed_at_ms r end;
     r_last_turn_completed_ms := r_last_turn_completed_ms r;
     r_provider_execution_json := r_provider_execution_json r |}.

(** ** Transactions *)

Abbreviation DbM := (Tx Sessions TruthError).
Local Open Scope calm_scope.

(** [state IN ('starting', 'running', 'idle', 'turn_pending')]. *)
Definition active_text (s : str) : bool :=
  bool_decide (s ∈ [lit "starting"; lit "running"; lit "idle"; lit "turn_pending"]).

(** The constraints of the table: its checks, the unique credential index and the
    unique index on the active session of a card. *)
Definition row_check (r : SessionRow) : bool :=
  negb (is_empty (r_provider r)) &&
  bool_decide (r_mode r ∈ [lit "ephemeral"; lit "resumable"]) &&
  bool_decide (r_contract r ∈ [lit "planner"; lit "assistant"; lit "executor"; lit "validator"]) &&
  (active_text (r_state r) ||
   bool_decide (r_state r ∈ [lit "exited"; lit "failed"; lit "superseded"])) &&
  bool_decide (r_liveness r ∈ [lit "alive"; lit "idle"; lit "exited"; lit "unknown"]) &&
  (bool_decide (r_provider r ≠ lit "opencode") ||
   bool_decide (r_contract r ∈ [lit "planner"; lit "assistant"]) &&
   bool_decide (r_mode r = lit "resumable")) &&
  (bool_decide (r_contract r ≠ lit "assistant") ||
   bool_decide (r_provider r ≠ lit "terminal") && bool_decide (r_mode r = lit "resumable")).

Definition tokens (t : Sessions) : list str := omap (λ p, r_mcp_token_hash p.2) (map_to_list t).
Definition active_cards (t : Sessions) : list str :=
  omap (λ p, if active_text (r_state p.2) then r_card_id p.2 else None) (map_to_list t).

Definition schema_ok (t : Sessions) : bool :=
  forallb (λ p, row_check p.2) (map_to_list t) &&
  bool_decide (NoDup (tokens t)) && bool_decide (NoDup (active_cards t)).

(** ** State transitions *)

Definition runtime_status_transition_allowed (from to : WorkerSessionState) : bool :=
  match from with
  | Starting =>
      match to with Running | Idle | TurnPending | Failed | Exited => true | _ => false end
  | Running => match to with Idle | Failed | Exited => true | _ => false end
  | Idle => match to with Running | Failed | Exited => true | _ => false end
  | TurnPending => match to with Running | Failed | Exited => true | _ => false end
  | Failed | Exited | Superseded => false
  end.

Definition worker_session_status_transition_allowed (from to : WorkerSessionState) : bool :=
  match from with
  | Starting =>
      match to with Running | Idle | TurnPending | Failed | Exited => true | _ => false end
  | Running => match to with Idle | Failed | Exited => true | _ => false end
  | Idle => match to with Running | Failed | Exited => true | _ => false end
  | TurnPending => match to with Running | Failed | Exited => true | _ => false end
  | Failed | Exited | Superseded => false
  end.

(** ** Identity of a new session *)

Inductive WorkerSessionKind := Terminal | CodexCard | ClaudeCard | SharedPlanner | ManagedAssistant.

Definition derive_session_identity (kind : WorkerSessionKind)
  : WorkerProviderKind * SessionMode * WorkerContract :=
  let provider :=
    match kind with
    | Terminal => Kind_Terminal
    | CodexCard | SharedPlanner | ManagedAssistant => Kind_Codex
    | ClaudeCard => Kind_Claude
    end in
  let mode :=
    match kind_protocol provider with
    | Some (Protocol_Codex | Acp) => Resumable
    | Some Protocol_Claude | None => Ephemeral
    end in
  let contract :=
    match kind with
    | SharedPlanner => Contract_Planner
    | ManagedAssistant => Contract_Assistant
    | _ => Executor
    end in
  (provider, mode, contract).

(** An ACP agent runs only as a managed conversation that resumes. *)
Definition acp_session_identity_allowed (s : WorkerSession) : bool :=
  bool_decide (kind_protocol (ws_provider s) ≠ Some Acp)
  || match ws_contract s with Contract_Planner | Contract_Assistant => true | _ => false end
     && bool_decide (ws_mode s = Resumable).

(** ** Liveness observations *)

Inductive ExitSource := AttachReader | Sweeper | Probe | Daemon.

Record ExitEvidence := mkExitEvidence {
  ee_exit_code : option Z;
  ee_signal_killed : bool;
  ee_observed_at_ms : TimestampMs;
  ee_source : ExitSource;
}.

Inductive Liveness :=
| Liveness_Alive (active_turn_id : option str)
| Liveness_Idle
| Liveness_Exited (evidence : ExitEvidence)
| Liveness_Unknown (since_ms : TimestampMs).

Definition liveness_tag (l : Liveness) : LivenessTag :=
  match l with
  | Liveness_Alive _ => Tag_Alive
  | Liveness_Idle => Tag_Idle
  | Liveness_Exited _ => Tag_Exited
  | Liveness_Unknown _ => Tag_Unknown
  end.

(** ** Credentials in scope *)

Inductive ClaudePlannerScope := Scope_All | Scope_Track (track_id : str) | Scope_Card (card_id : str).

Definition claude_planner_in_scope (scope : ClaudePlannerScope) (r : SessionRow) : bool :=
  let '(track, card) :=
    match scope with
    | Scope_All => (None, None)
    | Scope_Track track_id => (Some track_id, None)
    | Scope_Card card_id => (None, Some card_id)
    end in
  bool_decide (r_provider r = lit "claude")
  && bool_decide (r_contract r ∈ [lit "planner"; lit "assistant"])
  && match track with None => true | Some x => bool_decide (r_track_id r = x) end
  && match card with None => true | Some x => bool_decide (r_card_id r = Some x) end.

Section store.
Context (foreign : Sessions → Sessions → bool).
Context (parse_json : str → option Json) (print_json : Json → option str).

(** The schema accepts the table a statement leads to, or the statement fails. *)
Definition exec : (Sessions → Sessions * N) → DbM N :=
  db_exec (λ t t', schema_ok t' && foreign t t') Sqlx.

(** ** Reading a session *)

Definition worker_session_parse {A} `{DbEnum A} (column : string) (value : str) : result A TruthError :=
  match try_from value with
  | Ok a => Ok a
  | Err message =>
      Err (Internal (lit "invalid worker_sessions." ++ lit column ++ lit ": " ++ message))
  end.

Definition parse_handle_state (json : option str) : result (option Json) TruthError :=
  match json with
  | None => Ok None
  | Some s => match parse_json s with Some v => Ok (Some v) | None => Err SerdeJson end
  end.

Definition worker_session_from_row (id : WorkerSessionId) (r : SessionRow)
  : result WorkerSession TruthError :=
  let? handle_state_json := parse_handle_state (r_handle_state_json r) in
  let? provider := worker_session_parse "provider" (r_provider r) in
  let? mode := worker_session_parse "mode" (r_mode r) in
  let? contract := worker_session_parse "contract" (r_contract r) in
  let? state := worker_session_parse "state" (r_state r) in
  let? liveness := worker_session_parse "liveness" (r_liveness r) in
  Ok {| ws_id := id; ws_track_id := r_track_id r; ws_provider := provider; ws_mode := mode;
        ws_contract := contract; ws_parent_session_id := r_parent_session_id r;
        ws_requester_session_id := r_requester_session_id r; ws_state := state;
        ws_mcp_token_hash := r_mcp_token_hash r; ws_thread_id := r_thread_id r;
        ws_agent_session_id := r_agent_session_id r; ws_active_turn_id := r_active_turn_id r;
        ws_terminal_run_id := r_terminal_run_id r; ws_card_id := r_card_id r;
        ws_handle_state_json := handle_state_json; ws_liveness := liveness;
        ws_liveness_probed_at_ms := r_liveness_probed_at_ms r; ws_exit_code := r_exit_code r;
        ws_exit_interpretation := r_exit_interpretation r; ws_spawn_op_id := r_spawn_op_id r;
        ws_last_activity_ms := r_last_activity_ms r;
        ws_last_thread_status := r_last_thread_status r; ws_created_at_ms := r_created_at_ms r;
        ws_updated_at_ms := r_updated_at_ms r; ws_completed_at_ms := r_completed_at_ms r |}.

(** [row.map(worker_session_from_row).transpose()]. *)
Definition transpose_row (row : option (WorkerSessionId * SessionRow))
  : result (option WorkerSession) TruthError :=
  match row with
  | None => Ok None
  | Some (id, r) => let? s := worker_session_from_row id r in Ok (Some s)
  end.

(** [session_get_tx], and [session_get_by_id] outside a transaction: the same query. *)
Definition session_get_tx (t : Sessions) (id : WorkerSessionId)
  : result (option WorkerSession) TruthError :=
  transpose_row (pair id <$> t !! id).

Definition session_get_by_id (t : Sessions) (id : WorkerSessionId)
  : result (option WorkerSession) TruthError :=
  transpose_row (pair id <$> t !! id).

Definition token_matches (hashed_token : str) (r : SessionRow) : bool :=
  bool_decide (r_mcp_token_hash r = Some hashed_token) && active_text (r_state r).

(** The first matching row; the credential index leaves at most one. *)
Definition session_get_by_active_token_hash (t : Sessions) (hashed_token : str)
  : result (option WorkerSession) TruthError :=
  transpose_row (head (filter (λ p, token_matches hashed_token p.2 = true) (btree_iter t))).

(** ** Credentials *)

Definition session_mcp_token_set_tx (session_id : WorkerSessionId) (hashed_token : str) : DbM unit :=
  let* n := exec (update_id session_id (λ _, true) (set_token (Some hashed_token))) in
  if negb (n =? 1)%N then
    db_raise (Internal (lit "expected 1 worker_sessions mirror row for MCP token session "
                        ++ session_id ++ lit ", got " ++ show_N n))
  else db_ret tt.

Definition session_mcp_token_set_if_active_tx (session_id : WorkerSessionId) (hashed_token : str)
  : DbM unit :=
  let* n := exec (update_id session_id (λ r, active_text (r_state r)) (set_token (Some hashed_token))) in
  if negb (n =? 1)%N then
    db_raise (Conflict (lit "worker session " ++ session_id
      ++ lit " is no longer active; its Claude Planner credential was not minted"))
  else db_ret tt.

Definition claude_planner_session_ids (t : Sessions) (scope : ClaudePlannerScope) : list str :=
  (filter (λ p, claude_planner_in_scope scope p.2 = true) (btree_iter t)).*1.

Definition claude_planner_revoke_tx (scope : ClaudePlannerScope) : DbM (list str) :=
  let* ids := db_read (λ t, Ok (claude_planner_session_ids t scope)) in
  let* _ := exec (update_all (λ _ r, claude_planner_in_scope scope r) (set_token None)) in
  db_ret ids.

(** ** Observations *)

Definition session_set_liveness_tx (id : WorkerSessionId) (liveness : Liveness) (probed_at_ms : Z)
  : DbM (option WorkerSession) :=
  let tag := liveness_tag liveness in
  let* n := exec (update_id id (λ r, active_text (r_state r)) (set_liveness tag probed_at_ms)) in
  if (n =? 0)%N then db_ret None
  else
    let* session := db_read (λ t, session_get_tx t id) in
    match session with
    | None => db_raise (Internal (lit "worker session " ++ id ++ lit " missing after liveness update"))
    | Some session => db_ret (Some session)
    end.

Definition session_record_activity_tx (id : WorkerSessionId) (last_activity_ms : Z)
    (last_thread_status : str) : DbM unit :=
  let* _ := exec (update_id id (λ r, active_text (r_state r))
                    (set_activity last_activity_ms last_thread_status)) in
  db_ret tt.

(** [backends] is the table [worker_session_backends]. *)
Definition session_record_activity_by_thread_tx (backends : gmap WorkerSessionId str)
    (thread_id : str) (last_activity_ms : Z) (last_thread_status : str)
    (turn_completed_ms : option Z) (backend : option str) : DbM unit :=
  let cond id r :=
    bool_decide (r_thread_id r = Some thread_id) && bool_decide (r_provider r = lit "codex")
    && active_text (r_state r)
    && match backend with
       | None => true
       | Some b => bool_decide (default (lit "default") (backends !! id) = b)
       end in
  let* _ := exec (update_all cond
                    (λ r, set_turn_completed turn_completed_ms
                            (set_activity last_activity_ms last_thread_status r))) in
  db_ret tt.

(** ** Inserting a session *)

Definition session_to_row (s : WorkerSession) (handle_state_json : option str) : SessionRow :=
  {| r_track_id := ws_track_id s; r_provider := provider_kind_str (ws_provider s);
     r_mode := session_mode_str (ws_mode s); r_contract := worker_contract_str (ws_contract s);
     r_parent_session_id := ws_parent_session_id s;
     r_requester_session_id := ws_requester_session_id s;
     r_state := session_state_str (ws_state s); r_mcp_token_hash := ws_mcp_token_hash s;
     r_thread_id := ws_thread_id s; r_agent_session_id := ws_agent_session_id s;
     r_active_turn_id := ws_active_turn_id s; r_terminal_run_id := ws_terminal_run_id s;
     r_card_id := ws_card_id s; r_handle_state_json := handle_state_json;
     r_liveness := liveness_str (ws_liveness s);
     r_liveness_probed_at_ms := ws_liveness_probed_at_ms s; r_exit_code := ws_exit_code s;
     r_exit_interpretation := ws_exit_interpretation s; r_spawn_op_id := ws_spawn_op_id s;
     r_last_activity_ms := ws_last_activity_ms s; r_last_thread_status := ws_last_thread_status s;
     r_created_at_ms := ws_created_at_ms s; r_updated_at_ms := ws_updated_at_ms s;
     r_completed_at_ms := ws_completed_at_ms s; r_last_turn_completed_ms := None;
     r_provider_execution_json := None |}.

Definition print_handle_state (v : option Json) : result (option str) TruthError :=
  match v with
  | None => Ok None
  | Some v => match print_json v with Some s => Ok (Some s) | None => Err SerdeJson end
  end.

(** [INSERT]: the primary key must be free. *)
Definition insert_row (id : WorkerSessionId) (r : SessionRow) : DbM unit := λ t,
  match t !! id with
  | Some _ => (t, Err Sqlx)
  | None =>
      let t' := <[id := r]> t in
      if schema_ok t' && foreign t t' then (t', Ok tt) else (t, Err Sqlx)
  end.

Definition session_insert_tx (session : WorkerSession) : DbM WorkerSession :=
  if negb (acp_session_identity_allowed session) then
    db_raise (BadRequest (provider_kind_str (ws_provider session)
      ++ lit " sessions are managed Planner or Assistant conversations that resume, not a "
      ++ session_mode_str (ws_mode session) ++ lit " "
      ++ worker_contract_str (ws_contract session) ++ lit " session"))
  else
    let* handle_state_json := db_read (λ _, print_handle_state (ws_handle_state_json session)) in
    let* _ := insert_row (ws_id session) (session_to_row session handle_state_json) in
    let* row := db_read (λ t, session_get_tx t (ws_id session)) in
    match row with
    | Some s => db_ret s
    | None => db_raise (Internal (lit "worker session " ++ ws_id session ++ lit " missing after insert"))
    end.

(** ** Moving a session through its states *)

Definition worker_session_current_state_tx (id : WorkerSessionId) : DbM WorkerSessionState :=
  db_read (λ t,
    match t !! id with
    | None => Err (NotFound (lit "worker session " ++ id))
    | Some r => worker_session_parse "state" (r_state r)
    end).

(** [provider_execution::retained] and [require_unclaimed]. *)
Definition retained (t : Sessions) (session : WorkerSessionId) : bool :=
  match t !! session with
  | Some r => bool_decide (is_Some (r_provider_execution_json r))
  | None => false
  end.

Definition require_unclaimed (session : WorkerSessionId) : DbM unit :=
  let* present := db_read (λ t, Ok (retained t session)) in
  if present : bool then db_raise (Conflict (lit "provider execution retains its current carrier"))
  else db_ret tt.

Definition illegal_transition (id : WorkerSessionId) (from to : WorkerSessionState) : TruthError :=
  Conflict (lit "illegal worker session state transition " ++ id ++ lit ": "
            ++ session_state_str from ++ lit " -> " ++ session_state_str to).

(** Rereads the row a state change has just written. *)
Definition reread (id : WorkerSessionId) (what : string) : DbM WorkerSession :=
  let* row := db_read (λ t, session_get_tx t id) in
  match row with
  | Some s => db_ret s
  | None => db_raise (Internal (lit "worker session " ++ id ++ lit " missing after " ++ lit what))
  end.

Definition session_commit_exit_tx (id : WorkerSessionId) (to : WorkerSessionState)
    (liveness_probed_at_ms : Z) (exit_code : option Z) (exit_interpretation : str)
  : DbM WorkerSession :=
  let* _ := require_unclaimed id in
  let* from := worker_session_current_state_tx id in
  if negb (worker_session_status_transition_allowed from to)
  then db_raise (illegal_transition id from to)
  else
    let* n := exec (update_id id (λ r, bool_decide (r_state r = session_state_str from))
                      (set_exit to liveness_probed_at_ms exit_code exit_interpretation)) in
    if (n =? 0)%N then
      db_raise (Conflict (lit "worker session " ++ id ++ lit " changed during exit commit"))
    else reread id "exit commit".

Definition session_state_transition_at_tx (id : WorkerSessionId) (to : WorkerSessionState) (now : Z)
    (completed_at_ms : option Z) : DbM WorkerSession :=
  let* _ :=
    if is_terminal to || bool_decide (is_Some completed_at_ms)
    then require_unclaimed id else db_ret tt in
  let* from := worker_session_current_state_tx id in
  if negb (worker_session_status_transition_allowed from to)
  then db_raise (illegal_transition id from to)
  else
    let* n := exec (update_id id (λ r, bool_decide (r_state r = session_state_str from))
                      (set_state to now completed_at_ms)) in
    if (n =? 0)%N then
      db_raise (Conflict (lit "worker session " ++ id ++ lit " changed during state transition"))
    else reread id "transition".

(** [now] is the clock. *)
Definition session_state_transition_tx (now : Z) (id : WorkerSessionId) (to : WorkerSessionState)
  : DbM WorkerSession :=
  let completed_at_ms := if is_terminal to then Some now else None in
  session_state_transition_at_tx id to now completed_at_ms.
End store.
