(* ===== verification/SessionStore.v ===== *)
(** * What the worker-session rows guarantee

    The theorems about the operations of [SessionRow]: rows round-trip, the state
    machine of a session runs only along its allowed transitions and an ended
    session is frozen, a credential resolves to the one active session that holds
    it, and revocation is complete. *)

From stdpp Require Import prelude gmap strings.
From S2P Require Import Prelude Db Identity Caches SessionRow.

Local Open Scope calm_scope.

Lemma preserves_exec P `{!PreOrder P} foreign f :
  (∀ t, schema_ok (f t).1 = true → P t (f t).1) → preserves P (exec foreign f).
Proof. intros Hf. apply preserves_db_exec; [done|]. intros t [? _]%andb_true_iff. auto. Qed.

Lemma preserves_insert_row R `{!PreOrder R} foreign id r :
  preserves (rowwise R) (insert_row foreign id r).
Proof.
  intros t. unfold insert_row. destruct (t !! id) eqn:Hid; [done|].
  destruct (_ && _); [|done]. by apply rowwise_insert_fresh.
Qed.

(** ** The operations as steps *)

Section store.
Context (foreign : Sessions → Sessions → bool).
Context (parse_json : str → option Json) (print_json : Json → option str).

(** One operation of the module, run to its end whatever its result. *)
Inductive session_step (t : Sessions) : Sessions → Prop :=
| step_insert s : session_step t (session_insert_tx foreign parse_json print_json s t).1
| step_token id h : session_step t (session_mcp_token_set_tx foreign id h t).1
| step_token_if_active id h : session_step t (session_mcp_token_set_if_active_tx foreign id h t).1
| step_revoke scope : session_step t (claude_planner_revoke_tx foreign scope t).1
| step_liveness id l at_ms : session_step t (session_set_liveness_tx foreign parse_json id l at_ms t).1
| step_activity id at_ms st : session_step t (session_record_activity_tx foreign id at_ms st t).1
| step_activity_by_thread backends thread at_ms st done_ms backend :
    session_step t
      (session_record_activity_by_thread_tx foreign backends thread at_ms st done_ms backend t).1
| step_exit id to at_ms code why :
    session_step t (session_commit_exit_tx foreign parse_json id to at_ms code why t).1
| step_transition_at id to now completed :
    session_step t (session_state_transition_at_tx foreign parse_json id to now completed t).1
| step_transition now id to : session_step t (session_state_transition_tx foreign parse_json now id to t).1.

(** What no operation changes of a row. *)
Definition identity_of (r : SessionRow) :=
  (r_track_id r, r_provider r, r_mode r, r_contract r, r_parent_session_id r,
   r_requester_session_id r, r_thread_id r, r_agent_session_id r, r_terminal_run_id r,
   r_card_id r, r_handle_state_json r, r_spawn_op_id r, r_created_at_ms r).

Definition allowed_text (s s' : str) : Prop :=
  ∃ from to, s = session_state_str from ∧ s' = session_state_str to ∧
             worker_session_status_transition_allowed from to = true.

(** How a row may change over time: same identity, states along allowed transitions,
    and of an ended session nothing but the credential. *)
Definition row_change (r r' : SessionRow) : Prop :=
  identity_of r' = identity_of r ∧
  rtc allowed_text (r_state r) (r_state r') ∧
  (active_text (r_state r) = false → r' = set_token (r_mcp_token_hash r') r).

#[local] Instance row_change_preorder : PreOrder row_change.
Proof.
  split.
  - intros []. split; [done|]. split; [apply rtc_refl|done].
  - intros r1 r2 r3 (H1 & H2 & H3) (H4 & H5 & H6). split; [congruence|].
    split; [by etrans|]. intros Hend. rewrite H6; rewrite H3 by done; done.
Qed.

Lemma active_text_state s : active_text (session_state_str s) = is_active_authority s.
Proof. by destruct s. Qed.

Lemma allowed_from_active from to :
  worker_session_status_transition_allowed from to = true → is_active_authority from = true.
Proof. by destruct from. Qed.

Lemma set_token_change h r : row_change r (set_token h r).
Proof. split; [done|]. split; [apply rtc_refl|done]. Qed.

(** A change of an active row that keeps identity and moves the state by one
    allowed transition. *)
Lemma state_change_ok from to r r' :
  identity_of r' = identity_of r → r_state r' = session_state_str to →
  worker_session_status_transition_allowed from to = true →
  bool_decide (r_state r = session_state_str from) = true → row_change r r'.
Proof.
  intros Hid Hto Hal Hr%bool_decide_eq_true_1. split; [done|]. rewrite Hr, Hto. split.
  - apply rtc_once. by exists from, to.
  - rewrite active_text_state, (allowed_from_active from to) by done. done.
Qed.

Lemma observation_ok r r' :
  identity_of r' = identity_of r → r_state r' = r_state r → active_text (r_state r) = true →
  row_change r r'.
Proof. intros Hid Hs Ha. split; [done|]. rewrite Hs, Ha. split; [apply rtc_refl|done]. Qed.

Lemma negb_false b : negb b = false → b = true.
Proof. by destruct b. Qed.

Lemma session_step_rows t t' : session_step t t' → rowwise row_change t t'.
Proof.
  destruct 1;
    unfold session_insert_tx, session_mcp_token_set_tx, session_mcp_token_set_if_active_tx,
      claude_planner_revoke_tx, session_set_liveness_tx, session_record_activity_tx,
      session_record_activity_by_thread_tx, session_state_transition_tx,
      session_commit_exit_tx, session_state_transition_at_tx, require_unclaimed, reread,
      worker_session_current_state_tx;
    match goal with |- rowwise _ t (?m t).1 => generalize t; change (preserves (rowwise row_change) m) end;
    cbn zeta; walk;
    first [ apply preserves_insert_row; apply _
          | apply preserves_exec; [apply _|]; intros ? _;
            first [ apply rowwise_update_id | apply rowwise_update_all ]; [apply _|] ];
    intros; first
      [ apply set_token_change
      | eapply state_change_ok; [..|by apply negb_false|eassumption]; done
      | apply observation_ok; [done..|] ]; try done.
  repeat match goal with H : _ && _ = true |- _ => apply andb_true_iff in H as [? ?] end. done.
Qed.

Lemma session_steps_rows t t' : rtc session_step t t' → rowwise row_change t t'.
Proof. induction 1 as [|t t1 t' H _ IH]; [done|]. etrans; [by apply session_step_rows|done]. Qed.

(** ** Reachable tables *)

Definition schema_kept (t t' : Sessions) : Prop := schema_ok t = true → schema_ok t' = true.
#[local] Instance schema_kept_preorder : PreOrder schema_kept.
Proof. split; [by intros t ?|]. intros t1 t2 t3 H1 H2 H. by apply H2, H1. Qed.

Lemma schema_kept_insert id r : preserves schema_kept (insert_row foreign id r).
Proof.
  intros t. unfold insert_row. destruct (t !! id); [done|].
  destruct (schema_ok (<[id:=r]> t)) eqn:E; simpl; [|done]. destruct (foreign _ _); simpl; [by intros _|done].
Qed.

Lemma session_step_schema t t' : session_step t t' → schema_kept t t'.
Proof.
  destruct 1;
    unfold session_insert_tx, session_mcp_token_set_tx, session_mcp_token_set_if_active_tx,
      claude_planner_revoke_tx, session_set_liveness_tx, session_record_activity_tx,
      session_record_activity_by_thread_tx, session_state_transition_tx,
      session_commit_exit_tx, session_state_transition_at_tx, require_unclaimed, reread,
      worker_session_current_state_tx;
    match goal with |- schema_kept t (?m t).1 => generalize t; change (preserves schema_kept m) end;
    cbn zeta; walk;
    first [ apply schema_kept_insert | apply preserves_exec; [apply _|]; by intros ? ? ? ].
Qed.

Definition reachable (t : Sessions) : Prop := rtc session_step ∅ t.

Lemma reachable_schema t : reachable t → schema_ok t = true.
Proof.
  intros Hr. assert (schema_kept ∅ t) as Hk; [|apply Hk; by vm_compute].
  induction Hr as [|t0 t1 t' H _ IH]; [done|]. etrans; [by apply session_step_schema|done].
Qed.

Lemma tokens_unique t i j r r' h :
  schema_ok t = true → t !! i = Some r → t !! j = Some r' →
  r_mcp_token_hash r = Some h → r_mcp_token_hash r' = Some h → i = j.
Proof.
  intros Hs Hi Hj Hri Hrj. unfold schema_ok in Hs.
  rewrite !andb_true_iff, !bool_decide_eq_true in Hs. destruct Hs as [[_ Hnd] _].
  apply elem_of_map_to_list in Hi, Hj.
  unfold tokens in Hnd. revert Hnd Hi Hj. generalize (map_to_list t) as l.
  induction l as [|[k x] l IH]; intros Hnd Hi Hj; [by apply not_elem_of_nil in Hi|].
  assert (∀ k' x', (k', x') ∈ l → r_mcp_token_hash x' = Some h →
            h ∈ omap (λ p : str * SessionRow, r_mcp_token_hash p.2) l) as Hin.
  { intros k' x' Hin Hx. apply list_elem_of_omap. by exists (k', x'). }
  simpl in Hnd. apply elem_of_cons in Hi as [[= <- <-]|Hi]; apply elem_of_cons in Hj as [[= <- <-]|Hj].
  - done.
  - rewrite Hri in Hnd. apply NoDup_cons in Hnd as [[] _]. eauto.
  - rewrite Hrj in Hnd. apply NoDup_cons in Hnd as [[] _]. eauto.
  - apply IH; [|done..]. destruct (r_mcp_token_hash x); [by apply NoDup_cons in Hnd as [_ ?]|done].
Qed.

(** ** Decoding *)

Lemma db_str_inj {A} `{DbEnum A} (a b : A) : as_db_str a = as_db_str b → a = b.
Proof.
  intros Hab. apply try_from_spec in Hab. rewrite (proj2 (try_from_spec _ a) eq_refl) in Hab.
  by injection Hab.
Qed.

Lemma parse_spec {A} `{DbEnum A} column value (a : A) :
  worker_session_parse column value = Ok a ↔ value = as_db_str a.
Proof.
  unfold worker_session_parse. rewrite <-try_from_spec. destruct (try_from value); naive_solver.
Qed.

(** A row decodes to a session exactly when the session, with its handle state read
    as JSON, is what the row spells. *)
Lemma from_row_spec id r s :
  worker_session_from_row parse_json id r = Ok s ↔
  ws_id s = id ∧ parse_handle_state parse_json (r_handle_state_json r) = Ok (ws_handle_state_json s) ∧
  r = {| r_track_id := ws_track_id s; r_provider := provider_kind_str (ws_provider s);
     r_mode := session_mode_str (ws_mode s); r_contract := worker_contract_str (ws_contract s);
     r_parent_session_id := ws_parent_session_id s;
     r_requester_session_id := ws_requester_session_id s;
     r_state := session_state_str (ws_state s); r_mcp_token_hash := ws_mcp_token_hash s;
     r_thread_id := ws_thread_id s; r_agent_session_id := ws_agent_session_id s;
     r_active_turn_id := ws_active_turn_id s; r_terminal_run_id := ws_terminal_run_id s;
     r_card_id := ws_card_id s; r_handle_state_json := r_handle_state_json r;
     r_liveness := liveness_str (ws_liveness s);
     r_liveness_probed_at_ms := ws_liveness_probed_at_ms s; r_exit_code := ws_exit_code s;
     r_exit_interpretation := ws_exit_interpretation s; r_spawn_op_id := ws_spawn_op_id s;
     r_last_activity_ms := ws_last_activity_ms s; r_last_thread_status := ws_last_thread_status s;
     r_created_at_ms := ws_created_at_ms s; r_updated_at_ms := ws_updated_at_ms s;
     r_completed_at_ms := ws_completed_at_ms s;
     r_last_turn_completed_ms := r_last_turn_completed_ms r;
     r_provider_execution_json := r_provider_execution_json r |}.
Proof.
  unfold worker_session_from_row. split.
  - destruct (parse_handle_state _ _) as [h|] eqn:Hh; simpl; [|done].
    repeat match goal with
    | |- context [worker_session_parse ?c ?v] =>
        let E := fresh "E" in destruct (worker_session_parse c v) eqn:E; cbn [result_bind]; [|done];
        apply parse_spec in E
    end.
    intros [= <-]. simpl. split; [done|]. split; [done|]. destruct r; simpl in *. by subst.
  - intros (<- & Hh & ->). cbn in *. rewrite Hh. cbn [result_bind].
    repeat (erewrite (proj2 (parse_spec _ _ _)) by reflexivity; cbn [result_bind]). by destruct s.
Qed.

Lemma from_row_columns id r s :
  worker_session_from_row parse_json id r = Ok s →
  ws_id s = id ∧ r_mcp_token_hash r = ws_mcp_token_hash s ∧
  active_text (r_state r) = is_active_authority (ws_state s).
Proof.
  intros (Hid & _ & ->)%from_row_spec. simpl. by rewrite active_text_state.
Qed.

Lemma get_spec t id s :
  session_get_tx parse_json t id = Ok (Some s) ↔
  ∃ r, t !! id = Some r ∧ worker_session_from_row parse_json id r = Ok s.
Proof.
  unfold session_get_tx, transpose_row. destruct (t !! id) as [r|]; simpl; [|naive_solver].
  split.
  - intros H. exists r. split; [done|]. destruct (worker_session_from_row _ _ _); naive_solver.
  - by intros (r' & [= <-] & ->).
Qed.

Lemma token_resolves t h s :
  schema_ok t = true →
  session_get_by_active_token_hash parse_json t h = Ok (Some s) ↔
  session_get_tx parse_json t (ws_id s) = Ok (Some s) ∧
  ws_mcp_token_hash s = Some h ∧ is_active_authority (ws_state s) = true.
Proof.
  intros Hs. unfold session_get_by_active_token_hash. rewrite get_spec.
  set (l := filter _ _).
  assert (∀ id r, (id, r) ∈ l ↔ t !! id = Some r ∧ r_mcp_token_hash r = Some h ∧
                              active_text (r_state r) = true) as Hl.
  { intros id r. unfold l. rewrite list_elem_of_filter, elem_of_btree_iter. simpl.
    unfold token_matches. rewrite andb_true_iff, bool_decide_eq_true. tauto. }
  split.
  - destruct (head l) as [[id r]|] eqn:Hh; simpl; [|done].
    destruct (worker_session_from_row parse_json id r) as [s'|] eqn:Hr; simpl; [|done].
    intros [= ->]. destruct (proj1 (Hl id r)) as (Ht & Htok & Ha).
    { by apply head_Some_elem_of. }
    destruct (from_row_columns _ _ _ Hr) as (<- & Htk & Hac). split; [by exists r|].
    split; congruence.
  - intros ((r & Ht & Hr) & Htok & Ha). destruct (from_row_columns _ _ _ Hr) as (_ & Htk & Hac).
    assert ((ws_id s, r) ∈ l) as Hin by (apply Hl; repeat split; congruence).
    destruct (head l) as [[id r']|] eqn:Hh.
    2: { destruct l; [by apply not_elem_of_nil in Hin|done]. }
    apply head_Some_elem_of, Hl in Hh as (Ht' & Htok' & _).
    assert (ws_id s = id) as <- by (eapply (tokens_unique t); eauto; congruence).
    simplify_eq. simpl. by rewrite Hr.
Qed.

(** ** The theorems *)

(** C23: sessions only move forward. Along any sequence of the module's operations a
    session keeps its row and its identity (track, card, provider, mode, contract,
    lineage, handle), its state advances only through allowed transitions, and once
    ended nothing of it changes any more except the stored credential. *)
Theorem session_history t t' id r :
  rtc session_step t t' → t !! id = Some r →
  ∃ r', t' !! id = Some r' ∧ identity_of r' = identity_of r ∧
        rtc allowed_text (r_state r) (r_state r') ∧
        (active_text (r_state r) = false → r' = set_token (r_mcp_token_hash r') r).
Proof. intros Hsteps Hr. by apply (session_steps_rows t t'). Qed.

(** A credential authenticates exactly its session: in every table the operations
    can produce, looking a token hash up gives a session if and only if that session
    is stored, holds the hash, and is in a state of active authority. *)
Theorem token_authenticates_iff t h s :
  reachable t →
  session_get_by_active_token_hash parse_json t h = Ok (Some s) ↔
  session_get_tx parse_json t (ws_id s) = Ok (Some s) ∧
  ws_mcp_token_hash s = Some h ∧ is_active_authority (ws_state s) = true.
Proof. intros Hr. by apply token_resolves, reachable_schema. Qed.

(** Minting takes effect at once: after a hash is written to the row of an active
    session, that hash authenticates that session. *)
Theorem minted_token_authenticates t t' id h s :
  session_mcp_token_set_tx foreign id h t = (t', Ok tt) →
  session_get_tx parse_json t' id = Ok (Some s) → is_active_authority (ws_state s) = true →
  session_get_by_active_token_hash parse_json t' h = Ok (Some s).
Proof.
  intros Hmint Hget Ha. unfold session_mcp_token_set_tx, db_bind, exec, db_exec, update_id in Hmint.
  destruct (t !! id) as [r|] eqn:Hr; [|done]. simpl in Hmint.
  destruct (schema_ok _ && foreign _ _) eqn:Hok; [|done]. injection Hmint as <-.
  apply andb_true_iff in Hok as [Hok _]. apply token_resolves; [done|].
  pose proof Hget as (r' & Hr' & Hs)%get_spec. rewrite lookup_insert_eq in Hr'. simplify_eq.
  destruct (from_row_columns _ _ _ Hs) as (-> & Htk & _). by split_and!.
Qed.

(** Revocation is complete and touches nothing else: it reports exactly the
    sessions in scope, leaves none of them with a credential, changes no other row and
    no other column, and afterwards no credential authenticates any of them. *)
Theorem revocation_complete scope t t' ids :
  schema_ok t = true → claude_planner_revoke_tx foreign scope t = (t', Ok ids) →
  (∀ id, id ∈ ids ↔ ∃ r, t !! id = Some r ∧ claude_planner_in_scope scope r = true) ∧
  (∀ id, t' !! id = (λ r, if claude_planner_in_scope scope r then set_token None r else r) <$> t !! id) ∧
  (∀ h s, session_get_by_active_token_hash parse_json t' h = Ok (Some s) → ws_id s ∉ ids).
Proof.
  intros Hok Hrev.
  assert (∀ id, id ∈ claude_planner_session_ids t scope ↔
                ∃ r, t !! id = Some r ∧ claude_planner_in_scope scope r = true) as Hids.
  { intros id. unfold claude_planner_session_ids. rewrite list_elem_of_fmap. split.
    - intros ([k r] & -> & [Hsc Hin%elem_of_btree_iter]%list_elem_of_filter). by exists r.
    - intros (r & Hr & Hsc). exists (id, r). split; [done|].
      apply list_elem_of_filter. split; [done|]. by apply elem_of_btree_iter. }
  unfold claude_planner_revoke_tx, db_bind, db_read, exec, db_exec in Hrev. cbn [update_all] in Hrev.
  set (t1 := map_imap _ t) in Hrev.
  assert (∀ id, t1 !! id =
    (λ r, if claude_planner_in_scope scope r then set_token None r else r) <$> t !! id) as Ht1.
  { intros id. unfold t1. rewrite map_lookup_imap. by destruct (t !! id). }
  assert (ids = claude_planner_session_ids t scope ∧ t' = t1 ∧ schema_ok t1 = true) as (-> & -> & Hok1).
  { destruct (_ =? 0)%N eqn:Hn.
    - simpl in Hrev. injection Hrev as <- <-. apply N.eqb_eq in Hn.
      assert (t = t1) as <-; [|done]. apply map_eq. intros id. rewrite Ht1.
      destruct (t !! id) as [r|] eqn:Hr; [|done]. simpl.
      destruct (claude_planner_in_scope scope r) eqn:Hsc; [|done].
      assert (size (filter (λ p : str * SessionRow, claude_planner_in_scope scope p.2 = true) t) = 0)
        as He%map_size_empty_inv by lia.
      eapply map_filter_empty_not_lookup in He; [|exact Hsc]. by rewrite Hr in He.
    - destruct (schema_ok t1) eqn:Hs1; simpl in Hrev; [|done].
      destruct (foreign t t1); simpl in Hrev; [|done]. by injection Hrev as <- <-. }
  split; [done|]. split; [done|]. intros h s Hauth%token_resolves Hin; [|done].
  destruct Hauth as ((r & Hr & Hs)%get_spec & Htok & _).
  apply Hids in Hin as (r0 & Hr0 & Hsc). rewrite Ht1, Hr0 in Hr. simpl in Hr. rewrite Hsc in Hr.
  injection Hr as <-. destruct (from_row_columns _ _ _ Hs) as (_ & Htk & _). simpl in Htk. congruence.
Qed.

(** ** Inserting *)

(** [serde_json] prints and reads back the handle state of [s]. *)
Definition handle_state_roundtrips (s : WorkerSession) : Prop :=
  ∀ v, ws_handle_state_json s = Some v → ∃ x, print_json v = Some x ∧ parse_json x = Some v.

Lemma from_inserted_row s :
  handle_state_roundtrips s →
  ∃ h, print_handle_state print_json (ws_handle_state_json s) = Ok h ∧
       h = ws_handle_state_json s ≫= print_json ∧
       worker_session_from_row parse_json (ws_id s) (session_to_row s h) = Ok s.
Proof.
  intros Hrt. unfold print_handle_state. destruct (ws_handle_state_json s) as [v|] eqn:Hv.
  - destruct (Hrt v Hv) as (x & Hp & Hx). exists (Some x). simpl. rewrite Hp. split_and!; [done..|].
    apply from_row_spec. simpl. by rewrite Hx, Hv.
  - exists None. split_and!; [done..|]. apply from_row_spec. simpl. by rewrite Hv.
Qed.

(** Inserting a session stores exactly it: the insert succeeds precisely when the
    provider may have such a session, its id is free and the schema accepts the row;
    then it returns the session it was given, which is also what a later read gives. *)
Theorem session_insert_roundtrip t t' s s' :
  handle_state_roundtrips s →
  session_insert_tx foreign parse_json print_json s t = (t', Ok s') ↔
  s' = s ∧ acp_session_identity_allowed s = true ∧ t !! ws_id s = None ∧
  t' = <[ws_id s := session_to_row s (ws_handle_state_json s ≫= print_json)]> t ∧
  schema_ok t' = true ∧ foreign t t' = true ∧ session_get_tx parse_json t' (ws_id s) = Ok (Some s).
Proof.
  intros (h & Hp & Hh & Hrow)%from_inserted_row.
  assert (∀ u, session_get_tx parse_json (<[ws_id s := session_to_row s h]> u) (ws_id s) = Ok (Some s))
    as Hget.
  { intros u. apply get_spec. exists (session_to_row s h). by rewrite lookup_insert_eq. }
  rewrite <-Hh. unfold session_insert_tx, db_bind, db_read, insert_row.
  destruct (acp_session_identity_allowed s); simpl; [|naive_solver]. rewrite Hp.
  destruct (t !! ws_id s); simpl; [naive_solver|].
  destruct (schema_ok _ && foreign _ _) eqn:Hok.
  - rewrite Hget. apply andb_true_iff in Hok as [? ?]. unfold db_ret. split.
    + intros [= <- <-]. by split_and!.
    + by intros (-> & _ & _ & -> & _).
  - apply andb_false_iff in Hok. split; [done|]. intros (_ & _ & _ & -> & ? & ? & _).
    destruct Hok; congruence.
Qed.

(** The identity of an ACP row: a managed conversation that resumes. *)
Definition acp_row_ok (r : SessionRow) : Prop :=
  ∀ p, r_provider r = provider_kind_str p → kind_protocol p = Some Acp →
  (r_contract r = lit "planner" ∨ r_contract r = lit "assistant") ∧ r_mode r = lit "resumable".

Lemma session_to_row_acp s h :
  acp_session_identity_allowed s = true → acp_row_ok (session_to_row s h).
Proof.
  unfold acp_session_identity_allowed. rewrite orb_true_iff, andb_true_iff, !bool_decide_eq_true.
  intros Hal p Hp Hacp. simpl in *.
  assert (ws_provider s = p) as <-.
  { apply (db_str_inj (A := WorkerProviderKind)). exact Hp. }
  destruct Hal as [?|[Hc ->]]; [done|]. destruct (ws_contract s); simpl in *; auto; done.
Qed.

Definition acp_rows (t : Sessions) : Prop := map_Forall (λ _ r, acp_row_ok r) t.
Definition acp_kept (t t' : Sessions) : Prop := acp_rows t → acp_rows t'.
#[local] Instance acp_kept_preorder : PreOrder acp_kept.
Proof. split; [by intros t ?|]. intros t1 t2 t3 H1 H2 H. by apply H2, H1. Qed.

Lemma acp_kept_update_id id cond f t :
  (∀ r, acp_row_ok r → acp_row_ok (f r)) → acp_kept t (update_id id cond f t).1.
Proof.
  intros Hf Ht. unfold update_id. destruct (t !! id) as [r|] eqn:Hr; [|done].
  destruct (cond r); [|done]. apply map_Forall_insert_2; [|done]. by apply Hf, (Ht id).
Qed.

Lemma acp_kept_update_all cond f t :
  (∀ r, acp_row_ok r → acp_row_ok (f r)) → acp_kept t (update_all cond f t).1.
Proof.
  intros Hf Ht id r. simpl. rewrite map_lookup_imap. destruct (t !! id) as [x|] eqn:Hx; simpl; [|done].
  pose proof (Ht id x Hx). destruct (cond id x); intros [= <-]; [by apply Hf|done].
Qed.

Lemma acp_kept_insert id s h :
  acp_session_identity_allowed s = true →
  preserves acp_kept (insert_row foreign id (session_to_row s h)).
Proof.
  intros Hal t Ht. unfold insert_row. destruct (t !! id); [done|]. destruct (_ && _); [|done].
  apply map_Forall_insert_2; [|done]. by apply session_to_row_acp.
Qed.

Lemma session_step_acp t t' : session_step t t' → acp_kept t t'.
Proof.
  destruct 1;
    unfold session_insert_tx, session_mcp_token_set_tx, session_mcp_token_set_if_active_tx,
      claude_planner_revoke_tx, session_set_liveness_tx, session_record_activity_tx,
      session_record_activity_by_thread_tx, session_state_transition_tx,
      session_commit_exit_tx, session_state_transition_at_tx, require_unclaimed, reread,
      worker_session_current_state_tx;
    match goal with |- acp_kept t (?m t).1 => generalize t; change (preserves acp_kept m) end;
    cbn zeta; walk;
    first [ by apply acp_kept_insert, negb_false
          | apply preserves_exec; [apply _|]; intros ? _;
            first [ by apply acp_kept_update_id | by apply acp_kept_update_all ] ].
Qed.

(** An ACP agent only ever runs as a managed conversation: in every table the
    operations can produce, a row of an ACP provider, OpenCode, Grok and Antigravity
    alike, is a planner or assistant session that resumes. *)
Theorem acp_rows_managed t id r p :
  reachable t → t !! id = Some r → r_provider r = provider_kind_str p →
  kind_protocol p = Some Acp →
  (r_contract r = lit "planner" ∨ r_contract r = lit "assistant") ∧ r_mode r = lit "resumable".
Proof.
  intros Hr Hid. assert (acp_kept ∅ t) as Hk.
  { induction Hr as [|t0 t1 t' H _ IH]; [by intros ?|]. etrans; [by apply session_step_acp|by apply IH]. }
  apply (Hk (map_Forall_empty _) id r Hid).
Qed.

(** ** Transitions *)

(** The row [r] of session [id] may move to [to], by the rewriting [f]. *)
Definition moves (t t' : Sessions) (id : WorkerSessionId) (to : WorkerSessionState) (fenced : bool)
    (f : SessionRow → SessionRow) (s : WorkerSession) : Prop :=
  ∃ r from, t !! id = Some r ∧ r_state r = session_state_str from ∧
    worker_session_status_transition_allowed from to = true ∧
    (fenced = true → r_provider_execution_json r = None) ∧
    t' = <[id := f r]> t ∧ schema_ok t' = true ∧ foreign t t' = true ∧
    worker_session_from_row parse_json id (f r) = Ok s.

Lemma exec_id_state id from f r t :
  t !! id = Some r → r_state r = session_state_str from →
  exec foreign (update_id id (λ r, bool_decide (r_state r = session_state_str from)) f) t =
  (if schema_ok (<[id := f r]> t) && foreign t (<[id := f r]> t)
   then (<[id := f r]> t, Ok 1%N) else (t, Err Sqlx)).
Proof. intros Hr Hs. unfold exec, db_exec, update_id. rewrite Hr. by rewrite bool_decide_eq_true_2. Qed.

(** The shared tail of the two state changes. *)
Lemma move_tail t t' id to f err what s :
  (let* from := worker_session_current_state_tx id in
   if negb (worker_session_status_transition_allowed from to)
   then db_raise (illegal_transition id from to)
   else
     let* n := exec foreign (update_id id (λ r, bool_decide (r_state r = session_state_str from)) f) in
     if (n =? 0)%N then db_raise err else reread parse_json id what) t = (t', Ok s) ↔
  moves t t' id to false f s.
Proof.
  unfold db_bind at 1. unfold worker_session_current_state_tx, db_read. unfold moves.
  destruct (t !! id) as [r|] eqn:Hr; [|naive_solver].
  destruct (worker_session_parse "state" (r_state r)) as [from|] eqn:Hp.
  2: { split; [done|]. intros (? & from & [= <-] & Hs & _). 
       rewrite (proj2 (@parse_spec _ WorkerSessionState_db "state" (r_state r) from) Hs) in Hp. done. }
  apply parse_spec in Hp. simpl in Hp.
  assert (∀ from', r_state r = session_state_str from' → from' = from) as Huniq.
  { intros from' Hs. apply (db_str_inj (A := WorkerSessionState)). simpl. congruence. }
  destruct (worker_session_status_transition_allowed from to) eqn:Hal; simpl.
  2: { split; [done|]. intros (? & from' & [= <-] & ->%Huniq & ? & _). congruence. }
  unfold db_bind at 1. rewrite (exec_id_state _ _ _ r) by done.
  remember (<[id := f r]> t) as t1 eqn:Ht1. destruct (schema_ok t1 && foreign t t1) eqn:Hok.
  2: { split; [done|]. intros (? & from' & [= <-] & ->%Huniq & _ & _ & -> & ? & ? & _).
       rewrite <-Ht1 in *. apply andb_false_iff in Hok. destruct Hok; congruence. }
  apply andb_true_iff in Hok as [Hok1 Hok2]. simpl. unfold reread, db_bind, db_read.
  assert (session_get_tx parse_json t1 id =
          (let? x := worker_session_from_row parse_json id (f r) in Ok (Some x))) as ->.
  { unfold session_get_tx. by rewrite Ht1, lookup_insert_eq. }
  destruct (worker_session_from_row parse_json id (f r)) as [x|] eqn:Hx; simpl.
  - split.
    + intros [= -> ->]. exists r, from. by split_and!.
    + intros (? & ? & [= <-] & _ & _ & _ & -> & _ & _ & Hs). unfold db_ret. congruence.
  - split; [done|]. intros (? & ? & [= <-] & _ & _ & _ & _ & _ & _ & ?). congruence.
Qed.

Lemma fenced_move t t' id to f s :
  moves t t' id to true f s ↔ retained t id = false ∧ moves t t' id to false f s.
Proof.
  unfold retained, moves. split.
  - intros (r & from & Hr & Hs & Hal & Hf & Hrest). destruct Hrest as (? & ? & ? & ?). rewrite Hr. split.
    + rewrite (Hf eq_refl). by apply bool_decide_eq_false_2, is_Some_None.
    + exists r, from. by split_and!.
  - intros (Hret & r & from & Hr & Hs & Hal & _ & ? & ? & ? & ?). exists r, from. rewrite Hr in Hret.
    split_and!; try done. intros _. apply bool_decide_eq_false in Hret.
    destruct (r_provider_execution_json r); [|done]. by destruct Hret.
Qed.

Lemma require_unclaimed_bind {A} (m : DbM A) id t t' a :
  (let* _ := require_unclaimed id in m) t = (t', Ok a) ↔ retained t id = false ∧ m t = (t', Ok a).
Proof.
  unfold require_unclaimed, db_bind, db_read. destruct (retained t id); simpl; naive_solver.
Qed.

(** A session changes state exactly when it may: both the state transition and the
    exit commit succeed if and only if the session exists in a state from which the
    target is allowed, no provider execution still holds it when it ends, and the
    schema accepts the row; the new table differs in that row only, the exit commit
    recording the exit and an ending assistant losing its credential. *)
Theorem transition_iff now id to t t' s code why :
  (session_state_transition_tx foreign parse_json now id to t = (t', Ok s) ↔
   moves t t' id to (is_terminal to)
     (set_state to now (if is_terminal to then Some now else None)) s) ∧
  (session_commit_exit_tx foreign parse_json id to now code why t = (t', Ok s) ↔
   moves t t' id to true (set_exit to now code why) s).
Proof.
  split.
  - unfold session_state_transition_tx, session_state_transition_at_tx.
    destruct (is_terminal to); simpl.
    + by rewrite require_unclaimed_bind, move_tail, fenced_move.
    + apply move_tail.
  - unfold session_commit_exit_tx. by rewrite require_unclaimed_bind, move_tail, fenced_move.
Qed.
End store.

(** ** Instances: one Claude planner session *)

Definition always (_ _ : Sessions) : bool := true.
Definition no_parse (_ : str) : option Json := None.
Definition no_print (_ : Json) : option str := None.

Definition planner_session : WorkerSession :=
  {| ws_id := lit "s"; ws_track_id := lit "t"; ws_provider := Kind_Claude; ws_mode := Resumable;
     ws_contract := Contract_Planner; ws_parent_session_id := None; ws_requester_session_id := None;
     ws_state := Starting; ws_mcp_token_hash := None; ws_thread_id := None;
     ws_agent_session_id := None; ws_active_turn_id := None; ws_terminal_run_id := None;
     ws_card_id := Some (lit "c"); ws_handle_state_json := None; ws_liveness := Tag_Unknown;
     ws_liveness_probed_at_ms := None; ws_exit_code := None; ws_exit_interpretation := None;
     ws_spawn_op_id := None; ws_last_activity_ms := None; ws_last_thread_status := None;
     ws_created_at_ms := 1; ws_updated_at_ms := 1; ws_completed_at_ms := None |}.

(** The session inserted, then given a credential, then ended, then revoked. *)
Definition inserted : Sessions := (session_insert_tx always no_parse no_print planner_session ∅).1.
Definition minted : Sessions := (session_mcp_token_set_tx always (lit "s") (lit "h") inserted).1.
Definition ended : Sessions :=
  (session_commit_exit_tx always no_parse (lit "s") Exited 5 (Some 0%Z) (lit "completed") minted).1.
Definition revoked : Sessions := (claude_planner_revoke_tx always Scope_All minted).1.

Definition minted_session : WorkerSession :=
  match session_get_tx no_parse minted (lit "s") with Ok (Some s) => s | _ => planner_session end.

Lemma minted_reachable : reachable always no_parse no_print minted.
Proof.
  eapply rtc_l; [apply (step_insert _ _ _ _ planner_session)|].
  eapply rtc_l; [apply (step_token _ _ _ _ (lit "s") (lit "h"))|]. apply rtc_refl.
Qed.

Lemma session_history_witness :
  ∃ r r', minted !! lit "s" = Some r ∧ ended !! lit "s" = Some r' ∧ identity_of r' = identity_of r ∧
          r_state r = lit "starting" ∧ r_state r' = lit "exited" ∧
          rtc allowed_text (r_state r) (r_state r').
Proof.
  destruct (session_history always no_parse no_print minted ended (lit "s")
              (set_token (Some (lit "h")) (session_to_row planner_session None)))
    as (r' & Hr' & Hid & Hst & _).
  - apply rtc_once. apply (step_exit always no_parse no_print minted (lit "s") Exited 5).
  - vm_compute. reflexivity.
  - eexists _, r'. split; [|split; [exact Hr'|split; [exact Hid|]]]; [vm_compute; reflexivity|].
    split; [vm_compute; reflexivity|]. split; [|exact Hst].
    vm_compute in Hr'. injection Hr' as <-. vm_compute. reflexivity.
Defined.

Lemma token_authenticates_iff_witness :
  session_get_by_active_token_hash no_parse minted (lit "h") = Ok (Some minted_session).
Proof.
  apply (token_authenticates_iff always no_parse no_print minted (lit "h") minted_session minted_reachable).
  vm_compute. split; [reflexivity|]. split; reflexivity.
Defined.

Lemma minted_token_authenticates_witness :
  session_get_by_active_token_hash no_parse minted (lit "h") = Ok (Some minted_session).
Proof.
  apply (minted_token_authenticates always no_parse inserted minted (lit "s") (lit "h"));
    vm_compute; reflexivity.
Defined.

Lemma revocation_complete_witness :
  (∀ id, id ∈ [lit "s"] ↔ ∃ r, minted !! id = Some r ∧ claude_planner_in_scope Scope_All r = true) ∧
  (∀ id, revoked !! id =
     (λ r, if claude_planner_in_scope Scope_All r then set_token None r else r) <$> minted !! id) ∧
  (∀ h s, session_get_by_active_token_hash no_parse revoked h = Ok (Some s) → ws_id s ∉ [lit "s"]).
Proof.
  apply (revocation_complete always no_parse Scope_All minted revoked); vm_compute; reflexivity.
Defined.

(** The same session with a handle state, and JSON that knows [null] only. *)
Definition parse_null (s : str) : option Json :=
  if bool_decide (s = lit "null") then Some JNull else None.
Definition print_null (v : Json) : option str :=
  match v with JNull => Some (lit "null") | _ => None end.
Definition handled_session : WorkerSession :=
  match planner_session with
  | mkWorkerSession id t pr m c p q st tok th ag tu te card _ l lp ec ei sp la lt cr up co =>
      mkWorkerSession id t pr m c p q st tok th ag tu te card (Some JNull) l lp ec ei sp la lt cr up co
  end.

Lemma session_insert_roundtrip_witness :
  let t' := (session_insert_tx always parse_null print_null handled_session ∅).1 in
  session_insert_tx always parse_null print_null handled_session ∅ = (t', Ok handled_session) ∧
  session_get_tx parse_null t' (lit "s") = Ok (Some handled_session).
Proof.
  split; [|vm_compute; reflexivity].
  apply (session_insert_roundtrip always parse_null print_null ∅ _ handled_session handled_session).
  - intros v Hv. vm_compute in Hv. injection Hv as <-. exists (lit "null"). split; reflexivity.
  - split; [reflexivity|]. split; [vm_compute; reflexivity|]. split; [vm_compute; reflexivity|].
    split; [vm_compute; reflexivity|]. split; [vm_compute; reflexivity|].
    split; vm_compute; reflexivity.
Defined.

(** An OpenCode planner session, as [acp_rows_managed] speaks of it. *)
Definition opencode_session : WorkerSession :=
  match planner_session with
  | mkWorkerSession id t _ m c p q st tok th ag tu te card h l lp ec ei sp la lt cr up co =>
      mkWorkerSession id t Kind_OpenCode m c p q st tok th ag tu te card h l lp ec ei sp la lt cr up co
  end.
Definition opencode_inserted : Sessions :=
  (session_insert_tx always no_parse no_print opencode_session ∅).1.

Lemma acp_rows_managed_witness :
  (lit "planner" = lit "planner" ∨ lit "planner" = lit "assistant") ∧ lit "resumable" = lit "resumable" ∧
  is_Some (opencode_inserted !! lit "s").
Proof.
  destruct (acp_rows_managed always no_parse no_print opencode_inserted (lit "s")
              (session_to_row opencode_session None) Kind_OpenCode) as [Hc Hm].
  - apply rtc_once. apply (step_insert always no_parse no_print ∅ opencode_session).
  - vm_compute. reflexivity.
  - vm_compute. reflexivity.
  - vm_compute. reflexivity.
  - split; [exact Hc|]. split; [exact Hm|]. vm_compute. eexists. reflexivity.
Defined.
