(* ===== verification/RoleGate.v ===== *)
(** * The role gate

    Models [crates/calm-truth/src/role_gate.rs]: the authorization decision run on
    every event write. Each numbered rule of [enforce_role] is a definition; the
    gate runs them in source order and stops at the first violation. A violation
    message that renders a value with [Debug] carries the value itself. *)

From stdpp Require Import prelude gmap strings.
From S2P Require Import Prelude Identity Events Caches.

Local Open Scope calm_scope.

(** What an out-of-scope message shows of the scope. *)
Inductive ScopeMismatch :=
| CardMismatch (scope : EventScope)
| TrackMismatch (home : TrackId) (scope : EventScope)
| AreaMismatch (home : AreaId) (scope : EventScope).

Inductive RoleViolation :=
| EmptyAiCardId
| SessionActorUnresolved (session : WorkerSessionId)
| SessionRowMissing (session : WorkerSessionId)
| SessionNotActive (session : WorkerSessionId)
| CardlessSessionDenied (session : WorkerSessionId)
| SessionResolutionError (session : WorkerSessionId)
| SessionPlannerRoleMismatch (session : WorkerSessionId) (card : CardId)
| NotPlannerForTrack (actor : str)
| NotPlannerForDispatch (actor : str)
| NotKernelForTaskDispatched (actor : str)
| NotKernelForTaskContextFrozen (actor : str)
| NotKernelForTaskContextAdvanced (actor : str)
| NotKernelForTaskGitDeliverySettled (actor : ActorId)
| InvalidAssistantInput
| NotKernelForTrackWakeRequested (actor : ActorId)
| NotKernelForTaskGateResult (actor : str)
| NotPlannerForAsk (actor : str)
| NotUserForAskAnswered (actor : str)
| NotPlannerForAskWithdrawn (actor : str)
| NotPlannerForTaskRegate (actor : str)
| NotSubmitterPluginForProposalSubmitted (actor payload_plugin : str)
| NotUserForProposalResolved (decision actor : str)
| NotSubmitterPluginForProposalWithdrawn (actor payload_plugin : str)
| WorkerOutOfScope (card : CardId) (scope : ScopeMismatch)
| AssistantOutOfScope (card : CardId) (scope : ScopeMismatch)
| UnknownCard (card : CardId)
| RoleLookupFailed (subject : str).

Abbreviation Gate := (result unit RoleViolation).

(** [format!("Name({id})")]. *)
Definition wrapped (name : string) (id : str) : str := lit name ++ lit "(" ++ id ++ lit ")".

(** ** (1) Identity guards *)

Definition guard_empty_card (actor : ActorId) : Gate :=
  match actor with
  | AiCodex c | AiClaude c | AiManagedCard c | AiPlanner c =>
      if is_empty c then Err EmptyAiCardId else Ok tt
  | _ => Ok tt
  end.

Definition guard_empty_session (actor : ActorId) : Gate :=
  match actor with
  | AiPlannerSession s | AiCodexSession s | AiClaudeSession s | AiManagedSession s =>
      if is_empty s then Err (SessionActorUnresolved s) else Ok tt
  | _ => Ok tt
  end.

Definition guard_managed_card (cache : CardRoleCache) (actor : ActorId) : Gate :=
  match actor with
  | AiManagedCard card =>
      if bool_decide (CardRoles.get cache card ≠ Some Assistant) then Err (UnknownCard card) else Ok tt
  | _ => Ok tt
  end.

(** ** (2) and (2.5): planner-only events *)

Definition is_track_updated (e : Event) : bool :=
  match e with TrackUpdated _ _ => true | _ => false end.

Definition rule_track_updated (cache : CardRoleCache) (actor : ActorId) (e : Event) : Gate :=
  if is_track_updated e then
    match actor with
    | User | Kernel | KernelDispatcher => Ok tt
    | Plugin _ => Ok tt
    | AiPlanner card_id =>
        if bool_decide (CardRoles.get cache card_id ≠ Some Planner)
        then Err (NotPlannerForTrack (wrapped "AiPlanner" card_id)) else Ok tt
    | AiCodex card_id => Err (NotPlannerForTrack (wrapped "AiCodex" card_id))
    | AiClaude card_id => Err (NotPlannerForTrack (wrapped "AiClaude" card_id))
    | AiManagedCard card_id => Err (NotPlannerForTrack (wrapped "AiManagedCard" card_id))
    | AiPlannerSession s | AiCodexSession s | AiClaudeSession s | AiManagedSession s =>
        Err (SessionActorUnresolved s)
    end
  else Ok tt.

Definition is_dispatch_request (e : Event) : bool :=
  match e with CodexWorkerRequested _ | TerminalWorkerRequested _ | PlanUpdated _ _ => true | _ => false end.

Definition rule_dispatch (cache : CardRoleCache) (actor : ActorId) (e : Event) : Gate :=
  if is_dispatch_request e then
    match actor with
    | User | Kernel | KernelDispatcher => Ok tt
    | Plugin _ => Ok tt
    | AiPlanner card_id =>
        if bool_decide (CardRoles.get cache card_id ≠ Some Planner)
        then Err (NotPlannerForDispatch (wrapped "AiPlanner" card_id)) else Ok tt
    | AiCodex card_id => Err (NotPlannerForDispatch (wrapped "AiCodex" card_id))
    | AiClaude card_id => Err (NotPlannerForDispatch (wrapped "AiClaude" card_id))
    | AiManagedCard card_id => Err (NotPlannerForDispatch (wrapped "AiManagedCard" card_id))
    | AiPlannerSession s | AiCodexSession s | AiClaudeSession s | AiManagedSession s =>
        Err (SessionActorUnresolved s)
    end
  else Ok tt.

(** ** (2.6), (2.7): records of the kernel the user may also write *)

Definition rule_task_dispatched (actor : ActorId) (e : Event) : Gate :=
  match e with
  | TaskDispatched _ =>
      match actor with
      | User | Kernel | KernelDispatcher => Ok tt
      | Plugin name => Err (NotKernelForTaskDispatched (wrapped "Plugin" name))
      | AiPlanner c => Err (NotKernelForTaskDispatched (wrapped "AiPlanner" c))
      | AiCodex c => Err (NotKernelForTaskDispatched (wrapped "AiCodex" c))
      | AiClaude c => Err (NotKernelForTaskDispatched (wrapped "AiClaude" c))
      | AiManagedCard c => Err (NotKernelForTaskDispatched (wrapped "AiManagedCard" c))
      | AiPlannerSession s | AiCodexSession s | AiClaudeSession s | AiManagedSession s =>
          Err (SessionActorUnresolved s)
      end
  | _ => Ok tt
  end.

Definition rule_task_gate_result (actor : ActorId) (e : Event) : Gate :=
  match e with
  | TaskGateResult _ _ =>
      match actor with
      | User | Kernel | KernelDispatcher => Ok tt
      | Plugin name => Err (NotKernelForTaskGateResult (wrapped "Plugin" name))
      | AiPlanner c => Err (NotKernelForTaskGateResult (wrapped "AiPlanner" c))
      | AiCodex c => Err (NotKernelForTaskGateResult (wrapped "AiCodex" c))
      | AiClaude c => Err (NotKernelForTaskGateResult (wrapped "AiClaude" c))
      | AiManagedCard c => Err (NotKernelForTaskGateResult (wrapped "AiManagedCard" c))
      | AiPlannerSession s | AiCodexSession s | AiClaudeSession s | AiManagedSession s =>
          Err (SessionActorUnresolved s)
      end
  | _ => Ok tt
  end.

(** ** Strict kernel records *)

Definition rule_task_context_frozen (actor : ActorId) (e : Event) : Gate :=
  match e with
  | TaskContextFrozen _ _ =>
      match actor with
      | Kernel | KernelDispatcher => Ok tt
      | User => Err (NotKernelForTaskContextFrozen (lit "User"))
      | Plugin name => Err (NotKernelForTaskContextFrozen (wrapped "Plugin" name))
      | AiPlanner c => Err (NotKernelForTaskContextFrozen (wrapped "AiPlanner" c))
      | AiCodex c => Err (NotKernelForTaskContextFrozen (wrapped "AiCodex" c))
      | AiClaude c => Err (NotKernelForTaskContextFrozen (wrapped "AiClaude" c))
      | AiManagedCard c => Err (NotKernelForTaskContextFrozen (wrapped "AiManagedCard" c))
      | AiPlannerSession s | AiCodexSession s | AiClaudeSession s | AiManagedSession s =>
          Err (SessionActorUnresolved s)
      end
  | _ => Ok tt
  end.

Definition is_kernel (actor : ActorId) : bool :=
  match actor with Kernel | KernelDispatcher => true | _ => false end.

Definition rule_git_delivery (actor : ActorId) (e : Event) : Gate :=
  match e with
  | TaskGitDeliverySettled _ _ _ _ =>
      if negb (is_kernel actor) then Err (NotKernelForTaskGitDeliverySettled actor) else Ok tt
  | _ => Ok tt
  end.

Definition rule_assistant_input (actor : ActorId) (e : Event) (scope : EventScope) : Gate :=
  match e with
  | AssistantInputRequested card_id track_id =>
      if negb (is_kernel actor) || bool_decide (scope_card_id scope ≠ Some card_id)
         || bool_decide (scope_track_id scope ≠ Some track_id)
      then Err InvalidAssistantInput else Ok tt
  | _ => Ok tt
  end.

Definition rule_track_wake (actor : ActorId) (e : Event) : Gate :=
  match e with
  | TrackWakeRequested _ =>
      if negb (is_kernel actor) then Err (NotKernelForTrackWakeRequested actor) else Ok tt
  | _ => Ok tt
  end.

Definition rule_task_context_advanced (actor : ActorId) (e : Event) : Gate :=
  match e with
  | TaskContextAdvanced _ _ =>
      match actor with
      | Kernel | KernelDispatcher => Ok tt
      | User => Err (NotKernelForTaskContextAdvanced (lit "User"))
      | Plugin name => Err (NotKernelForTaskContextAdvanced (wrapped "Plugin" name))
      | AiPlanner c => Err (NotKernelForTaskContextAdvanced (wrapped "AiPlanner" c))
      | AiCodex c => Err (NotKernelForTaskContextAdvanced (wrapped "AiCodex" c))
      | AiClaude c => Err (NotKernelForTaskContextAdvanced (wrapped "AiClaude" c))
      | AiManagedCard c => Err (NotKernelForTaskContextAdvanced (wrapped "AiManagedCard" c))
      | AiPlannerSession s | AiCodexSession s | AiClaudeSession s | AiManagedSession s =>
          Err (SessionActorUnresolved s)
      end
  | _ => Ok tt
  end.

(** ** (2.12) to (2.15): questions and re-gates *)

Definition is_planner (cache : CardRoleCache) (actor : ActorId) : bool :=
  match actor with
  | AiPlanner card_id => bool_decide (CardRoles.get cache card_id = Some Planner)
  | _ => false
  end.

Definition rule_ask_requested (cache : CardRoleCache) (actor : ActorId) (e : Event) : Gate :=
  match e with
  | AskRequested _ =>
      if negb (is_planner cache actor) then Err (NotPlannerForAsk (actor_to_string actor)) else Ok tt
  | _ => Ok tt
  end.

Definition rule_ask_answered (actor : ActorId) (e : Event) : Gate :=
  match e with
  | AskAnswered _ _ =>
      if bool_decide (actor ≠ User) then Err (NotUserForAskAnswered (actor_to_string actor)) else Ok tt
  | _ => Ok tt
  end.

Definition rule_ask_withdrawn (cache : CardRoleCache) (actor : ActorId) (e : Event) : Gate :=
  match e with
  | AskWithdrawn _ _ =>
      if negb (is_planner cache actor)
      then Err (NotPlannerForAskWithdrawn (actor_to_string actor)) else Ok tt
  | _ => Ok tt
  end.

Definition rule_task_regate (cache : CardRoleCache) (actor : ActorId) (e : Event) : Gate :=
  match e with
  | TaskRegateRequested _ =>
      if negb (is_planner cache actor)
      then Err (NotPlannerForTaskRegate (actor_to_string actor)) else Ok tt
  | _ => Ok tt
  end.

(** ** (2.10), (2.11): proposals *)

Definition rule_proposal_submitted (actor : ActorId) (e : Event) : Gate :=
  match e with
  | ProposalSubmitted _ _ plugin_id =>
      if bool_decide (actor = Plugin plugin_id) then Ok tt
      else Err (NotSubmitterPluginForProposalSubmitted (actor_to_string actor) plugin_id)
  | _ => Ok tt
  end.

Definition rule_proposal_resolved (actor : ActorId) (e : Event) : Gate :=
  match e with
  | ProposalResolved _ _ plugin_id decision =>
      match decision with
      | Withdrawn =>
          if bool_decide (actor = Plugin plugin_id) then Ok tt
          else Err (NotSubmitterPluginForProposalWithdrawn (actor_to_string actor) plugin_id)
      | Accepted | Rejected | Stale =>
          if bool_decide (actor = User) then Ok tt
          else Err (NotUserForProposalResolved (proposal_decision_str decision) (actor_to_string actor))
      end
  | _ => Ok tt
  end.

(** ** (3) Card scopes *)

Definition guard_session_actor (actor : ActorId) : Gate :=
  match actor with
  | AiPlannerSession s | AiCodexSession s | AiClaudeSession s | AiManagedSession s =>
      Err (SessionActorUnresolved s)
  | _ => Ok tt
  end.

(** [enforce_card_scope]: the scope is a card scope, its card is an allowed target,
    and its track and area are the acting card's home. *)
Definition enforce_card_scope (card_id : CardId) (scope : EventScope) (cache : CardRoleCache)
    (track_area_cache : TrackAreaCache) (target_allowed : CardId → TrackId → bool)
    (violation : CardId → ScopeMismatch → RoleViolation) : Gate :=
  match scope with
  | Card target scope_track scope_area =>
      match CardRoles.track_of cache card_id with
      | None => Err (violation card_id (CardMismatch scope))
      | Some home_track =>
          if negb (target_allowed target home_track)
          then Err (violation card_id (CardMismatch scope))
          else if bool_decide (scope_track ≠ home_track)
          then Err (violation card_id (TrackMismatch home_track scope))
          else
            match TrackAreas.area_of track_area_cache home_track with
            | None => Err (RoleLookupFailed (wrapped "tracks.area_id" home_track))
            | Some home_area =>
                if bool_decide (scope_area ≠ home_area)
                then Err (violation card_id (AreaMismatch home_area scope))
                else Ok tt
            end
      end
  | _ => Err (violation card_id (CardMismatch scope))
  end.

Definition enforce_card_self_scope (card_id : CardId) (scope : EventScope) (cache : CardRoleCache)
    (track_area_cache : TrackAreaCache) : Gate :=
  enforce_card_scope card_id scope cache track_area_cache
    (λ target _, bool_decide (target = card_id)) WorkerOutOfScope.

Definition enforce_assistant_scope (card_id : CardId) (scope : EventScope) (cache : CardRoleCache)
    (track_area_cache : TrackAreaCache) : Gate :=
  enforce_card_scope card_id scope cache track_area_cache
    (λ target home_track,
       bool_decide (target = card_id)
       || (bool_decide (CardRoles.get cache target = Some ReportCard)
           && bool_decide (CardRoles.track_of cache target = Some home_track)))
    AssistantOutOfScope.

Definition is_own_worker_lifecycle_event (actor : ActorId) (e : Event) : bool :=
  match actor, e with
  | AiCodex _, CodexHook _ => true
  | AiClaude _, ClaudeHook _ => true
  | (AiCodex _ | AiClaude _ | AiManagedCard _), HarnessUserMessageEnqueued _ _ _ => true
  | _, _ => false
  end.

(** The actors bound to a worker's card, with their label. *)
Definition worker_of (actor : ActorId) : option (CardId * string) :=
  match actor with
  | AiCodex card_id => Some (card_id, "AiCodex"%string)
  | AiClaude card_id => Some (card_id, "AiClaude"%string)
  | AiManagedCard card_id => Some (card_id, "AiManagedCard"%string)
  | _ => None
  end.

Definition rule_card_scope (cache : CardRoleCache) (track_area_cache : TrackAreaCache)
    (actor : ActorId) (e : Event) (scope : EventScope) : Gate :=
  match worker_of actor with
  | None => Ok tt
  | Some (card_id, actor_label) =>
      match CardRoles.get cache card_id with
      | None => Err (UnknownCard card_id)
      | Some Worker => enforce_card_self_scope card_id scope cache track_area_cache
      | Some Planner =>
          if is_own_worker_lifecycle_event actor e
          then enforce_card_self_scope card_id scope cache track_area_cache
          else Err (NotPlannerForTrack
                      (wrapped actor_label card_id ++ lit " " ++ [8212%N] ++
                       lit " card is Planner-roled but actor variant is not AiPlanner"))
      | Some ReportCard => enforce_card_self_scope card_id scope cache track_area_cache
      | Some Assistant => enforce_assistant_scope card_id scope cache track_area_cache
      end
  end.

(** [enforce_role]. *)
Definition enforce_role (actor : ActorId) (e : Event) (scope : EventScope) (cache : CardRoleCache)
    (track_area_cache : TrackAreaCache) : Gate :=
  let? _ := guard_empty_card actor in
  let? _ := guard_empty_session actor in
  let? _ := guard_managed_card cache actor in
  let? _ := rule_track_updated cache actor e in
  let? _ := rule_dispatch cache actor e in
  let? _ := rule_task_dispatched actor e in
  let? _ := rule_task_context_frozen actor e in
  let? _ := rule_git_delivery actor e in
  let? _ := rule_assistant_input actor e scope in
  let? _ := rule_track_wake actor e in
  let? _ := rule_task_context_advanced actor e in
  let? _ := rule_task_gate_result actor e in
  let? _ := rule_ask_requested cache actor e in
  let? _ := rule_ask_answered actor e in
  let? _ := rule_ask_withdrawn cache actor e in
  let? _ := rule_task_regate cache actor e in
  let? _ := rule_proposal_submitted actor e in
  let? _ := rule_proposal_resolved actor e in
  let? _ := guard_session_actor actor in
  rule_card_scope cache track_area_cache actor e scope.

(** ** The policy

    Who may write what, stated per event and per actor. *)
Section policy.
Context (cache : CardRoleCache) (areas : TrackAreaCache).

Definition trusted (a : ActorId) : Prop :=
  match a with User | Kernel | KernelDispatcher => True | _ => False end.

Definition kernel (a : ActorId) : Prop :=
  match a with Kernel | KernelDispatcher => True | _ => False end.

Definition plugin (a : ActorId) : Prop := ∃ p, a = Plugin p.

Definition planner (a : ActorId) : Prop :=
  ∃ c, a = AiPlanner c ∧ CardRoles.get cache c = Some Planner.

(** The actors an event is reserved for. *)
Definition event_allowed (a : ActorId) (e : Event) (scope : EventScope) : Prop :=
  match e with
  | TrackUpdated _ _ | CodexWorkerRequested _ | TerminalWorkerRequested _ | PlanUpdated _ _ =>
      trusted a ∨ plugin a ∨ planner a
  | TaskDispatched _ | TaskGateResult _ _ => trusted a
  | TaskContextFrozen _ _ | TaskContextAdvanced _ _ | TaskGitDeliverySettled _ _ _ _
  | TrackWakeRequested _ => kernel a
  | AssistantInputRequested c t => kernel a ∧ scope_card_id scope = Some c ∧ scope_track_id scope = Some t
  | AskRequested _ | AskWithdrawn _ _ | TaskRegateRequested _ => planner a
  | AskAnswered _ _ => a = User
  | ProposalSubmitted _ _ p => a = Plugin p
  | ProposalResolved _ _ p Withdrawn => a = Plugin p
  | ProposalResolved _ _ _ _ => a = User
  | _ => True
  end.

(** The card scopes of a card's home, for a set of target cards. *)
Definition home_scope (c : CardId) (allowed : CardId → TrackId → Prop) (scope : EventScope) : Prop :=
  ∃ target track area, scope = Card target track area ∧
    CardRoles.track_of cache c = Some track ∧ TrackAreas.area_of areas track = Some area ∧
    allowed target track.

(** The report card of a track. *)
Definition report_card_of (target : CardId) (track : TrackId) : Prop :=
  CardRoles.get cache target = Some ReportCard ∧ CardRoles.track_of cache target = Some track.

Definition worker_scope (a : ActorId) (c : CardId) (e : Event) (scope : EventScope) : Prop :=
  match CardRoles.get cache c with
  | None => False
  | Some Worker | Some ReportCard => home_scope c (λ t _, t = c) scope
  | Some Planner => is_own_worker_lifecycle_event a e = true ∧ home_scope c (λ t _, t = c) scope
  | Some Assistant => home_scope c (λ t track, t = c ∨ report_card_of t track) scope
  end.

(** Where an actor may write. *)
Definition actor_in_scope (a : ActorId) (e : Event) (scope : EventScope) : Prop :=
  match a with
  | User | Kernel | KernelDispatcher | Plugin _ => True
  | AiPlanner c => c ≠ []
  | AiCodex c | AiClaude c => c ≠ [] ∧ worker_scope a c e scope
  | AiManagedCard c => c ≠ [] ∧ CardRoles.get cache c = Some Assistant ∧ worker_scope a c e scope
  | AiPlannerSession _ | AiCodexSession _ | AiClaudeSession _ | AiManagedSession _ => False
  end.

(** ** The gate decides the policy *)

Lemma bind_Ok_unit (r : Gate) (k : unit → Gate) :
  result_bind r k = Ok tt ↔ r = Ok tt ∧ k tt = Ok tt.
Proof. destruct r as [[]|]; simpl; naive_solver. Qed.

Lemma guard_identity a :
  (guard_empty_card a = Ok tt ∧ guard_empty_session a = Ok tt ∧ guard_managed_card cache a = Ok tt ∧
   guard_session_actor a = Ok tt) ↔
  match a with
  | User | Kernel | KernelDispatcher | Plugin _ => True
  | AiPlanner c | AiCodex c | AiClaude c => c ≠ []
  | AiManagedCard c => c ≠ [] ∧ CardRoles.get cache c = Some Assistant
  | _ => False
  end.
Proof.
  destruct a as [| | |p|c|c|c|c|s|s|s|s]; simpl; try (split; [done|by intros []]); try naive_solver;
    destruct c; simpl; try naive_solver. case_bool_decide; naive_solver.
Qed.

Lemma enforce_card_scope_Ok c scope allowed (P : CardId → TrackId → Prop) v :
  (∀ t track, allowed t track = true ↔ P t track) →
  enforce_card_scope c scope cache areas allowed v = Ok tt ↔ home_scope c P scope.
Proof.
  intros HP. unfold enforce_card_scope, home_scope.
  destruct scope as [| | |target track area]; try (split; [done|by intros (? & ? & ? & [=] & _)]).
  destruct (CardRoles.track_of cache c) as [home|]; [|split; [done|by intros (? & ? & ? & _ & [=] & _)]].
  specialize (HP target home). destruct (allowed target home); simpl.
  2: { split; [done|]. intros (? & ? & ? & [= -> -> ->] & [= ->] & _ & ?). naive_solver. }
  case_bool_decide as Ht; [split; [done|]; intros (? & ? & ? & [= -> -> ->] & [= ->] & _); done|].
  subst home.
  destruct (TrackAreas.area_of areas track) as [ha|] eqn:Ha;
    [|split; [done|]; intros (? & ? & ? & [= -> -> ->] & _ & Hn & _); congruence].
  case_bool_decide as Har.
  - split; [done|]. intros (? & ? & ? & [= -> -> ->] & _ & Hn & _). congruence.
  - subst ha. split; [|done]. intros _. exists target, track, area. naive_solver.
Qed.

Lemma rule_card_scope_Ok a e scope :
  rule_card_scope cache areas a e scope = Ok tt ↔
  match worker_of a with Some (c, _) => worker_scope a c e scope | None => True end.
Proof.
  unfold rule_card_scope, worker_scope. destruct (worker_of a) as [[c label]|]; [|done].
  assert (enforce_card_self_scope c scope cache areas = Ok tt ↔ home_scope c (λ t _, t = c) scope) as Hself.
  { apply enforce_card_scope_Ok. intros t _. apply bool_decide_eq_true. }
  destruct (CardRoles.get cache c) as [[]|]; [done| |done| |done].
  - destruct (is_own_worker_lifecycle_event a e); [rewrite Hself; naive_solver|].
    split; [done|by intros [[=] _]].
  - apply enforce_card_scope_Ok. intros t track. unfold report_card_of.
    by rewrite orb_true_iff, andb_true_iff, !bool_decide_eq_true.
Qed.

Lemma is_planner_Ok a : is_planner cache a = true ↔ planner a.
Proof.
  unfold planner. destruct a; simpl; try naive_solver.
  rewrite bool_decide_eq_true. naive_solver.
Qed.

Lemma is_kernel_Ok a : is_kernel a = true ↔ kernel a.
Proof. destruct a; simpl; naive_solver. Qed.

(** The rules on events, without the identity guards and the scope. *)
Definition event_rules (a : ActorId) (e : Event) (scope : EventScope) : Prop :=
  rule_track_updated cache a e = Ok tt ∧ rule_dispatch cache a e = Ok tt ∧
  rule_task_dispatched a e = Ok tt ∧ rule_task_context_frozen a e = Ok tt ∧
  rule_git_delivery a e = Ok tt ∧ rule_assistant_input a e scope = Ok tt ∧
  rule_track_wake a e = Ok tt ∧ rule_task_context_advanced a e = Ok tt ∧
  rule_task_gate_result a e = Ok tt ∧ rule_ask_requested cache a e = Ok tt ∧
  rule_ask_answered a e = Ok tt ∧ rule_ask_withdrawn cache a e = Ok tt ∧
  rule_task_regate cache a e = Ok tt ∧ rule_proposal_submitted a e = Ok tt ∧
  rule_proposal_resolved a e = Ok tt.

(** A single rule applies to the event. *)
Ltac only_rule r :=
  transitivity (r = Ok tt);
  [unfold event_rules; split; [intros Hr; by destruct_and! Hr|intros Hr; repeat split; done]|].

Lemma if_Ok (b : bool) (v : RoleViolation) : (if b then Err v else Ok tt : Gate) = Ok tt ↔ b = false.
Proof. destruct b; naive_solver. Qed.

Lemma if_Ok' (b : bool) (v : RoleViolation) : (if b then Ok tt else Err v : Gate) = Ok tt ↔ b = true.
Proof. destruct b; naive_solver. Qed.

Lemma rule_track_updated_Ok a id area :
  rule_track_updated cache a (TrackUpdated id area) = Ok tt ↔ trusted a ∨ plugin a ∨ planner a.
Proof.
  unfold rule_track_updated, plugin, planner. simpl.
  destruct a; simpl; try case_bool_decide; naive_solver.
Qed.

Lemma rule_dispatch_Ok a e :
  is_dispatch_request e = true →
  rule_dispatch cache a e = Ok tt ↔ trusted a ∨ plugin a ∨ planner a.
Proof.
  unfold rule_dispatch, plugin, planner. intros ->.
  destruct a; simpl; try case_bool_decide; naive_solver.
Qed.

Lemma event_rules_Ok a e scope : event_rules a e scope ↔ event_allowed a e scope.
Proof.
  destruct e; try (split; [done|by intros _; repeat split]).
  - only_rule (rule_track_updated cache a (TrackUpdated id area_id)).
    apply rule_track_updated_Ok.
  - only_rule (rule_track_wake a (TrackWakeRequested track_id)).
    simpl. by rewrite if_Ok, negb_false_iff, is_kernel_Ok.
  - only_rule (rule_assistant_input a (AssistantInputRequested card_id track_id) scope).
    simpl. rewrite if_Ok, !orb_false_iff, negb_false_iff, is_kernel_Ok, !bool_decide_eq_false.
    split; [intros [[? Hc%dec_stable] Ht%dec_stable]|intros (? & -> & ->)]; done || naive_solver.
  - only_rule (rule_dispatch cache a (CodexWorkerRequested idempotency_key)).
    by apply rule_dispatch_Ok.
  - only_rule (rule_dispatch cache a (TerminalWorkerRequested idempotency_key)).
    by apply rule_dispatch_Ok.
  - only_rule (rule_git_delivery a (TaskGitDeliverySettled task_id idempotency_key track_id card_id)).
    simpl. by rewrite if_Ok, negb_false_iff, is_kernel_Ok.
  - only_rule (rule_dispatch cache a (PlanUpdated track_id changed_keys)).
    by apply rule_dispatch_Ok.
  - only_rule (rule_task_dispatched a (TaskDispatched idempotency_key)).
    destruct a; simpl; naive_solver.
  - only_rule (rule_task_context_frozen a (TaskContextFrozen track_id task_id)).
    destruct a; simpl; naive_solver.
  - only_rule (rule_task_context_advanced a (TaskContextAdvanced track_id task_id)).
    destruct a; simpl; naive_solver.
  - only_rule (rule_ask_requested cache a (AskRequested track_id)).
    simpl. by rewrite if_Ok, negb_false_iff, is_planner_Ok.
  - only_rule (rule_ask_answered a (AskAnswered ask_id track_id)).
    simpl. rewrite if_Ok, bool_decide_eq_false. split; [by intros ?%dec_stable|]. intros ->. naive_solver.
  - only_rule (rule_ask_withdrawn cache a (AskWithdrawn ask_id track_id)).
    simpl. by rewrite if_Ok, negb_false_iff, is_planner_Ok.
  - only_rule (rule_proposal_submitted a (ProposalSubmitted track_id proposal_id plugin_id)).
    simpl. by rewrite if_Ok', bool_decide_eq_true.
  - only_rule (rule_proposal_resolved a (ProposalResolved track_id proposal_id plugin_id decision)).
    destruct decision; simpl; by rewrite if_Ok', bool_decide_eq_true.
  - only_rule (rule_task_gate_result a (TaskGateResult task_id idempotency_key)).
    destruct a; simpl; naive_solver.
  - only_rule (rule_task_regate cache a (TaskRegateRequested attempt_id)).
    simpl. by rewrite if_Ok, negb_false_iff, is_planner_Ok.
Qed.

Lemma enforce_role_spec a e scope :
  enforce_role a e scope cache areas = Ok tt ↔
  event_allowed a e scope ∧ actor_in_scope a e scope.
Proof.
  rewrite <-event_rules_Ok. unfold enforce_role, event_rules.
  rewrite !bind_Ok_unit, rule_card_scope_Ok.
  transitivity
    ((guard_empty_card a = Ok tt ∧ guard_empty_session a = Ok tt ∧ guard_managed_card cache a = Ok tt ∧
      guard_session_actor a = Ok tt) ∧ event_rules a e scope ∧
     match worker_of a with Some (c, _) => worker_scope a c e scope | None => True end).
  { unfold event_rules. tauto. }
  rewrite guard_identity. unfold event_rules, actor_in_scope. destruct a; simpl; tauto.
Qed.
End policy.

(** C18: the role gate decides exactly its policy. A write passes if and only if the
    event may be written by that actor (plan, track and dispatch events: the user,
    the kernel, plugins and the planner on a planner card; kernel records: the kernel,
    some also the user; questions and re-gates: the planner; answers: the user;
    proposals: their plugin, or the user to decide them) and the actor may write in
    that scope: worker, report and assistant cards only in the card scope of their own
    home track and area, for their own card, an assistant also for the report card of
    its track, a planner card through a worker actor only for its own lifecycle
    events, and an unresolved session nowhere. *)
Theorem enforce_role_Ok_iff cache areas a e scope :
  enforce_role a e scope cache areas = Ok tt ↔
  event_allowed cache a e scope ∧ actor_in_scope cache areas a e scope.
Proof. apply enforce_role_spec. Qed.

(** Outside the planner-only events, a write as [AiPlanner] passes for any non-empty
    card id, known to the cache or not. *)
Lemma ai_planner_unconfirmed c id track scope :
  c ≠ [] → enforce_role (AiPlanner c) (CardDeleted id track) scope ∅ ∅ = Ok tt.
Proof. by destruct c. Qed.
