(* ===== verification/DecisionGate.v ===== *)
(** * The decision gate: authority read in the write transaction

    Models [crates/calm-truth/src/decision_gate.rs]: the trait [WriteTx] of reads a
    write transaction offers, its SQLite implementation, the resolution of session
    actors through live rows, the hydration of throwaway caches from the
    transaction, and the principal's card authority. The trait is a class; the
    reads of one transaction are functions of its snapshot. [serde_json::from_str]
    stands as the argument [parse_json]. *)

From stdpp Require Import prelude gmap strings.
From S2P Require Import Prelude Identity Events Caches RoleGate SessionRow.

Local Open Scope calm_scope.

Class WriteTx (T : Type) := {
  read_track_root_session_id : T → TrackId → result (option WorkerSessionId) TruthError;
  read_worker_session : T → WorkerSessionId → result (option WorkerSession) TruthError;
  read_card_role : T → CardId → result (option CardRole) TruthError;
  read_card_track : T → CardId → result (option TrackId) TruthError;
  read_card_binding : T → CardId → result (option (str * Json * option str)) TruthError;
  read_track_area : T → TrackId → result (option AreaId) TruthError;
}.

(** ** Resolving session actors *)

Definition session_of (actor : ActorId) : option WorkerSessionId :=
  match actor with
  | AiPlannerSession s | AiCodexSession s | AiClaudeSession s | AiManagedSession s => Some s
  | _ => None
  end.

(** The card actor a session actor stands for, once its card is known. The last
    case is unreachable in the source: it is entered for session actors only. *)
Definition synthetic_actor (actor : ActorId) (session : WorkerSession) (session_id : WorkerSessionId)
    (card_id : CardId) (cache : CardRoleCache) : result ActorId RoleViolation :=
  match actor with
  | AiPlannerSession _ =>
      if bool_decide (CardRoles.get cache card_id ≠ Some Planner)
      then Err (SessionPlannerRoleMismatch session_id card_id) else Ok (AiPlanner card_id)
  | AiCodexSession _ => Ok (AiCodex card_id)
  | AiClaudeSession _ => Ok (AiClaude card_id)
  | AiManagedSession _ =>
      if bool_decide (ws_contract session ≠ Contract_Assistant)
      then Err (SessionActorUnresolved session_id) else Ok (AiManagedCard card_id)
  | other => Ok other
  end.

Definition is_managed_session (actor : ActorId) : bool :=
  match actor with AiManagedSession _ => true | _ => false end.

Section gate.
Context {T : Type} `{WriteTx T}.

Definition enforce_role_resolving_session (tx : T) (actor : ActorId) (e : Event) (scope : EventScope)
    (cache : CardRoleCache) (track_area_cache : TrackAreaCache) : Gate :=
  match session_of actor with
  | None => enforce_role actor e scope cache track_area_cache
  | Some session_id =>
      if is_empty session_id then Err (SessionRowMissing session_id)
      else
        match read_worker_session tx session_id with
        | Err _ => Err (SessionResolutionError session_id)
        | Ok None => Err (SessionRowMissing session_id)
        | Ok (Some session) =>
            if negb (is_active_authority (ws_state session)) then Err (SessionNotActive session_id)
            else if bool_decide (ws_contract session = Contract_Assistant)
                    && negb (is_managed_session actor)
            then Err (SessionActorUnresolved session_id)
            else
              match ws_card_id session with
              | None => Err (CardlessSessionDenied session_id)
              | Some card_id =>
                  let? synthetic := synthetic_actor actor session session_id card_id cache in
                  enforce_role synthetic e scope cache track_area_cache
              end
        end
  end.

(** ** Hydrating throwaway caches *)

Definition actor_card_id (actor : ActorId) : option CardId :=
  match actor with
  | AiCodex card | AiClaude card | AiManagedCard card | AiPlanner card => Some card
  | _ => None
  end.

(** The loop that collects the cards to look up: non-empty and once each. *)
Definition candidate_cards (ids : list CardId) : list CardId :=
  foldl (λ cards card,
           if is_empty card || bool_decide (card ∈ cards) then cards else cards ++ [card]) [] ids.

Fixpoint hydrate_cards (tx : T) (cards : list CardId) (tracks : list TrackId) (cache : CardRoleCache)
  : result (list TrackId * CardRoleCache) RoleViolation :=
  match cards with
  | [] => Ok (tracks, cache)
  | card :: rest =>
      match read_card_role tx card with
      | Err _ => Err (RoleLookupFailed (wrapped "cards.role" card))
      | Ok role =>
          match read_card_track tx card with
          | Err _ => Err (RoleLookupFailed (wrapped "cards.track_id" card))
          | Ok home_track =>
              match role, home_track with
              | Some role, Some home_track =>
                  let tracks :=
                    if bool_decide (home_track ∈ tracks) then tracks else tracks ++ [home_track] in
                  hydrate_cards tx rest tracks (CardRoles.insert cache card role home_track)
              | _, _ => hydrate_cards tx rest tracks cache
              end
          end
      end
  end.

Fixpoint hydrate_tracks (tx : T) (tracks : list TrackId) (areas : TrackAreaCache)
  : result TrackAreaCache RoleViolation :=
  match tracks with
  | [] => Ok areas
  | track :: rest =>
      match read_track_area tx track with
      | Err _ => Err (RoleLookupFailed (wrapped "tracks.area_id" track))
      | Ok (Some area) => hydrate_tracks tx rest (TrackAreas.insert areas track area)
      | Ok None => hydrate_tracks tx rest areas
      end
  end.

Definition hydrate_role_caches_from_tx (tx : T) (actor : ActorId) (scope : EventScope)
    (extra_card : option CardId) : result (CardRoleCache * TrackAreaCache) RoleViolation :=
  let cards := candidate_cards
    (option_list (actor_card_id actor) ++ option_list (scope_card_id scope) ++ option_list extra_card) in
  let? tc := hydrate_cards tx cards (option_list (scope_track_id scope)) CardRoles.new in
  let? areas := hydrate_tracks tx tc.1 TrackAreas.new in
  Ok (tc.2, areas).

(** The card of a session actor, as an extra key; errors are left to the gate. *)
Definition session_card (tx : T) (actor : ActorId) : option CardId :=
  match session_of actor with
  | Some session =>
      if is_empty session then None
      else
        match read_worker_session tx session with
        | Ok (Some row) => ws_card_id row
        | _ => None
        end
  | None => None
  end.

Definition enforce_role_resolving_session_from_tx (tx : T) (actor : ActorId) (e : Event)
    (scope : EventScope) : Gate :=
  let? caches := hydrate_role_caches_from_tx tx actor scope (session_card tx actor) in
  enforce_role_resolving_session tx actor e scope caches.1 caches.2.

(** ** The principal's card authority *)

Inductive GateDecision := Allow | Deny (message : str).

Definition into_result (d : GateDecision) : result unit TruthError :=
  match d with Allow => Ok tt | Deny message => Err (Forbidden message) end.

(** [Debug] of the two unit enums the messages show. *)
Definition state_debug (s : WorkerSessionState) : str :=
  match s with
  | Starting => lit "Starting" | Running => lit "Running" | Idle => lit "Idle"
  | TurnPending => lit "TurnPending" | Exited => lit "Exited" | Failed => lit "Failed"
  | Superseded => lit "Superseded"
  end.

Definition role_debug (r : CardRole) : str :=
  match r with
  | Worker => lit "Worker" | Planner => lit "Planner" | ReportCard => lit "ReportCard"
  | Assistant => lit "Assistant"
  end.

Definition decide_card_authority (principal : Principal) (tx : T) (track : TrackId)
    (expected_card : option CardId) (roles : list CardRole) : result GateDecision TruthError :=
  match principal with
  | Principal_Agent session_id _ _ =>
      let sess := lit "session " ++ session_id in
      let? row := read_worker_session tx session_id in
      match row with
      | None => Ok (Deny (sess ++ lit " has no session row"))
      | Some session =>
          if negb (is_active_authority (ws_state session)) then
            Ok (Deny (sess ++ lit " is no longer an active authority (state "
                      ++ state_debug (ws_state session) ++ lit ")"))
          else
            match ws_card_id session with
            | None => Ok (Deny (sess ++ lit " is not bound to a card"))
            | Some card_id =>
                if match expected_card with
                   | Some expected => bool_decide (expected ≠ card_id) | None => false end
                then Ok (Deny (sess ++ lit " card binding changed"))
                else
                  let? role := read_card_role tx card_id in
                  match role with
                  | None => Ok (Deny (sess ++ lit " is bound to unknown card " ++ card_id))
                  | Some role =>
                      if negb (bool_decide (role ∈ roles)) then
                        Ok (Deny (sess ++ lit " card " ++ card_id ++ lit " has role "
                                  ++ role_debug role ++ lit ", which may not record"))
                      else
                        let? card_track := read_card_track tx card_id in
                        match card_track with
                        | None => Ok (Deny (sess ++ lit " card " ++ card_id
                                            ++ lit " has no resolvable track"))
                        | Some card_track =>
                            if bool_decide (card_track ≠ track) then
                              Ok (Deny (sess ++ lit " card " ++ card_id ++ lit " lives on track "
                                        ++ card_track ++ lit ", not " ++ track))
                            else Ok Allow
                        end
                  end
            end
      end
  | _ => Ok (Deny (lit "principal is not an agent session"))
  end.

Definition decide_recorder (principal : Principal) (tx : T) (track : TrackId) :=
  decide_card_authority principal tx track None [Planner; Assistant].

Definition decide_planner (principal : Principal) (tx : T) (track : TrackId) :=
  decide_card_authority principal tx track None [Planner].

Definition decide_card_write (principal : Principal) (tx : T) (track : TrackId) (card : CardId)
    (role : CardRole) :=
  decide_card_authority principal tx track (Some card) [role].

Definition recorder_grant (principal : Principal) (tx : T) (track : TrackId) : result bool TruthError :=
  let? d := decide_recorder principal tx track in
  Ok (match d with Allow => true | Deny _ => false end).
End gate.

(** ** The SQLite transaction *)

Record CardRow := mkCardRow {
  row_role : str;
  row_track_id : str;
  row_kind : str;
  row_payload : str;
  row_session_id : option str;
}.

Record TrackRow := mkTrackRow { row_area_id : str; row_root_session_id : option str }.

(** The rows a transaction sees. *)
Record Database := mkDatabase {
  db_cards : gmap str CardRow;
  db_tracks : gmap str TrackRow;
  db_sessions : Sessions;
}.

Definition PLANNER_PROVIDER_PAYLOAD_KEY : str := lit "planner_provider".
Definition ASSISTANT_PROVIDER_PAYLOAD_KEY : str := lit "assistant_provider".

Section sqlite.
Context (parse_json : str → option Json).

Definition sqlite_read_card_role (db : Database) (card : CardId) : result (option CardRole) TruthError :=
  match db_cards db !! card with
  | None => Ok None
  | Some row =>
      match card_role_try_from (row_role row) with
      | Ok role => Ok (Some role)
      | Err e => Err (Internal (lit "cards.role decode: " ++ e))
      end
  end.

Definition sqlite_read_card_track (db : Database) (card : CardId) : result (option TrackId) TruthError :=
  Ok (row_track_id <$> db_cards db !! card).

Definition sqlite_read_card_binding (db : Database) (card : CardId)
  : result (option (str * Json * option str)) TruthError :=
  match db_cards db !! card with
  | None => Ok None
  | Some row =>
      match parse_json (row_payload row) with
      | Some payload => Ok (Some (row_kind row, payload, row_session_id row))
      | None => Err SerdeJson
      end
  end.

Definition sqlite_read_track_area (db : Database) (track : TrackId) : result (option AreaId) TruthError :=
  Ok (row_area_id <$> db_tracks db !! track).

Definition sqlite_read_track_root_session_id (db : Database) (track : TrackId)
  : result (option WorkerSessionId) TruthError :=
  Ok (db_tracks db !! track ≫= row_root_session_id).

(** The payload key that declares the provider of a role's contract: the outer
    option is whether role and contract agree at all. *)
Definition provider_key (role : option CardRole) (contract : WorkerContract) (payload : Json)
  : option (option str) :=
  match role, contract with
  | Some Planner, Contract_Planner => Some (Some PLANNER_PROVIDER_PAYLOAD_KEY)
  | Some Assistant, Contract_Assistant =>
      if bool_decide (json_get payload (lit "harness_profile") ≫= json_as_str = Some (lit "assistant"))
      then Some (Some ASSISTANT_PROVIDER_PAYLOAD_KEY) else None
  | Some Worker, (Executor | Validator) => Some None
  | _, _ => None
  end.

(** Whether the session is the one the payload's provider declares. *)
Definition provider_matches (session : WorkerSession) (kind : str) (payload : Json) (key : str) : bool :=
  let provider := json_get payload key ≫= provider_of_json in
  negb (bool_decide (kind ≠ lit "codex")
        || bool_decide (ws_mode session ≠ Resumable)
        || bool_decide (ws_provider session = Kind_Terminal)
        || bool_decide (kind_of_provider <$> provider ≠ Some (ws_provider session))).

Definition sqlite_read_worker_session (db : Database) (id : WorkerSessionId)
  : result (option WorkerSession) TruthError :=
  let? row := session_get_tx parse_json (db_sessions db) id in
  match row with
  | None => Ok None
  | Some session =>
      if negb (is_active_authority (ws_state session)) then Ok (Some session)
      else
        match ws_card_id session with
        | None => Ok None
        | Some card =>
            let? binding := sqlite_read_card_binding db card in
            match binding with
            | None => Ok None
            | Some (kind, payload, current) =>
                if bool_decide (current ≠ Some id) then Ok None
                else
                  let? card_track := sqlite_read_card_track db card in
                  if bool_decide (card_track ≠ Some (ws_track_id session)) then Ok None
                  else
                    let? role := sqlite_read_card_role db card in
                    match provider_key role (ws_contract session) payload with
                    | None => Ok None
                    | Some None => Ok (Some session)
                    | Some (Some key) =>
                        if provider_matches session kind payload key then Ok (Some session)
                        else Ok None
                    end
            end
        end
  end.

#[export] Instance sqlite_WriteTx : WriteTx Database := {|
  read_track_root_session_id := sqlite_read_track_root_session_id;
  read_worker_session := sqlite_read_worker_session;
  read_card_role := sqlite_read_card_role;
  read_card_track := sqlite_read_card_track;
  read_card_binding := sqlite_read_card_binding;
  read_track_area := sqlite_read_track_area;
|}.
End sqlite.
