(* ===== verification/Authority.v ===== *)
(** * What the decision gate guarantees

    Session actors act only through a live session bound to its card; hydrating
    caches from the transaction decides as the full tables would; and the SQLite
    reads and the principal's card authority mean what they say. *)

From stdpp Require Import prelude gmap strings.
From S2P Require Import Prelude Identity Events Caches SessionRow RoleGate DecisionGate.

Section authority.
Context {T : Type} `{WriteTx T}.

(** ** Session actors *)

(** [resolves a row card cache a']: the session actor [a] whose row is [row] and
    whose card is [card] acts as [a']. *)
Definition resolves (a : ActorId) (row : WorkerSession) (card : CardId) (cache : CardRoleCache)
    (a' : ActorId) : Prop :=
  match a with
  | AiPlannerSession _ =>
      ws_contract row ≠ Contract_Assistant ∧ CardRoles.get cache card = Some Planner ∧ a' = AiPlanner card
  | AiCodexSession _ => ws_contract row ≠ Contract_Assistant ∧ a' = AiCodex card
  | AiClaudeSession _ => ws_contract row ≠ Contract_Assistant ∧ a' = AiClaude card
  | AiManagedSession _ => ws_contract row = Contract_Assistant ∧ a' = AiManagedCard card
  | _ => False
  end.

Lemma synthetic_actor_Ok a row sid card cache a' :
  is_Some (session_of a) →
  (synthetic_actor a row sid card cache = Ok a' ∧
   bool_decide (ws_contract row = Contract_Assistant) && negb (is_managed_session a) = false) ↔
  resolves a row card cache a'.
Proof.
  intros [s Hs]. destruct a; simplify_eq/=; rewrite ?andb_true_r, ?andb_false_r, ?bool_decide_eq_false;
    try case_bool_decide; naive_solver.
Qed.

(** A session actor passes the gate exactly when its session id is not empty, the
    transaction reads a row for it, that row is in an active state and bound to a
    card, the contract fits the actor (an assistant contract acts only as a managed
    session and only it does), a planner session's card has the planner role, and the
    card actor it stands for passes the role policy; every other actor passes exactly
    when the role policy lets it. *)
Theorem session_gate_iff tx a e scope cache areas :
  enforce_role_resolving_session tx a e scope cache areas = Ok tt ↔
  match session_of a with
  | None => event_allowed cache a e scope ∧ actor_in_scope cache areas a e scope
  | Some sid =>
      sid ≠ [] ∧ ∃ row card a',
        read_worker_session tx sid = Ok (Some row) ∧ is_active_authority (ws_state row) = true ∧
        ws_card_id row = Some card ∧ resolves a row card cache a' ∧
        event_allowed cache a' e scope ∧ actor_in_scope cache areas a' e scope
  end.
Proof.
  unfold enforce_role_resolving_session.
  destruct (session_of a) as [sid|] eqn:Hsid; [|apply enforce_role_spec].
  assert (is_empty sid = false ↔ sid ≠ []) as Hempty by (by destruct sid).
  destruct (is_empty sid); [split; [done|]; intros [Hne _]; by apply Hempty in Hne|].
  apply proj1 in Hempty. specialize (Hempty eq_refl).
  destruct (read_worker_session tx sid) as [[row|]|];
    [|by split; [|intros (_ & ? & ? & ? & [=] & _)]..].
  destruct (is_active_authority (ws_state row)) eqn:Hact; simpl;
    [|split; [done|]; intros (_ & ? & ? & ? & [= <-] & ? & _); congruence].
  destruct (bool_decide _ && negb _) eqn:Hc.
  { split; [done|]. intros (_ & row' & card & a' & [= <-] & _ & _ & Hres & _).
    apply (synthetic_actor_Ok a row sid) in Hres as [_ ?]; [congruence|by eexists]. }
  destruct (ws_card_id row) as [card|] eqn:Hcard;
    [|split; [done|]; intros (_ & ? & ? & ? & [= <-] & _ & ? & _); congruence].
  split.
  - intros Hg. split; [done|]. exists row, card.
    destruct (synthetic_actor a row sid card cache) as [a'|] eqn:Hs; [|done]. exists a'.
    simpl in Hg. rewrite enforce_role_spec in Hg. repeat split; try done; try apply Hg.
    apply (synthetic_actor_Ok a row sid); [by eexists|done].
  - intros (_ & row' & card' & a' & [= <-] & _ & Hcard' & Hres & Hpol).
    assert (card' = card) as -> by congruence.
    apply (synthetic_actor_Ok a row sid) in Hres as [Hs _]; [|by eexists]. rewrite Hs.
    simpl. by rewrite enforce_role_spec.
Qed.

(** ** Hydration *)

(** The transaction reads what the caches hold. *)
Record coherent (tx : T) (cache : CardRoleCache) (areas : TrackAreaCache) : Prop := {
  co_role : ∀ c, read_card_role tx c = Ok (CardRoles.get cache c);
  co_track : ∀ c, read_card_track tx c = Ok (CardRoles.track_of cache c);
  co_area : ∀ t, read_track_area tx t = Ok (TrackAreas.area_of areas t);
  co_empty : cache !! [] = None;
}.

Lemma elem_of_candidate_cards ids c : c ∈ candidate_cards ids ↔ c ∈ ids ∧ c ≠ [].
Proof.
  unfold candidate_cards. induction ids as [|x ids IH] using rev_ind.
  - split; [by intros ?%not_elem_of_nil|by intros [?%not_elem_of_nil _]].
  - rewrite foldl_app. simpl. rewrite elem_of_app, list_elem_of_singleton.
    destruct x as [|y x]; simpl; [rewrite IH; naive_solver|].
    case_bool_decide as Hin.
    + rewrite IH. split; [naive_solver|]. intros [[?| ->] ?]; [done|]. by apply IH in Hin.
    + rewrite elem_of_app, list_elem_of_singleton, IH. naive_solver.
Qed.

Lemma hydrate_cards_spec tx cache areas cards tracks h :
  coherent tx cache areas →
  ∃ tracks' h', hydrate_cards tx cards tracks h = Ok (tracks', h') ∧
    (∀ c, h' !! c = if bool_decide (c ∈ cards) then
                      match cache !! c with Some e => Some e | None => h !! c end else h !! c) ∧
    (∀ t, t ∈ tracks → t ∈ tracks') ∧
    (∀ c e, c ∈ cards → cache !! c = Some e → cce_track_id e ∈ tracks').
Proof.
  intros Hco. revert tracks h. induction cards as [|c cards IH]; intros tracks h; simpl.
  { exists tracks, h. repeat split; try done. by intros c e ?%not_elem_of_nil. }
  rewrite (co_role _ _ _ Hco), (co_track _ _ _ Hco). unfold CardRoles.get, CardRoles.track_of.
  destruct (cache !! c) as [[role track]|] eqn:Hc; simpl.
  - set (tracks1 := if bool_decide (track ∈ tracks) then tracks else tracks ++ [track]).
    assert (track ∈ tracks1 ∧ ∀ t, t ∈ tracks → t ∈ tracks1) as [Ht1 Ht2].
    { unfold tracks1. case_bool_decide; set_solver. }
    destruct (IH tracks1 (CardRoles.insert h c role track)) as (tracks' & h' & -> & Hl & Hsub & Htr).
    exists tracks', h'. split; [done|]. split; [|split].
    + intros c'. rewrite Hl. unfold CardRoles.insert. destruct (decide (c' = c)) as [->|Hne].
      * rewrite (bool_decide_true (c ∈ c :: cards)) by left. rewrite Hc.
        case_bool_decide; [done|by rewrite lookup_insert_eq].
      * rewrite lookup_insert_ne by done.
        by rewrite (bool_decide_ext (c' ∈ c :: cards) (c' ∈ cards)) by set_solver.
    + auto.
    + intros c' e [->|Hin]%elem_of_cons He; [|by eauto]. simplify_eq/=. auto.
  - destruct (IH tracks h) as (tracks' & h' & -> & Hl & Hsub & Htr).
    exists tracks', h'. split; [done|]. split; [|split; [done|]].
    + intros c'. rewrite Hl. destruct (decide (c' = c)) as [->|Hne].
      * rewrite (bool_decide_true (c ∈ c :: cards)) by left. rewrite Hc. by case_bool_decide.
      * by rewrite (bool_decide_ext (c' ∈ c :: cards) (c' ∈ cards)) by set_solver.
    + intros c' e [->|Hin]%elem_of_cons He; [congruence|by eauto].
Qed.

Lemma hydrate_tracks_spec tx cache areas tracks ha :
  coherent tx cache areas →
  ∃ ha', hydrate_tracks tx tracks ha = Ok ha' ∧
    ∀ t, ha' !! t = if bool_decide (t ∈ tracks) then
                      match areas !! t with Some a => Some a | None => ha !! t end else ha !! t.
Proof.
  intros Hco. revert ha. induction tracks as [|t tracks IH]; intros ha; simpl; [by exists ha|].
  rewrite (co_area _ _ _ Hco). unfold TrackAreas.area_of.
  destruct (areas !! t) as [area|] eqn:Ht.
  - destruct (IH (TrackAreas.insert ha t area)) as (ha' & -> & Hl). exists ha'. split; [done|].
    intros t'. rewrite Hl. unfold TrackAreas.insert. destruct (decide (t' = t)) as [->|Hne].
    + rewrite (bool_decide_true (t ∈ t :: tracks)) by left. rewrite Ht.
      case_bool_decide; [done|by rewrite lookup_insert_eq].
    + rewrite lookup_insert_ne by done.
      by rewrite (bool_decide_ext (t' ∈ t :: tracks) (t' ∈ tracks)) by set_solver.
  - destruct (IH ha) as (ha' & -> & Hl). exists ha'. split; [done|]. intros t'. rewrite Hl.
    destruct (decide (t' = t)) as [->|Hne].
    + rewrite (bool_decide_true (t ∈ t :: tracks)) by left. rewrite Ht. by case_bool_decide.
    + by rewrite (bool_decide_ext (t' ∈ t :: tracks) (t' ∈ tracks)) by set_solver.
Qed.

(** The gate looks at the actor's card, the scope's card and the area of the actor's
    home track, and at nothing else of the caches. *)
Section ext.
Context (a : ActorId) (e : Event) (scope : EventScope).
Context (c1 c2 : CardRoleCache) (a1 a2 : TrackAreaCache).
Context (Hactor : ∀ c, actor_card_id a = Some c → c1 !! c = c2 !! c).
Context (Hscope : ∀ c, scope_card_id scope = Some c → c1 !! c = c2 !! c).
Context (Harea : ∀ c en, actor_card_id a = Some c → c2 !! c = Some en →
                         a1 !! cce_track_id en = a2 !! cce_track_id en).

Lemma get_actor c : actor_card_id a = Some c → CardRoles.get c1 c = CardRoles.get c2 c.
Proof. intros Hc. unfold CardRoles.get. by rewrite Hactor. Qed.

Lemma is_planner_ext : is_planner c1 a = is_planner c2 a.
Proof. generalize get_actor. destruct a; try done. simpl. intros Hg. by rewrite Hg. Qed.

Lemma enforce_card_scope_ext c f1 f2 v :
  actor_card_id a = Some c →
  (∀ t track, scope_card_id scope = Some t → f1 t track = f2 t track) →
  enforce_card_scope c scope c1 a1 f1 v = enforce_card_scope c scope c2 a2 f2 v.
Proof.
  intros Hc Hf. pose proof (Hactor c Hc) as Hcc. pose proof (Harea c) as Hac.
  unfold enforce_card_scope. destruct scope as [| | |target track area]; try done.
  unfold CardRoles.track_of. rewrite Hcc.
  destruct (c2 !! c) as [en|] eqn:Hen; [|done]. simpl. rewrite (Hf target _ eq_refl).
  unfold TrackAreas.area_of. by rewrite (Hac en Hc eq_refl).
Qed.

Lemma rule_card_scope_ext : rule_card_scope c1 a1 a e scope = rule_card_scope c2 a2 a e scope.
Proof.
  unfold rule_card_scope. destruct (worker_of a) as [[c label]|] eqn:Hw; [|done].
  assert (actor_card_id a = Some c) as Hc by (by destruct a; simplify_eq/=).
  rewrite (get_actor c Hc).
  assert (enforce_card_self_scope c scope c1 a1 = enforce_card_self_scope c scope c2 a2) as Hself
    by (by apply enforce_card_scope_ext).
  assert (enforce_assistant_scope c scope c1 a1 = enforce_assistant_scope c scope c2 a2) as Hassist.
  { apply enforce_card_scope_ext; [done|]. intros t track Ht.
    unfold CardRoles.get, CardRoles.track_of. by rewrite (Hscope t Ht). }
  destruct (CardRoles.get c2 c) as [[]|]; try done. by rewrite Hself.
Qed.

Lemma enforce_role_ext : enforce_role a e scope c1 a1 = enforce_role a e scope c2 a2.
Proof.
  unfold enforce_role. rewrite rule_card_scope_ext.
  assert (guard_managed_card c1 a = guard_managed_card c2 a) as ->.
  { generalize get_actor. destruct a; try done. simpl. intros Hg. by rewrite Hg. }
  assert (rule_track_updated c1 a e = rule_track_updated c2 a e) as ->.
  { generalize get_actor. unfold rule_track_updated. destruct a; try done. intros Hg. by rewrite Hg. }
  assert (rule_dispatch c1 a e = rule_dispatch c2 a e) as ->.
  { generalize get_actor. unfold rule_dispatch. destruct a; try done. intros Hg. by rewrite Hg. }
  unfold rule_ask_requested, rule_ask_withdrawn, rule_task_regate. by rewrite is_planner_ext.
Qed.
End ext.

(** The card a gate decision is about: the actor's own, or its session's. *)
Lemma gate_ext tx a e scope c1 c2 a1 a2 :
  (∀ c, c ∈ option_list (actor_card_id a) ++ option_list (scope_card_id scope)
              ++ option_list (session_card tx a) → c1 !! c = c2 !! c) →
  (∀ c en, c ∈ option_list (actor_card_id a) ++ option_list (session_card tx a) →
           c2 !! c = Some en → a1 !! cce_track_id en = a2 !! cce_track_id en) →
  enforce_role_resolving_session tx a e scope c1 a1 = enforce_role_resolving_session tx a e scope c2 a2.
Proof.
  intros Hc Ha. unfold enforce_role_resolving_session.
  destruct (session_of a) as [sid|] eqn:Hsid.
  2: { apply enforce_role_ext.
       - intros c Hca. apply Hc. rewrite Hca. set_solver.
       - intros c Hsc. apply Hc. rewrite Hsc. set_solver.
       - intros c en Hca. apply Ha. rewrite Hca. set_solver. }
  destruct (is_empty sid) eqn:Hne; [done|].
  destruct (read_worker_session tx sid) as [[row|]|] eqn:Hrow; [|done..].
  destruct (negb _); [done|]. destruct (_ && _); [done|].
  destruct (ws_card_id row) as [card|] eqn:Hcard; [|done].
  assert (session_card tx a = Some card) as Hsc by (unfold session_card; by rewrite Hsid, Hne, Hrow).
  assert (c1 !! card = c2 !! card) as Hcc by (apply Hc; rewrite Hsc; set_solver).
  assert (synthetic_actor a row sid card c1 = synthetic_actor a row sid card c2) as ->.
  { unfold synthetic_actor, CardRoles.get. by rewrite Hcc. }
  destruct (synthetic_actor a row sid card c2) as [a'|] eqn:Hs; cbn [result_bind]; [|reflexivity].
  assert (∀ c, actor_card_id a' = Some c → c = card) as Hcard'.
  { destruct a; simplify_eq/=; try case_bool_decide; simplify_eq/=; naive_solver. }
  apply enforce_role_ext.
  - by intros c ->%Hcard'.
  - intros c Hs'. apply Hc. rewrite Hs'. set_solver.
  - intros c en ->%Hcard'. apply Ha. rewrite Hsc. set_solver.
Qed.

(** C33: deciding from the transaction is deciding from the whole tables: when the
    transaction reads the roles, home tracks and areas that full caches hold, and no
    card has the empty id, the gate that hydrates two throwaway caches with the few
    rows it looks up answers exactly as the gate on the full caches, every violation
    included. *)
Theorem hydrated_gate_complete tx a e scope cache areas :
  coherent tx cache areas →
  enforce_role_resolving_session_from_tx tx a e scope =
  enforce_role_resolving_session tx a e scope cache areas.
Proof.
  intros Hco. unfold enforce_role_resolving_session_from_tx, hydrate_role_caches_from_tx.
  set (ids := option_list (actor_card_id a) ++ option_list (scope_card_id scope)
                ++ option_list (session_card tx a)).
  destruct (hydrate_cards_spec tx cache areas (candidate_cards ids)
              (option_list (scope_track_id scope)) CardRoles.new Hco)
    as (tracks & h & -> & Hh & _ & Htr). cbn [result_bind fst snd].
  destruct (hydrate_tracks_spec tx cache areas tracks TrackAreas.new Hco) as (ha & -> & Hha).
  cbn [result_bind fst snd]. apply gate_ext.
  - intros c Hin. rewrite Hh. unfold CardRoles.new. rewrite lookup_empty.
    case_bool_decide as Hc; [by destruct (cache !! c)|].
    rewrite elem_of_candidate_cards in Hc. destruct c; [by rewrite (co_empty _ _ _ Hco)|].
    destruct Hc. by split.
  - intros c en Hin Hen. rewrite Hha. unfold TrackAreas.new. rewrite lookup_empty.
    rewrite bool_decide_true; [by destruct (areas !! _)|].
    apply (Htr c); [|done]. apply elem_of_candidate_cards. split; [unfold ids; set_solver|].
    intros ->. rewrite (co_empty _ _ _ Hco) in Hen. done.
Qed.

(** ** Card authority *)

End authority.

(** ** The SQLite transaction *)
Section sqlite.
Context (parse_json : str → option Json).
#[local] Instance sqlite_tx : WriteTx Database := sqlite_WriteTx parse_json.

(** The full caches of a database: its decoded cards, its tracks' areas. *)
Definition table_entry (row : CardRow) : option CardCacheEntry :=
  match card_role_try_from (row_role row) with
  | Ok r => Some (mkCardCacheEntry r (row_track_id row))
  | Err _ => None
  end.
Definition table_cache (db : Database) : CardRoleCache := omap table_entry (db_cards db).
Definition table_areas (db : Database) : TrackAreaCache := row_area_id <$> db_tracks db.

(** Every card row has a non-empty id and a role the binary knows. *)
Definition cards_wf (db : Database) : Prop :=
  map_Forall (λ id row, id ≠ [] ∧ ∃ r, card_role_try_from (row_role row) = Ok r) (db_cards db).

Lemma sqlite_coherent db : cards_wf db → coherent db (table_cache db) (table_areas db).
Proof.
  intros Hwf. unfold table_cache, table_areas.
  constructor; simpl; unfold sqlite_read_card_role, sqlite_read_card_track, sqlite_read_track_area,
    CardRoles.get, CardRoles.track_of, TrackAreas.area_of.
  - intros c. rewrite lookup_omap. destruct (db_cards db !! c) as [row|] eqn:Hc; simpl; [|done].
    destruct (Hwf c row Hc) as [_ [r Hr]]. unfold table_entry. by rewrite Hr.
  - intros c. rewrite lookup_omap. destruct (db_cards db !! c) as [row|] eqn:Hc; simpl; [|done].
    destruct (Hwf c row Hc) as [_ [r Hr]]. unfold table_entry. by rewrite Hr.
  - intros t. by rewrite lookup_fmap.
  - rewrite lookup_omap. destruct (db_cards db !! []) as [row|] eqn:Hc; [|done].
    by destruct (Hwf [] row Hc).
Qed.







End sqlite.

(** ** Instances *)

(** A worker card and a report card on one track; JSON payloads all parse to null. *)
Definition db0 : Database := {|
  db_cards := {[ lit "w" := mkCardRow (lit "worker") (lit "t") (lit "terminal") (lit "{}") (Some (lit "s"));
                 lit "r" := mkCardRow (lit "reportcard") (lit "t") (lit "report") (lit "{}") None ]};
  db_tracks := {[ lit "t" := mkTrackRow (lit "a") None ]};
  db_sessions := ∅;
|}.

Definition parse_null (_ : str) : option Json := Some JNull.

Lemma hydrated_gate_complete_witness :
  let tx := sqlite_WriteTx parse_null in
  enforce_role_resolving_session_from_tx (H := tx) db0 (AiCodex (lit "w"))
    (CodexHook (lit "w")) (Card (lit "w") (lit "t") (lit "a")) =
  enforce_role_resolving_session (H := tx) db0 (AiCodex (lit "w"))
    (CodexHook (lit "w")) (Card (lit "w") (lit "t") (lit "a")) (table_cache db0) (table_areas db0).
Proof.
  apply (hydrated_gate_complete (H := sqlite_WriteTx parse_null)).
  apply (sqlite_coherent parse_null). intros id row Hrow. simpl in Hrow.
  apply lookup_insert_Some in Hrow as [[<- <-]|[_ Hrow]].
  - split; [vm_compute; congruence|]. exists Worker. vm_compute. reflexivity.
  - apply lookup_singleton_Some in Hrow as [<- <-].
    split; [vm_compute; congruence|]. exists ReportCard. vm_compute. reflexivity.
Defined.
