(* ===== verification/Framing.v ===== *)
(** * Frames between the kernel and the terminal daemon

    Models the framing of [crates/calm-session/src/lib.rs]: magic, version, length and a
    [bincode] payload, big-endian. Bytes are [N] below 256. A reader is the bytes it has
    left; a writer the bytes written so far. The [bincode] codec is a parameter. *)

From stdpp Require Import prelude.
From S2P Require Import Prelude.

Local Open Scope calm_scope.

Abbreviation bytes := (list N).

Definition MAX_FRAME : N := 16777216.
Definition FRAME_MAGIC : bytes := [78; 69; 73; 71]%N.
Definition FRAME_VERSION : N := 4.

Inductive FrameError :=
| Frame_Io
| Frame_Encode
| Frame_Decode
| Frame_BadMagic (got expected : bytes)
| Frame_UnsupportedFrameVersion (got supported : N)
| Frame_Oversize (len max : N).

(** [u16::to_be_bytes], [u32::to_be_bytes] and their inverses: [n] bytes, the most
    significant first. *)
Fixpoint to_be_bytes (n : nat) (x : N) : bytes :=
  match n with
  | 0 => []
  | S n => to_be_bytes n (x / 256)%N ++ [(x mod 256)%N]
  end.

Definition from_be_bytes (b : bytes) : N := foldl (λ acc byte, acc * 256 + byte)%N 0%N b.

(** [read_exact]: a short stream is an error, and is consumed. *)
Definition read_exact (n : nat) (r : bytes) : result bytes FrameError * bytes :=
  if n <=? length r then (Ok (take n r), drop n r) else (Err Frame_Io, []).

(** What [bincode] does with a message. *)
Class FrameCodec (T : Type) := {
  encode_to_vec : T → option bytes;
  decode_from_slice : bytes → option T;
}.

Section frames.
Context {T : Type} `{Codec : FrameCodec T}.


Definition read_frame (r : bytes) : result T FrameError * bytes :=
  match read_exact 4 r with
  | (Err e, r) => (Err e, r)
  | (Ok magic, r) =>
      if bool_decide (magic ≠ FRAME_MAGIC) then (Err (Frame_BadMagic magic FRAME_MAGIC), r)
      else
        match read_exact 2 r with
        | (Err e, r) => (Err e, r)
        | (Ok ver_buf, r) =>
            let version := from_be_bytes ver_buf in
            if negb (version =? FRAME_VERSION)%N
            then (Err (Frame_UnsupportedFrameVersion version FRAME_VERSION), r)
            else
              match read_exact 4 r with
              | (Err e, r) => (Err e, r)
              | (Ok len_buf, r) =>
                  let len := from_be_bytes len_buf in
                  if (MAX_FRAME <? len)%N then (Err (Frame_Oversize len MAX_FRAME), r)
                  else
                    match read_exact (N.to_nat len) r with
                    | (Err e, r) => (Err e, r)
                    | (Ok buf, r) =>
                        match decode_from_slice buf with
                        | Some msg => (Ok msg, r)
                        | None => (Err Frame_Decode, r)
                        end
                    end
              end
        end
  end.
End frames.

(** ** Big-endian integers *)

Lemma to_be_length n x : length (to_be_bytes n x) = n.
Proof. revert x; induction n as [|n IH]; intros x; simpl; [done|]. rewrite length_app, IH. simpl. lia. Qed.

Lemma from_be_app b byte : from_be_bytes (b ++ [byte]) = (from_be_bytes b * 256 + byte)%N.
Proof. unfold from_be_bytes. by rewrite foldl_app. Qed.

Lemma from_to_be n x : (x < 256 ^ N.of_nat n)%N → from_be_bytes (to_be_bytes n x) = x.
Proof.
  revert x; induction n as [|n IH]; intros x Hx; simpl; [simpl in Hx; by apply N.lt_1_r in Hx as ->|].
  rewrite from_be_app, IH.
  - rewrite (N.div_mod x 256) at 3 by done. lia.
  - apply N.Div0.div_lt_upper_bound. rewrite Nat2N.inj_succ, N.pow_succ_r in Hx by lia. lia.
Qed.

Lemma to_from_be b : Forall (λ byte, byte < 256)%N b → to_be_bytes (length b) (from_be_bytes b) = b.
Proof.
  induction b as [|byte b IH] using rev_ind; [done|]. rewrite Forall_app, Forall_singleton.
  intros [Hb Hbyte]. rewrite from_be_app, length_app, Nat.add_1_r. cbn [to_be_bytes].
  rewrite N.add_comm, N.div_add, N.div_small, N.Div0.mod_add, N.mod_small by done.
  by rewrite N.add_0_l, IH.
Qed.

Lemma read_exact_app a r : read_exact (length a) (a ++ r) = (Ok a, r).
Proof.
  unfold read_exact. rewrite length_app. destruct (Nat.leb_spec (length a) (length a + length r)); [|lia].
  by rewrite take_app_length, drop_app_length.
Qed.

Lemma read_exact_Ok n r a r' : read_exact n r = (Ok a, r') → r = a ++ r' ∧ length a = n.
Proof.
  unfold read_exact. destruct (Nat.leb_spec n (length r)); [|done]. intros [= <- <-].
  by rewrite take_drop, length_take, Nat.min_l.
Qed.

(** ** The round trip, and what a reader accepts *)

Section theorems.
Context {T : Type} `{Codec : FrameCodec T}.

Definition header (len : N) : bytes := FRAME_MAGIC ++ to_be_bytes 2 FRAME_VERSION ++ to_be_bytes 4 len.

Lemma read_frame_header (len : N) (r : bytes) : (len < u32_modulus)%N →
  read_frame (header len ++ r)
  = if (MAX_FRAME <? len)%N then (Err (Frame_Oversize len MAX_FRAME), r)
    else match read_exact (N.to_nat len) r with
         | (Ok buf, r) => match decode_from_slice buf with Some msg => (Ok msg, r) | None => (Err Frame_Decode, r) end
         | (Err e, r) => (Err e, r)
         end.
Proof using.
  intros Hlen. unfold read_frame, header. rewrite <- !app_assoc.
  rewrite (read_exact_app FRAME_MAGIC). rewrite bool_decide_eq_false_2 by (intros H; by apply H).
  pose proof (read_exact_app (to_be_bytes 2 FRAME_VERSION)) as H2. rewrite to_be_length in H2. rewrite H2.
  change (from_be_bytes (to_be_bytes 2 FRAME_VERSION) =? FRAME_VERSION)%N with true. cbn [negb].
  pose proof (read_exact_app (to_be_bytes 4 len)) as H4. rewrite to_be_length in H4. rewrite H4.
  rewrite from_to_be by done. destruct (MAX_FRAME <? len)%N; [done|].
  by destruct (read_exact (N.to_nat len) r) as [[] ?].
Qed.


(** A reader accepts a stream exactly when it starts with the magic, this version,
    a length within 16 MiB and that many bytes that decode; it then consumes those
    bytes and no others. *)
Theorem read_frame_accepts (r : bytes) (msg : T) (rest : bytes) :
  Forall (λ byte, byte < 256)%N r →
  read_frame r = (Ok msg, rest)
  ↔ ∃ buf, r = header (N.of_nat (length buf)) ++ buf ++ rest
           ∧ (N.of_nat (length buf) ≤ MAX_FRAME)%N ∧ decode_from_slice buf = Some msg.
Proof using.
  intros Hr. split.
  - unfold read_frame. destruct (read_exact 4 r) as [[magic|] r1] eqn:H1; [|done].
    case_bool_decide as Hmagic; [done|]. subst magic.
    destruct (read_exact 2 r1) as [[ver|] r2] eqn:H2; [|done].
    destruct (N.eqb_spec (from_be_bytes ver) FRAME_VERSION) as [Hv|]; [|done]. cbn [negb].
    destruct (read_exact 4 r2) as [[len|] r3] eqn:H3; [|done].
    destruct (N.ltb_spec MAX_FRAME (from_be_bytes len)) as [|Hlen]; [done|].
    destruct (read_exact _ r3) as [[buf|] r4] eqn:H4; [|done].
    destruct (decode_from_slice buf) as [m|] eqn:Hd; [|done]. intros [= <- <-].
    apply read_exact_Ok in H1 as [-> _], H2 as [-> Hl2], H3 as [-> Hl3], H4 as [-> Hl4].
    rewrite !Forall_app in Hr. destruct Hr as (_ & Hver & Hlb & _).
    exists buf. rewrite Hl4, N2Nat.id. split; [|by split]. unfold header.
    rewrite <- Hl2, <- Hv at 1. rewrite (to_from_be ver) by done. rewrite <- Hl3, to_from_be by done.
    by rewrite <- !app_assoc.
  - intros (buf & -> & Hlen & Hd). rewrite read_frame_header by (unfold MAX_FRAME, u32_modulus in *; lia).
    destruct (N.ltb_spec MAX_FRAME (N.of_nat (length buf))); [lia|].
    rewrite Nat2N.id, read_exact_app. by rewrite Hd.
Qed.
End theorems.

(** A codec whose messages are their bytes. *)
#[local] Instance raw_codec : FrameCodec bytes := {| encode_to_vec := Some; decode_from_slice := Some |}.


Lemma read_frame_accepts_witness :
  read_frame [78; 69; 73; 71; 0; 4; 0; 0; 0; 1; 5; 6]%N = (Ok [5%N], [6%N])
  ↔ ∃ buf, [78; 69; 73; 71; 0; 4; 0; 0; 0; 1; 5; 6]%N = header (N.of_nat (length buf)) ++ buf ++ [6%N]
           ∧ (N.of_nat (length buf) ≤ MAX_FRAME)%N ∧ decode_from_slice buf = Some [5%N].
Proof. apply (read_frame_accepts [78; 69; 73; 71; 0; 4; 0; 0; 0; 1; 5; 6]%N [5%N] [6%N]). by repeat constructor. Defined.
