(* ===== verification/Terminal.v ===== *)
(** * Terminal sessions

    Models [crates/calm-session/src/terminal_owner.rs] and [terminal_session.rs] with the
    messages of [lib.rs]: the lease of a terminal's owner, one connection's protocol
    ([on_client_frame]), the byte ring a new client is painted from, and the two planes
    that turn PTY output into broadcasts. Identifiers are [N]; the terminal emulator
    behind [RenderPlane] is the class [TerminalModel]; an instant is milliseconds. *)

From coqutil Require Import Datatypes.RecordSettersUsingExistingGetters.
From stdpp Require Import prelude gmap strings.
From S2P Require Import Prelude Framing.

Local Open Scope calm_scope.

Abbreviation Uuid := N.
Abbreviation Rgb := (N * N * N)%type.

Definition PROTOCOL_VERSION : N := 4.
Definition CHILD_READY_QUIESCENT_MS : Z := 100.
Definition u64_max : N := u64_modulus - 1.
Definition u32_top : N := u32_modulus - 1.

(** [u32::saturating_add(1)]. *)
Definition u32_saturating_succ (n : N) : N := N.min u32_top (n + 1).

(** ** Messages *)

Inductive Role := Owner | Observer.

#[export] Instance Role_eq_dec : EqDecision Role.
Proof. solve_decision. Defined.

Inductive RenderEncoding := Vt.

#[export] Instance RenderEncoding_eq_dec : EqDecision RenderEncoding.
Proof. solve_decision. Defined.

Inductive InitialScrollback := Scrollback_None | Scrollback_All | Scrollback_Lines (n : N).

Record PtySize := mkPtySize {
  ps_cols : N; ps_rows : N; ps_pixel_width : option N; ps_pixel_height : option N }.

Record CellSize := mkCellSize { cs_width : N; cs_height : N }.

Record ResumeFrom := mkResumeFrom { rf_render_rev : option N; rf_pty_seq : option N }.

Record ClientCapabilities := mkCapabilities {
  render_encodings : list RenderEncoding;
  supports_scrollback : bool;
  supports_sixel : bool;
  supports_images : bool;
  kernel_originated_input : bool;
}.

Record RenderSnapshot := mkRenderSnapshot {
  rs_render_rev : N; rs_pty_seq : N; rs_cols : N; rs_rows : N;
  rs_encoding : RenderEncoding; rs_data : bytes; rs_scrollback : option bytes }.

Record RenderPatch := mkRenderPatch {
  rp_render_rev : N; rp_prev_render_rev : N; rp_pty_seq : N; rp_encoding : RenderEncoding; rp_data : bytes }.

Record HistoryGap := mkHistoryGap {
  hg_requested_render_rev : option N; hg_requested_pty_seq : option N;
  hg_earliest_render_rev : N; hg_earliest_pty_seq : N; hg_requires_snapshot : bool }.

Inductive ProtocolErrorCode :=
| UnsupportedVersion | NotOwner | BadSequence | SnapshotMissing | UnsupportedEncoding | BadHandshake.

Record ClientHello := mkClientHello {
  ch_protocol_version : N;
  ch_terminal_id : str;
  ch_client_id : Uuid;
  ch_desired_size : PtySize;
  ch_cell_size : option CellSize;
  ch_initial_scrollback : InitialScrollback;
  ch_resume_from : option ResumeFrom;
  ch_role_hint : option Role;
  ch_capabilities : ClientCapabilities;
}.

Inductive ClientMsg :=
| Msg_ClientHello (hello : ClientHello)
| Msg_Input (data : bytes) (input_seq : N)
| Msg_ResizeCommit (epoch cols rows : N)
| Msg_OwnerClaim
| Msg_OwnerRelease
| Msg_RenderAck (render_rev : N) (pty_seq : option N)
| Msg_Kill
| Msg_AnswerQuestion (question_id : Uuid) (answers : list (str * str))
| Msg_TerminalThemeUpdate (fg bg : Rgb).

Record ServerHello := mkServerHello {
  sh_protocol_version : N;
  sh_terminal_id : str;
  sh_session_id : Uuid;
  sh_client_role : Role;
  sh_owner_client_id : option Uuid;
  sh_pty_size : PtySize;
  sh_pty_seq_head : N;
  sh_pty_seq_tail : N;
  sh_render_rev : N;
  sh_snapshot : RenderSnapshot;
  sh_history_gap : option HistoryGap;
  sh_is_child_ready : bool;
}.

(** The messages the session layer emits. *)
Inductive DaemonMsg :=
| Daemon_ServerHello (hello : ServerHello)
| Daemon_RenderSnapshot (snapshot : RenderSnapshot)
| Daemon_RenderPatch (patch : RenderPatch)
| Daemon_ResizeApplied (epoch pty_seq render_rev cols rows : N)
| Daemon_TerminalExited (code : option Z) (pty_seq render_rev : N)
| Daemon_ChildReady (pty_seq render_rev : N).

Inductive Effect :=
| SendToClient (msg : DaemonMsg)
| Broadcast (msg : DaemonMsg)
| ResizePty (cols rows : N)
| WriteToPty (data : bytes) (input_seq : N)
| KillChild
| SendProtocolError (code : ProtocolErrorCode) (message : str) (expected_version : option N)
| CloseConnection
| AssignOwner (owner : option Uuid)
| BroadcastOwnerChanged (owner : option Uuid)
| Effect_TerminalThemeUpdate (fg bg : Rgb).

(** ** The owner's lease *)

Record OwnerLease := mkOwnerLease { ol_client_id : Uuid; ol_generation : N }.

#[export] Instance OwnerLease_eq_dec : EqDecision OwnerLease.
Proof. solve_decision. Defined.

Record OwnerRegistry := mkOwnerRegistry { or_owner : option OwnerLease; or_generation : N }.

Definition new_registry : OwnerRegistry := mkOwnerRegistry None 0.

Definition claim (r : OwnerRegistry) (client_id : Uuid) : OwnerRegistry * option OwnerLease :=
  if (or_generation r =? u64_max)%N then (r, None)
  else
    let generation := (or_generation r + 1)%N in
    let lease := mkOwnerLease client_id generation in
    (mkOwnerRegistry (Some lease) generation, Some lease).

Definition on_attach (r : OwnerRegistry) (client_id : Uuid) (role_hint : option Role) : OwnerRegistry * Role :=
  match or_owner r with
  | None =>
      if bool_decide (role_hint ≠ Some Observer) then
        match claim r client_id with
        | (r, Some _) => (r, Owner)
        | (r, None) => (r, Observer)
        end
      else (r, Observer)
  | Some _ => (r, Observer)
  end.

Definition current_owner (r : OwnerRegistry) : option Uuid := ol_client_id <$> or_owner r.

Definition is_current (r : OwnerRegistry) (lease : OwnerLease) : bool := bool_decide (or_owner r = Some lease).

Definition release (r : OwnerRegistry) (lease : OwnerLease) : OwnerRegistry * bool :=
  if bool_decide (or_owner r = Some lease) then ({ r with or_owner := None }, true) else (r, false).

(** ** The byte ring *)

Record ByteRing := mkByteRing { br_chunks : list bytes; br_total_bytes : N; br_max_bytes : N }.

Definition new_ring (max_bytes : N) : ByteRing := mkByteRing [] 0 max_bytes.

Definition chunk_len (c : bytes) : N := N.of_nat (length c).

(** [while total_bytes > max_bytes && chunks.len() > 1 { pop_front }], and how many. *)
Fixpoint evict_chunks (max_bytes total : N) (chunks : list bytes) : list bytes * N * nat :=
  match chunks with
  | dropped :: ((_ :: _) as rest) =>
      if (max_bytes <? total)%N then
        let '(kept, total, n) := evict_chunks max_bytes (total - chunk_len dropped) rest in (kept, total, S n)
      else (chunks, total, 0)
  | _ => (chunks, total, 0)
  end.

Definition append (r : ByteRing) (chunk : bytes) : ByteRing :=
  let '(chunks, total, _) :=
    evict_chunks (br_max_bytes r) (br_total_bytes r + chunk_len chunk) (br_chunks r ++ [chunk]) in
  mkByteRing chunks total (br_max_bytes r).

Definition snapshot (r : ByteRing) : bytes := concat (br_chunks r).

(** ** One connection *)

Record SessionContext := mkSessionContext {
  cx_terminal_id : str;
  cx_session_id : Uuid;
  cx_pty_size : PtySize;
  cx_pty_seq_head : N;
  cx_pty_seq_tail : N;
  cx_render_rev : N;
  cx_is_child_ready : bool;
  cx_current_default_fg : option Rgb;
  cx_current_default_bg : option Rgb;
}.

Record TerminalSessionState := mkSession {
  ts_attached : bool;
  ts_client_id : option Uuid;
  ts_role : option Role;
  ts_owner_lease : option OwnerLease;
  ts_resize_epoch : N;
  ts_last_render_acked_rev : option N;
  ts_capabilities : option ClientCapabilities;
}.

Definition new_session : TerminalSessionState := mkSession false None None None 0 None None.

Inductive InputPermission := Permit_Owner (lease : OwnerLease) | Permit_Kernel | Permit_Denied.

Definition kernel_input (s : TerminalSessionState) : bool :=
  match ts_capabilities s with Some c => kernel_originated_input c | None => false end.

Definition input_permission (s : TerminalSessionState) : InputPermission :=
  match ts_owner_lease s with
  | Some lease => Permit_Owner lease
  | None => if kernel_input s then Permit_Kernel else Permit_Denied
  end.

Definition release_owner (s : TerminalSessionState) (r : OwnerRegistry)
  : TerminalSessionState * OwnerRegistry * bool :=
  let '(r, released) :=
    match ts_owner_lease s with Some lease => release r lease | None => (r, false) end in
  let s := { s with ts_owner_lease := None } in
  (if ts_attached s then { s with ts_role := Some Observer } else s, r, released).

Definition INPUT_REQUIRES_OWNER_ROLE : str :=
  lit "Input requires owner role or kernel_originated_input capability".

Definition not_owner_error (message : str) : Effect := SendProtocolError NotOwner message None.

Definition refuse_hello (code : ProtocolErrorCode) (message : str) : list Effect :=
  [SendProtocolError code message (Some PROTOCOL_VERSION); CloseConnection].

(** [process_hello]; [quote] is the debug rendering of a string. *)
Definition process_hello (quote : str → str) (s : TerminalSessionState) (msg : ClientMsg) (buffer : ByteRing)
    (r : OwnerRegistry) (ctx : SessionContext) : TerminalSessionState * OwnerRegistry * list Effect :=
  match msg with
  | Msg_ClientHello h =>
      if negb (ch_protocol_version h =? PROTOCOL_VERSION)%N then
        (s, r, refuse_hello UnsupportedVersion (lit "protocol_version " ++ show_N (ch_protocol_version h)
                 ++ lit " != " ++ show_N PROTOCOL_VERSION))
      else if bool_decide (ch_terminal_id h ≠ cx_terminal_id ctx) then
        (s, r, refuse_hello BadHandshake (lit "terminal_id mismatch: client " ++ quote (ch_terminal_id h)
                 ++ lit " vs daemon " ++ quote (cx_terminal_id ctx)))
      else if bool_decide (Vt ∉ render_encodings (ch_capabilities h)) then
        (s, r, refuse_hello UnsupportedEncoding (lit "client capabilities do not include Vt"))
      else
        let '(r, role) := on_attach r (ch_client_id h) (ch_role_hint h) in
        let s := { s with ts_attached := true; ts_client_id := Some (ch_client_id h); ts_role := Some role;
                     ts_owner_lease := if bool_decide (role = Owner) then or_owner r else None;
                     ts_capabilities := Some (ch_capabilities h) } in
        let data := snapshot buffer in
        let scrollback :=
          match ch_initial_scrollback h with
          | Scrollback_None => None
          | Scrollback_All | Scrollback_Lines _ => Some data
          end in
        let snap := mkRenderSnapshot (cx_render_rev ctx) (cx_pty_seq_tail ctx) (ps_cols (cx_pty_size ctx))
                      (ps_rows (cx_pty_size ctx)) Vt data scrollback in
        (s, r, [SendToClient (Daemon_ServerHello
           {| sh_protocol_version := PROTOCOL_VERSION; sh_terminal_id := ch_terminal_id h;
              sh_session_id := cx_session_id ctx; sh_client_role := role;
              sh_owner_client_id := current_owner r; sh_pty_size := cx_pty_size ctx;
              sh_pty_seq_head := cx_pty_seq_head ctx; sh_pty_seq_tail := cx_pty_seq_tail ctx;
              sh_render_rev := cx_render_rev ctx; sh_snapshot := snap; sh_history_gap := None;
              sh_is_child_ready := cx_is_child_ready ctx |})])
  | _ => (s, r, refuse_hello BadHandshake (lit "expected ClientHello as first message"))
  end.

(** Only the current server-issued lease makes an owner. *)
Definition drop_stale_lease (s : TerminalSessionState) (r : OwnerRegistry) : TerminalSessionState :=
  match ts_owner_lease s with
  | Some _ =>
      if bool_decide (ts_owner_lease s ≠ or_owner r)
      then { s with ts_owner_lease := None; ts_role := Some Observer } else s
  | None => s
  end.

Definition is_owner (s : TerminalSessionState) : bool := bool_decide (ts_role s = Some Owner).

Definition attached_frame (s : TerminalSessionState) (msg : ClientMsg) (r : OwnerRegistry) (ctx : SessionContext)
  : TerminalSessionState * OwnerRegistry * list Effect :=
  match msg with
  | Msg_Input data input_seq =>
      (s, r, if is_owner s || kernel_input s then [WriteToPty data input_seq]
             else [not_owner_error INPUT_REQUIRES_OWNER_ROLE])
  | Msg_ResizeCommit epoch cols rows =>
      if negb (is_owner s) then (s, r, [not_owner_error (lit "ResizeCommit requires owner role")])
      else if (epoch <=? ts_resize_epoch s)%N then (s, r, [])
      else ({ s with ts_resize_epoch := epoch }, r,
            [ResizePty cols rows;
             Broadcast (Daemon_ResizeApplied epoch (cx_pty_seq_tail ctx) (cx_render_rev ctx) cols rows)])
  | Msg_OwnerClaim =>
      match ts_client_id s with
      | None => (s, r, [])
      | Some cid =>
          match claim r cid with
          | (r, None) => (s, r, [SendProtocolError BadSequence (lit "terminal owner lease generation exhausted") None])
          | (r, Some lease) =>
              ({ s with ts_owner_lease := Some lease; ts_role := Some Owner }, r,
               [AssignOwner (Some cid); BroadcastOwnerChanged (Some cid)])
          end
      end
  | Msg_OwnerRelease =>
      let '(s, r, released) := release_owner s r in
      (s, r, if released then [AssignOwner None; BroadcastOwnerChanged None] else [])
  | Msg_RenderAck render_rev _ => ({ s with ts_last_render_acked_rev := Some render_rev }, r, [])
  | Msg_Kill => (s, r, if is_owner s then [KillChild] else [not_owner_error (lit "Kill requires owner role")])
  | Msg_ClientHello _ => (s, r, refuse_hello BadHandshake (lit "ClientHello already received"))
  | Msg_TerminalThemeUpdate fg bg =>
      if bool_decide (cx_current_default_fg ctx = Some fg) && bool_decide (cx_current_default_bg ctx = Some bg)
      then (s, r, [])
      else if negb (is_owner s) && negb (kernel_input s) then
        (s, r, [not_owner_error (lit "TerminalThemeUpdate requires owner role or kernel_originated_input capability")])
      else (s, r, [Effect_TerminalThemeUpdate fg bg])
  | Msg_AnswerQuestion _ _ => (s, r, [])
  end.

Definition on_client_frame (quote : str → str) (s : TerminalSessionState) (msg : ClientMsg) (buffer : ByteRing)
    (r : OwnerRegistry) (ctx : SessionContext) : TerminalSessionState * OwnerRegistry * list Effect :=
  if negb (ts_attached s) then process_hello quote s msg buffer r ctx
  else attached_frame (drop_stale_lease s r) msg r ctx.

(** ** The planes *)

Record PtyBroadcaster := mkBroadcaster {
  pb_buffer : ByteRing; pb_pty_seq : N; pb_render_rev : N; pb_pty_seq_head : N }.

Definition new_broadcaster (max_bytes : N) : PtyBroadcaster := mkBroadcaster (new_ring max_bytes) 0 0 0.

Definition broadcaster_on_pty_chunk (p : PtyBroadcaster) (chunk : bytes) : PtyBroadcaster * list Effect :=
  let ring := pb_buffer p in
  let '(chunks, total, evicted) :=
    evict_chunks (br_max_bytes ring) (br_total_bytes ring + chunk_len chunk) (br_chunks ring ++ [chunk]) in
  let p' := {| pb_buffer := mkByteRing chunks total (br_max_bytes ring);
               pb_pty_seq := u32_saturating_succ (pb_pty_seq p);
               pb_render_rev := u32_saturating_succ (pb_render_rev p);
               pb_pty_seq_head := Nat.iter evicted u32_saturating_succ (pb_pty_seq_head p) |} in
  (p', [Broadcast (Daemon_RenderPatch
     (mkRenderPatch (pb_render_rev p') (pb_render_rev p) (pb_pty_seq p') Vt chunk))]).

Definition broadcaster_on_child_exit (p : PtyBroadcaster) (code : option Z) : list Effect :=
  [Broadcast (Daemon_TerminalExited code (pb_pty_seq p) (pb_render_rev p))].

(** What the render plane asks of the terminal emulator. *)
Class TerminalModel (M : Type) := {
  model_rev : M → N;
  model_feed : M → bytes → M;
  model_resize : M → N → N → M;
  model_take_pending_osc_replies : M → M * bytes;
  model_snapshot_vt : M → N → N → bytes;
  model_scrollback_vt : M → option N → bytes;
}.

Record RenderPlane (M : Type) := mkRenderPlane {
  pl_model : M;
  pl_transcript : ByteRing;
  pl_pty_seq : N;
  pl_cols : N;
  pl_rows : N;
  pl_last_emitted_render_rev : N;
  pl_last_rev_change_at : option Z;
  pl_child_ready_fired : bool;
}.
Arguments mkRenderPlane {M}.
Arguments pl_model {M}.
Arguments pl_transcript {M}.
Arguments pl_pty_seq {M}.
Arguments pl_cols {M}.
Arguments pl_rows {M}.
Arguments pl_last_emitted_render_rev {M}.
Arguments pl_last_rev_change_at {M}.
Arguments pl_child_ready_fired {M}.

(** [ScrollbackLimit]: none, all, or so many lines. *)
Inductive ScrollbackLimit := Limit_None | Limit_All | Limit_Lines (n : N).

Section plane.
Context {M : Type} `{Model : TerminalModel M}.
Implicit Types p : RenderPlane M.

Definition plane_on_pty_chunk (now : Z) p (chunk : bytes) : RenderPlane M * list Effect :=
  let prev_rev := model_rev (pl_model p) in
  let model := model_feed (pl_model p) chunk in
  let new_rev := model_rev model in
  let prev := pl_last_emitted_render_rev p in
  let pty_seq := u32_saturating_succ (pl_pty_seq p) in
  let '(model, replies) := model_take_pending_osc_replies model in
  ({| pl_model := model; pl_transcript := append (pl_transcript p) chunk; pl_pty_seq := pty_seq;
      pl_cols := pl_cols p; pl_rows := pl_rows p; pl_last_emitted_render_rev := new_rev;
      pl_last_rev_change_at := if negb (new_rev =? prev_rev)%N then Some now else pl_last_rev_change_at p;
      pl_child_ready_fired := pl_child_ready_fired p |},
   Broadcast (Daemon_RenderPatch (mkRenderPatch new_rev prev pty_seq Vt chunk))
   :: (if is_empty replies then [] else [WriteToPty replies 0])).

Definition detect_ready (now : Z) p : RenderPlane M * option Effect :=
  if pl_child_ready_fired p then (p, None)
  else
    match pl_last_rev_change_at p with
    | None => (p, None)
    | Some last =>
        if (CHILD_READY_QUIESCENT_MS <=? Z.max 0 (now - last))%Z then
          (mkRenderPlane (pl_model p) (pl_transcript p) (pl_pty_seq p) (pl_cols p) (pl_rows p)
             (pl_last_emitted_render_rev p) (pl_last_rev_change_at p) true,
           Some (Broadcast (Daemon_ChildReady (pl_pty_seq p) (model_rev (pl_model p)))))
        else (p, None)
    end.

Definition plane_on_child_exit p (code : option Z) : list Effect :=
  [Broadcast (Daemon_TerminalExited code (pl_pty_seq p) (model_rev (pl_model p)))].

Definition build_snapshot p (cols rows : N) (scrollback : ScrollbackLimit) : RenderSnapshot :=
  let scrollback_bytes limit :=
    let b := model_scrollback_vt (pl_model p) limit in if is_empty b then None else Some b in
  mkRenderSnapshot (model_rev (pl_model p)) (pl_pty_seq p) cols rows Vt
    (model_snapshot_vt (pl_model p) cols rows)
    match scrollback with
    | Limit_None => None
    | Limit_All => scrollback_bytes None
    | Limit_Lines n => scrollback_bytes (Some n)
    end.

Definition plane_on_resize p (cols rows : N) : RenderPlane M * list Effect :=
  let p := mkRenderPlane (model_resize (pl_model p) cols rows) (pl_transcript p) (pl_pty_seq p) cols rows
             (pl_last_emitted_render_rev p) (pl_last_rev_change_at p) (pl_child_ready_fired p) in
  let snap := build_snapshot p cols rows Limit_None in
  (mkRenderPlane (pl_model p) (pl_transcript p) (pl_pty_seq p) cols rows (rs_render_rev snap)
     (pl_last_rev_change_at p) (pl_child_ready_fired p),
   [Broadcast (Daemon_RenderSnapshot snap)]).
End plane.
