(* ===== verification/TerminalRules.v ===== *)
(** * What terminal sessions promise

    Theorems about [Terminal]. The ring holds the longest suffix of the output that
    fits, and the broadcaster's cursors count it; over any interleaving of connections
    to one terminal ([term_step]) no two hold the current lease, and only its holder
    makes the owner's effects happen. *)

From coqutil Require Import Datatypes.RecordSettersUsingExistingGetters.
From stdpp Require Import prelude gmap strings.
From S2P Require Import Prelude Framing Terminal.

Local Open Scope calm_scope.

(** ** The ring *)

Definition total_len (l : list bytes) : N := foldr (λ c n, chunk_len c + n)%N 0%N l.

Lemma total_len_app l1 l2 : total_len (l1 ++ l2) = (total_len l1 + total_len l2)%N.
Proof. induction l1 as [|c l1 IH]; simpl; [done|]. rewrite IH. lia. Qed.

(** The longest suffix that fits, or the last chunk. *)
Fixpoint fit_suffix (max : N) (l : list bytes) : list bytes :=
  match l with
  | _ :: ((_ :: _) as rest) => if (max <? total_len l)%N then fit_suffix max rest else l
  | _ => l
  end.

Lemma fit_suffix_cons max a l : l ≠ [] →
  fit_suffix max (a :: l) = if (max <? total_len (a :: l))%N then fit_suffix max l else a :: l.
Proof. by destruct l. Qed.

Lemma fit_suffix_length max l : length (fit_suffix max l) ≤ length l.
Proof.
  induction l as [|a l IH]; [done|]. destruct (decide (l = [])) as [->|]; [done|].
  rewrite fit_suffix_cons by done. destruct (max <? _)%N; simpl; lia.
Qed.

Lemma evict_chunks_cons max total a l : l ≠ [] →
  evict_chunks max total (a :: l)
  = if (max <? total)%N
    then let '(kept, total, n) := evict_chunks max (total - chunk_len a) l in (kept, total, S n)
    else (a :: l, total, 0).
Proof. by destruct l. Qed.

Lemma evict_chunks_fit max l :
  evict_chunks max (total_len l) l
  = (fit_suffix max l, total_len (fit_suffix max l), length l - length (fit_suffix max l)).
Proof.
  induction l as [|a l IH]; [done|]. destruct (decide (l = [])) as [->|Hne]; [done|].
  rewrite evict_chunks_cons, fit_suffix_cons by done.
  destruct (max <? _)%N; [|by rewrite Nat.sub_diag].
  replace (total_len (a :: l) - chunk_len a)%N with (total_len l) by (simpl; lia). rewrite IH.
  pose proof (fit_suffix_length max l). f_equal. simpl. lia.
Qed.

Lemma fit_suffix_snoc max l c : fit_suffix max (fit_suffix max l ++ [c]) = fit_suffix max (l ++ [c]).
Proof.
  induction l as [|a l IH]; [done|]. destruct (decide (l = [])) as [->|Hne]; [done|].
  rewrite fit_suffix_cons by done. destruct (N.ltb_spec max (total_len (a :: l))) as [H|H]; [|done].
  rewrite IH. simpl ((a :: l) ++ [c]). rewrite fit_suffix_cons by (by destruct l).
  destruct (N.ltb_spec max (total_len (a :: l ++ [c]))) as [|H']; [done|].
  simpl in H, H'. rewrite total_len_app in H'. lia.
Qed.

(** The ring that was fed [l]. *)
Definition fed (max : N) (l : list bytes) : ByteRing :=
  mkByteRing (fit_suffix max l) (total_len (fit_suffix max l)) max.

Lemma evict_fed max l c :
  evict_chunks max (total_len (fit_suffix max l) + chunk_len c) (fit_suffix max l ++ [c])
  = (fit_suffix max (l ++ [c]), total_len (fit_suffix max (l ++ [c])),
     S (length (fit_suffix max l)) - length (fit_suffix max (l ++ [c]))).
Proof.
  replace (total_len (fit_suffix max l) + chunk_len c)%N with (total_len (fit_suffix max l ++ [c]))
    by (rewrite total_len_app; simpl; lia).
  rewrite evict_chunks_fit, fit_suffix_snoc, length_app, Nat.add_1_r. done.
Qed.

Lemma append_fed max l c : append (fed max l) c = fed max (l ++ [c]).
Proof. unfold append; simpl. by rewrite evict_fed. Qed.

Lemma appends_fed max l : foldl append (new_ring max) l = fed max l.
Proof. induction l as [|c l IH] using rev_ind; [done|]. by rewrite foldl_snoc, IH, append_fed. Qed.

Lemma fit_suffix_spec max l :
  fit_suffix max l `suffix_of` l ∧ (l ≠ [] → fit_suffix max l ≠ [])
  ∧ ((total_len (fit_suffix max l) ≤ max)%N ∨ length (fit_suffix max l) = 1)
  ∧ ∀ s, s `suffix_of` l → (total_len s ≤ max)%N → s `suffix_of` fit_suffix max l.
Proof.
  induction l as [|a l IH]; [split_and!; [done|done|left; simpl; lia|by intros s Hs%suffix_nil_inv _; subst]|].
  destruct (decide (l = [])) as [->|Hne]; [by split_and!; auto|].
  rewrite fit_suffix_cons by done. destruct (N.ltb_spec max (total_len (a :: l))) as [H|H]; [|by split_and!; auto].
  destruct IH as (H1 & H2 & H3 & H4). split_and!; [by apply suffix_cons_r|auto|done|].
  intros [|b s] Hs Hle; [apply suffix_nil|]. apply suffix_cons_inv in Hs as [Heq|Hs]; [rewrite Heq in Hle; lia|auto].
Qed.

(** Whatever was appended, the ring holds the longest suffix of it that is within
    the byte budget (the last chunk alone when even that exceeds it), so replay starts
    on a chunk boundary and its bytes are the tail of the output; the byte count it
    keeps is exact. *)
Theorem ring_longest_suffix max l :
  let r := foldl append (new_ring max) l in
  br_chunks r `suffix_of` l ∧ snapshot r `suffix_of` concat l
  ∧ (l ≠ [] → br_chunks r ≠ [])
  ∧ ((br_total_bytes r ≤ max)%N ∨ length (br_chunks r) = 1)
  ∧ (∀ s, s `suffix_of` l → (total_len s ≤ max)%N → s `suffix_of` br_chunks r)
  ∧ br_total_bytes r = N.of_nat (length (snapshot r)).
Proof.
  rewrite appends_fed. unfold snapshot; simpl. destruct (fit_suffix_spec max l) as (H1 & H2 & H3 & H4).
  split_and!; [done| |done|done|done|].
  - destruct H1 as [k Hk]. exists (concat k). by rewrite <- concat_app, <- Hk.
  - generalize (fit_suffix max l) as s. induction s as [|c s IH]; simpl; [done|].
    rewrite IH, length_app. unfold chunk_len. lia.
Qed.

(** ** The broadcaster *)

Definition run_broadcaster (max : N) (l : list bytes) : PtyBroadcaster :=
  foldl (λ p c, (broadcaster_on_pty_chunk p c).1) (new_broadcaster max) l.

Lemma iter_saturating n x : (x + N.of_nat n ≤ u32_top)%N → Nat.iter n u32_saturating_succ x = (x + N.of_nat n)%N.
Proof.
  induction n as [|n IH]; intros H; simpl; [lia|]. rewrite IH by lia. unfold u32_saturating_succ. lia.
Qed.

Lemma run_broadcaster_spec max l :
  (N.of_nat (length l) ≤ u32_top)%N →
  run_broadcaster max l
  = mkBroadcaster (fed max l) (N.of_nat (length l)) (N.of_nat (length l))
      (N.of_nat (length l - length (fit_suffix max l))).
Proof.
  induction l as [|c l IH] using rev_ind; intros Hl; [done|]. rewrite length_app in Hl; simpl in Hl.
  unfold run_broadcaster in *. rewrite foldl_snoc, IH by lia. unfold broadcaster_on_pty_chunk; simpl.
  rewrite evict_fed. simpl.
  assert (length (fit_suffix max (l ++ [c])) ≤ S (length (fit_suffix max l))) as Hle.
  { rewrite <- fit_suffix_snoc. etrans; [apply fit_suffix_length|]. rewrite length_app. simpl. lia. }
  pose proof (fit_suffix_length max l). rewrite iter_saturating by lia.
  rewrite length_app. simpl. f_equal; unfold u32_saturating_succ; lia.
Qed.

(** Below 2^32 chunks the broadcaster's cursors are exact: the tail counts the
    chunks seen, the head those evicted, so head and tail delimit the ring; and each
    patch names the revision before it, with no gap. *)
Theorem broadcaster_cursors max l c :
  (N.of_nat (length l) < u32_top)%N →
  let p := run_broadcaster max l in
  pb_pty_seq p = N.of_nat (length l)
  ∧ (pb_pty_seq_head p + N.of_nat (length (br_chunks (pb_buffer p))) = pb_pty_seq p)%N
  ∧ (broadcaster_on_pty_chunk p c).2
    = [Broadcast (Daemon_RenderPatch (mkRenderPatch (pb_render_rev p + 1) (pb_render_rev p) (pb_pty_seq p + 1) Vt c))].
Proof.
  intros Hl. rewrite run_broadcaster_spec by lia. simpl. pose proof (fit_suffix_length max l).
  split_and!; [done|lia|]. unfold broadcaster_on_pty_chunk; simpl. rewrite evict_fed. simpl.
  unfold u32_saturating_succ. by rewrite N.min_r by lia.
Qed.

(** ** Ownership *)

(** One terminal: its registry and its open connections. *)
Record Terminals := mkTerminals { tm_registry : OwnerRegistry; tm_conns : gmap N TerminalSessionState }.

Inductive term_step (quote : str → str) : Terminals → Terminals → Prop :=
| term_connect i r conns :
    conns !! i = None → term_step quote (mkTerminals r conns) (mkTerminals r (<[i := new_session]> conns))
| term_frame i msg buffer ctx s r conns s' r' effects :
    conns !! i = Some s → on_client_frame quote s msg buffer r ctx = (s', r', effects) →
    term_step quote (mkTerminals r conns) (mkTerminals r' (<[i := s']> conns))
| term_disconnect i s r conns s' r' released :
    conns !! i = Some s → release_owner s r = (s', r', released) →
    term_step quote (mkTerminals r conns) (mkTerminals r' (delete i conns)).

Definition opened : Terminals := mkTerminals new_registry ∅.

(** A lease the registry has issued. *)
Definition issued (r : OwnerRegistry) (lease : OwnerLease) : Prop := (ol_generation lease ≤ or_generation r)%N.

(** A connection's role and lease say the same, and the registry issued the lease. *)
Definition conn_ok (r : OwnerRegistry) (s : TerminalSessionState) : Prop :=
  (ts_role s = Some Owner ↔ is_Some (ts_owner_lease s)) ∧ ∀ lease, ts_owner_lease s = Some lease → issued r lease.

Record term_ok (t : Terminals) : Prop := {
  to_registry : ∀ lease, or_owner (tm_registry t) = Some lease → issued (tm_registry t) lease;
  to_conns : ∀ i s, tm_conns t !! i = Some s → conn_ok (tm_registry t) s;
  to_distinct : ∀ i j s s' lease, tm_conns t !! i = Some s → tm_conns t !! j = Some s' →
    ts_owner_lease s = Some lease → ts_owner_lease s' = Some lease → i = j;
}.

(** What one frame may do to the registry and to the lease of its connection: keep both,
    drop the lease (releasing it if it is current), or take a lease not issued before. *)
Record frame_move (r r' : OwnerRegistry) (s s' : TerminalSessionState) : Prop := {
  fm_generation : (or_generation r ≤ or_generation r')%N;
  fm_owner : or_owner r' = or_owner r ∨ or_owner r' = None ∨ (or_owner r' = ts_owner_lease s' ∧ is_Some (ts_owner_lease s'));
  fm_lease : ts_owner_lease s' = ts_owner_lease s ∨ ts_owner_lease s' = None
    ∨ ∃ lease, ts_owner_lease s' = Some lease ∧ ol_generation lease = or_generation r'
               ∧ (or_generation r < or_generation r')%N;
  fm_role : ts_role s' = Some Owner ↔ is_Some (ts_owner_lease s');
}.

Lemma conn_ok_mono r r' s : (or_generation r ≤ or_generation r')%N → conn_ok r s → conn_ok r' s.
Proof. intros H [H1 H2]. split; [done|]. intros lease Hl. specialize (H2 _ Hl). unfold issued in *. lia. Qed.

Lemma drop_stale_role r s : conn_ok r s →
  let s' := drop_stale_lease s r in
  (ts_role s' = Some Owner ↔ is_Some (ts_owner_lease s'))
  ∧ (ts_owner_lease s' = ts_owner_lease s ∨ ts_owner_lease s' = None)
  ∧ (ts_role s' = Some Owner → ts_owner_lease s' = or_owner r ∧ ts_owner_lease s = or_owner r).
Proof.
  intros [Hr _]. unfold drop_stale_lease. destruct (ts_owner_lease s) as [l|] eqn:Hl.
  - case_bool_decide as H; simpl.
    + split_and!; [split; [done|by intros []]|by right|done].
    + rewrite Hl. split_and!; auto.
  - rewrite Hl. split_and!; auto. intros H. apply Hr in H as []. done.
Qed.

Lemma claim_move r cid r' lease s s' :
  claim r cid = (r', Some lease) → ts_owner_lease s' = Some lease → ts_role s' = Some Owner → frame_move r r' s s'.
Proof.
  unfold claim. destruct (_ =? _)%N; [done|]. intros [= <- <-] Hl Hr.
  split; simpl; [lia|rewrite Hl; by eauto|right; right; eexists; split; [done|simpl; lia]|].
  rewrite Hl, Hr. by split; eauto.
Qed.

Lemma claim_None r cid r' : claim r cid = (r', None) → r' = r.
Proof. unfold claim. destruct (_ =? _)%N; [by intros [= <-]|done]. Qed.

Lemma release_move r s s' r' released :
  (ts_role s = Some Owner ↔ is_Some (ts_owner_lease s)) → (ts_attached s = true ∨ ts_owner_lease s = None) →
  release_owner s r = (s', r', released) → frame_move r r' s s'.
Proof.
  destruct s as [att cid role lease ep ack cap]. unfold release_owner, release. simpl. intros Hr Ha.
  destruct lease as [l|]; [case_bool_decide|]; destruct att; intros [= <- <- <-]; split; simpl; auto; try lia;
    try (by destruct Ha); split; (done || by intros []).
Qed.

Lemma hello_move quote s msg buffer r ctx s' r' effects :
  conn_ok r s → process_hello quote s msg buffer r ctx = (s', r', effects) → frame_move r r' s s'.
Proof.
  intros [Hr _]. unfold process_hello.
  assert (frame_move r r s s) as Hsame by (split; auto).
  destruct msg as [h| | | | | | | |]; try (by intros [= <- <- _]).
  destruct (negb _); [by intros [= <- <- _]|]. case_bool_decide; [by intros [= <- <- _]|].
  case_bool_decide; [by intros [= <- <- _]|].
  unfold on_attach. destruct (or_owner r) as [o|] eqn:Ho.
  - intros [= <- <- _]. split; simpl; auto; split; (done || by intros []).
  - case_bool_decide; [|intros [= <- <- _]; split; simpl; auto; split; (done || by intros [])].
    destruct (claim r (ch_client_id h)) as [r1 [lease|]] eqn:Hc; intros [= <- <- _].
    + eapply claim_move; [done| |done]. simpl. revert Hc. unfold claim. destruct (_ =? _)%N; [done|]. by intros [= <- <-].
    + apply claim_None in Hc as ->. split; simpl; auto; split; (done || by intros []).
Qed.

Lemma release_registry s r s' r' released :
  release_owner s r = (s', r', released) →
  or_generation r' = or_generation r ∧ (or_owner r' = or_owner r ∨ or_owner r' = None).
Proof.
  unfold release_owner, release. destruct (ts_owner_lease s); [case_bool_decide|]; intros [= _ <- _]; auto.
Qed.

Lemma drop_stale_attached s r : ts_attached (drop_stale_lease s r) = ts_attached s.
Proof. unfold drop_stale_lease. destruct (ts_owner_lease s); [|done]. by case_bool_decide. Qed.

Lemma attached_move s msg r ctx s' r' effects :
  (ts_role s = Some Owner ↔ is_Some (ts_owner_lease s)) → ts_attached s = true →
  attached_frame s msg r ctx = (s', r', effects) → frame_move r r' s s'.
Proof.
  intros Hr Ha. assert (frame_move r r s s) as Hsame by (split; auto).
  destruct msg as [h|data seq|epoch cols rows| | |rev seq| |q a|fg bg]; simpl; try (by intros [= <- <- _]).
  - destruct (negb _); [by intros [= <- <- _]|]. destruct (_ <=? _)%N; intros [= <- <- _]; [done|]. by split; auto.
  - destruct (ts_client_id s) as [cid|]; [|by intros [= <- <- _]].
    destruct (claim r cid) as [r1 [lease|]] eqn:Hc; intros [= <- <- _].
    + by eapply claim_move.
    + by apply claim_None in Hc as ->.
  - destruct (release_owner s r) as [[s1 r1] released] eqn:Hrel. intros [= <- <- _]. eapply release_move; eauto.
  - intros [= <- <- _]. by split; auto.
  - destruct (_ && _); [by intros [= <- <- _]|]. destruct (_ && _); by intros [= <- <- _].
Qed.

Lemma client_frame_move quote s msg buffer r ctx s' r' effects :
  conn_ok r s → on_client_frame quote s msg buffer r ctx = (s', r', effects) → frame_move r r' s s'.
Proof.
  intros Hok. unfold on_client_frame. destruct (ts_attached s) eqn:Ha; simpl; [|by apply hello_move].
  destruct (drop_stale_role r s Hok) as (Hr & Hl & _). intros Hf.
  apply attached_move in Hf as [H1 H2 H3 H4]; [|done|by rewrite drop_stale_attached].
  split; [done|done| |done]. destruct H3 as [H3|H3]; [|by right]. rewrite H3. destruct Hl; auto.
Qed.

Lemma move_ok i s s' r r' conns :
  term_ok (mkTerminals r conns) → conns !! i = Some s → frame_move r r' s s' →
  term_ok (mkTerminals r' (<[i := s']> conns)).
Proof.
  intros [Hreg Hconns Hdist] Hi [Hg Ho Hl Hr]; simpl in *.
  assert (conn_ok r' s') as Hok'.
  { split; [done|]. intros lease Hlease. destruct Hl as [Hl|[Hl|(l & Hl & Hgen & _)]]; [|congruence|].
    - rewrite Hl in Hlease. destruct (Hconns _ _ Hi) as [_ H]. specialize (H _ Hlease). unfold issued in *. lia.
    - simplify_eq. unfold issued. lia. }
  split; simpl.
  - intros lease Hlease. destruct Ho as [Ho|[Ho|[Ho _]]]; [|congruence|].
    + rewrite Ho in Hlease. specialize (Hreg _ Hlease). unfold issued in *. lia.
    + rewrite Ho in Hlease. by apply Hok'.
  - intros j t [[<- <-]|[Hne Hj]]%lookup_insert_Some; [done|]. by eapply conn_ok_mono, Hconns.
  - assert (∀ j t lease, i ≠ j → conns !! j = Some t → ts_owner_lease s' = Some lease →
                         ts_owner_lease t = Some lease → False) as Hnew.
    { intros j t lease Hne Hj Hs' Ht. destruct Hl as [Hl|[Hl|(l & Hl & Hgen & Hlt)]]; [|congruence|].
      - apply Hne. by eapply Hdist; [| |rewrite <- Hl|].
      - simplify_eq. destruct (Hconns _ _ Hj) as [_ H]. specialize (H _ Ht). unfold issued in H. lia. }
    intros j k t t' lease [[<- <-]|[Hj Hj']]%lookup_insert_Some [[<- <-]|[Hk Hk']]%lookup_insert_Some Ht Ht';
      [done|exfalso; eauto..|eauto].
Qed.

Lemma term_step_ok quote t t' : term_ok t → term_step quote t t' → term_ok t'.
Proof.
  intros Hok Hst. destruct Hst as [i r conns Hi|i msg buffer ctx s r conns s' r' effects Hi Hf|i s r conns s' r' released Hi Hrel].
  - destruct Hok as [Hreg Hconns Hdist]; simpl in *. split; simpl; [done| |].
    + intros j t [[<- <-]|[_ Hj]]%lookup_insert_Some; [|eauto]. by split; [split; [|intros []]|].
    + intros j k t t' lease [[<- <-]|[_ ?]]%lookup_insert_Some [[<- <-]|[_ ?]]%lookup_insert_Some; eauto; done.
  - eapply move_ok; [done..|]. eapply client_frame_move; [|done]. by eapply (to_conns _ Hok).
  - destruct (release_registry _ _ _ _ _ Hrel) as [Hg Ho]. destruct Hok as [Hreg Hconns Hdist]; simpl in *.
    split; simpl.
    + intros lease Hl. destruct Ho as [Ho|Ho]; [|congruence]. rewrite Ho in Hl. specialize (Hreg _ Hl).
      unfold issued in *. lia.
    + intros j t [_ Hj]%lookup_delete_Some. eapply conn_ok_mono; [|eauto]. lia.
    + intros j k t t' lease [_ ?]%lookup_delete_Some [_ ?]%lookup_delete_Some. eauto.
Qed.

Lemma reachable_ok quote t : rtc (term_step quote) opened t → term_ok t.
Proof.
  assert (term_ok opened) as H0 by (split; simpl; done).
  intros H. revert H0. induction H; [done|]. eauto using term_step_ok.
Qed.

(** The effects only an owner may have, and those a kernel client may have too. *)
Definition owner_effect (e : Effect) : bool :=
  match e with KillChild | ResizePty _ _ => true | _ => false end.

Definition input_effect (e : Effect) : bool :=
  match e with WriteToPty _ _ | Effect_TerminalThemeUpdate _ _ => true | _ => false end.

Lemma attached_effects s msg r ctx s' r' effects :
  attached_frame s msg r ctx = (s', r', effects) →
  (existsb owner_effect effects = true → is_owner s = true)
  ∧ (existsb input_effect effects = true → is_owner s || kernel_input s = true).
Proof.
  destruct msg; simpl.
  - by intros [= _ _ <-].
  - intros [= _ _ <-]. by destruct (is_owner s), (kernel_input s).
  - destruct (is_owner s); simpl; [|by intros [= _ _ <-]]. done.
  - destruct (ts_client_id s); [|by intros [= _ _ <-]]. destruct (claim _ _) as [? []]; by intros [= _ _ <-].
  - destruct (release_owner s r) as [[? ?] []]; by intros [= _ _ <-].
  - by intros [= _ _ <-].
  - intros [= _ _ <-]. by destruct (is_owner s).
  - by intros [= _ _ <-].
  - destruct (_ && _); [by intros [= _ _ <-]|]. destruct (is_owner s), (kernel_input s); by intros [= _ _ <-].
Qed.

Lemma hello_effects quote s msg buffer r ctx s' r' effects :
  process_hello quote s msg buffer r ctx = (s', r', effects) →
  existsb owner_effect effects = false ∧ existsb input_effect effects = false.
Proof.
  unfold process_hello. destruct msg; try (by intros [= _ _ <-]).
  destruct (negb _); [by intros [= _ _ <-]|]. case_bool_decide; [by intros [= _ _ <-]|].
  case_bool_decide; [by intros [= _ _ <-]|]. destruct (on_attach _ _ _). by intros [= _ _ <-].
Qed.

(** C31: Over every interleaving of connections to a terminal (opening, frames, hangups,
    client ids reused), at most one connection holds the registry's current lease; a
    frame resizes or kills only from that one, and writes or recolours only from it or
    from a kernel client. *)
Theorem single_owner quote t i s msg buffer ctx s' r' effects :
  rtc (term_step quote) opened t → tm_conns t !! i = Some s →
  on_client_frame quote s msg buffer (tm_registry t) ctx = (s', r', effects) →
  let holds c := is_Some (ts_owner_lease c) ∧ ts_owner_lease c = or_owner (tm_registry t) in
  (holds s → ∀ j c, tm_conns t !! j = Some c → holds c → i = j)
  ∧ (existsb owner_effect effects = true → holds s)
  ∧ (existsb input_effect effects = true → holds s ∨ kernel_input s = true).
Proof.
  intros Hreach Hi Hf holds. destruct (reachable_ok _ _ Hreach) as [Hreg Hconns Hdist].
  specialize (Hconns _ _ Hi) as Hok. split.
  { intros [[l Hl] Hc] j c Hj [_ Hc']. eapply Hdist; [exact Hi|exact Hj|exact Hl|congruence]. }
  unfold on_client_frame in Hf. destruct (ts_attached s); simpl in Hf.
  2:{ apply hello_effects in Hf as [-> ->]. done. }
  destruct (drop_stale_role _ _ Hok) as (Hr & _ & Hcur).
  assert (is_owner (drop_stale_lease s (tm_registry t)) = true → holds s) as Hown.
  { intros H%bool_decide_eq_true. destruct (Hcur H) as [Heq Hs]. split; [|done]. apply Hr in H. congruence. }
  apply attached_effects in Hf as [H1 H2]. split; [auto|].
  intros [H|H]%H2%orb_true_iff; [auto|right].
  revert H. unfold kernel_input, drop_stale_lease. destruct (ts_owner_lease s); [|done]. by case_bool_decide.
Qed.

(** Ownership follows the lease, not the client id: a connection whose lease is no
    longer current, even under the same client id, releases nothing when it hangs up
    or asks to; the current owner stays. *)
Theorem stale_release_harmless quote s r s' r' released :
  ts_owner_lease s ≠ or_owner r ∨ ts_owner_lease s = None →
  release_owner s r = (s', r', released) →
  r' = r ∧ released = false ∧ ts_owner_lease s' = None
  ∧ ∀ buffer ctx, ts_attached s = true →
      (on_client_frame quote s Msg_OwnerRelease buffer r ctx).1.2 = r
      ∧ (on_client_frame quote s Msg_OwnerRelease buffer r ctx).2 = [].
Proof.
  intros Hne Hrel.
  assert (∀ c, ts_owner_lease c ≠ or_owner r ∨ ts_owner_lease c = None →
    (release_owner c r).1.2 = r ∧ (release_owner c r).2 = false ∧ ts_owner_lease (release_owner c r).1.1 = None) as H.
  { intros c Hc. unfold release_owner, release. destruct (ts_owner_lease c) as [l|] eqn:Hl; simpl.
    - rewrite bool_decide_eq_false_2 by (intros H; destruct Hc; congruence). by destruct (ts_attached c).
    - by destruct (ts_attached c). }
  destruct (H s Hne) as (H1 & H2 & H3). rewrite Hrel in H1, H2, H3. simpl in *.
  split_and!; [done..|]. intros buffer ctx Ha. unfold on_client_frame. rewrite Ha. simpl.
  destruct (H (drop_stale_lease s r)) as (H4 & H5 & _).
  { unfold drop_stale_lease. destruct (ts_owner_lease s) eqn:Hl; [|by right].
    case_bool_decide; [by right|]. left. by destruct Hne. }
  destruct (release_owner (drop_stale_lease s r) r) as [[? ?] ?]. simpl in *. by rewrite H5.
Qed.

(** ** The render plane *)

Inductive PlaneEvent := Chunk (now : Z) (data : bytes) | Poll (now : Z) | Resize (cols rows : N).

Section plane_runs.
Context {M : Type} `{Model : TerminalModel M}.

Definition plane_step (p : RenderPlane M) (e : PlaneEvent) : RenderPlane M * list Effect :=
  match e with
  | Chunk now data => plane_on_pty_chunk now p data
  | Poll now => let '(p, effect) := detect_ready now p in (p, option_list effect)
  | Resize cols rows => plane_on_resize p cols rows
  end.

Fixpoint plane_run (p : RenderPlane M) (events : list PlaneEvent) : RenderPlane M * list Effect :=
  match events with
  | [] => (p, [])
  | e :: events =>
      let '(p, effects) := plane_step p e in
      let '(p, effects') := plane_run p events in (p, effects ++ effects')
  end.

(** Each patch continues the revision painted before it; a snapshot starts afresh. *)
Fixpoint chained (last : N) (effects : list Effect) : Prop :=
  match effects with
  | [] => True
  | Broadcast (Daemon_RenderPatch patch) :: rest =>
      rp_prev_render_rev patch = last ∧ chained (rp_render_rev patch) rest
  | Broadcast (Daemon_RenderSnapshot snap) :: rest => chained (rs_render_rev snap) rest
  | _ :: rest => chained last rest
  end.

Definition is_child_ready (e : Effect) : bool :=
  match e with Broadcast (Daemon_ChildReady _ _) => true | _ => false end.

Definition readies (effects : list Effect) : nat := length (filter (λ e, is_child_ready e = true) effects).

Lemma plane_step_spec p e :
  let '(p', effects) := plane_step p e in
  (∀ rest, chained (pl_last_emitted_render_rev p') rest → chained (pl_last_emitted_render_rev p) (effects ++ rest))
  ∧ readies effects + Nat.b2n (pl_child_ready_fired p) = Nat.b2n (pl_child_ready_fired p').
Proof using.
  destruct e as [now data|now|cols rows]; simpl.
  - unfold plane_on_pty_chunk. destruct (model_take_pending_osc_replies _) as [m replies]; simpl.
    by destruct (is_empty replies).
  - unfold detect_ready. destruct (pl_child_ready_fired p) eqn:Hf; [simpl; by rewrite Hf|].
    destruct (pl_last_rev_change_at p); [destruct (_ <=? _)%Z|]; simpl; try done; by rewrite Hf.
  - done.
Qed.

(** Over any sequence of output, polls and resizes, every patch a client receives
    names as its predecessor the revision of the patch or snapshot before it, and the
    readiness of the child is announced at most once. *)
Theorem render_stream_chained (p : RenderPlane M) events :
  let '(p', effects) := plane_run p events in
  chained (pl_last_emitted_render_rev p) effects ∧ readies effects ≤ 1
  ∧ (pl_child_ready_fired p = true → readies effects = 0).
Proof using.
  assert (let '(p', effects) := plane_run p events in
    chained (pl_last_emitted_render_rev p) effects
    ∧ readies effects + Nat.b2n (pl_child_ready_fired p) = Nat.b2n (pl_child_ready_fired p')) as H.
  { revert p. induction events as [|e events IH]; intros p; simpl; [done|].
    pose proof (plane_step_spec p e) as Hs. destruct (plane_step p e) as [p1 effects1].
    specialize (IH p1). destruct (plane_run p1 events) as [p2 effects2].
    destruct Hs as [Hc Hr], IH as [Hc' Hr']. split; [by apply Hc|].
    unfold readies in *. rewrite filter_app, length_app. lia. }
  destruct (plane_run p events) as [p' effects]. destruct H as [Hc Hr]. split; [done|].
  destruct (pl_child_ready_fired p), (pl_child_ready_fired p'); simpl in Hr; (split; [lia|intros; lia || done]).
Qed.
End plane_runs.

(** ** A concrete terminal *)

Module TerminalSample.
Definition hello : ClientHello :=
  mkClientHello 4 (lit "t") 7 (mkPtySize 80 24 None None) None Scrollback_All None None
    (mkCapabilities [Vt] true false false false).
Definition ctx : SessionContext := mkSessionContext (lit "t") 1 (mkPtySize 80 24 None None) 0 0 0 false None None.
Definition quote (s : str) : str := s.
Definition greeted := on_client_frame quote new_session (Msg_ClientHello hello) (new_ring 10) new_registry ctx.
Definition one_client : Terminals := mkTerminals greeted.1.2 (<[1%N := greeted.1.1]> (<[1%N := new_session]> ∅)).

Lemma one_client_reachable : rtc (term_step quote) opened one_client.
Proof.
  eapply rtc_l; [by apply (term_connect quote 1%N)|]. eapply rtc_l; [|apply rtc_refl].
  eapply (term_frame quote 1%N (Msg_ClientHello hello) (new_ring 10) ctx new_session _ _ _ _ greeted.2); [done|].
  by vm_compute.
Qed.

Lemma single_owner_witness :
  let t := one_client in
  let holds c := is_Some (ts_owner_lease c) ∧ ts_owner_lease c = or_owner (tm_registry t) in
  (holds greeted.1.1 → ∀ j c, tm_conns t !! j = Some c → holds c → 1%N = j)
  ∧ (existsb owner_effect [KillChild] = true → holds greeted.1.1)
  ∧ (existsb input_effect [KillChild] = true → holds greeted.1.1 ∨ kernel_input greeted.1.1 = true).
Proof.
  apply (single_owner quote one_client 1%N greeted.1.1 Msg_Kill (new_ring 10) ctx greeted.1.1 greeted.1.2 [KillChild]).
  - apply one_client_reachable.
  - done.
  - by vm_compute.
Defined.

Lemma broadcaster_cursors_witness :
  let p := run_broadcaster 3 [[1%N; 2%N]; [3%N; 4%N]] in
  pb_pty_seq p = N.of_nat 2
  ∧ (pb_pty_seq_head p + N.of_nat (length (br_chunks (pb_buffer p))) = pb_pty_seq p)%N
  ∧ (broadcaster_on_pty_chunk p [5%N]).2
    = [Broadcast (Daemon_RenderPatch (mkRenderPatch (pb_render_rev p + 1) (pb_render_rev p) (pb_pty_seq p + 1) Vt [5%N]))].
Proof. apply (broadcaster_cursors 3 [[1%N; 2%N]; [3%N; 4%N]] [5%N]). by vm_compute. Defined.

(** The same client on a newer connection. *)
Definition reclaimed : OwnerRegistry := (claim greeted.1.2 7).1.

Lemma stale_release_harmless_witness :
  reclaimed = reclaimed ∧ false = false ∧ ts_owner_lease (release_owner greeted.1.1 reclaimed).1.1 = None
  ∧ ∀ buffer ctx, ts_attached greeted.1.1 = true →
      (on_client_frame quote greeted.1.1 Msg_OwnerRelease buffer reclaimed ctx).1.2 = reclaimed
      ∧ (on_client_frame quote greeted.1.1 Msg_OwnerRelease buffer reclaimed ctx).2 = [].
Proof.
  apply (stale_release_harmless quote greeted.1.1 reclaimed (release_owner greeted.1.1 reclaimed).1.1 reclaimed false).
  - left. by vm_compute.
  - by vm_compute.
Defined.
End TerminalSample.
