(* ===== verification/Text.v ===== *)
(** * String operations

    The methods of Rust's [str] and [char] that the plugin code uses, on lists of scalar
    values. A pattern is a string; positions are not used, so that a search returns what
    lies before and after the match. *)

From stdpp Require Import prelude.
From S2P Require Import Prelude.

(** [strip_prefix], [starts_with], [strip_suffix]. *)
Fixpoint strip_prefix (p s : str) : option str :=
  match p, s with
  | [], _ => Some s
  | a :: p, b :: s => if (a =? b)%N then strip_prefix p s else None
  | _ :: _, [] => None
  end.

Definition starts_with (p s : str) : bool := bool_decide (is_Some (strip_prefix p s)).

Definition strip_suffix (p s : str) : option str := reverse <$> strip_prefix (reverse p) (reverse s).

(** [find] and [split_once]: what is before the first match, and after it. *)
Fixpoint split_once (p s : str) : option (str * str) :=
  match strip_prefix p s with
  | Some after => Some ([], after)
  | None =>
      match s with
      | [] => None
      | c :: s => match split_once p s with Some (before, after) => Some (c :: before, after) | None => None end
      end
  end.

Definition contains (p s : str) : bool := bool_decide (is_Some (split_once p s)).

Definition contains_char (f : N → bool) (s : str) : bool := existsb f s.

(** [str::len]: bytes of the UTF-8 encoding. *)
Definition utf8_width (c : N) : N :=
  if (c <? 128)%N then 1 else if (c <? 2048)%N then 2 else if (c <? 65536)%N then 3 else 4.

Definition utf8_len (s : str) : N := foldr (λ c n, utf8_width c + n)%N 0%N s.

Lemma utf8_len_app s t : utf8_len (s ++ t) = (utf8_len s + utf8_len t)%N.
Proof. unfold utf8_len. induction s as [|c s IH]; simpl; lia. Qed.

(** ASCII classes. *)
Definition is_ascii_lowercase (c : N) : bool := ((97 <=? c) && (c <=? 122))%N.
Definition is_ascii_uppercase (c : N) : bool := ((65 <=? c) && (c <=? 90))%N.
Definition is_ascii_digit (c : N) : bool := ((48 <=? c) && (c <=? 57))%N.
Definition is_ascii_alphabetic (c : N) : bool := is_ascii_lowercase c || is_ascii_uppercase c.
Definition is_ascii_alphanumeric (c : N) : bool := is_ascii_alphabetic c || is_ascii_digit c.
Definition is_ascii_control (c : N) : bool := ((c <? 32) || (c =? 127))%N.

Definition to_ascii_lowercase (s : str) : str :=
  (λ c, if is_ascii_uppercase c then (c + 32)%N else c) <$> s.

Definition eq_ignore_ascii_case (s t : str) : bool := bool_decide (to_ascii_lowercase s = to_ascii_lowercase t).

Lemma strip_prefix_Some p s t : strip_prefix p s = Some t ↔ s = p ++ t.
Proof.
  revert s; induction p as [|a p IH]; intros [|b s]; simpl; try naive_solver.
  destruct (N.eqb_spec a b) as [->|]; [rewrite IH|]; naive_solver.
Qed.

Lemma strip_prefix_app p t : strip_prefix p (p ++ t) = Some t.
Proof. by apply strip_prefix_Some. Qed.

Lemma starts_with_spec p s : starts_with p s = true ↔ p `prefix_of` s.
Proof.
  unfold starts_with. rewrite bool_decide_eq_true. split.
  - intros [t ->%strip_prefix_Some]. by exists t.
  - intros [t ->]. exists t. apply strip_prefix_app.
Qed.

Lemma strip_suffix_Some p s t : strip_suffix p s = Some t ↔ s = t ++ p.
Proof.
  unfold strip_suffix. rewrite fmap_Some. split.
  - intros (u & H%strip_prefix_Some & ->). rewrite <- (reverse_involutive s), H, reverse_app. by rewrite !reverse_involutive.
  - intros ->. exists (reverse t). rewrite reverse_app, strip_prefix_app. by rewrite reverse_involutive.
Qed.

Lemma split_once_Some p s a b : split_once p s = Some (a, b) → s = a ++ p ++ b.
Proof.
  revert a; induction s as [|c s IH]; intros a; cbn [split_once].
  - destruct (strip_prefix p []) eqn:H; [|done]. intros [= <- <-]. by apply strip_prefix_Some in H.
  - destruct (strip_prefix p (c :: s)) eqn:H; [intros [= <- <-]; by apply strip_prefix_Some in H|].
    destruct (split_once p s) as [[a' b']|]; [|done]. intros [= <- <-]. simpl. f_equal. by apply IH.
Qed.

Lemma split_once_length p s a b : split_once p s = Some (a, b) → length b + length p ≤ length s.
Proof. intros ->%split_once_Some. rewrite !length_app. lia. Qed.

Lemma contains_false p s : contains p s = false ↔ split_once p s = None.
Proof. unfold contains. rewrite bool_decide_eq_false. by rewrite eq_None_not_Some. Qed.

(** The part before the first match does not contain the pattern. *)
Lemma split_once_before p s a b : split_once p s = Some (a, b) → p ≠ [] →
  ∀ x y, x ++ p ++ y = a → False.
Proof.
  intros H Hp x y Hxy. assert (length (x ++ p) ≤ length a) as Hlen by (rewrite <- Hxy, !length_app; lia).
  assert (0 < length p) as Hpos by (destruct p; simpl; [done|lia]).
  revert a x Hxy Hlen H. induction s as [|c s IH]; intros a x Hxy Hlen; cbn [split_once].
  - destruct (strip_prefix p []) eqn:Hs; [|done]. intros [= <- <-]. destruct x, p; done.
  - destruct (strip_prefix p (c :: s)) as [t|] eqn:Hs.
    + intros [= <- <-]. destruct x, p; done.
    + destruct (split_once p s) as [[a' b']|] eqn:Hs'; [|done]. intros [= <- <-].
      destruct x as [|c' x].
      * pose proof (split_once_Some _ _ _ _ Hs') as ->. simpl in Hxy.
        enough (strip_prefix p (c :: a' ++ p ++ b') = Some (y ++ p ++ b')) by congruence.
        apply strip_prefix_Some. by rewrite (app_assoc p y), Hxy.
      * simpl in *. simplify_eq. eapply (IH (x ++ p ++ y) x); [done| |done]. rewrite !length_app. lia.
Qed.
