(* ===== verification/PluginSchema.v ===== *)
(** * Schemas of plugin input and configuration

    Models [crates/plugin/src/template_input.rs] and [config.rs]: the JSON-Schema subset a
    manifest may declare, the validation of an instance against it, and the effective
    configuration [defaults ⊕ user_config]. A JSON object is the association list of its
    entries. The serializer, needed for the byte caps, is a parameter. *)

From stdpp Require Import prelude gmap strings.
From S2P Require Import Prelude Float64 Identity Text.

Local Open Scope calm_scope.

Definition TEMPLATE_INPUT_MAX_BYTES : N := 8192.

Definition ROOT_KEYWORDS : list str :=
  [lit "type"; lit "properties"; lit "required"; lit "additionalProperties"; lit "description"].
Definition PROPERTY_KEYWORDS : list str := [lit "type"; lit "enum"; lit "default"; lit "description"].
Definition PROPERTY_TYPES : list str := [lit "string"; lit "integer"; lit "number"; lit "boolean"].

Abbreviation Fields := (list (str * Json)).

Definition as_object (v : Json) : option Fields := match v with JObject f => Some f | _ => None end.
Definition as_array (v : Json) : option (list Json) := match v with JArray l => Some l | _ => None end.
Definition is_string (v : Json) : bool := match v with JString _ => true | _ => false end.
Definition is_null (v : Json) : bool := match v with JNull => true | _ => false end.
Definition contains_key (k : str) (f : Fields) : bool := bool_decide (is_Some (assoc k f)).

(** [Value == Value]. *)
Fixpoint json_eqb (v w : Json) : bool :=
  match v, w with
  | JNull, JNull => true
  | JBool a, JBool b => Bool.eqb a b
  | JInt a, JInt b => (a =? b)%Z
  | JFloat a, JFloat b => f64_eqb a b
  | JString a, JString b => bool_decide (a = b)
  | JArray a, JArray b =>
      (fix go (a b : list Json) : bool :=
         match a, b with
         | [], [] => true
         | x :: a, y :: b => json_eqb x y && go a b
         | _, _ => false
         end) a b
  | JObject a, JObject b =>
      (fix go (a b : list (str * Json)) : bool :=
         match a, b with
         | [], [] => true
         | (k, x) :: a, (k', y) :: b => bool_decide (k = k') && json_eqb x y && go a b
         | _, _ => false
         end) a b
  | _, _ => false
  end.

(** Why a schema is refused; the path is rooted at the manifest field. *)
Inductive SchemaReason :=
| Too_many_bytes
| Not_an_object
| Unsupported_keyword (key : str)
| Must_be_object_type
| Must_be_string
| Must_be_false
| Must_be_present_and_false
| Must_be_string_array
| Undeclared_required (key : str)
| Duplicate_required (key : str)
| Type_required
| Unsupported_type (ty : str)
| Enum_needs_string (ty : str)
| Enum_not_strings
| Bad_default (reason : str).

Record SchemaError := mkSchemaError { se_path : str; se_reason : SchemaReason }.

(** [check_value]: [type] and [enum] of one property. *)
Definition value_has_type (ty : str) (v : Json) : bool :=
  if bool_decide (ty = lit "string") then is_string v
  else if bool_decide (ty = lit "integer") then match v with JInt _ => true | _ => false end
  else if bool_decide (ty = lit "number") then match v with JInt _ | JFloat _ => true | _ => false end
  else if bool_decide (ty = lit "boolean") then match v with JBool _ => true | _ => false end
  else false.

Inductive ValueError := Expected_type (ty : str) | Expected_one_of (allowed : list str).

Definition check_value (v : Json) (schema : Fields) : result unit ValueError :=
  let ty := default (lit "string") (assoc (lit "type") schema ≫= json_as_str) in
  if negb (value_has_type ty v) then Err (Expected_type ty)
  else
    match assoc (lit "enum") schema ≫= as_array with
    | Some members =>
        if negb (existsb (json_eqb v) members) then Err (Expected_one_of (omap json_as_str members)) else Ok tt
    | None => Ok tt
    end.

(** The first element a predicate refuses, with its position. *)
Fixpoint find_index {A} (p : A → bool) (n : nat) (l : list A) : option (nat * A) :=
  match l with
  | [] => None
  | a :: rest => if p a then Some (n, a) else find_index p (S n) rest
  end.

Definition index_path (n : nat) : str := lit "[" ++ show_N (N.of_nat n) ++ lit "]".

Section schemas.
(** [serde_json::to_string], and how a value error prints. *)
Context (to_string : Json → str) (show_value_error : ValueError → str).

Definition over_cap (v : Json) : bool := (TEMPLATE_INPUT_MAX_BYTES <? utf8_len (to_string v))%N.

Definition validate_property (schema : Json) : result unit SchemaError :=
  match as_object schema with
  | None => Err (mkSchemaError [] Not_an_object)
  | Some schema =>
      match find_index (λ kv, bool_decide (kv.1 ∉ PROPERTY_KEYWORDS)) 0 schema with
      | Some (_, (key, _)) => Err (mkSchemaError (lit "." ++ key) (Unsupported_keyword key))
      | None =>
          if match assoc (lit "description") schema with Some d => negb (is_string d) | None => false end
          then Err (mkSchemaError (lit ".description") Must_be_string)
          else
            match assoc (lit "type") schema with
            | None => Err (mkSchemaError (lit ".type") Type_required)
            | Some (JString ty) =>
                if bool_decide (ty ∉ PROPERTY_TYPES) then Err (mkSchemaError (lit ".type") (Unsupported_type ty))
                else
                  let? _ :=
                    match assoc (lit "enum") schema with
                    | None => Ok tt
                    | Some members =>
                        if negb (bool_decide (ty = lit "string"))
                        then Err (mkSchemaError (lit ".enum") (Enum_needs_string ty))
                        else
                          match as_array members with
                          | None | Some [] => Err (mkSchemaError (lit ".enum") Enum_not_strings)
                          | Some members =>
                              match find_index (λ m, negb (is_string m)) 0 members with
                              | Some (i, _) => Err (mkSchemaError (lit ".enum" ++ index_path i) Must_be_string)
                              | None => Ok tt
                              end
                          end
                    end in
                  match assoc (lit "default") schema with
                  | Some d =>
                      match check_value d schema with
                      | Err e => Err (mkSchemaError (lit ".default") (Bad_default (show_value_error e)))
                      | Ok _ => Ok tt
                      end
                  | None => Ok tt
                  end
            | Some _ => Err (mkSchemaError (lit ".type") Must_be_string)
            end
      end
  end.

(** The properties in order, the first refused one naming itself. *)
Fixpoint validate_properties (path : str → str) (properties : Fields) : result unit SchemaError :=
  match properties with
  | [] => Ok tt
  | (name, schema) :: rest =>
      match validate_property schema with
      | Err e => Err (mkSchemaError (path (lit ".properties." ++ name ++ se_path e)) (se_reason e))
      | Ok _ => validate_properties path rest
      end
  end.

Fixpoint validate_required (path : str → str) (properties : Fields) (i : nat) (seen : list str) (items : list Json)
  : result unit SchemaError :=
  match items with
  | [] => Ok tt
  | item :: rest =>
      let at_i := path (lit ".required" ++ index_path i) in
      match json_as_str item with
      | None => Err (mkSchemaError at_i Must_be_string)
      | Some key =>
          if negb (contains_key key properties) then Err (mkSchemaError at_i (Undeclared_required key))
          else if bool_decide (key ∈ seen) then Err (mkSchemaError at_i (Duplicate_required key))
          else validate_required path properties (S i) (seen ++ [key]) rest
      end
  end.

Definition validate_object_schema (root_path : str) (schema : Json) : result unit SchemaError :=
  let path s := root_path ++ s in
  if over_cap schema then Err (mkSchemaError (path []) Too_many_bytes)
  else
    match as_object schema with
    | None => Err (mkSchemaError (path []) Not_an_object)
    | Some root =>
        match find_index (λ kv, bool_decide (kv.1 ∉ ROOT_KEYWORDS)) 0 root with
        | Some (_, (key, _)) => Err (mkSchemaError (path (lit "." ++ key)) (Unsupported_keyword key))
        | None =>
            if negb (bool_decide (assoc (lit "type") root ≫= json_as_str = Some (lit "object")))
            then Err (mkSchemaError (path (lit ".type")) Must_be_object_type)
            else if match assoc (lit "description") root with Some d => negb (is_string d) | None => false end
            then Err (mkSchemaError (path (lit ".description")) Must_be_string)
            else
              match assoc (lit "additionalProperties") root with
              | None => Err (mkSchemaError (path (lit ".additionalProperties")) Must_be_present_and_false)
              | Some (JBool false) =>
                  let? properties :=
                    match assoc (lit "properties") root with
                    | Some (JObject map) => Ok map
                    | Some _ => Err (mkSchemaError (path (lit ".properties")) Not_an_object)
                    | None => Ok []
                    end in
                  let? _ := validate_properties path properties in
                  match assoc (lit "required") root with
                  | None => Ok tt
                  | Some required =>
                      match as_array required with
                      | None => Err (mkSchemaError (path (lit ".required")) Must_be_string_array)
                      | Some items => validate_required path properties 0 [] items
                      end
                  end
              | Some _ => Err (mkSchemaError (path (lit ".additionalProperties")) Must_be_false)
              end
        end
    end.

Definition validate_input_schema (schema : Json) : result unit SchemaError :=
  validate_object_schema (lit "input_schema") schema.

(** ** Instances *)

Inductive FieldReason := Required_missing | Unknown_field | Bad_value (e : ValueError).

Inductive WholeReason :=
| Instance_too_big | Instance_not_object | Needs_template_id | Needs_bound_plugin
| No_input_schema (plugin_id : str) | Input_required (plugin_id : str) (required : list str).

Inductive InstanceViolation := Whole (root_path : str) (reason : WholeReason) | Field (field : str) (reason : FieldReason).

Definition field_violation (root_path key : str) (reason : FieldReason) : InstanceViolation :=
  Field (root_path ++ lit "." ++ key) reason.

Definition schema_properties (schema : Json) : Fields :=
  default [] (json_get schema (lit "properties") ≫= as_object).

Definition required_keys (schema : Json) : list str :=
  match json_get schema (lit "required") ≫= as_array with
  | Some items => omap json_as_str items
  | None => []
  end.

Definition declares_key (schema : Json) (key : str) : bool :=
  match json_get schema (lit "properties") ≫= as_object with
  | Some properties => contains_key key properties
  | None => false
  end.

Fixpoint reject_undeclared_keys (root_path : str) (schema : Json) (keys : list str)
  : result unit InstanceViolation :=
  match keys with
  | [] => Ok tt
  | key :: rest =>
      if negb (declares_key schema key) then Err (field_violation root_path key Unknown_field)
      else reject_undeclared_keys root_path schema rest
  end.

Fixpoint check_fields (root_path : str) (properties object : Fields) : result unit InstanceViolation :=
  match object with
  | [] => Ok tt
  | (key, value) :: rest =>
      match assoc key properties with
      | None => Err (field_violation root_path key Unknown_field)
      | Some schema =>
          match check_value value (default [] (as_object schema)) with
          | Err e => Err (field_violation root_path key (Bad_value e))
          | Ok _ => check_fields root_path properties rest
          end
      end
  end.

Definition validate_instance (root_path : str) (schema input : Json) : result unit InstanceViolation :=
  if over_cap input then Err (Whole root_path Instance_too_big)
  else
    match as_object input with
    | None => Err (Whole root_path Instance_not_object)
    | Some object =>
        match find_index (λ key, negb (contains_key key object)) 0 (required_keys schema) with
        | Some (_, key) => Err (field_violation root_path key Required_missing)
        | None =>
            let? _ := reject_undeclared_keys root_path schema object.*1 in
            check_fields root_path (schema_properties schema) object
        end
    end.

Definition validate_template_input (schema input : Json) : result unit InstanceViolation :=
  validate_instance (lit "template_input") schema input.
End schemas.

(** ** The effective configuration *)

(** A [serde_json::Map] with no repeated key; [insert] on a key that is absent appends. *)
Definition effective_config_from_schema (config_schema : option Json) (user_config : Json) : Fields :=
  match config_schema ≫= λ s, json_get s (lit "properties") ≫= as_object with
  | None => []
  | Some properties =>
      let user := as_object user_config in
      omap (λ '(key, property_schema),
        match user ≫= assoc key with
        | Some value =>
            if negb (is_null value) then Some (key, value)
            else (λ d, (key, d)) <$> json_get property_schema (lit "default")
        | None => (λ d, (key, d)) <$> json_get property_schema (lit "default")
        end) properties
  end.

Definition missing_required (config_schema : option Json) (effective : Fields) : list str :=
  match config_schema with
  | None => []
  | Some schema => filter (λ key, contains_key key effective = false) (required_keys schema)
  end.

(** ** What acceptance means *)

Lemma assoc_elem {A} k (l : list (str * A)) a : assoc k l = Some a → (k, a) ∈ l.
Proof.
  induction l as [|[k' a'] l IH]; simpl; [done|]. case_bool_decide as H; [intros [= ->]; subst; left|].
  intros ?. right. auto.
Qed.

Lemma assoc_NoDup {A} k (l : list (str * A)) a : NoDup l.*1 → (k, a) ∈ l → assoc k l = Some a.
Proof.
  induction l as [|[k' a'] l IH]; simpl; [by intros _ ?%elem_of_nil|].
  intros [Hnin Hnd]%NoDup_cons [[= -> ->]|H]%elem_of_cons; [by rewrite bool_decide_eq_true_2|].
  rewrite bool_decide_eq_false_2; [auto|]. intros ->. apply Hnin. apply list_elem_of_fmap. by exists (k', a).
Qed.

Lemma contains_key_spec k f : contains_key k f = true ↔ ∃ v, assoc k f = Some v.
Proof. unfold contains_key. by rewrite bool_decide_eq_true. Qed.

Lemma contains_key_elem k v (f : Fields) : (k, v) ∈ f → contains_key k f = true.
Proof.
  intros H. apply contains_key_spec. induction f as [|[k' v'] f IH]; [by apply elem_of_nil in H|]. simpl.
  case_bool_decide as Hk; [by eauto|]. apply elem_of_cons in H as [[= -> ->]|H]; [done|auto].
Qed.

Lemma find_index_None {A} (p : A → bool) n l : find_index p n l = None ↔ ∀ a, a ∈ l → p a = false.
Proof.
  revert n; induction l as [|a l IH]; intros n; simpl; [split; [by intros _ ? ?%elem_of_nil|done]|].
  setoid_rewrite elem_of_cons. destruct (p a) eqn:Ha.
  - split; [done|]. intros H. specialize (H a (or_introl eq_refl)). congruence.
  - rewrite IH. naive_solver.
Qed.

Section accepted.
Context (to_string : Json → str) (show_value_error : ValueError → str).
#[local] Abbreviation validate_object_schema := (validate_object_schema to_string show_value_error).
#[local] Abbreviation validate_instance := (validate_instance to_string).

(** A property of an accepted schema. *)
Record property_ok (schema : Json) (p : Fields) : Prop := {
  po_object : schema = JObject p;
  po_default : ∀ d, json_get schema (lit "default") = Some d → check_value d p = Ok tt;
}.

Lemma validate_property_ok schema :
  validate_property show_value_error schema = Ok tt → ∃ p, property_ok schema p.
Proof.
  unfold validate_property. destruct schema as [| | | | | |p]; try done. simpl. intros H. exists p.
  split; [done|]. simpl. intros d Hd. rewrite Hd in H. revert H.
  destruct (find_index _ _ _) as [[? []]|]; [done|].
  destruct (match assoc (lit "description") p with Some _ => _ | None => _ end); [done|].
  destruct (assoc (lit "type") p) as [[]|]; try done.
  case_bool_decide; [done|]. destruct (match assoc (lit "enum") p with Some _ => _ | None => _ end); simpl; [|done].
  by destruct (check_value d p) as [[]|].
Qed.

Lemma validate_properties_ok path properties :
  validate_properties show_value_error path properties = Ok tt →
  ∀ name schema, (name, schema) ∈ properties → ∃ p, property_ok schema p.
Proof.
  induction properties as [|[n s] rest IH]; simpl; [by intros _ ? ? ?%elem_of_nil|].
  destruct (validate_property _ s) as [[]|] eqn:Hs; [|done].
  intros H name schema [[= -> ->]|Hin]%elem_of_cons; [by apply validate_property_ok|by eapply IH].
Qed.

Lemma schema_accepted root schema :
  validate_object_schema root schema = Ok tt →
  ∀ name prop, (name, prop) ∈ schema_properties schema → ∃ p, property_ok prop p.
Proof.
  unfold PluginSchema.validate_object_schema, schema_properties.
  destruct (over_cap _ schema); [done|]. destruct schema as [| | | | | |fields]; try done. simpl.
  destruct (find_index _ _ _) as [[? []]|]; [done|]. destruct (negb _); [done|].
  destruct (match assoc (lit "description") fields with Some _ => _ | None => _ end); [done|].
  destruct (assoc (lit "additionalProperties") fields) as [[|[]| | | | |]|]; try done.
  destruct (assoc (lit "properties") fields) as [[| | | | | |props]|]; simpl; try done;
    [|by intros _ ? ? ?%elem_of_nil].
  destruct (validate_properties _ _ props) as [[]|] eqn:Hp; [|done]. intros _. by eapply validate_properties_ok.
Qed.

Lemma reject_undeclared_spec root schema keys :
  reject_undeclared_keys root schema keys = Ok tt ↔ ∀ k, k ∈ keys → declares_key schema k = true.
Proof.
  induction keys as [|k keys IH]; simpl; [split; [by intros _ ? ?%elem_of_nil|done]|].
  setoid_rewrite elem_of_cons. destruct (declares_key schema k) eqn:H; simpl; [rewrite IH; naive_solver|].
  split; [done|]. intros Hall. specialize (Hall k (or_introl eq_refl)). congruence.
Qed.

Lemma check_fields_spec root properties object :
  check_fields root properties object = Ok tt ↔
  ∀ k v, (k, v) ∈ object →
    ∃ prop, assoc k properties = Some prop ∧ check_value v (default [] (as_object prop)) = Ok tt.
Proof.
  induction object as [|[k v] object IH]; simpl; [split; [by intros _ ? ? ?%elem_of_nil|done]|].
  setoid_rewrite elem_of_cons. destruct (assoc k properties) as [prop|] eqn:Hk.
  - destruct (check_value v _) as [[]|] eqn:Hc; [rewrite IH; naive_solver|].
    split; [done|]. intros H. destruct (H k v (or_introl eq_refl)) as (? & ? & ?). congruence.
  - split; [done|]. intros H. destruct (H k v (or_introl eq_refl)) as (? & ? & ?). congruence.
Qed.

(** What an instance of a schema is. *)
Definition conforms (schema : Json) (object : Fields) : Prop :=
  (∀ key, key ∈ required_keys schema → contains_key key object = true)
  ∧ ∀ key value, (key, value) ∈ object →
      ∃ p, assoc key (schema_properties schema) = Some (JObject p) ∧ check_value value p = Ok tt.

Lemma declares_assoc schema key prop :
  assoc key (schema_properties schema) = Some prop → declares_key schema key = true.
Proof.
  unfold schema_properties, declares_key. destruct (json_get schema (lit "properties") ≫= as_object); simpl; [|done].
  intros H. apply contains_key_spec. eauto.
Qed.

Lemma validate_instance_spec root root' schema input :
  validate_object_schema root schema = Ok tt →
  validate_instance root' schema input = Ok tt ↔
  ∃ object, input = JObject object ∧ over_cap to_string input = false ∧ conforms schema object.
Proof.
  intros Hs. unfold PluginSchema.validate_instance.
  destruct (over_cap to_string input) eqn:Hcap; [naive_solver|].
  destruct input as [| | | | | |object]; try naive_solver. simpl.
  assert (∀ k v, (k, v) ∈ object → (∃ prop, assoc k (schema_properties schema) = Some prop
      ∧ check_value v (default [] (as_object prop)) = Ok tt)
    ↔ ∃ p, assoc k (schema_properties schema) = Some (JObject p) ∧ check_value v p = Ok tt) as Hprop.
  { intros k v _. split; [|naive_solver]. intros (prop & Ha & Hc).
    destruct (schema_accepted _ _ Hs k prop (assoc_elem _ _ _ Ha)) as (p & -> & _). simpl in Hc. eauto. }
  destruct (find_index _ _ _) as [[i key]|] eqn:Hf.
  - split; [done|]. intros (o & [= <-] & _ & Hreq & _). exfalso.
    assert (find_index (λ key, negb (contains_key key object)) 0 (required_keys schema) = None); [|congruence].
    apply find_index_None. intros k Hk. by rewrite Hreq.
  - rewrite find_index_None in Hf. destruct (reject_undeclared_keys root' schema object.*1) as [[]|] eqn:Hr; simpl.
    + rewrite check_fields_spec. split.
      * intros H. exists object. split; [done|]. split; [done|]. split; [|by intros k v Hin; apply Hprop; auto].
        intros k Hk. specialize (Hf k Hk). by apply negb_false_iff.
      * intros (o & [= <-] & _ & _ & H) k v Hin. apply Hprop; auto.
    + split; [done|]. intros (o & [= <-] & _ & _ & H). exfalso.
      assert (reject_undeclared_keys root' schema object.*1 = Ok tt); [|congruence].
      apply reject_undeclared_spec. intros k ([k' v] & -> & Hin)%list_elem_of_fmap.
      destruct (H _ _ Hin) as (p & Ha & _). by eapply declares_assoc.
Qed.

(** Against an accepted schema an instance is valid exactly when it is an object
    within the byte cap that has every required key and whose every key is declared
    with a value of that property's type and, if it has one, of its enumeration: no
    constraint of the schema is silently ignored. *)
Theorem instance_valid_iff root root' schema input :
  validate_object_schema root schema = Ok tt →
  validate_instance root' schema input = Ok tt ↔
  ∃ object, input = JObject object ∧ over_cap to_string input = false ∧ conforms schema object.
Proof. apply validate_instance_spec. Qed.

(** ** The effective configuration of an accepted schema *)

(** The operator's values, where there are any, are values of their properties. *)
Definition user_ok (schema : Json) (user : Json) : Prop :=
  ∀ fields key value, as_object user = Some fields → assoc key fields = Some value → is_null value = false →
    ∀ p, assoc key (schema_properties schema) = Some (JObject p) → check_value value p = Ok tt.

Lemma effective_elem schema user key value :
  (key, value) ∈ effective_config_from_schema (Some schema) user ↔
  ∃ prop, (key, prop) ∈ schema_properties schema
    ∧ ((∃ fields, as_object user = Some fields ∧ assoc key fields = Some value ∧ is_null value = false)
       ∨ ((∀ fields v, as_object user = Some fields → assoc key fields = Some v → is_null v = true)
          ∧ json_get prop (lit "default") = Some value)).
Proof.
  unfold effective_config_from_schema, schema_properties. simpl.
  destruct (json_get schema (lit "properties") ≫= as_object) as [props|]; simpl.
  2:{ split; [by intros ?%elem_of_nil|by intros (? & ?%elem_of_nil & _)]. }
  rewrite list_elem_of_omap. split.
  - intros ([k prop] & Hin & H). destruct (as_object user) as [fields|]; simpl in H.
    + destruct (assoc k fields) as [v|] eqn:Hk; [destruct (is_null v) eqn:Hn; simpl in H|];
        [apply fmap_Some in H as (d & Hd & [= <- <-])|injection H as <- <-|apply fmap_Some in H as (d & Hd & [= <- <-])];
        exists prop; split; try done; [right|left|right]; naive_solver.
    + apply fmap_Some in H as (d & Hd & [= <- <-]). exists prop. naive_solver.
  - intros (prop & Hin & H). exists (key, prop). split; [done|].
    destruct H as [(fields & -> & Ha & Hn)|[Hnull Hd]]; simpl; [by rewrite Ha, Hn|].
    destruct (as_object user) as [fields|]; simpl; [|by rewrite Hd].
    destruct (assoc key fields) as [v|] eqn:Hv; [|by rewrite Hd]. by rewrite (Hnull fields v), Hd.
Qed.

(** With an accepted schema and operator values of the declared types, every value
    the plugin runs with is a value of its property (the operator's if there is one,
    the manifest's default otherwise), and the configuration is a valid instance of
    the schema exactly when no required key is missing from it and it is within the
    byte cap: bring-up need check nothing else. *)
Theorem effective_config_valid root root' schema user :
  validate_object_schema root schema = Ok tt → NoDup (schema_properties schema).*1 → user_ok schema user →
  let effective := effective_config_from_schema (Some schema) user in
  (∀ key value, (key, value) ∈ effective →
     ∃ p, assoc key (schema_properties schema) = Some (JObject p) ∧ check_value value p = Ok tt)
  ∧ (validate_instance root' schema (JObject effective) = Ok tt
     ↔ missing_required (Some schema) effective = [] ∧ over_cap to_string (JObject effective) = false).
Proof.
  intros Hs Hnd Hu effective.
  assert (∀ key value, (key, value) ∈ effective →
    ∃ p, assoc key (schema_properties schema) = Some (JObject p) ∧ check_value value p = Ok tt) as Hall.
  { intros key value (prop & Hin & H)%effective_elem.
    destruct (schema_accepted _ _ Hs key prop Hin) as (p & [-> Hdef]). exists p.
    pose proof (assoc_NoDup _ _ _ Hnd Hin) as Ha. split; [done|].
    destruct H as [(fields & Hf & Hk & Hn)|[_ Hd]]; [by eapply Hu|by apply Hdef]. }
  split; [done|]. rewrite (validate_instance_spec _ root') by exact Hs. unfold missing_required. split.
  - intros (o & [= <-] & Hcap & Hreq & _). split; [|done]. apply elem_of_nil_inv.
    intros k [Hk Hin]%list_elem_of_filter. rewrite Hreq in Hk; done.
  - intros [Hm Hcap]. exists effective. split; [done|]. split; [done|]. split; [|done].
    intros k Hk. apply not_false_iff_true. intros Hf.
    assert (k ∈ filter (λ key, contains_key key effective = false) (required_keys schema)) as H
      by (by apply list_elem_of_filter).
    rewrite Hm in H. by apply elem_of_nil in H.
Qed.
End accepted.
