(* ===== verification/PluginUrl.v ===== *)
(** * The address of a remote connector

    Models the [mcp_http.url] part of [crates/plugin/src/manifest.rs]: configuration slots
    [{{config.key}}] in the address, their rendering, the validation of an address, and
    the lock that keeps the origin of a connector with a credential where its manifest
    puts it. The [url] crate is the class [UrlCrate]. *)

From stdpp Require Import prelude gmap strings.
From S2P Require Import Prelude Float64 Identity Text PluginSchema.

Local Open Scope calm_scope.

Definition CONFIG_SLOT_PREFIX : str := lit "config.".
Definition ORIGIN_PROBE : str := lit "neige-config-slot".
Definition OPEN : str := lit "{{".
Definition CLOSE : str := lit "}}".

(** A parsed [url::Url]. *)
Record Url := mkUrl {
  url_as_str : str;
  url_scheme : str;
  url_host_str : option str;
  url_port_or_known_default : option N;
  url_fragment : option str;
  url_username : str;
  url_password : option str;
}.

Class UrlCrate := { url_parse : str → option Url }.

(** Why an address is refused. *)
Inductive UrlReason :=
| Stray (what : str)
| Unterminated_slot
| Not_a_config_slot (inner : str)
| Slot_undeclared (key : str)
| Empty_authority
| Bad_character (c : N)
| Not_absolute
| Bad_scheme (scheme : str)
| Not_canonical (raw normalized : str)
| No_host
| Has_fragment
| Has_userinfo
| Probe_refused (detail : UrlReason)
| No_value (key : str)
| Unrenderable (key : str) (type_name : str)
| Origin_literal_refused (detail : UrlReason)
| Slot_in_origin
| Rendered_unparsable
| Origin_moved (pinned got : Url)
| Scan_out_of_fuel.

(** ** Slots *)

(** [url_config_slots]: each slot as the literal text before it and its key, and the
    text after the last. Every round of the loop consumes the braces it found, so fuel
    beyond the length is never used up ([slots_terminate]). *)
Fixpoint scan_slots (fuel : nat) (raw : str) : result (list (str * str) * str) UrlReason :=
  match fuel with
  | 0 => Err Scan_out_of_fuel
  | S fuel =>
      match split_once OPEN raw with
      | None => if contains CLOSE raw then Err (Stray CLOSE) else Ok ([], raw)
      | Some (before, body) =>
          if contains CLOSE before then Err (Stray CLOSE)
          else
            match split_once CLOSE body with
            | None => Err Unterminated_slot
            | Some (inner, after) =>
                if contains OPEN inner then Err (Stray OPEN)
                else
                  match strip_prefix CONFIG_SLOT_PREFIX inner with
                  | Some ((_ :: _) as key) =>
                      let? rest := scan_slots fuel after in Ok ((before, key) :: rest.1, rest.2)
                  | _ => Err (Not_a_config_slot inner)
                  end
            end
      end
  end.

Definition url_config_slots (raw : str) : result (list (str * str) * str) UrlReason :=
  scan_slots (S (length raw)) raw.

Fixpoint render_pieces {E} (value_for : str → result str E) (pieces : list (str * str)) (tail : str)
  : result str E :=
  match pieces with
  | [] => Ok tail
  | (before, key) :: rest =>
      let? value := value_for key in
      let? rendered := render_pieces value_for rest tail in
      Ok (before ++ value ++ rendered)
  end.

Definition render_url_slots (raw : str) (value_for : str → result str UrlReason) : result str UrlReason :=
  let? slots := url_config_slots raw in
  render_pieces value_for slots.1 slots.2.

Definition json_value_type_name (v : Json) : str :=
  match v with
  | JNull => lit "null"
  | JBool _ => lit "a boolean"
  | JInt _ | JFloat _ => lit "a number"
  | JString _ => lit "a string"
  | JArray _ => lit "an array"
  | JObject _ => lit "an object"
  end.

Definition show_bool (b : bool) : str := if b then lit "true" else lit "false".

(** [config_url_value]; [show_number] is how a JSON number prints. *)
Definition config_url_value (show_number : Json → str) (key : str) (effective : Fields) : result str UrlReason :=
  match assoc key effective with
  | None | Some JNull => Err (No_value key)
  | Some (JString s) => Ok s
  | Some ((JInt _ | JFloat _) as n) => Ok (show_number n)
  | Some (JBool b) => Ok (show_bool b)
  | Some other => Err (Unrenderable key (json_value_type_name other))
  end.

(** ** Validation *)

(** [rest.split(['/', '?', '#']).next()]. *)
Fixpoint authority (rest : str) : str :=
  match rest with
  | [] => []
  | c :: rest => if ((c =? 47) || (c =? 63) || (c =? 35))%N then [] else c :: authority rest
  end.

Definition bad_url_char (c : N) : bool := ((c =? 92) || is_ascii_control c || (c =? 127))%N.

Section urls.
Context `{Crate : UrlCrate}.

Definition validate_mcp_http_url (raw : str) : result unit UrlReason :=
  let? _ :=
    match split_once (lit "://") raw with
    | Some (_, rest) => if negb (is_empty (authority rest)) then Ok tt else Err Empty_authority
    | None => Err Empty_authority
    end in
  match find bad_url_char raw with
  | Some c => Err (Bad_character c)
  | None =>
      match url_parse raw with
      | None => Err Not_absolute
      | Some parsed =>
          if negb (bool_decide (url_scheme parsed = lit "http") || bool_decide (url_scheme parsed = lit "https"))
          then Err (Bad_scheme (url_scheme parsed))
          else if negb (bool_decide (url_as_str parsed = raw)) then Err (Not_canonical raw (url_as_str parsed))
          else if match url_host_str parsed with None => true | Some h => is_empty h end then Err No_host
          else if match url_fragment parsed with Some _ => true | None => false end then Err Has_fragment
          else if negb (is_empty (url_username parsed)) || match url_password parsed with Some _ => true | None => false end
          then Err Has_userinfo
          else Ok tt
      end
  end.

Definition probe_literal_url (raw : str) : result Url UrlReason :=
  let? probe := render_url_slots raw (λ _, Ok ORIGIN_PROBE) in
  match validate_mcp_http_url probe with
  | Err reason => Err (Probe_refused reason)
  | Ok _ => match url_parse probe with Some u => Ok u | None => Err Not_absolute end
  end.

(** Whether the probe occurs where it must not. *)
Definition probe_in_origin (u : Url) : bool :=
  contains ORIGIN_PROBE (url_scheme u)
  || match url_host_str u with Some h => contains ORIGIN_PROBE h | None => false end
  || contains ORIGIN_PROBE (url_username u)
  || match url_password u with Some p => contains ORIGIN_PROBE p | None => false end.

Definition lock_origin (raw rendered : str) : result unit UrlReason :=
  match probe_literal_url raw with
  | Err reason => Err (Origin_literal_refused reason)
  | Ok literal =>
      if probe_in_origin literal then Err Slot_in_origin
      else
        match url_parse rendered with
        | None => Err Rendered_unparsable
        | Some got =>
            if negb (bool_decide (url_scheme got = url_scheme literal))
               || negb (bool_decide (url_host_str got = url_host_str literal))
               || negb (bool_decide (url_port_or_known_default got = url_port_or_known_default literal))
            then Err (Origin_moved literal got)
            else Ok tt
        end
  end.
End urls.

(** ** The loop terminates, and its pieces are the address *)

Lemma scan_slots_fuel fuel raw : length raw < fuel → scan_slots fuel raw ≠ Err Scan_out_of_fuel.
Proof.
  revert raw; induction fuel as [|fuel IH]; intros raw Hlen; [lia|]. cbn [scan_slots].
  destruct (split_once OPEN raw) as [[before body]|] eqn:H1; [|by destruct (contains CLOSE raw)].
  destruct (contains CLOSE before); [done|].
  destruct (split_once CLOSE body) as [[inner after]|] eqn:H2; [|done].
  destruct (contains OPEN inner); [done|].
  destruct (strip_prefix CONFIG_SLOT_PREFIX inner) as [[|c key]|]; [done| |done].
  apply split_once_length in H1, H2. simpl in H1, H2. specialize (IH after ltac:(lia)).
  destruct (scan_slots fuel after) as [[]|]; simpl; [done|]. congruence.
Qed.

(** The address a list of pieces was read from. *)
Definition slot_text (key : str) : str := OPEN ++ CONFIG_SLOT_PREFIX ++ key ++ CLOSE.

Definition unscan (slots : list (str * str) * str) : str :=
  foldr (λ '(before, key) rest, before ++ slot_text key ++ rest) slots.2 slots.1.

Lemma scan_slots_unscan fuel raw slots : scan_slots fuel raw = Ok slots → unscan slots = raw.
Proof.
  revert raw slots; induction fuel as [|fuel IH]; intros raw slots; [done|]. cbn [scan_slots].
  destruct (split_once OPEN raw) as [[before body]|] eqn:H1.
  2:{ destruct (contains CLOSE raw); [done|]. by intros [= <-]. }
  destruct (contains CLOSE before); [done|].
  destruct (split_once CLOSE body) as [[inner after]|] eqn:H2; [|done].
  destruct (contains OPEN inner); [done|].
  destruct (strip_prefix CONFIG_SLOT_PREFIX inner) as [[|c key]|] eqn:H3; [done| |done].
  destruct (scan_slots fuel after) as [[pieces tail]|] eqn:Hrec; simpl; [|done]. intros [= <-].
  apply split_once_Some in H1 as ->, H2 as ->. apply strip_prefix_Some in H3 as ->.
  specialize (IH _ _ Hrec). unfold unscan in *. simpl in *. rewrite IH. unfold slot_text.
  by rewrite <- !app_assoc.
Qed.

Lemma render_pieces_own slots : render_pieces (E := UrlReason) (λ key, Ok (slot_text key)) slots.1 slots.2 = Ok (unscan slots).
Proof.
  destruct slots as [pieces tail]. unfold unscan; simpl. induction pieces as [|[before key] pieces IH]; simpl; [done|].
  by rewrite IH.
Qed.

(** Reading the slots of an address always ends with an answer; when it has slots,
    putting each slot's own text back gives the address, so a rendering changes the
    slots and nothing else. *)
Theorem slots_terminate raw :
  url_config_slots raw ≠ Err Scan_out_of_fuel
  ∧ ∀ slots, url_config_slots raw = Ok slots →
      unscan slots = raw ∧ render_url_slots raw (λ key, Ok (slot_text key)) = Ok raw.
Proof.
  split; [apply scan_slots_fuel; lia|]. intros slots H. unfold render_url_slots. rewrite H. simpl.
  rewrite render_pieces_own. by rewrite (scan_slots_unscan _ _ _ H).
Qed.
