(* ===== verification/PluginManifest.v ===== *)
(** * Plugin manifests

    Models [crates/plugin/src/manifest.rs], the typed manifest and every rule of
    [validate], with the rules it borrows from [http_headers.rs], [http_socket.rs],
    [results.rs], [approval.rs], [perms.rs], [glob.rs] and from [calm-types]. A refusal
    carries the dotted path of the source and the reason with the values it prints. The
    [semver] parser and, through [PluginUrl], the [url] crate are parameters. *)

From stdpp Require Import prelude gmap strings.
From S2P Require Import Prelude Float64 Identity Text PluginSchema PluginUrl.

Local Open Scope calm_scope.

Definition CONFIG_SCHEMA_KEY : str := lit "config_schema".
Definition MAX_PLANNER_INSTRUCTIONS_BYTES : N := 2048.
Definition MCP_HTTP_DEFAULT_TIMEOUT_MS : N := 10000.
Definition MCP_HTTP_MAX_BRINGUP_TIMEOUT_MS : N := 15000.
Definition CLI_QUERY_DEFAULT_TIMEOUT_MS : N := 20000.
Definition CLI_QUERY_DEFAULT_MAX_OUTPUT_BYTES : N := 32768.
Definition CLI_QUERY_MAX_OUTPUT_BYTES_CEILING : N := 8388608.
Definition HTTP_SOCKET_MIN_MANIFEST_VERSION : N := 6.
Definition APPROVAL_MIN_MANIFEST_VERSION : N := 7.
Definition KERNEL_OVERLAY_PLUGIN_ID : str := lit "kernel".
Definition DEFAULT_KV_QUOTA_BYTES : N := 1048576.

Definition FORGE_CREDENTIAL_ENV_KEYS : list str :=
  [lit "GH_TOKEN"; lit "GITHUB_TOKEN"; lit "GH_ENTERPRISE_TOKEN"; lit "GITHUB_ENTERPRISE_TOKEN";
   lit "SSH_AUTH_SOCK"; lit "GIT_SSH_COMMAND"].

(** ** The typed manifest *)

Inductive ConnectorKind := App | McpHttp | CliQuery | Builtin.

#[export] Instance ConnectorKind_eq_dec : EqDecision ConnectorKind.
Proof. solve_decision. Defined.

Definition wire_name (k : ConnectorKind) : str :=
  match k with
  | App => lit "app"
  | McpHttp => lit "mcp-http"
  | CliQuery => lit "cli-query"
  | Builtin => lit "builtin"
  end.

Inductive AgentToolsScope := Enabled | BoundTrack.

Inductive ApiKeyIn := Bearer | Header (name : str).

Record McpHttpBlock := mkMcpHttpBlock {
  mh_url : str;
  mh_api_key_secret : option str;
  mh_api_key_in : option str;
  mh_header_secrets : list (str * str);
  mh_tools_all : bool;
  mh_tools_allow : list str;
  mh_request_timeout_ms : option N;
  mh_bringup_timeout_ms : option N;
}.

Record CliQueryTool := mkCliQueryTool {
  ct_name : str;
  ct_description : option str;
  ct_input_schema : Json;
  ct_args : list str;
}.

Record CliQueryBlock := mkCliQueryBlock {
  cq_command : str;
  cq_search_path_extra : list str;
  cq_env_allow : list str;
  cq_secret_env : list str;
  cq_config_env : list str;
  cq_timeout_ms : option N;
  cq_max_output_bytes : option N;
  cq_tools : list CliQueryTool;
}.

Inductive ArgvSlot := Slot_Argument (name : str) | Slot_Config (key : str).

Record Entrypoint := mkEntrypoint { ep_command : str; ep_args : list str; ep_env : list (str * str) }.

Record UiPermissions := mkUiPermissions { ui_tools : list str }.

Record ViewSize := mkViewSize { vs_w : N; vs_h : N; vs_min_w : option N; vs_min_h : option N }.

Record CspBlock := mkCspBlock {
  csp_default_src : option (list str);
  csp_script_src : option (list str);
  csp_style_src : option (list str);
  csp_connect_src : option (list str);
  csp_img_src : option (list str);
  csp_extras : gmap str (list str);
}.

Record View := mkView {
  vw_view_id : str;
  vw_title : str;
  vw_icon : option str;
  vw_scope : str;
  vw_default_size : option ViewSize;
  vw_entry_html : option str;
  vw_csp : option CspBlock;
  vw_permissions : option UiPermissions;
}.

Record Author := mkAuthor { au_name : str; au_url : option str }.

Inductive ToolKind := ForgeAction.
Inductive ToolApproval := Delegated.

Record ExposedTool := mkExposedTool {
  et_name : str;
  et_description : option str;
  et_kind : option ToolKind;
  et_input_schema : option Json;
  et_annotations : option Json;
  et_approval : option ToolApproval;
}.

Record TemplateDescriptor := mkTemplateDescriptor { td_id : str }.

Record Permissions := mkPermissions {
  pm_overlays_write : list str;
  pm_cards_create : bool;
  pm_cards_read_all : bool;
  pm_events_subscribe : list str;
  pm_proposals : list str;
  pm_kv_quota_bytes : N;
  pm_filesystem : list str;
}.

Record Manifest := mkManifest {
  mf_manifest_version : N;
  mf_id : str;
  mf_version : str;
  mf_min_kernel_version : str;
  mf_display_name : str;
  mf_kind : ConnectorKind;
  mf_agent_tools_scope : AgentToolsScope;
  mf_planner_instructions : option str;
  mf_http_socket : option str;
  mf_mcp_http : option McpHttpBlock;
  mf_cli_query : option CliQueryBlock;
  mf_description : option str;
  mf_author : option Author;
  mf_license : option str;
  mf_homepage : option str;
  mf_entrypoint : option Entrypoint;
  mf_views : list View;
  mf_exposes_tools : list ExposedTool;
  mf_input_schema : option Json;
  mf_config_schema : option Json;
  mf_templates : list TemplateDescriptor;
  mf_permissions : Permissions;
}.

(** Why a field is refused. *)
Inductive Reason :=
| Unaccepted_version (got : N)
| Needs_version (version : N)
| Blank
| Too_long (max got : N)
| Not_a_plain_name
| Approval_needs_version (tool : str) (version : N)
| Forge_action_approval (tool : str)
| Templates_need_version (got : N)
| Bad_plugin_id
| Reserved_plugin_id
| Not_semver (value : str)
| Blocks_exclusive
| Block_not_allowed (kind : str)
| Block_required (kind : str)
| Escapes_install_dir
| Required_for_app
| Schema_refused (reason : SchemaReason)
| Required_needs_version (got : N)
| Minted_twice (first second minted : str)
| Builtin_surface
| Only_app (kind : str)
| Approval_only_app (tool : str)
| Forge_action_only_app (tool kind : str)
| Url_refused (reason : UrlReason)
| Bringup_too_long
| Retired_query
| Key_placement_required
| Bad_key_placement
| Bad_header_name (name : str)
| Headers_refused (reason : str)
| Overrides_key_header
| All_and_allowlist
| No_tools
| Forge_credential (key : str)
| Bad_env_key (key : str)
| Undeclared_config (key : str)
| Env_declared_twice (key first : str)
| Reserved_property (key : str)
| Partial_slot
| Undeclared_slot (name : str)
| Empty_config_slot
| Name_whitespace
| Bad_view_id
| Bad_scope (scope : str)
| Bad_template_id
| Bad_entity_kind (kind : str)
| Renamed_to_templates.

Inductive ManifestError := Json_error | Invalid (field : str) (reason : Reason).

(** ** Small rules *)

Definition is_lower_alnum (c : N) : bool := is_ascii_lowercase c || is_ascii_digit c.

Definition is_valid_plugin_id (s : str) : bool :=
  match s with
  | [] => false
  | c :: rest =>
      (2 <=? utf8_len s)%N && (utf8_len s <=? 64)%N && is_lower_alnum c
      && forallb (λ b, is_lower_alnum b || (b =? 46)%N || (b =? 45)%N) rest
  end.

Definition is_valid_view_id (s : str) : bool :=
  match s with
  | [] => false
  | c :: rest => (utf8_len s <=? 32)%N && is_lower_alnum c && forallb (λ b, is_lower_alnum b || (b =? 45)%N) rest
  end.

(** [report_blocks::tasks::key_is_valid]. *)
Definition key_is_valid (s : str) : bool :=
  match s with
  | [] => false
  | c :: rest =>
      (utf8_len s <=? 64)%N && is_lower_alnum c
      && forallb (λ b, is_lower_alnum b || (b =? 46)%N || (b =? 95)%N || (b =? 45)%N) rest
  end.

Definition is_word_plugin_id (s : str) : bool :=
  (2 <=? utf8_len s)%N && (utf8_len s <=? 32)%N && forallb is_lower_alnum s.

Definition LEGACY_PLUGIN_IDS : list str :=
  [lit "dev-neige-market"; lit "dev-neige-barra"; lit "dev-neige-paper-trading"; lit "cli-longbridge";
   lit "mcp-wisburg-mcp-server-49abefc5"].

Definition is_installable_plugin_id (s : str) : bool := is_word_plugin_id s || bool_decide (s ∈ LEGACY_PLUGIN_IDS).

(** The characters of an HTTP token that are not alphanumeric. *)
Definition token_punctuation : str := [33; 35; 36; 37; 38; 39; 42; 43; 45; 46; 94; 95; 96; 124; 126]%N.

Definition is_http_field_name (name : str) : bool :=
  negb (is_empty name) && forallb (λ b, is_ascii_alphanumeric b || bool_decide (b ∈ token_punctuation)) name.

Definition is_valid_env_key (key : str) : bool :=
  match key with
  | [] => false
  | c :: rest => (is_ascii_alphabetic c || (c =? 95)%N) && forallb (λ c, is_ascii_alphanumeric c || (c =? 95)%N) rest
  end.

Definition api_key_in_parse (s : str) : option ApiKeyIn :=
  if bool_decide (s = lit "bearer") then Some Bearer
  else
    match split_once (lit ":") s with
    | None => None
    | Some (scheme, name) =>
        if is_blank name then None
        else if bool_decide (scheme = lit "header") then Some (Header name) else None
    end.

Definition is_retired_query (s : str) : bool := bool_decide (s = lit "query") || starts_with (lit "query:") s.

(** [filter(|ms| *ms > 0).unwrap_or(default)]. *)
Definition positive_or (d : N) (ms : option N) : N :=
  match ms with Some ms => if (0 <? ms)%N then ms else d | None => d end.

Definition mcp_timeout_ms (b : McpHttpBlock) : N := positive_or MCP_HTTP_DEFAULT_TIMEOUT_MS (mh_request_timeout_ms b).

Definition mcp_bringup_timeout_ms (b : McpHttpBlock) : N :=
  N.min (positive_or (mcp_timeout_ms b) (mh_bringup_timeout_ms b)) MCP_HTTP_MAX_BRINGUP_TIMEOUT_MS.

Definition cli_timeout_ms (b : CliQueryBlock) : N := positive_or CLI_QUERY_DEFAULT_TIMEOUT_MS (cq_timeout_ms b).

Definition cli_max_output_bytes (b : CliQueryBlock) : N :=
  let requested := positive_or CLI_QUERY_DEFAULT_MAX_OUTPUT_BYTES (cq_max_output_bytes b) in
  if (CLI_QUERY_MAX_OUTPUT_BYTES_CEILING <? requested)%N then CLI_QUERY_MAX_OUTPUT_BYTES_CEILING else requested.

Definition argv_slot (s : str) : option ArgvSlot :=
  match strip_prefix OPEN s ≫= strip_suffix CLOSE with
  | None | Some [] => None
  | Some inner =>
      Some match strip_prefix CONFIG_SLOT_PREFIX inner with
           | Some key => Slot_Config key
           | None => Slot_Argument inner
           end
  end.

Definition http_socket_validate_name (name : str) : bool :=
  negb (is_empty name || bool_decide (name = lit ".") || bool_decide (name = lit "..")
        || contains_char (λ c, (c =? 47) || (c =? 92) || (c =? 0))%N name).

(** [minted_segment], [registry_name], [minted_name_collision]. *)
Definition minted_segment (raw : str) : str := (λ c, if is_ascii_alphanumeric c || (c =? 95)%N then c else 95%N) <$> raw.

Definition registry_name (plugin_id tool : str) : str :=
  lit "plugin_" ++ minted_segment plugin_id ++ lit "_" ++ minted_segment tool.

Fixpoint minted_name_collision (plugin_id : str) (seen : gmap str str) (tools : list str)
  : option (str * str * str) :=
  match tools with
  | [] => None
  | tool :: rest =>
      let minted := registry_name plugin_id tool in
      match seen !! minted with
      | Some first =>
          if negb (bool_decide (first = tool)) then Some (first, tool, minted)
          else minted_name_collision plugin_id seen rest
      | None => minted_name_collision plugin_id (<[minted := tool]> seen) rest
      end
  end.

Definition MANAGED_HEADERS : list str :=
  [lit "host"; lit "content-length"; lit "transfer-encoding"; lit "connection"; lit "trailer"; lit "te";
   lit "upgrade"; lit "proxy-authorization"; lit "proxy-connection"; lit "content-type"; lit "accept";
   lit "mcp-session-id"; lit "mcp-protocol-version"].

(** [validate_header_names]: [seen] holds the lower-case names met so far. *)
Fixpoint validate_header_names_from (seen : list str) (names : list str) : result unit str :=
  match names with
  | [] => if (32 <? length seen) then Err (lit "At most 32 HTTP headers may be configured") else Ok tt
  | name :: rest =>
      let key := to_ascii_lowercase name in
      if negb (is_http_field_name name) then Err (lit "HTTP header names must be valid field names")
      else if bool_decide (key ∈ seen) then Err (lit "HTTP header names must be unique regardless of case")
      else if bool_decide (key ∈ MANAGED_HEADERS)
      then Err (lit "Transport-managed and proxy headers cannot be configured")
      else validate_header_names_from (seen ++ [key]) rest
  end.

Definition validate_header_names (names : list str) : result unit str := validate_header_names_from [] names.

Definition invalid {A} (field : string) (reason : Reason) : result A ManifestError := Err (Invalid (lit field) reason).

Definition validate_connector_tool_name (name field : str) : result unit ManifestError :=
  if is_blank name then Err (Invalid field Blank)
  else if negb (bool_decide (name = trim name)) then Err (Invalid field Name_whitespace)
  else if contains_char is_whitespace name then Err (Invalid field Name_whitespace)
  else Ok tt.

(** [for (i, x) in xs.iter().enumerate() { check(i, x)?; }]. *)
Fixpoint each {A} (check : nat → A → result unit ManifestError) (i : nat) (xs : list A) : result unit ManifestError :=
  match xs with
  | [] => Ok tt
  | x :: rest => let? _ := check i x in each check (S i) rest
  end.

Definition indexed (field : string) (i : nat) : str := lit field ++ index_path i.

Definition config_schema_declares (config_schema : option Json) (key : str) : bool :=
  match config_schema with Some s => declares_key s key | None => false end.

(** ** The connector blocks *)

Definition tool_path (idx : nat) (s : str) : str := indexed "cli_query.tools" idx ++ lit "." ++ s.

Definition validate_arg (properties : option Fields) (config_schema : option Json) (idx i : nat) (arg : str)
  : result unit ManifestError :=
  let path := tool_path idx (lit "args" ++ index_path i) in
  match argv_slot arg with
  | None => if contains OPEN arg || contains CLOSE arg then Err (Invalid path Partial_slot) else Ok tt
  | Some (Slot_Argument name) =>
      if negb match properties with Some p => contains_key name p | None => false end
      then Err (Invalid path (Undeclared_slot name)) else Ok tt
  | Some (Slot_Config key) =>
      if is_empty key then Err (Invalid path Empty_config_slot)
      else if negb (config_schema_declares config_schema key) then Err (Invalid path (Undeclared_config key))
      else Ok tt
  end.

Definition cli_tool_validate (config_schema : option Json) (idx : nat) (t : CliQueryTool) : result unit ManifestError :=
  let? _ := validate_connector_tool_name (ct_name t) (tool_path idx (lit "name")) in
  let properties := json_get (ct_input_schema t) (lit "properties") ≫= as_object in
  let? _ :=
    match find_index (λ kv, starts_with CONFIG_SLOT_PREFIX kv.1) 0 (default [] properties) with
    | Some (_, (key, _)) =>
        Err (Invalid (tool_path idx (lit "input_schema.properties." ++ key)) (Reserved_property key))
    | None => Ok tt
    end in
  each (validate_arg properties config_schema idx) 0 (ct_args t).

(** One source of the child environment, against the keys [seen] with theirs. *)
Fixpoint claim_env (source : string) (i : nat) (keys : list str) (seen : gmap str str)
  : result (gmap str str) ManifestError :=
  match keys with
  | [] => Ok seen
  | key :: rest =>
      match seen !! key with
      | Some first => Err (Invalid (indexed source i) (Env_declared_twice key first))
      | None => claim_env source (S i) rest (<[key := lit source]> seen)
      end
  end.

Definition cli_block_validate (config_schema : option Json) (b : CliQueryBlock) : result unit ManifestError :=
  if is_blank (cq_command b) then invalid "cli_query.command" Blank
  else if is_empty (cq_tools b) then invalid "cli_query.tools" No_tools
  else
    let? _ := each (λ i key,
      if bool_decide (key ∈ FORGE_CREDENTIAL_ENV_KEYS)
      then Err (Invalid (indexed "cli_query.env_allow" i) (Forge_credential key)) else Ok tt) 0 (cq_env_allow b) in
    let? _ := each (λ i key,
      let path := indexed "cli_query.config_env" i in
      if negb (is_valid_env_key key) then Err (Invalid path (Bad_env_key key))
      else if negb (config_schema_declares config_schema key) then Err (Invalid path (Undeclared_config key))
      else Ok tt) 0 (cq_config_env b) in
    let? seen := claim_env "cli_query.env_allow" 0 (cq_env_allow b) ∅ in
    let? seen := claim_env "cli_query.secret_env" 0 (cq_secret_env b) seen in
    let? _ := claim_env "cli_query.config_env" 0 (cq_config_env b) seen in
    each (cli_tool_validate config_schema) 0 (cq_tools b).

Definition holds_credential (b : McpHttpBlock) : bool :=
  bool_decide (is_Some (mh_api_key_secret b)) || negb (is_empty (mh_header_secrets b)).

Definition map_err {A E E'} (f : E → E') (r : result A E) : result A E' :=
  match r with Ok a => Ok a | Err e => Err (f e) end.

Section validation.
Context `{Crate : UrlCrate}.
Context (semver : str → bool) (to_string : Json → str) (show_value_error : ValueError → str).

Definition mcp_url_validate (config_schema : option Json) (b : McpHttpBlock) : result unit ManifestError :=
  let raw := trim (mh_url b) in
  let refuse reason := Invalid (lit "mcp_http.url") (Url_refused reason) in
  let? slots := map_err refuse (url_config_slots raw) in
  if is_empty slots.1 then map_err refuse (validate_mcp_http_url raw)
  else
    match find_index (λ slot, negb (config_schema_declares config_schema slot.2)) 0 slots.1 with
    | Some (_, (_, key)) => Err (refuse (Slot_undeclared key))
    | None =>
        if holds_credential b then
          match probe_literal_url raw with Ok _ => Ok tt | Err reason => Err (refuse reason) end
        else Ok tt
    end.

Definition key_placement_validate (b : McpHttpBlock) : result unit ManifestError :=
  match mh_api_key_secret b, mh_api_key_in b with
  | Some secret, placement =>
      if is_blank secret then invalid "mcp_http.api_key_secret" Blank
      else
        match placement with
        | None => invalid "mcp_http.api_key_in" Key_placement_required
        | Some api_key_in =>
            match api_key_in_parse api_key_in with
            | None => invalid "mcp_http.api_key_in" Bad_key_placement
            | Some (Header name) =>
                if negb (is_http_field_name name) then invalid "mcp_http.api_key_in" (Bad_header_name name) else Ok tt
            | Some Bearer => Ok tt
            end
        end
  | None, _ => Ok tt
  end.

(** The header the API key rides in, when there is one. *)
Definition auth_header (b : McpHttpBlock) : option str :=
  match mh_api_key_secret b, mh_api_key_in b ≫= api_key_in_parse with
  | Some _, Some Bearer => Some (lit "authorization")
  | Some _, Some (Header name) => Some name
  | _, _ => None
  end.

Definition mcp_block_validate (config_schema : option Json) (b : McpHttpBlock) : result unit ManifestError :=
  let? _ := mcp_url_validate config_schema b in
  if match mh_bringup_timeout_ms b with Some ms => (MCP_HTTP_MAX_BRINGUP_TIMEOUT_MS <? ms)%N | None => false end
  then invalid "mcp_http.bringup_timeout_ms" Bringup_too_long
  else if match mh_api_key_in b with Some s => is_retired_query s | None => false end
  then invalid "mcp_http.api_key_in" Retired_query
  else
    let? _ := key_placement_validate b in
    let? _ := map_err (λ why, Invalid (lit "mcp_http.header_secrets") (Headers_refused why))
                (validate_header_names (mh_header_secrets b).*1) in
    if existsb is_empty (mh_header_secrets b).*2 then invalid "mcp_http.header_secrets" Blank
    else if match auth_header b with
            | Some name => existsb (λ header, eq_ignore_ascii_case header name) (mh_header_secrets b).*1
            | None => false
            end
    then invalid "mcp_http.header_secrets" Overrides_key_header
    else if mh_tools_all b && negb (is_empty (mh_tools_allow b)) then invalid "mcp_http.tools_all" All_and_allowlist
    else each (λ i name, validate_connector_tool_name name (indexed "mcp_http.tools_allow" i)) 0 (mh_tools_allow b).

Definition validate_connector_blocks (m : Manifest) : result unit ManifestError :=
  match mf_mcp_http m, mf_cli_query m with
  | Some _, Some _ => invalid "mcp_http" Blocks_exclusive
  | mcp, cli =>
      match mf_kind m with
      | App | Builtin =>
          if bool_decide (is_Some mcp) then invalid "mcp_http" (Block_not_allowed (lit "mcp-http"))
          else if bool_decide (is_Some cli) then invalid "cli_query" (Block_not_allowed (lit "cli-query"))
          else Ok tt
      | McpHttp =>
          match mcp with
          | None => invalid "mcp_http" (Block_required (lit "mcp-http"))
          | Some b => mcp_block_validate (mf_config_schema m) b
          end
      | CliQuery =>
          match cli with
          | None => invalid "cli_query" (Block_required (lit "cli-query"))
          | Some b => cli_block_validate (mf_config_schema m) b
          end
      end
  end.

(** ** The surfaces of a process-backed plugin *)

Definition grants_nothing (p : Permissions) : bool :=
  is_empty (pm_overlays_write p) && negb (pm_cards_create p) && negb (pm_cards_read_all p)
  && is_empty (pm_events_subscribe p) && (pm_kv_quota_bytes p =? 0)%N && is_empty (pm_filesystem p).

Definition is_forge_action (t : ExposedTool) : bool := bool_decide (is_Some (et_kind t)).
Definition declares_approval (t : ExposedTool) : bool := bool_decide (is_Some (et_approval t)).

Definition refuse_delegated_approval (m : Manifest) : result unit ManifestError :=
  match find declares_approval (mf_exposes_tools m) with
  | Some tool => invalid "exposes_tools" (Approval_only_app (et_name tool))
  | None => Ok tt
  end.

Definition reject_app_only_surfaces (m : Manifest) : result unit ManifestError :=
  let only_app := Only_app (wire_name (mf_kind m)) in
  match mf_kind m with
  | Builtin =>
      if bool_decide (is_Some (mf_entrypoint m)) || negb (is_empty (mf_views m))
         || negb (grants_nothing (mf_permissions m)) || bool_decide (is_Some (mf_http_socket m))
      then invalid "builtin" Builtin_surface
      else refuse_delegated_approval m
  | App => Ok tt
  | McpHttp | CliQuery =>
      if bool_decide (is_Some (mf_http_socket m)) then invalid "http_socket" only_app
      else
        let? _ := refuse_delegated_approval m in
        if bool_decide (is_Some (mf_entrypoint m)) then invalid "entrypoint" only_app
        else if negb (is_empty (mf_views m)) then invalid "views" only_app
        else if negb (is_empty (mf_templates m)) then invalid "templates" only_app
        else if bool_decide (is_Some (mf_input_schema m)) then invalid "input_schema" only_app
        else if negb (grants_nothing (mf_permissions m)) then invalid "permissions" only_app
        else
          match find is_forge_action (mf_exposes_tools m) with
          | Some tool => invalid "exposes_tools" (Forge_action_only_app (et_name tool) (wire_name (mf_kind m)))
          | None => Ok tt
          end
  end.

Definition view_validate (idx : nat) (v : View) : result unit ManifestError :=
  let path s := indexed "views" idx ++ lit "." ++ lit s in
  if negb (is_valid_view_id (vw_view_id v)) then Err (Invalid (path "view_id"%string) Bad_view_id)
  else if is_blank (vw_title v) then Err (Invalid (path "title"%string) Blank)
  else if bool_decide (vw_scope v = lit "card") then Ok tt
  else Err (Invalid (path "scope"%string) (Bad_scope (vw_scope v))).

Definition template_validate (idx : nat) (t : TemplateDescriptor) : result unit ManifestError :=
  if negb (key_is_valid (td_id t)) then Err (Invalid (indexed "templates" idx ++ lit ".id") Bad_template_id) else Ok tt.

Definition permissions_validate (p : Permissions) : result unit ManifestError :=
  let? _ := each (λ i kind,
    if negb (bool_decide (kind = lit "track")) && negb (bool_decide (kind = lit "card"))
    then Err (Invalid (indexed "permissions.overlays_write" i) (Bad_entity_kind kind)) else Ok tt)
    0 (pm_overlays_write p) in
  each (λ i topic, if is_blank topic then Err (Invalid (indexed "permissions.events_subscribe" i) Blank) else Ok tt)
    0 (pm_events_subscribe p).

Definition entrypoint_validate (m : Manifest) : result unit ManifestError :=
  match mf_entrypoint m with
  | Some e =>
      if is_blank (ep_command e) then invalid "entrypoint.command" Blank
      else if starts_with (lit "/") (ep_command e) || contains (lit "..") (ep_command e)
      then invalid "entrypoint.command" Escapes_install_dir
      else Ok tt
  | None => match mf_kind m with App => invalid "entrypoint" Required_for_app | _ => Ok tt end
  end.

(** ** The whole manifest *)

(** The rules that tie a key to a manifest version. *)
Definition validate_version_keys (m : Manifest) : result unit ManifestError :=
  let v := mf_manifest_version m in
  if negb ((1 <=? v) && (v <=? 7))%N then invalid "manifest_version" (Unaccepted_version v)
  else if match mf_agent_tools_scope m with BoundTrack => (v <? 4)%N | Enabled => false end
  then invalid "manifest_version" (Needs_version 4)
  else
    let? _ :=
      match mf_planner_instructions m with
      | None => Ok tt
      | Some text =>
          if (v <? 5)%N then invalid "manifest_version" (Needs_version 5)
          else if is_blank text then invalid "planner_instructions" Blank
          else if (MAX_PLANNER_INSTRUCTIONS_BYTES <? utf8_len text)%N
          then invalid "planner_instructions" (Too_long MAX_PLANNER_INSTRUCTIONS_BYTES (utf8_len text))
          else Ok tt
      end in
    let? _ :=
      match mf_http_socket m with
      | None => Ok tt
      | Some name =>
          if (v <? HTTP_SOCKET_MIN_MANIFEST_VERSION)%N
          then invalid "manifest_version" (Needs_version HTTP_SOCKET_MIN_MANIFEST_VERSION)
          else if negb (http_socket_validate_name name) then invalid "http_socket" Not_a_plain_name
          else Ok tt
      end in
    let? _ :=
      match (if (v <? APPROVAL_MIN_MANIFEST_VERSION)%N then find declares_approval (mf_exposes_tools m) else None) with
      | Some tool => invalid "manifest_version" (Approval_needs_version (et_name tool) APPROVAL_MIN_MANIFEST_VERSION)
      | None => Ok tt
      end in
    let? _ :=
      match find (λ t, is_forge_action t && declares_approval t) (mf_exposes_tools m) with
      | Some tool => invalid "exposes_tools" (Forge_action_approval (et_name tool))
      | None => Ok tt
      end in
    if negb (is_empty (mf_templates m)) && (v <? 2)%N then invalid "manifest_version" (Templates_need_version v)
    else Ok tt.

Definition validate_identity (m : Manifest) : result unit ManifestError :=
  if negb (is_valid_plugin_id (mf_id m)) then invalid "id" Bad_plugin_id
  else if bool_decide (mf_id m = KERNEL_OVERLAY_PLUGIN_ID) then invalid "id" Reserved_plugin_id
  else if negb (semver (mf_version m)) then invalid "version" (Not_semver (mf_version m))
  else if negb (semver (mf_min_kernel_version m)) then invalid "min_kernel_version" (Not_semver (mf_min_kernel_version m))
  else if is_blank (mf_display_name m) then invalid "display_name" Blank
  else Ok tt.

Definition schema_refusal (e : SchemaError) : ManifestError := Invalid (se_path e) (Schema_refused (se_reason e)).

Definition validate_schemas (m : Manifest) : result unit ManifestError :=
  let? _ :=
    match mf_input_schema m with
    | Some schema => map_err schema_refusal (validate_input_schema to_string show_value_error schema)
    | None => Ok tt
    end in
  match mf_config_schema m with
  | None => Ok tt
  | Some schema =>
      let? _ := map_err schema_refusal (validate_object_schema to_string show_value_error CONFIG_SCHEMA_KEY schema) in
      let has_required :=
        match json_get schema (lit "required") ≫= as_array with Some r => negb (is_empty r) | None => false end in
      if has_required && (mf_manifest_version m <? 3)%N
      then invalid "manifest_version" (Required_needs_version (mf_manifest_version m))
      else Ok tt
  end.

Definition validate (m : Manifest) : result unit ManifestError :=
  let? _ := validate_version_keys m in
  let? _ := validate_identity m in
  let? _ := validate_connector_blocks m in
  let? _ := reject_app_only_surfaces m in
  let? _ := entrypoint_validate m in
  let? _ := each view_validate 0 (mf_views m) in
  let? _ := validate_schemas m in
  let? _ := each template_validate 0 (mf_templates m) in
  let? _ := permissions_validate (mf_permissions m) in
  match minted_name_collision (mf_id m) ∅ (et_name <$> mf_exposes_tools m) with
  | Some (first, second, minted) => invalid "exposes_tools" (Minted_twice first second minted)
  | None => Ok tt
  end.

(** [Manifest::parse]; deserialization, into a manifest and into a bare value, is a
    parameter. *)
Definition reject_retired_workflows_key (raw : option Json) : result unit ManifestError :=
  match raw ≫= as_object with
  | Some fields => if contains_key (lit "workflows") fields then invalid "workflows" Renamed_to_templates else Ok tt
  | None => Ok tt
  end.

Definition parse (from_str : str → option Manifest) (from_str_value : str → option Json) (s : str)
  : result Manifest ManifestError :=
  if is_blank s then invalid "<root>" Blank
  else
    match from_str s with
    | None => Err Json_error
    | Some m =>
        let? _ := reject_retired_workflows_key (from_str_value s) in
        let? _ := validate m in
        Ok m
    end.

(** ** The address a connector is contacted at *)

Definition resolve_mcp_http_url (show_number : Json → str) (b : McpHttpBlock) (effective : Fields)
  : result str UrlReason :=
  let raw := trim (mh_url b) in
  let? rendered := render_url_slots raw (λ key, config_url_value show_number key effective) in
  let? _ := validate_mcp_http_url rendered in
  let? _ := if holds_credential b then lock_origin raw rendered else Ok tt in
  Ok rendered.
End validation.
