(* ===== verification/PluginRuntime.v ===== *)
(** * Plugins at run time

    Models the decisions a running plugin meets: permissions ([crates/plugin/src/perms.rs],
    [glob.rs]), approvals granted by enabling it ([approval.rs]), the binding of template
    input ([template_input.rs]) and the argument vector of a query tool
    ([cli_query/mod.rs]); then the theorems about manifests, addresses and these. *)

From stdpp Require Import prelude gmap strings.
From S2P Require Import Prelude Float64 Identity Text PluginSchema PluginUrl PluginManifest.

Local Open Scope calm_scope.

(** ** Permissions *)

Definition glob_matches (pattern name : str) : bool :=
  if bool_decide (pattern = lit "*") || bool_decide (pattern = name) then true
  else
    match strip_suffix (lit ".*") pattern with
    | Some prefix => starts_with (prefix ++ lit ".") name
    | None => false
    end.

Definition can_overlay_write (p : Permissions) (entity_kind overlay_kind : str) : bool :=
  existsb (λ k, bool_decide (k = entity_kind)) (pm_overlays_write p).

Definition own_prefix (self_id : str) : str := lit "plugin:" ++ self_id ++ lit ":".

Definition can_card_create (p : Permissions) (kind self_id : str) : bool :=
  if negb (pm_cards_create p) then false
  else if bool_decide (kind = lit "terminal") then true
  else starts_with (own_prefix self_id) kind.

Definition can_card_modify (card_kind self_id : str) : bool := starts_with (own_prefix self_id) card_kind.

Definition can_card_delete (card_kind self_id : str) : bool := can_card_modify card_kind self_id.

Definition can_subscribe (p : Permissions) (ev_glob : str) : bool :=
  existsb (λ g, bool_decide (g = lit "*") || bool_decide (g = ev_glob)) (pm_events_subscribe p).

Definition kv_quota_bytes (p : Permissions) : N :=
  if (pm_kv_quota_bytes p =? 0)%N then DEFAULT_KV_QUOTA_BYTES else pm_kv_quota_bytes p.

Definition ui_can_call_tool (p : UiPermissions) (tool : str) : bool := existsb (λ g, glob_matches g tool) (ui_tools p).

Definition can_call_tool (m : Manifest) (tool : str) : bool :=
  existsb (λ p, ui_can_call_tool p tool) (omap vw_permissions (mf_views m)).

(** ** Approvals *)

(** One claimant of a minted name: how many there are, and whether all delegate. *)
Definition claim_name (minted : gmap str (nat * bool)) (name : str) (delegated : bool) : gmap str (nat * bool) :=
  let '(claimants, all) := default (0, true) (minted !! name) in
  <[name := (S claimants, all && delegated)]> minted.

Definition tool_claims (enabled : list Manifest) : list (str * bool) :=
  enabled ≫= λ m, (λ t, (registry_name (mf_id m) (et_name t), declares_approval t)) <$> mf_exposes_tools m.

Definition claims_of (enabled : list Manifest) (claimed : gset str) : gmap str (nat * bool) :=
  foldl (λ minted c, claim_name minted c.1 c.2) (gset_to_gmap (1, false) claimed) (tool_claims enabled).

Definition delegated_tool_names (enabled : list Manifest) (claimed : gset str) : gset str :=
  dom (filter (λ c, c.2 = (1, true)) (claims_of enabled claimed)).

(** ** Template input *)

Inductive TemplateInputOwner := NoTemplateId | NoBoundPlugin | Owner_Plugin (m : Manifest).

Definition validate_template_input_binding (to_string : Json → str) (owner : TemplateInputOwner)
    (input : option Json) : result unit InstanceViolation :=
  match owner with
  | NoTemplateId => match input with Some _ => Err (Whole [] Needs_template_id) | None => Ok tt end
  | NoBoundPlugin => match input with Some _ => Err (Whole [] Needs_bound_plugin) | None => Ok tt end
  | Owner_Plugin m =>
      match mf_input_schema m, input with
      | None, None => Ok tt
      | None, Some _ => Err (Whole [] (No_input_schema (mf_id m)))
      | Some schema, None =>
          if is_empty (required_keys schema) then Ok tt
          else Err (Whole [] (Input_required (mf_id m) (required_keys schema)))
      | Some schema, Some input => validate_template_input to_string schema input
      end
  end.

(** ** The argument vector of a query tool *)

Inductive ConfigError := Contains_nul (key : str) | No_single_value (key type_name : str).

(** [config_scalar] and [flatten_config]; [show_number] is how a JSON number prints. *)
Definition config_scalar (show_number : Json → str) (key : str) (v : Json) : result (option str) ConfigError :=
  match v with
  | JNull => Ok None
  | JString s => if contains_char (λ c, c =? 0)%N s then Err (Contains_nul key) else Ok (Some s)
  | JInt _ | JFloat _ => Ok (Some (show_number v))
  | JBool b => Ok (Some (show_bool b))
  | other => Err (No_single_value key (json_value_type_name other))
  end.

Fixpoint flatten_config (show_number : Json → str) (effective : Fields) : result (gmap str str) ConfigError :=
  match effective with
  | [] => Ok ∅
  | (key, value) :: rest =>
      let? scalar := config_scalar show_number key value in
      let? out := flatten_config show_number rest in
      Ok match scalar with Some s => <[key := s]> out | None => out end
  end.

(** The first argument slot of a block that the configuration leaves empty. *)
Definition refuse_unfillable_argv_config_slots (b : CliQueryBlock) (config : gmap str str)
  : result unit (str * str) :=
  match find (λ '(_, raw),
          match argv_slot raw with Some (Slot_Config key) => bool_decide (config !! key = None) | _ => false end)
        (cq_tools b ≫= λ t, (λ raw, (ct_name t, raw)) <$> ct_args t) with
  | Some refused => Err refused
  | None => Ok tt
  end.

Inductive RenderError :=
| Arguments_not_object (tool type_name : str)
| Config_slot_empty (tool key : str)
| Argument_missing (tool slot : str)
| Argument_not_scalar (tool slot type_name : str).

Section argv.
Context (show_number : Json → str).

Definition render_arg (t : CliQueryTool) (obj : option Fields) (config : gmap str str) (raw : str)
  : result str RenderError :=
  match argv_slot raw with
  | None => Ok raw
  | Some (Slot_Config key) =>
      match config !! key with Some value => Ok value | None => Err (Config_slot_empty (ct_name t) key) end
  | Some (Slot_Argument slot) =>
      match obj ≫= assoc slot with
      | Some (JString s) => Ok s
      | Some ((JInt _ | JFloat _) as n) => Ok (show_number n)
      | Some (JBool b) => Ok (show_bool b)
      | None | Some JNull => Err (Argument_missing (ct_name t) slot)
      | Some other => Err (Argument_not_scalar (ct_name t) slot (json_value_type_name other))
      end
  end.

Fixpoint render_args (t : CliQueryTool) (obj : option Fields) (config : gmap str str) (args : list str)
  : result (list str) RenderError :=
  match args with
  | [] => Ok []
  | raw :: rest =>
      let? rendered := render_arg t obj config raw in
      let? argv := render_args t obj config rest in
      Ok (rendered :: argv)
  end.

Definition render_argv (t : CliQueryTool) (arguments : Json) (config : gmap str str) : result (list str) RenderError :=
  match arguments with
  | JObject m => render_args t (Some m) config (ct_args t)
  | JNull => render_args t None config (ct_args t)
  | other => Err (Arguments_not_object (ct_name t) (json_value_type_name other))
  end.
End argv.

(** ** Approvals are granted by name, once *)

Definition claims_on (name : str) (claims : list (str * bool)) : list (str * bool) :=
  filter (λ c, c.1 = name) claims.

Lemma claims_of_lookup minted claims name :
  foldl (λ minted c, claim_name minted c.1 c.2) minted claims !! name
  = match claims_on name claims with
    | [] => minted !! name
    | cs => let '(n, all) := default (0, true) (minted !! name) in
            Some (n + length cs, all && forallb snd cs)
    end.
Proof.
  revert minted; induction claims as [|[name' d] claims IH]; intros minted; [done|]. cbn [foldl].
  rewrite IH. unfold claims_on. rewrite filter_cons. simpl. unfold claim_name.
  destruct (decide (name' = name)) as [->|Hne].
  - destruct (default (0, true) (minted !! name)) as [n all] eqn:Hd. rewrite lookup_insert_eq. simpl.
    destruct (filter _ claims) as [|c cs]; simpl; f_equal; f_equal; try lia; by destruct all, d.
  - destruct (default _ (minted !! name')) as [n all]. by rewrite lookup_insert_ne.
Qed.

(** Enabling plugins grants an approval under a minted name exactly when one enabled
    tool mints that name, that tool asked for the grant, and no other source serves the
    name: a grant never covers a tool that did not ask for it. *)
Theorem delegation_exact enabled claimed name :
  name ∈ delegated_tool_names enabled claimed
  ↔ (name ∉ claimed) ∧ claims_on name (tool_claims enabled) = [(name, true)].
Proof.
  unfold delegated_tool_names, claims_of. rewrite elem_of_dom. unfold is_Some.
  setoid_rewrite map_lookup_filter_Some. setoid_rewrite claims_of_lookup.
  rewrite lookup_gset_to_gmap. 
  assert (∀ c, c ∈ claims_on name (tool_claims enabled) → c.1 = name) as Hname
    by (intros c [? _]%list_elem_of_filter; done).
  destruct (claims_on name (tool_claims enabled)) as [|[n d] cs].
  { split; [|naive_solver]. intros (v & Hv & Hone). simpl in Hone. subst v.
    case_guard; simplify_eq/=. }
  assert (n = name) as -> by (apply (Hname (n, d)); left).
  destruct (decide (name ∈ claimed)) as [Hin|Hin].
  - rewrite option_guard_True by done. simpl. naive_solver.
  - rewrite option_guard_False by done. simpl. split.
    + intros (v & [= <-] & Hone). simpl in Hone. injection Hone as Hlen Hall. destruct cs; [|done].
      split; [done|]. by destruct d.
    + intros [_ [= -> ->]]. by exists (1, true).
Qed.

(** ** The origin of a connector with a credential *)

Section origins.
Context `{Crate : UrlCrate} (show_number : Json → str).

Definition same_origin (u v : Url) : Prop :=
  url_scheme u = url_scheme v ∧ url_host_str u = url_host_str v
  ∧ url_port_or_known_default u = url_port_or_known_default v.

Lemma validated_url raw :
  validate_mcp_http_url raw = Ok tt →
  ∃ u, url_parse raw = Some u ∧ url_as_str u = raw ∧ (url_scheme u = lit "http" ∨ url_scheme u = lit "https")
    ∧ url_username u = [] ∧ url_password u = None ∧ url_fragment u = None.
Proof using.
  unfold validate_mcp_http_url. destruct (match split_once _ raw with Some _ => _ | None => _ end); simpl; [|done].
  destruct (find bad_url_char raw); [done|]. destruct (url_parse raw) as [u|]; [|done].
  destruct (bool_decide (url_scheme u = lit "http") || _) eqn:Hs; simpl; [|done].
  destruct (bool_decide (url_as_str u = raw)) eqn:Hc; simpl; [apply bool_decide_eq_true in Hc|done].
  destruct (match url_host_str u with None => _ | Some _ => _ end); [done|].
  destruct (url_fragment u) eqn:Hf; [done|].
  destruct (url_username u) eqn:Hu; simpl; [|done]. destruct (url_password u) eqn:Hp; [done|]. intros _.
  exists u. split_and!; try done. apply orb_true_iff in Hs as [?%bool_decide_eq_true|?%bool_decide_eq_true]; auto.
Qed.

Lemma lock_origin_ok raw rendered :
  lock_origin raw rendered = Ok tt →
  ∃ literal got, probe_literal_url raw = Ok literal ∧ probe_in_origin literal = false
    ∧ url_parse rendered = Some got ∧ same_origin got literal.
Proof using.
  unfold lock_origin, same_origin. destruct (probe_literal_url raw) as [literal|]; [|done].
  destruct (probe_in_origin literal) eqn:Hp; [done|]. destruct (url_parse rendered) as [got|]; [|done].
  repeat case_bool_decide; simpl; try done. intros _. by exists literal, got.
Qed.

(** C20: Configuration cannot redirect a credential. For a connector that holds one, any
    two configurations that resolve to an address resolve to the same scheme, host and
    port, those of the manifest's own address with its slots blanked, none of which lies
    in a slot; and every resolved address is the very string the parser reads, over
    http or https, without userinfo or fragment. *)
Theorem origin_locked b effective effective' address address' :
  holds_credential b = true →
  resolve_mcp_http_url show_number b effective = Ok address →
  resolve_mcp_http_url show_number b effective' = Ok address' →
  ∃ literal u u', probe_literal_url (trim (mh_url b)) = Ok literal ∧ probe_in_origin literal = false
    ∧ url_parse address = Some u ∧ url_parse address' = Some u'
    ∧ same_origin u literal ∧ same_origin u u'
    ∧ url_as_str u = address ∧ (url_scheme u = lit "http" ∨ url_scheme u = lit "https")
    ∧ url_username u = [] ∧ url_password u = None ∧ url_fragment u = None.
Proof using.
  assert (∀ e a, holds_credential b = true → resolve_mcp_http_url show_number b e = Ok a →
    validate_mcp_http_url a = Ok tt ∧ lock_origin (trim (mh_url b)) a = Ok tt) as H.
  { intros e a Hc. unfold resolve_mcp_http_url. rewrite Hc.
    destruct (render_url_slots _ _) as [r|]; simpl; [|done].
    destruct (validate_mcp_http_url r) as [[]|] eqn:Hv; simpl; [|done].
    destruct (lock_origin _ r) as [[]|] eqn:Hl; simpl; [|done]. by intros [= <-]. }
  intros Hc H1 H2. destruct (H _ _ Hc H1) as [Hv Hl], (H _ _ Hc H2) as [_ Hl'].
  apply lock_origin_ok in Hl as (literal & u & Hlit & Hp & Hu & Ho).
  apply lock_origin_ok in Hl' as (literal' & u' & Hlit' & _ & Hu' & Ho').
  apply validated_url in Hv as (v & Hv & ? & ? & ? & ? & ?). simplify_eq.
  exists literal', v, u'. destruct Ho as (? & ? & ?), Ho' as (? & ? & ?).
  split_and!; try done; repeat split; congruence.
Qed.
End origins.

(** ** What a validated manifest is *)










Section shapes.
Context `{Crate : UrlCrate} (semver : str → bool) (to_string : Json → str) (show_value_error : ValueError → str).

End shapes.

(** ** Query tools *)

Lemma each_ok {A} (check : nat → A → result unit ManifestError) i xs :
  each check i xs = Ok tt ↔ ∀ n x, xs !! n = Some x → check (i + n) x = Ok tt.
Proof.
  revert i; induction xs as [|x xs IH]; intros i; simpl; [split; [by intros _ n y H|done]|]. split.
  - destruct (check i x) as [[]|] eqn:Hc; simpl; [|done]. intros H [|n] y Hn; simpl in Hn.
    + simplify_eq. by rewrite Nat.add_0_r.
    + rewrite <- Nat.add_succ_comm. by apply (proj1 (IH (S i)) H).
  - intros H. rewrite <- (Nat.add_0_r i), (H 0 x eq_refl). simpl. apply IH. intros n y Hn.
    rewrite Nat.add_0_r, Nat.add_succ_comm. by apply H.
Qed.

Lemma each_elem {A} (check : nat → A → result unit ManifestError) i xs x :
  each check i xs = Ok tt → x ∈ xs → ∃ n, check n x = Ok tt.
Proof. rewrite each_ok. intros H [n Hn]%list_elem_of_lookup. eauto. Qed.

Lemma claim_env_ok source i keys seen seen' :
  claim_env source i keys seen = Ok seen' →
  NoDup keys ∧ (∀ k, k ∈ keys → seen !! k = None) ∧ (∀ k, is_Some (seen' !! k) ↔ k ∈ keys ∨ is_Some (seen !! k)).
Proof.
  revert i seen; induction keys as [|key keys IH]; intros i seen; simpl.
  { intros [= <-]. split_and!; [constructor|by intros ? ?%elem_of_nil|]. intros k. rewrite elem_of_nil. tauto. }
  destruct (seen !! key) eqn:Hk; [done|]. intros (H1 & H2 & H3)%IH. split_and!.
  - constructor; [|done]. intros Hin. specialize (H2 _ Hin). by rewrite lookup_insert_eq in H2.
  - intros k [->|Hin]%elem_of_cons; [done|]. specialize (H2 _ Hin). by apply lookup_insert_None in H2 as [? _].
  - intros k. rewrite H3, elem_of_cons. destruct (decide (key = k)) as [->|].
    + rewrite lookup_insert_eq. naive_solver.
    + rewrite lookup_insert_ne by done. naive_solver.
Qed.

(** The keys of the child's environment by their source. *)
Definition env_keys (b : CliQueryBlock) : list str := cq_env_allow b ++ cq_secret_env b ++ cq_config_env b.

Lemma cli_block_ok config_schema b : cli_block_validate config_schema b = Ok tt →
  NoDup (env_keys b)
  ∧ (∀ key, key ∈ cq_env_allow b → key ∉ FORGE_CREDENTIAL_ENV_KEYS)
  ∧ (∀ key, key ∈ cq_config_env b → config_schema_declares config_schema key = true)
  ∧ ∀ t, t ∈ cq_tools b → ∃ n, cli_tool_validate config_schema n t = Ok tt.
Proof.
  unfold cli_block_validate, env_keys. destruct (is_blank _); [done|]. destruct (is_empty _); [done|].
  destruct (each _ 0 (cq_env_allow b)) as [[]|] eqn:H1; simpl; [|done].
  destruct (each _ 0 (cq_config_env b)) as [[]|] eqn:H2; simpl; [|done].
  destruct (claim_env _ 0 (cq_env_allow b) ∅) as [s1|] eqn:H3; simpl; [|done].
  destruct (claim_env _ 0 (cq_secret_env b) s1) as [s2|] eqn:H4; simpl; [|done].
  destruct (claim_env _ 0 (cq_config_env b) s2) as [s3|] eqn:H5; simpl; [|done]. intros H6.
  apply claim_env_ok in H3 as (N1 & _ & D1), H4 as (N2 & A2 & D2), H5 as (N3 & A3 & D3). split_and!.
  - rewrite !NoDup_app. split_and!; [done| |done| |done].
    + intros k Hk [Hin|Hin]%elem_of_app.
      * specialize (A2 _ Hin). assert (is_Some (s1 !! k)) as [? ?] by (apply D1; auto). congruence.
      * specialize (A3 _ Hin). assert (is_Some (s2 !! k)) as [? ?] by (apply D2; right; apply D1; auto). congruence.
    + intros k Hk Hin. specialize (A3 _ Hin). assert (is_Some (s2 !! k)) as [? ?] by (apply D2; auto). congruence.
  - intros key Hin. destruct (each_elem _ _ _ _ H1 Hin) as [n Hn]. by case_bool_decide.
  - intros key Hin. destruct (each_elem _ _ _ _ H2 Hin) as [n Hn]. destruct (negb (is_valid_env_key key)); [done|].
    by destruct (config_schema_declares config_schema key).
  - intros t Hin. by eapply each_elem.
Qed.

(** Where one element of a rendered argument vector comes from. *)
Definition rendered_from (show_number : Json → str) (t : CliQueryTool) (config_schema : option Json)
    (arguments : Json) (config : gmap str str) (raw value : str) : Prop :=
  match argv_slot raw with
  | None => value = raw ∧ contains OPEN raw = false ∧ contains CLOSE raw = false
  | Some (Slot_Config key) => config !! key = Some value ∧ config_schema_declares config_schema key = true
  | Some (Slot_Argument name) =>
      starts_with CONFIG_SLOT_PREFIX name = false
      ∧ ∃ fields v, arguments = JObject fields ∧ assoc name fields = Some v
          ∧ match v with
            | JString s => value = s
            | JInt _ | JFloat _ => value = show_number v
            | JBool b => value = show_bool b
            | _ => False
            end
  end.

Lemma argv_slot_argument raw name : argv_slot raw = Some (Slot_Argument name) → starts_with CONFIG_SLOT_PREFIX name = false.
Proof.
  unfold argv_slot. destruct (strip_prefix OPEN raw ≫= strip_suffix CLOSE) as [[|c inner]|]; [done| |done].
  destruct (strip_prefix CONFIG_SLOT_PREFIX (c :: inner)) eqn:H; [done|]. intros [= <-].
  unfold starts_with. rewrite H. by apply bool_decide_eq_false, eq_None_not_Some.
Qed.

Lemma render_arg_from show_number t config_schema idx i arguments config raw value :
  validate_arg (json_get (ct_input_schema t) (lit "properties") ≫= as_object) config_schema idx i raw = Ok tt →
  render_arg show_number t (as_object arguments) config raw = Ok value →
  rendered_from show_number t config_schema arguments config raw value.
Proof.
  unfold validate_arg, render_arg, rendered_from. destruct (argv_slot raw) as [[name|key]|] eqn:Hs.
  - intros _. destruct arguments as [| | | | | |fields]; simpl; try done.
    destruct (assoc name fields) as [[]|] eqn:Ha; try done; intros [= <-];
      (split; [by eapply argv_slot_argument|]); eexists _, _; by rewrite Ha.
  - destruct (is_empty key); [done|]. destruct (config_schema_declares config_schema key) eqn:Hd; simpl; [|done].
    intros _. destruct (config !! key); [|done]. by intros [= <-].
  - destruct (contains OPEN raw || contains CLOSE raw) eqn:Hc; [done|]. apply orb_false_iff in Hc as [-> ->].
    intros _. by intros [= <-].
Qed.

Lemma render_args_ok show_number t obj config args argv :
  render_args show_number t obj config args = Ok argv →
  Forall2 (λ raw value, render_arg show_number t obj config raw = Ok value) args argv.
Proof.
  revert argv; induction args as [|raw args IH]; intros argv; simpl; [intros [= <-]; constructor|].
  destruct (render_arg _ _ _ _ raw) eqn:Hr; simpl; [|done].
  destruct (render_args _ _ _ _ args); simpl; [|done]. intros [= <-]. by constructor; auto.
Qed.

(** The command line of a validated query tool. Each argument is its template's: a
    literal is passed as it is, a configuration slot is filled from the operator's
    configuration under a declared key whatever the agent sends, and an agent's
    argument fills only a slot of its own name, which is never in the configuration's
    name space; nothing is split, joined or dropped. *)
Theorem argv_from_template show_number config_schema idx t arguments config argv :
  cli_tool_validate config_schema idx t = Ok tt → render_argv show_number t arguments config = Ok argv →
  Forall2 (rendered_from show_number t config_schema arguments config) (ct_args t) argv.
Proof.
  unfold cli_tool_validate. destruct (validate_connector_tool_name _ _); simpl; [|done].
  destruct (match find_index _ _ _ with Some _ => _ | None => _ end); simpl; [|done]. intros Hv Hr.
  assert (render_args show_number t (as_object arguments) config (ct_args t) = Ok argv) as H
    by (revert Hr; by destruct arguments).
  apply render_args_ok in H. rewrite Forall2_same_length_lookup in H |- *. destruct H as [Hlen H]. split; [done|].
  intros n raw value Hraw Hvalue. eapply render_arg_from; [|by eapply H].
  by apply (proj1 (each_ok _ _ _) Hv n).
Qed.

(** A query connector that comes up can fill its configuration slots: once bring-up
    has accepted the flattened configuration, no call of any of its tools fails for a
    configuration value. *)
Theorem bringup_fills_argv show_number b config t arguments key :
  refuse_unfillable_argv_config_slots b config = Ok tt → t ∈ cq_tools b →
  render_argv show_number t arguments config ≠ Err (Config_slot_empty (ct_name t) key).
Proof.
  unfold refuse_unfillable_argv_config_slots. destruct (find _ _) eqn:Hf; [done|]. intros _ Ht.
  apply find_None_Forall in Hf. rewrite Forall_forall in Hf.
  assert (∀ obj args, (∀ raw, raw ∈ args → raw ∈ ct_args t) →
    render_args show_number t obj config args ≠ Err (Config_slot_empty (ct_name t) key)) as H.
  { intros obj args. induction args as [|raw args IH]; intros Hsub; simpl; [done|].
    assert (render_arg show_number t obj config raw ≠ Err (Config_slot_empty (ct_name t) key)) as Hraw.
    { assert ((ct_name t, raw) ∈ cq_tools b ≫= (λ t, (λ raw, (ct_name t, raw)) <$> ct_args t)) as Hin.
      { apply list_elem_of_bind. exists t. split; [|done]. apply list_elem_of_fmap_2, Hsub. left. }
      specialize (Hf _ Hin). simpl in Hf. unfold render_arg.
      destruct (argv_slot raw) as [[name|k]|]; [|destruct (config !! k) eqn:Hk; [done|]|done].
      - by destruct (obj ≫= assoc name) as [[]|].
      - by rewrite bool_decide_eq_true_2 in Hf. }
    destruct (render_arg _ _ _ _ raw); simpl; [|congruence].
    assert (render_args show_number t obj config args ≠ Err (Config_slot_empty (ct_name t) key)) as Hargs by (apply IH; intros; apply Hsub; by right).
    destruct (render_args _ _ _ _ args); simpl; [done|congruence]. }
  unfold render_argv. destruct arguments; try done; by apply H.
Qed.
