(* ===== verification/PluginSample.v ===== *)
(** * Sample manifests

    A remote connector with a key and a configurable path, a query connector with two
    slots, and the schemas they declare: the theorems on plugins at concrete inputs. The
    address parser of the sample reads [scheme://host/rest] and nothing finer. *)

From stdpp Require Import prelude gmap strings.
From S2P Require Import Prelude Float64 Identity Text PluginSchema PluginUrl PluginManifest PluginRuntime.

Local Open Scope calm_scope.

Module PluginSample.

(** Schemes and hosts of the sample are plain; there is no userinfo, port or fragment. *)
Definition sample_parse (raw : str) : option Url :=
  match split_once (lit "://") raw with
  | Some (scheme, rest) =>
      Some (mkUrl raw scheme (Some (authority rest)) (Some 443%N) None [] None)
  | None => None
  end.

#[local] Instance SampleUrl : UrlCrate := {| url_parse := sample_parse |}.

Definition show_number (n : Json) : str :=
  match n with JInt z => show_N (Z.to_N z) | _ => [] end.

(** A serializer that keeps every sample under the byte caps. *)
Definition to_string (_ : Json) : str := lit "{}".
Definition show_value_error (_ : ValueError) : str := lit "refused".

Definition property (ty : string) (more : Fields) : Json := JObject (more ++ [(lit "type", JString (lit ty))]).

Definition config_schema : Json := JObject
  [(lit "additionalProperties", JBool false);
   (lit "properties",
    JObject [(lit "limit", property "integer" [(lit "default", JInt 20)]);
             (lit "region", property "string" [(lit "enum", JArray [JString (lit "eu"); JString (lit "us")])])]);
   (lit "required", JArray [JString (lit "region")]);
   (lit "type", JString (lit "object"))].

Definition operator_values : Json := JObject [(lit "region", JString (lit "eu"))].

Definition remote : McpHttpBlock :=
  mkMcpHttpBlock (lit "https://api.example/{{config.region}}/mcp") (Some (lit "key")) (Some (lit "bearer")) [] true []
    None None.


Definition search_tool : CliQueryTool :=
  mkCliQueryTool (lit "search") None (JObject [(lit "properties", JObject [(lit "query", property "string" [])])])
    [lit "find"; lit "{{query}}"; lit "{{config.region}}"].

Definition query_block : CliQueryBlock := mkCliQueryBlock (lit "finder") [] [] [] [] None None [search_tool].

Definition operator_config : gmap str str := {[ lit "region" := lit "eu" ]}.
Definition call_arguments : Json := JObject [(lit "query", JString (lit "-rf /"))].

Lemma user_values_ok : user_ok config_schema operator_values.
Proof.
  intros fields key value [= <-]. simpl. case_bool_decide; [|done]. intros [= <-] _. subst key.
  intros p [= <-]. vm_compute. reflexivity.
Qed.

(** An operator's value meets the schema, a value outside the enumeration does not. *)
Lemma instance_valid_iff_witness :
  validate_object_schema to_string show_value_error CONFIG_SCHEMA_KEY config_schema = Ok tt
  ∧ (validate_instance to_string CONFIG_SCHEMA_KEY config_schema operator_values = Ok tt ↔
     ∃ object, operator_values = JObject object ∧ over_cap to_string operator_values = false
       ∧ conforms config_schema object).
Proof.
  split; [vm_compute; reflexivity|]. apply (instance_valid_iff to_string show_value_error CONFIG_SCHEMA_KEY). vm_compute. reflexivity.
Defined.

(** The effective configuration of the sample. *)
Lemma effective_config_valid_witness :
  let effective := effective_config_from_schema (Some config_schema) operator_values in
  effective = [(lit "limit", JInt 20); (lit "region", JString (lit "eu"))]
  ∧ (validate_instance to_string CONFIG_SCHEMA_KEY config_schema (JObject effective) = Ok tt
     ↔ missing_required (Some config_schema) effective = [] ∧ over_cap to_string (JObject effective) = false).
Proof.
  split; [vm_compute; reflexivity|].
  eapply (effective_config_valid to_string show_value_error CONFIG_SCHEMA_KEY);
    [vm_compute; reflexivity| |exact user_values_ok].
  apply (bool_decide_unpack _). vm_compute. exact I.
Defined.

(** Two regions, one origin. *)
Lemma origin_locked_witness :
  ∃ literal u u', probe_literal_url (trim (mh_url remote)) = Ok literal ∧ probe_in_origin literal = false
    ∧ url_parse (lit "https://api.example/eu/mcp") = Some u ∧ url_parse (lit "https://api.example/us/mcp") = Some u'
    ∧ same_origin u literal ∧ same_origin u u'.
Proof.
  destruct (origin_locked show_number remote
    [(lit "region", JString (lit "eu"))] [(lit "region", JString (lit "us"))]
    (lit "https://api.example/eu/mcp") (lit "https://api.example/us/mcp"))
    as (literal & u & u' & H1 & H2 & H3 & H4 & H5 & H6 & _); try (vm_compute; reflexivity).
  exists literal, u, u'. auto 10.
Defined.


(** An argument that looks like options stays one element of the command line. *)
Lemma argv_from_template_witness :
  render_argv show_number search_tool call_arguments operator_config = Ok [lit "find"; lit "-rf /"; lit "eu"]
  ∧ Forall2 (rendered_from show_number search_tool (Some config_schema) call_arguments operator_config)
      (ct_args search_tool) [lit "find"; lit "-rf /"; lit "eu"].
Proof.
  split; [vm_compute; reflexivity|].
  apply (argv_from_template show_number (Some config_schema) 0); vm_compute; reflexivity.
Defined.

(** The query connector's bring-up. *)
Lemma bringup_fills_argv_witness :
  refuse_unfillable_argv_config_slots query_block operator_config = Ok tt
  ∧ render_argv show_number search_tool JNull operator_config
      ≠ Err (Config_slot_empty (ct_name search_tool) (lit "region")).
Proof.
  split; [vm_compute; reflexivity|]. apply (bringup_fills_argv show_number query_block); [vm_compute; reflexivity|].
  left.
Defined.

(** Without the lock the same template, slot in the host, would carry the key to any
    host the configuration names; with it, bring-up refuses. *)
Example slot_in_host_refused :
  resolve_mcp_http_url show_number
    (mkMcpHttpBlock (lit "https://{{config.region}}/mcp") (Some (lit "key")) (Some (lit "bearer")) [] true [] None None)
    [(lit "region", JString (lit "evil.example"))] = Err Slot_in_origin.
Proof. vm_compute. reflexivity. Qed.
End PluginSample.
