(* ===== verification/PluginResults.v ===== *)
(** * The ring of plugin results

    Models [crates/plugin/src/results.rs]: what a completed tool call is recorded as, and
    the in-memory ring a source capture reads it back from. The ring keeps its entries by
    track and call, a second index in least-recently-used order, and a byte count; the
    clock is an argument of each operation. The serializer and SHA-256 are parameters.
    Sequence numbers are [N]: they count operations ([ring_bounded] bounds them by the
    length of the history), so the [u64] of the source does not overflow. *)

From coqutil Require Import Datatypes.RecordSettersUsingExistingGetters.
From stdpp Require Import prelude gmap strings.
From S2P Require Import Prelude Float64 Identity Text PluginSchema PluginManifest.

Local Open Scope calm_scope.

Definition MAX_ENTRIES_PER_TRACK : nat := 64.
Definition MAX_TOTAL_BYTES : N := 134217728.
Definition TTL_MS : Z := 7200000.
Definition MAX_TEXT_BYTES : N := 1048576.
Definition MAX_ARGS_BYTES : N := 65536.

(** ** What a call produced *)

Record ContentBlock := mkContentBlock { cb_kind : str; cb_text : option str; cb_extra : Fields }.

Record CallToolResult := mkCallToolResult {
  cr_content : list ContentBlock;
  cr_is_error : option bool;
  cr_meta : option Json;
  cr_structured_content : option Json;
}.

Inductive ResultStatus := Status_Ok (text : str) | Status_Error | Status_NoText | Status_TooLarge.

Definition status_name (s : ResultStatus) : str :=
  match s with
  | Status_Ok _ => lit "ok"
  | Status_Error => lit "error"
  | Status_NoText => lit "no_text"
  | Status_TooLarge => lit "too_large"
  end.

Record Recorded := mkRecorded {
  rc_plugin_id : str;
  rc_tool_name : str;
  rc_args_sha256 : str;
  rc_status : ResultStatus;
  rc_args_canonical : option str;
  rc_completed_at : Z;
}.

Definition recorded_registry_name (r : Recorded) : str := registry_name (rc_plugin_id r) (rc_tool_name r).

(** The loop of [classify] over the blocks, with the text joined so far. *)
Fixpoint classify_blocks (text : str) (blocks : nat) (content : list ContentBlock) : ResultStatus :=
  match content with
  | [] => if blocks =? 0 then Status_NoText else Status_Ok text
  | block :: rest =>
      if negb (bool_decide (cb_kind block = lit "text")) then classify_blocks text blocks rest
      else
        match cb_text block with
        | None => classify_blocks text blocks rest
        | Some part =>
            let separator := if 0 <? blocks then 1%N else 0%N in
            if (MAX_TEXT_BYTES <? utf8_len text + separator + utf8_len part)%N then Status_TooLarge
            else
              classify_blocks (text ++ (if (separator =? 1)%N then [10%N] else []) ++ part) (S blocks) rest
        end
  end.

Definition classify (r : CallToolResult) : ResultStatus :=
  if bool_decide (cr_is_error r = Some true) then Status_Error else classify_blocks [] 0 (cr_content r).

(** ** The ring *)

Record Key := mkKey { k_plugin_id : str; k_tool_name : str; k_args_sha256 : str }.

#[export] Instance Key_eq_dec : EqDecision Key.
Proof. solve_decision. Defined.

#[export] Program Instance Key_countable : Countable Key :=
  inj_countable' (λ k, (k_plugin_id k, k_tool_name k, k_args_sha256 k)) (λ '(p, t, a), mkKey p t a) _.
Next Obligation. by intros []. Qed.

Record Entry := mkEntry {
  e_status : ResultStatus;
  e_args_canonical : option str;
  e_completed_at : Z;
  e_completed_seq : N;
  e_lru_seq : N;
  e_bytes : N;
}.

Definition entry_snapshot (e : Entry) (k : Key) : Recorded :=
  mkRecorded (k_plugin_id k) (k_tool_name k) (k_args_sha256 k) (e_status e) (e_args_canonical e) (e_completed_at e).

Record Ring := mkRing {
  ri_tracks : gmap str (gmap Key Entry);
  ri_order : gmap N (str * Key);
  ri_next_lru_seq : N;
  ri_next_completed_seq : N;
  ri_total_bytes : N;
}.

Definition empty_ring : Ring := mkRing ∅ ∅ 0 0 0.

(** [tracks.get(track_id).and_then(|entries| entries.get(key))]. *)
Definition ring_find (r : Ring) (t : str) (k : Key) : option Entry := ri_tracks r !! t ≫= (.!! k).

(** [tracks.get(track_id).map_or(0, HashMap::len)]. *)
Definition track_len (r : Ring) (t : str) : nat :=
  match ri_tracks r !! t with Some entries => size entries | None => 0 end.

Definition ring_remove (r : Ring) (t : str) (k : Key) : Ring * option Entry :=
  match ri_tracks r !! t with
  | None => (r, None)
  | Some entries =>
      match entries !! k with
      | None => (r, None)
      | Some e =>
          let left := delete k entries in
          ({ r with ri_tracks ::= λ tracks, if size left =? 0 then delete t tracks else <[t := left]> tracks;
                    ri_order ::= delete (e_lru_seq e);
                    ri_total_bytes ::= λ total, (total - e_bytes e)%N }, Some e)
      end
  end.

Definition ring_touch (r : Ring) (t : str) (k : Key) : Ring * option Recorded :=
  match ri_tracks r !! t with
  | None => (r, None)
  | Some entries =>
      match entries !! k with
      | None => (r, None)
      | Some e =>
          let lru_seq := ri_next_lru_seq r in
          ({ r with ri_tracks ::= <[t := <[k := { e with e_lru_seq := lru_seq }]> entries]>;
                    ri_order ::= λ order, <[lru_seq := (t, k)]> (delete (e_lru_seq e) order);
                    ri_next_lru_seq ::= N.succ }, Some (entry_snapshot e k))
      end
  end.

Definition expired (now : Z) (e : Entry) : bool := (TTL_MS <? now - e_completed_at e)%Z.

Definition evict_expired (now : Z) (r : Ring) : Ring :=
  let gone := filter (λ p, match ring_find r p.1 p.2 with Some e => expired now e | None => false end = true)
                (btree_values (ri_order r)) in
  foldl (λ r p, (ring_remove r p.1 p.2).1) r gone.

(** The eviction loops; each round takes one entry out of the order, so fuel beyond its
    size is never used up ([ring_bounded]). *)
Fixpoint evict_track_overflow (fuel : nat) (t : str) (r : Ring) : option Ring :=
  match fuel with
  | 0 => None
  | S fuel =>
      if track_len r t <=? MAX_ENTRIES_PER_TRACK then Some r
      else
        match find (λ p, bool_decide (p.1 = t)) (btree_values (ri_order r)) with
        | None => Some r
        | Some victim => evict_track_overflow fuel t (ring_remove r victim.1 victim.2).1
        end
  end.

Fixpoint evict_global_overflow (fuel : nat) (r : Ring) : option Ring :=
  match fuel with
  | 0 => None
  | S fuel =>
      if (ri_total_bytes r <=? MAX_TOTAL_BYTES)%N then Some r
      else
        match find (λ _, true) (btree_values (ri_order r)) with
        | None => Some r
        | Some victim => evict_global_overflow fuel (ring_remove r victim.1 victim.2).1
        end
  end.

Definition entry_bytes (status : ResultStatus) (args_canonical : option str) : N :=
  (match status with Status_Ok text => utf8_len text | _ => 0 end
   + match args_canonical with Some args => utf8_len args | None => 0 end)%N.

(** The new entry enters both indexes and the byte count. *)
Definition ring_push (r : Ring) (t : str) (k : Key) (e : Entry) : Ring :=
  { r with ri_next_lru_seq ::= N.succ; ri_next_completed_seq ::= N.succ;
           ri_order ::= <[e_lru_seq e := (t, k)]>;
           ri_total_bytes ::= λ total, (total + e_bytes e)%N;
           ri_tracks ::= λ tracks, <[t := <[k := e]> (default ∅ (tracks !! t))]> tracks }.

Section ring.
(** [serde_json::to_string], which may fail, and the hexadecimal SHA-256 of a text. *)
Context (to_string : Json → option str) (sha256_hex : str → str).

Definition canonical_args (args : Json) : str := default (lit "null") (to_string args).

Definition args_sha256 (args : Json) : str := sha256_hex (canonical_args args).

Definition ring_insert (now : Z) (r : Ring) (t plugin_id tool_name : str) (args : Json)
    (status_of : str → ResultStatus) : option Ring :=
  let canonical := canonical_args args in
  let '(status, args_canonical) :=
    if (MAX_ARGS_BYTES <? utf8_len canonical)%N then (Status_TooLarge, None)
    else (status_of canonical, Some canonical) in
  let key := mkKey plugin_id tool_name (sha256_hex canonical) in
  let bytes := entry_bytes status args_canonical in
  let r := evict_expired now r in
  let r := (ring_remove r t key).1 in
  let r := ring_push r t key (mkEntry status args_canonical now (ri_next_completed_seq r) (ri_next_lru_seq r) bytes) in
  r ← evict_track_overflow (S (size (ri_order r))) t r;
  evict_global_overflow (S (size (ri_order r))) r.

Definition record (now : Z) (r : Ring) (t plugin_id tool_name : str) (args : Json) (result : CallToolResult)
  : option Ring :=
  ring_insert now r t plugin_id tool_name args (λ _, classify result).

Definition record_failure (now : Z) (r : Ring) (t plugin_id tool_name : str) (args : Json) : option Ring :=
  ring_insert now r t plugin_id tool_name args (λ _, Status_Error).
End ring.

Definition ring_get (now : Z) (r : Ring) (t plugin_id tool_name sha : str) : Ring * option Recorded :=
  ring_touch (evict_expired now r) t (mkKey plugin_id tool_name sha).

(** [max_by_key] on [(completed_at, completed_seq)]: the last of the greatest. *)
Definition completed_le (a b : Entry) : bool :=
  (e_completed_at a <? e_completed_at b)%Z
  || ((e_completed_at a =? e_completed_at b)%Z && (e_completed_seq a <=? e_completed_seq b)%N).

Definition max_completed (l : list (Key * Entry)) : option (Key * Entry) :=
  foldl (λ best p, match best with
                   | None => Some p
                   | Some b => if completed_le b.2 p.2 then Some p else best
                   end) None l.

Definition latest (now : Z) (r : Ring) (t plugin_id tool_name : str) : Ring * option Recorded :=
  let r := evict_expired now r in
  match ri_tracks r !! t with
  | None => (r, None)
  | Some entries =>
      match max_completed (filter (λ p, k_plugin_id p.1 = plugin_id ∧ k_tool_name p.1 = tool_name)
                             (map_to_list entries)) with
      | None => (r, None)
      | Some (key, _) => ring_touch r t key
      end
  end.

(** [sort] then [dedup] of pairs of strings. *)
Definition pair_leb (p q : str * str) : bool :=
  if bool_decide (p.1 = q.1) then str_leb p.2 q.2 else str_leb p.1 q.1.

Fixpoint insert_sorted (p : str * str) (l : list (str * str)) : list (str * str) :=
  match l with
  | [] => [p]
  | q :: rest => if pair_leb p q then p :: l else q :: insert_sorted p rest
  end.

Fixpoint dedup {A} `{EqDecision A} (l : list A) : list A :=
  match l with
  | a :: ((b :: _) as rest) => if bool_decide (a = b) then dedup rest else a :: dedup rest
  | _ => l
  end.

Definition recorded_tools (now : Z) (r : Ring) (t : str) : Ring * list (str * str) :=
  let r := evict_expired now r in
  (r, dedup (foldr insert_sorted []
        (match ri_tracks r !! t with
         | Some entries => (λ p, (k_plugin_id p.1, k_tool_name p.1)) <$> map_to_list entries
         | None => []
         end))).

Definition forget_track (r : Ring) (t : str) : Ring :=
  match ri_tracks r !! t with
  | None => r
  | Some entries =>
      foldl (λ r e, { r with ri_order ::= delete (e_lru_seq e);
                             ri_total_bytes ::= λ total, (total - e_bytes e)%N })
        { r with ri_tracks ::= delete t } (map_to_list entries).*2
  end.

Definition ring_len (now : Z) (r : Ring) (t : str) : Ring * nat :=
  let r := evict_expired now r in (r, track_len r t).
