(* ===== verification/RingRules.v ===== *)
(** * The result ring is bounded and answers with the last call

    Invariants of [PluginResults]: the two indexes of the ring agree, its byte count is
    exact, the caps hold after every operation and every operation returns; what the
    ring answers is what the last call of that key produced, within its time to live; and
    a call just recorded is answered. *)

From coqutil Require Import Datatypes.RecordSettersUsingExistingGetters.
From stdpp Require Import prelude gmap strings.
From S2P Require Import Prelude Float64 Identity Text PluginSchema PluginManifest PluginResults.

Local Open Scope calm_scope.

(** ** Byte sums *)

Definition sum_bytes (m : gmap N Entry) : N := map_fold (λ _ e acc, e_bytes e + acc)%N 0%N m.

Lemma sum_bytes_insert m i e : m !! i = None → sum_bytes (<[i := e]> m) = (e_bytes e + sum_bytes m)%N.
Proof. intros Hi. unfold sum_bytes. rewrite map_fold_insert_L; [done| |done]. intros. lia. Qed.

Lemma sum_bytes_delete m i e : m !! i = Some e → sum_bytes m = (e_bytes e + sum_bytes (delete i m))%N.
Proof. intros Hi. unfold sum_bytes. rewrite (map_fold_delete_L _ _ i e m); [done| |done]. intros. lia. Qed.

(** ** The first entry of an order *)

Lemma find_first {A} (P : A → bool) (m : gmap N A) v :
  find P (btree_values m) = Some v →
  ∃ i, m !! i = Some v ∧ P v = true ∧ ∀ j w, m !! j = Some w → P w = true → (i ≤ j)%N.
Proof.
  intros H. unfold btree_values in H.
  assert (∀ j w, m !! j = Some w ↔ (j, w) ∈ btree_iter m) as Hm by (intros; by rewrite elem_of_btree_iter).
  setoid_rewrite Hm. pose proof (btree_iter_sorted m) as Hs. clear Hm.
  induction (btree_iter m) as [|[i x] l IH]; simpl in H; [done|]. inversion Hs as [|?? Hs' Hall]; subst.
  destruct (P x) eqn:Hx.
  - injection H as ->. exists i. split_and!; [by left|done|].
    intros j w [[= -> ->]|Hin]%elem_of_cons Hw; [done|]. rewrite Forall_forall in Hall.
    apply (Hall (j, w) Hin).
  - destruct (IH H Hs') as (i' & Hi & Hv & Hmin). exists i'. split_and!; [by right|done|].
    intros j w [[= -> ->]|Hin]%elem_of_cons Hw; [congruence|]. eauto.
Qed.

Lemma find_none {A} (P : A → bool) (m : gmap N A) :
  find P (btree_values m) = None → ∀ j w, m !! j = Some w → P w = false.
Proof.
  intros H j w Hj. apply find_None_Forall in H. rewrite Forall_forall in H. apply H.
  apply elem_of_btree_values. eauto.
Qed.

(** ** The invariant *)

(** The entries in least-recently-used order. *)
Definition live (r : Ring) : gmap N Entry := omap (λ p, ring_find r p.1 p.2) (ri_order r).

Record ring_ok (r : Ring) : Prop := {
  ok_order : ∀ i t k, ri_order r !! i = Some (t, k) ↔ ∃ e, ring_find r t k = Some e ∧ e_lru_seq e = i;
  ok_tracks : ∀ t entries, ri_tracks r !! t = Some entries → size entries ≠ 0;
  ok_lru : ∀ t k e, ring_find r t k = Some e → (e_lru_seq e < ri_next_lru_seq r)%N;
  ok_completed : ∀ t k e, ring_find r t k = Some e → (e_completed_seq e < ri_next_completed_seq r)%N;
  ok_bytes : ∀ t k e, ring_find r t k = Some e →
    e_bytes e = entry_bytes (e_status e) (e_args_canonical e) ∧ (e_bytes e ≤ MAX_TEXT_BYTES + MAX_ARGS_BYTES)%N;
  ok_total : ri_total_bytes r = sum_bytes (live r);
}.

Lemma ring_ok_empty : ring_ok empty_ring.
Proof.
  split; simpl.
  - intros i t k. rewrite lookup_empty. unfold ring_find; simpl. setoid_rewrite lookup_empty. naive_solver.
  - intros t entries. by rewrite lookup_empty.
  - intros t k e. unfold ring_find; simpl. by rewrite lookup_empty.
  - intros t k e. unfold ring_find; simpl. by rewrite lookup_empty.
  - intros t k e. unfold ring_find; simpl. by rewrite lookup_empty.
  - unfold live. simpl. rewrite omap_empty. unfold sum_bytes. by rewrite map_fold_empty.
Qed.

Lemma live_lookup r i e : ring_ok r →
  live r !! i = Some e ↔ ∃ t k, ring_find r t k = Some e ∧ e_lru_seq e = i.
Proof.
  intros Hr. unfold live. rewrite lookup_omap. split.
  - destruct (ri_order r !! i) as [[t k]|] eqn:Ho; simpl; [|done]. intros Hf. exists t, k. split; [done|].
    apply (ok_order r Hr) in Ho as (e' & He & <-). congruence.
  - intros (t & k & Hf & <-). assert (ri_order r !! e_lru_seq e = Some (t, k)) as Ho by (apply (ok_order r Hr); eauto).
    by rewrite Ho.
Qed.

(** Distinct places have distinct positions. *)
Lemma lru_inj r t k e t' k' e' : ring_ok r → ring_find r t k = Some e → ring_find r t' k' = Some e' →
  e_lru_seq e = e_lru_seq e' → t = t' ∧ k = k' ∧ e = e'.
Proof.
  intros Hr H H' Heq.
  assert (ri_order r !! e_lru_seq e = Some (t, k)) as Ho by (apply (ok_order r Hr); eauto).
  assert (ri_order r !! e_lru_seq e = Some (t', k')) as Ho' by (apply (ok_order r Hr); rewrite Heq; eauto).
  rewrite Ho in Ho'. injection Ho' as -> ->. split_and!; [done..|]. congruence.
Qed.

(** ** Removal *)

Lemma find_remove r t k t' k' :
  ring_find (ring_remove r t k).1 t' k' = if decide (t' = t ∧ k' = k) then None else ring_find r t' k'.
Proof.
  unfold ring_remove, ring_find. destruct (ri_tracks r !! t) as [entries|] eqn:Ht; simpl.
  2:{ destruct (decide _) as [[-> ->]|]; [|done]. by rewrite Ht. }
  destruct (entries !! k) as [e|] eqn:Hk; simpl.
  2:{ destruct (decide _) as [[-> ->]|]; [|done]. rewrite Ht. done. }
  destruct (decide (t' = t)) as [->|Hne].
  - destruct (size (delete k entries) =? 0) eqn:Hs.
    + rewrite lookup_delete_eq, Ht. simpl. destruct (decide _) as [[_ ->]|Hn]; [done|].
      apply Nat.eqb_eq, map_size_empty_iff in Hs. symmetry. apply eq_None_not_Some. intros [e' He'].
      assert (delete k entries !! k' = Some e') as H by (rewrite lookup_delete_ne by naive_solver; done).
      by rewrite Hs, lookup_empty in H.
    + rewrite lookup_insert_eq, Ht. simpl. destruct (decide _) as [[_ ->]|Hn]; [by rewrite lookup_delete_eq|].
      rewrite lookup_delete_ne by naive_solver. done.
  - destruct (decide (t' = t ∧ k' = k)) as [[? _]|_]; [done|].
    destruct (size _ =? 0); [by rewrite lookup_delete_ne|by rewrite lookup_insert_ne].
Qed.

Lemma ring_remove_absent r t k : ring_find r t k = None → (ring_remove r t k).1 = r.
Proof.
  unfold ring_find, ring_remove. destruct (ri_tracks r !! t) as [entries|]; simpl; [|done]. by intros ->.
Qed.

Lemma ring_remove_fields r t k e : ring_find r t k = Some e →
  ri_order (ring_remove r t k).1 = delete (e_lru_seq e) (ri_order r)
  ∧ ri_total_bytes (ring_remove r t k).1 = (ri_total_bytes r - e_bytes e)%N.
Proof.
  unfold ring_find, ring_remove. destruct (ri_tracks r !! t) as [entries|]; simpl; [|done]. by intros ->.
Qed.

Lemma ring_remove_next r t k :
  ri_next_lru_seq (ring_remove r t k).1 = ri_next_lru_seq r
  ∧ ri_next_completed_seq (ring_remove r t k).1 = ri_next_completed_seq r.
Proof. unfold ring_remove. by destruct (ri_tracks r !! t) as [entries|]; [destruct (entries !! k)|]. Qed.

Lemma track_len_remove r t k t' : track_len (ring_remove r t k).1 t' ≤ track_len r t'.
Proof.
  unfold ring_remove, track_len. destruct (ri_tracks r !! t) as [entries|] eqn:Ht; [|done].
  destruct (entries !! k) as [e|] eqn:Hk; [|done]. simpl.
  assert (size (delete k entries) ≤ size entries) as Hsz by (rewrite (map_size_delete_Some k entries) by eauto; lia).
  destruct (decide (t' = t)) as [->|Hne].
  - rewrite Ht. destruct (size (delete k entries) =? 0); [rewrite lookup_delete_eq; lia|by rewrite lookup_insert_eq].
  - by destruct (size _ =? 0); [rewrite lookup_delete_ne|rewrite lookup_insert_ne].
Qed.

Lemma tracks_remove r t k : ring_ok r → ∀ t' entries, ri_tracks (ring_remove r t k).1 !! t' = Some entries → size entries ≠ 0.
Proof.
  intros Hr t' entries'. unfold ring_remove. destruct (ri_tracks r !! t) as [entries|]; [|by apply ok_tracks].
  destruct (entries !! k) as [e|]; [|by apply ok_tracks]. simpl. destruct (size (delete k entries) =? 0) eqn:Hs.
  - intros [_ H]%lookup_delete_Some. by eapply ok_tracks.
  - apply Nat.eqb_neq in Hs. intros [[_ <-]|[_ H]]%lookup_insert_Some; [done|]. by eapply ok_tracks.
Qed.

Lemma live_remove r t k e : ring_ok r → ring_find r t k = Some e → live (ring_remove r t k).1 = delete (e_lru_seq e) (live r).
Proof.
  intros Hr He. destruct (ring_remove_fields r t k e He) as [Ho _]. apply map_eq. intros i. unfold live.
  rewrite lookup_omap, Ho. destruct (decide (i = e_lru_seq e)) as [->|Hi]; [by rewrite !lookup_delete_eq|].
  rewrite !lookup_delete_ne by done. rewrite lookup_omap. destruct (ri_order r !! i) as [[t' k']|] eqn:Hoi; [|done]. simpl.
  rewrite find_remove. destruct (decide _) as [[-> ->]|]; [|done].
  apply (ok_order r Hr) in Hoi as (e' & He' & <-). congruence.
Qed.

Lemma ring_ok_remove r t k : ring_ok r → ring_ok (ring_remove r t k).1.
Proof.
  intros Hr. destruct (ring_find r t k) as [e|] eqn:He; [|by rewrite ring_remove_absent].
  destruct (ring_remove_fields r t k e He) as [Ho Ht]. destruct (ring_remove_next r t k) as [Hn Hc].
  assert (∀ t' k' e', ring_find (ring_remove r t k).1 t' k' = Some e' → ring_find r t' k' = Some e') as Hsub
    by (intros t' k' e'; rewrite find_remove; by destruct (decide _)).
  split.
  - intros i t' k'. rewrite Ho, lookup_delete_Some, (ok_order r Hr), find_remove. split.
    + intros (Hi & e' & He' & <-). destruct (decide _) as [[-> ->]|_]; [congruence|eauto].
    + destruct (decide _) as [_|Hne]; [naive_solver|]. intros (e' & He' & <-). split; [|eauto].
      intros Heq. destruct (lru_inj r t k e t' k' e' Hr He He' Heq) as (-> & -> & _). by apply Hne.
  - by apply tracks_remove.
  - intros t' k' e' H%Hsub. rewrite Hn. by eapply ok_lru.
  - intros t' k' e' H%Hsub. rewrite Hc. by eapply ok_completed.
  - intros t' k' e' H%Hsub. by eapply ok_bytes.
  - rewrite Ht, (live_remove r t k e), (ok_total r Hr) by done.
    rewrite (sum_bytes_delete (live r) (e_lru_seq e) e); [lia|]. apply live_lookup; [done|eauto].
Qed.

(** ** Evictions only take entries out *)

Record shrinks (r r' : Ring) : Prop := {
  sh_ok : ring_ok r';
  sh_sub : ∀ t k e, ring_find r' t k = Some e → ring_find r t k = Some e;
  sh_len : ∀ t, track_len r' t ≤ track_len r t;
  sh_total : (ri_total_bytes r' ≤ ri_total_bytes r)%N;
  sh_lru : ri_next_lru_seq r' = ri_next_lru_seq r;
  sh_completed : ri_next_completed_seq r' = ri_next_completed_seq r;
}.

Lemma shrinks_refl r : ring_ok r → shrinks r r.
Proof. by split. Qed.

Lemma shrinks_trans r1 r2 r3 : shrinks r1 r2 → shrinks r2 r3 → shrinks r1 r3.
Proof.
  intros [] []. split; [done|by auto| |lia|congruence|congruence]. intros t. etransitivity; eauto.
Qed.

Lemma shrinks_remove r t k : ring_ok r → shrinks r (ring_remove r t k).1.
Proof.
  intros Hr. destruct (ring_remove_next r t k) as [Hn Hc].
  split; [by apply ring_ok_remove| |intros; apply track_len_remove| |done|done].
  - intros t' k' e'. rewrite find_remove. by destruct (decide _).
  - destruct (ring_find r t k) as [e|] eqn:He; [|by rewrite ring_remove_absent].
    rewrite (proj2 (ring_remove_fields r t k e He)). lia.
Qed.

Lemma size_order_remove r t k e : ring_ok r → ring_find r t k = Some e →
  size (ri_order (ring_remove r t k).1) < size (ri_order r).
Proof.
  intros Hr He. rewrite (proj1 (ring_remove_fields r t k e He)).
  assert (ri_order r !! e_lru_seq e = Some (t, k)) as Ho by (apply (ok_order r Hr); eauto).
  rewrite map_size_delete_Some by eauto.
  assert (size (ri_order r) ≠ 0); [|lia]. apply map_size_non_empty_iff. intros Hempty. by rewrite Hempty, lookup_empty in Ho.
Qed.

Lemma removes_spec l r : ring_ok r →
  let r' := foldl (λ r p, (ring_remove r p.1 p.2).1) r l in
  shrinks r r' ∧ ∀ t k, ring_find r' t k = if decide ((t, k) ∈ l) then None else ring_find r t k.
Proof.
  revert r; induction l as [|[t0 k0] l IH]; intros r Hr; simpl.
  - by split; [apply shrinks_refl|].
  - destruct (IH (ring_remove r t0 k0).1) as [Hs Hf]; [by apply ring_ok_remove|]. split.
    + eapply shrinks_trans; [by apply shrinks_remove|done].
    + intros t k. rewrite Hf, find_remove. repeat destruct (decide _); set_solver.
Qed.

Lemma evict_expired_spec now r : ring_ok r →
  shrinks r (evict_expired now r)
  ∧ ∀ t k, ring_find (evict_expired now r) t k
           = match ring_find r t k with Some e => if expired now e then None else Some e | None => None end.
Proof.
  intros Hr. unfold evict_expired.
  destruct (removes_spec (filter (λ p, match ring_find r p.1 p.2 with Some e => expired now e | None => false end = true)
    (btree_values (ri_order r))) r Hr) as [Hs Hf]. split; [done|]. intros t k. rewrite Hf.
  destruct (ring_find r t k) as [e|] eqn:He; [|by destruct (decide ((t, k) ∈ _))].
  destruct (decide _) as [Hin|Hin].
  - apply list_elem_of_filter in Hin as [Hx _]. simpl in Hx. rewrite He in Hx. by rewrite Hx.
  - destruct (expired now e) eqn:Hx; [|done]. destruct Hin. apply list_elem_of_filter. simpl. rewrite He. split; [done|].
    apply elem_of_btree_values. exists (e_lru_seq e). apply (ok_order r Hr). eauto.
Qed.

(** The entry most recently inserted or touched. *)
Definition newest (r : Ring) (t : str) (k : Key) (e : Entry) : Prop :=
  ring_find r t k = Some e ∧ (e_lru_seq e + 1)%N = ri_next_lru_seq r.

Lemma newest_shrinks r r' t k e : shrinks r r' → newest r t k e → ring_find r' t k = Some e → newest r' t k e.
Proof. intros Hs [_ H] Hf. split; [done|]. by rewrite (sh_lru _ _ Hs). Qed.

Lemma another_entry {A} (m : gmap Key A) k : 1 < size m → ∃ k' a, k' ≠ k ∧ m !! k' = Some a.
Proof.
  intros Hs. destruct (map_choose (delete k m)) as (k' & a & H).
  - intros Hd. apply map_size_empty_iff in Hd. destruct (m !! k) eqn:Hk.
    + rewrite map_size_delete_Some in Hd by eauto. lia.
    + rewrite map_size_delete_None in Hd by done. lia.
  - apply lookup_delete_Some in H as [? ?]. eauto.
Qed.

Lemma evict_track_overflow_spec fuel t r : ring_ok r → size (ri_order r) < fuel →
  ∃ r', evict_track_overflow fuel t r = Some r' ∧ shrinks r r' ∧ track_len r' t ≤ MAX_ENTRIES_PER_TRACK
    ∧ ∀ t0 k0 e0, newest r t0 k0 e0 → ring_find r' t0 k0 = Some e0.
Proof.
  revert r; induction fuel as [|fuel IH]; intros r Hr Hfuel; [lia|]. cbn [evict_track_overflow].
  destruct (track_len r t <=? MAX_ENTRIES_PER_TRACK) eqn:Hlen.
  { exists r. apply Nat.leb_le in Hlen. split_and!; [done|by apply shrinks_refl|done|]. by intros ??? [? _]. }
  apply Nat.leb_gt in Hlen. unfold track_len in Hlen.
  destruct (ri_tracks r !! t) as [entries|] eqn:Ht; [|unfold MAX_ENTRIES_PER_TRACK in *; lia].
  assert (∀ k e, entries !! k = Some e → ring_find r t k = Some e) as Hin by (intros; unfold ring_find; by rewrite Ht).
  destruct (find _ _) as [[t1 k1]|] eqn:Hf.
  - apply find_first in Hf as (i & Ho & Hp & Hmin). simpl in Hp. apply bool_decide_eq_true in Hp as ->.
    pose proof Ho as (e1 & He1 & Hi)%(ok_order r Hr).
    destruct (IH (ring_remove r t k1).1) as (r' & Hrun & Hs & Hl & Hnew).
    { by apply ring_ok_remove. }
    { pose proof (size_order_remove r t k1 e1 Hr He1). lia. }
    exists r'. split_and!; [done|eapply shrinks_trans; [by apply shrinks_remove|done]|done|].
    intros t0 k0 e0 Hn. apply Hnew. eapply newest_shrinks; [by apply shrinks_remove|done|].
    rewrite find_remove. destruct (decide _) as [[-> ->]|]; [|by destruct Hn].
    exfalso. destruct Hn as [Hf0 Hlast]. destruct (another_entry entries k1) as (k2 & e2 & Hne & He2);
      [unfold MAX_ENTRIES_PER_TRACK in *; lia|]. apply Hin in He2.
    assert (ri_order r !! e_lru_seq e2 = Some (t, k2)) as Ho2 by (apply (ok_order r Hr); eauto).
    pose proof (Hmin _ _ Ho2 ltac:(by rewrite bool_decide_eq_true)) as Hle.
    pose proof (ok_lru r Hr _ _ _ He2). assert (e1 = e0) as -> by congruence.
    destruct (lru_inj r t k2 e2 t k1 e0 Hr He2 He1 ltac:(lia)) as (_ & ? & _). done.
  - exfalso. destruct (another_entry entries (mkKey [] [] [])) as (k2 & e2 & _ & He2%Hin);
      [unfold MAX_ENTRIES_PER_TRACK in *; lia|].
    assert (ri_order r !! e_lru_seq e2 = Some (t, k2)) as Ho2 by (apply (ok_order r Hr); eauto).
    pose proof (find_none _ _ Hf _ _ Ho2) as Hp. simpl in Hp. by apply bool_decide_eq_false in Hp.
Qed.

(** A ring whose newest entry is also its oldest holds nothing else. *)
Lemma newest_alone r t k e : ring_ok r → newest r t k e →
  (∀ j w, ri_order r !! j = Some w → (e_lru_seq e ≤ j)%N) → ri_total_bytes r = e_bytes e.
Proof.
  intros Hr [Hf Hlast] Hmin. rewrite (ok_total r Hr).
  rewrite (sum_bytes_delete (live r) (e_lru_seq e) e) by (apply live_lookup; [done|eauto]).
  assert (delete (e_lru_seq e) (live r) = ∅) as ->; [|unfold sum_bytes; rewrite map_fold_empty; lia].
  apply map_empty. intros j. rewrite lookup_delete_None. destruct (decide (e_lru_seq e = j)) as [->|Hj]; [by left|right].
  apply eq_None_not_Some. intros [e' (t' & k' & He' & Hj')%(live_lookup r j e' Hr)].
  assert (ri_order r !! j = Some (t', k')) as Ho by (apply (ok_order r Hr); eauto).
  pose proof (Hmin _ _ Ho). pose proof (ok_lru r Hr _ _ _ He'). lia.
Qed.

Lemma evict_global_overflow_spec fuel r : ring_ok r → size (ri_order r) < fuel →
  ∃ r', evict_global_overflow fuel r = Some r' ∧ shrinks r r' ∧ (ri_total_bytes r' ≤ MAX_TOTAL_BYTES)%N
    ∧ ∀ t0 k0 e0, newest r t0 k0 e0 → ring_find r' t0 k0 = Some e0.
Proof.
  revert r; induction fuel as [|fuel IH]; intros r Hr Hfuel; [lia|]. cbn [evict_global_overflow].
  destruct (ri_total_bytes r <=? MAX_TOTAL_BYTES)%N eqn:Hlen.
  { exists r. apply N.leb_le in Hlen. split_and!; [done|by apply shrinks_refl|done|]. by intros ??? [? _]. }
  apply N.leb_gt in Hlen. destruct (find _ _) as [[t1 k1]|] eqn:Hf.
  - apply find_first in Hf as (i & Ho & _ & Hmin). pose proof Ho as (e1 & He1 & Hi)%(ok_order r Hr). cbn [fst snd].
    destruct (IH (ring_remove r t1 k1).1) as (r' & Hrun & Hs & Hl & Hnew).
    { by apply ring_ok_remove. }
    { pose proof (size_order_remove r t1 k1 e1 Hr He1). lia. }
    exists r'. split_and!; [done|eapply shrinks_trans; [by apply shrinks_remove|done]|done|].
    intros t0 k0 e0 Hn. apply Hnew. eapply newest_shrinks; [by apply shrinks_remove|done|].
    rewrite find_remove. destruct (decide _) as [[-> ->]|]; [|by destruct Hn].
    exfalso. assert (e1 = e0) as -> by (destruct Hn; congruence). subst i.
    rewrite (newest_alone r t1 k1 e0) in Hlen; [|done|done|intros; eauto].
    pose proof (proj2 (ok_bytes r Hr _ _ _ He1)). unfold MAX_TOTAL_BYTES, MAX_TEXT_BYTES, MAX_ARGS_BYTES in *. lia.
  - exfalso. assert (ri_order r = ∅) as Hempty.
    { apply map_empty. intros i. apply eq_None_not_Some. intros [v Hv]. by pose proof (find_none _ _ Hf _ _ Hv). }
    revert Hlen. rewrite (ok_total r Hr). unfold live. rewrite Hempty, omap_empty. unfold sum_bytes. rewrite map_fold_empty.
    unfold MAX_TOTAL_BYTES. lia.
Qed.

(** ** Placing an entry *)

(** A record or a touch puts one entry at the next position; [completed] is the counter
    of completions after it. *)
Definition place (completed : N) (r : Ring) (t : str) (k : Key) (e : Entry) : Ring :=
  mkRing (<[t := <[k := e]> (default ∅ (ri_tracks r !! t))]> (ri_tracks r)) (<[e_lru_seq e := (t, k)]> (ri_order r))
    (N.succ (ri_next_lru_seq r)) completed (ri_total_bytes r + e_bytes e)%N.

Lemma find_place c r t k e t' k' :
  ring_find (place c r t k e) t' k' = if decide (t' = t ∧ k' = k) then Some e else ring_find r t' k'.
Proof.
  unfold ring_find, place; simpl. destruct (decide (t' = t)) as [->|Hne].
  - rewrite lookup_insert_eq. simpl. destruct (decide _) as [[_ ->]|Hn]; [by rewrite lookup_insert_eq|].
    rewrite lookup_insert_ne by naive_solver. by destruct (ri_tracks r !! t).
  - rewrite lookup_insert_ne by done. destruct (decide _) as [[? _]|_]; done.
Qed.

Lemma track_len_place c r t k e t' : ring_find r t k = None →
  track_len (place c r t k e) t' = if decide (t' = t) then S (track_len r t) else track_len r t'.
Proof.
  unfold ring_find, track_len, place; simpl. intros Hk. destruct (decide (t' = t)) as [->|Hne].
  - rewrite lookup_insert_eq. destruct (ri_tracks r !! t) as [entries|]; simpl in *.
    + by rewrite map_size_insert_None.
    + rewrite map_size_insert_None by apply lookup_empty. by rewrite map_size_empty.
  - by rewrite lookup_insert_ne.
Qed.

Lemma ring_ok_place c r t k e : ring_ok r → ring_find r t k = None → e_lru_seq e = ri_next_lru_seq r →
  (e_completed_seq e < c)%N → (ri_next_completed_seq r ≤ c)%N →
  e_bytes e = entry_bytes (e_status e) (e_args_canonical e) → (e_bytes e ≤ MAX_TEXT_BYTES + MAX_ARGS_BYTES)%N →
  ring_ok (place c r t k e).
Proof.
  intros Hr Hk Hlru Hc Hcr Hb Hmax.
  assert (∀ t' k' e', ring_find (place c r t k e) t' k' = Some e' → e' = e ∧ t' = t ∧ k' = k ∨ ring_find r t' k' = Some e') as Hsub.
  { intros t' k' e'. rewrite find_place. destruct (decide _) as [[-> ->]|]; [intros [= <-]|]; auto. }
  assert (∀ i, ri_order r !! i = None ∨ (i < ri_next_lru_seq r)%N) as Hfresh.
  { intros i. destruct (ri_order r !! i) as [[t' k']|] eqn:Ho; [right|by left].
    apply (ok_order r Hr) in Ho as (e' & He' & <-). by eapply ok_lru. }
  split.
  - intros i t' k'. simpl. rewrite Hlru, lookup_insert_Some, find_place, (ok_order r Hr). split.
    + intros [[<- [= <- <-]]|(Hi & e' & He' & <-)].
      * rewrite decide_True by done. eauto.
      * destruct (decide _) as [[-> ->]|]; [congruence|eauto].
    + destruct (decide _) as [[-> ->]|Hne]; [intros (? & [= <-] & <-); by left|].
      intros (e' & He' & <-). right. split; [|eauto]. pose proof (ok_lru r Hr _ _ _ He'). lia.
  - simpl. intros t' entries [[_ <-]|[_ H]]%lookup_insert_Some; [|by eapply ok_tracks].
    intros Hs%map_size_empty_iff. by apply insert_non_empty in Hs.
  - intros t' k' e' [(-> & _)|H]%Hsub; simpl; [lia|]. pose proof (ok_lru r Hr _ _ _ H). lia.
  - intros t' k' e' [(-> & _)|H]%Hsub; simpl; [done|]. pose proof (ok_completed r Hr _ _ _ H). lia.
  - intros t' k' e' [(-> & _)|H]%Hsub; [done|]. by eapply ok_bytes.
  - assert (live (place c r t k e) = <[ri_next_lru_seq r := e]> (live r)) as ->.
    { apply map_eq. intros i. unfold live. rewrite lookup_omap. simpl. rewrite Hlru.
      destruct (decide (i = ri_next_lru_seq r)) as [->|Hi].
      - rewrite !lookup_insert_eq. simpl. by rewrite find_place, decide_True.
      - rewrite !lookup_insert_ne, lookup_omap by done. destruct (ri_order r !! i) as [[t' k']|] eqn:Ho; [|done]. simpl.
        rewrite find_place. destruct (decide _) as [[-> ->]|]; [|done].
        apply (ok_order r Hr) in Ho as (e' & He' & _). congruence. }
    rewrite sum_bytes_insert.
    + simpl. rewrite (ok_total r Hr). lia.
    + unfold live. rewrite lookup_omap. destruct (Hfresh (ri_next_lru_seq r)) as [->|]; [done|lia].
Qed.

(** A touch is a removal and a placement. *)
Lemma touch_place r t k e : ring_ok r → ring_find r t k = Some e →
  ring_touch r t k = (place (ri_next_completed_seq r) (ring_remove r t k).1 t k { e with e_lru_seq := ri_next_lru_seq r },
                      Some (entry_snapshot e k)).
Proof.
  intros Hr He. pose proof (ok_total r Hr) as Htot.
  rewrite (sum_bytes_delete (live r) (e_lru_seq e) e) in Htot by (apply live_lookup; [done|eauto]).
  unfold ring_find in He. unfold ring_touch, ring_remove, place. destruct r as [tracks order nl nc total]. simpl in *.
  destruct (tracks !! t) as [entries|] eqn:Ht; simpl in He; [|done]. rewrite He. cbn -[size].
  f_equal. apply (f_equal5 mkRing); [|done|done|done|unfold RecordSettersUsingExistingGetters.const; cbn; lia]. destruct (size (delete k entries) =? 0) eqn:Hs.
  - apply Nat.eqb_eq, map_size_empty_iff in Hs. rewrite lookup_delete_eq, insert_delete_eq. simpl. f_equal.
    by rewrite <- Hs, insert_delete_eq.
  - rewrite lookup_insert_eq, insert_insert_eq. simpl. by rewrite insert_delete_eq.
Qed.

(** ** Forgetting a track *)

Definition removes (t : str) (keys : list Key) (r : Ring) : Ring := foldl (λ r k, (ring_remove r t k).1) r keys.

Lemma removes_fields t (l : list (Key * Entry)) r : NoDup l.*1 → (∀ k e, (k, e) ∈ l → ring_find r t k = Some e) →
  ri_order (removes t l.*1 r) = foldl (λ o e, delete (e_lru_seq e) o) (ri_order r) l.*2
  ∧ ri_total_bytes (removes t l.*1 r) = foldl (λ n e, n - e_bytes e)%N (ri_total_bytes r) l.*2
  ∧ ri_next_lru_seq (removes t l.*1 r) = ri_next_lru_seq r
  ∧ ri_next_completed_seq (removes t l.*1 r) = ri_next_completed_seq r
  ∧ ∀ t', t' ≠ t → ri_tracks (removes t l.*1 r) !! t' = ri_tracks r !! t'.
Proof.
  revert r; induction l as [|[k e] l IH]; intros r Hnd Hl; [done|]. apply NoDup_cons in Hnd as [Hk Hnd].
  change (removes t ((k, e) :: l).*1 r) with (removes t l.*1 (ring_remove r t k).1).
  assert (ring_find r t k = Some e) as He by (apply Hl; left).
  destruct (ring_remove_fields r t k e He) as [Ho Ht]. destruct (ring_remove_next r t k) as [Hn Hc].
  destruct (IH (ring_remove r t k).1) as (H1 & H2 & H3 & H4 & H5); [done| |].
  - intros k' e' Hin. rewrite find_remove, decide_False; [apply Hl; by right|].
    intros [_ ->]. apply Hk. apply list_elem_of_fmap. by exists (k, e').
  - rewrite H1, H2, H3, H4, Ho, Ht, Hn, Hc. split_and!; [done..|]. intros t' Hne. rewrite H5 by done.
    unfold ring_remove. destruct (ri_tracks r !! t) as [entries|]; [|done]. destruct (entries !! k); [|done]. simpl.
    by destruct (size _ =? 0); [rewrite lookup_delete_ne|rewrite lookup_insert_ne].
Qed.

Lemma forget_fields r (l : list Entry) :
  foldl (λ r e, { r with ri_order ::= delete (e_lru_seq e); ri_total_bytes ::= λ total, (total - e_bytes e)%N }) r l
  = mkRing (ri_tracks r) (foldl (λ o e, delete (e_lru_seq e) o) (ri_order r) l) (ri_next_lru_seq r)
      (ri_next_completed_seq r) (foldl (λ n e, n - e_bytes e)%N (ri_total_bytes r) l).
Proof. revert r; induction l as [|e l IH]; intros r; simpl; [by destruct r|]. rewrite IH. by destruct r. Qed.

Lemma forget_spec t r : ring_ok r →
  shrinks r (forget_track r t)
  ∧ ∀ t' k, ring_find (forget_track r t) t' k = if decide (t' = t) then None else ring_find r t' k.
Proof.
  intros Hr. unfold forget_track. destruct (ri_tracks r !! t) as [entries|] eqn:Ht.
  2:{ split; [by apply shrinks_refl|]. intros t' k. destruct (decide _) as [->|]; [|done]. unfold ring_find. by rewrite Ht. }
  rewrite forget_fields. simpl.
  set (keys := (map_to_list entries).*1).
  destruct (removes_fields t (map_to_list entries) r) as (H1 & H2 & H3 & H4 & H5).
  { apply NoDup_fst_map_to_list. }
  { intros k e Hin%elem_of_map_to_list. unfold ring_find. by rewrite Ht. }
  assert (removes t keys r = foldl (λ r p, (ring_remove r p.1 p.2).1) r (pair t <$> keys)) as Hfold.
  { unfold removes. clearbody keys. clear. revert r; induction keys; intros r; simpl; auto. }
  destruct (removes_spec (pair t <$> keys) r Hr) as [Hs Hf]. rewrite <- Hfold in Hs, Hf.
  assert (ri_tracks (removes t keys r) = delete t (ri_tracks r)) as Htracks.
  { apply map_eq. intros t'. destruct (decide (t' = t)) as [->|Hne]; [|by rewrite lookup_delete_ne, H5].
    rewrite lookup_delete_eq. destruct (ri_tracks (removes t keys r) !! t) as [left|] eqn:Hl; [|done]. exfalso.
    pose proof (ok_tracks _ (sh_ok _ _ Hs) _ _ Hl) as Hn. destruct (map_choose left) as (k & e & Hk).
    { intros ->. by rewrite map_size_empty in Hn. }
    assert (ring_find (removes t keys r) t k = Some e) as He by (unfold ring_find; by rewrite Hl).
    pose proof (sh_sub _ _ Hs _ _ _ He) as Hr'. rewrite Hf in He. rewrite decide_True in He; [done|].
    apply list_elem_of_fmap. exists k. split; [done|]. unfold keys. apply list_elem_of_fmap. exists (k, e). split; [done|].
    apply elem_of_map_to_list. unfold ring_find in Hr'. by rewrite Ht in Hr'. }
  assert (mkRing (delete t (ri_tracks r)) (foldl (λ o e, delete (e_lru_seq e) o) (ri_order r) (map_to_list entries).*2)
            (ri_next_lru_seq r) (ri_next_completed_seq r)
            (foldl (λ n e, n - e_bytes e)%N (ri_total_bytes r) (map_to_list entries).*2) = removes t keys r) as Heq.
  { unfold keys in *. rewrite <- Htracks, <- H1, <- H2, <- H3, <- H4. by destruct (removes _ _ _). }
  rewrite Heq. split; [done|]. intros t' k. rewrite Hf. destruct (decide (t' = t)) as [->|Hne].
  - destruct (decide _) as [|Hn]; [done|]. destruct (ring_find r t k) as [e|] eqn:He; [|done]. destruct Hn.
    apply list_elem_of_fmap. exists k. split; [done|]. unfold keys. apply list_elem_of_fmap. exists (k, e). split; [done|].
    apply elem_of_map_to_list. unfold ring_find in He. by rewrite Ht in He.
  - rewrite decide_False; [done|]. by intros (k' & [= -> ->] & _)%list_elem_of_fmap.
Qed.

(** ** What a call is classified as *)

(** The texts of a reply, and their join by newlines. *)
Definition texts (content : list ContentBlock) : list str :=
  omap (λ b, if bool_decide (cb_kind b = lit "text") then cb_text b else None) content.

Definition lines (parts : list str) : str := concat (cons 10%N <$> parts).

Definition join (parts : list str) : str := match parts with [] => [] | part :: rest => part ++ lines rest end.

Lemma classify_blocks_more text blocks content : 0 < blocks → (utf8_len text ≤ MAX_TEXT_BYTES)%N →
  classify_blocks text blocks content =
  if (MAX_TEXT_BYTES <? utf8_len (text ++ lines (texts content)))%N then Status_TooLarge
  else Status_Ok (text ++ lines (texts content)).
Proof.
  revert text blocks; induction content as [|b rest IH]; intros text blocks Hb Hlen; simpl.
  { unfold lines; simpl. rewrite app_nil_r. destruct (N.ltb_spec MAX_TEXT_BYTES (utf8_len text)); [lia|].
    by destruct blocks; [lia|]. }
  destruct (bool_decide (cb_kind b = lit "text")); simpl; [|by apply IH]. destruct (cb_text b) as [part|]; [|by apply IH].
  destruct (Nat.ltb_spec 0 blocks); [|lia]. simpl.
  assert (text ++ lines (part :: texts rest) = (text ++ 10%N :: part) ++ lines (texts rest)) as ->
    by (unfold lines; simpl; by rewrite <- app_assoc).
  assert (utf8_len (text ++ 10%N :: part) = utf8_len text + 1 + utf8_len part)%N as Hl
    by (rewrite utf8_len_app; change (utf8_len (10%N :: part)) with (1 + utf8_len part)%N; lia).
  destruct (N.ltb_spec MAX_TEXT_BYTES (utf8_len text + 1 + utf8_len part)).
  - destruct (N.ltb_spec MAX_TEXT_BYTES (utf8_len ((text ++ 10%N :: part) ++ lines (texts rest)))) as [|Hle]; [done|].
    rewrite utf8_len_app, Hl in Hle. lia.
  - apply (IH (text ++ 10%N :: part)); lia.
Qed.

Lemma classify_blocks_none content :
  classify_blocks [] 0 content =
  match texts content with
  | [] => Status_NoText
  | parts => if (MAX_TEXT_BYTES <? utf8_len (join parts))%N then Status_TooLarge else Status_Ok (join parts)
  end.
Proof.
  induction content as [|b rest IH]; simpl; [done|].
  destruct (bool_decide (cb_kind b = lit "text")); simpl; [|done]. destruct (cb_text b) as [part|]; [|done].
  rewrite !N.add_0_l. destruct (N.ltb_spec MAX_TEXT_BYTES (utf8_len part)).
  - destruct (N.ltb_spec MAX_TEXT_BYTES (utf8_len (part ++ lines (texts rest)))) as [|Hle]; [done|].
    rewrite utf8_len_app in Hle. lia.
  - by apply classify_blocks_more; [lia|].
Qed.

(** The loop that never builds more than the cap is the join of all text blocks, then
    the test: an error first, then no text, then too large. *)
Theorem classify_joins r :
  classify r =
  if bool_decide (cr_is_error r = Some true) then Status_Error
  else match texts (cr_content r) with
       | [] => Status_NoText
       | parts => if (MAX_TEXT_BYTES <? utf8_len (join parts))%N then Status_TooLarge else Status_Ok (join parts)
       end.
Proof. unfold classify. by rewrite classify_blocks_none. Qed.

Definition bounded (s : ResultStatus) : Prop :=
  match s with Status_Ok text => (utf8_len text ≤ MAX_TEXT_BYTES)%N | _ => True end.

Lemma classify_bounded r : bounded (classify r).
Proof.
  unfold classify. destruct (bool_decide _); [done|]. rewrite classify_blocks_none. destruct (texts _) as [|part parts]; [done|].
  cbv beta zeta. destruct (N.ltb_spec MAX_TEXT_BYTES (utf8_len (join (part :: parts)))); [exact I|assumption].
Qed.

(** ** Recording *)

Section recording.
Context (to_string : Json → option str) (sha256_hex : str → str).
#[local] Abbreviation canonical_args := (canonical_args to_string).
#[local] Abbreviation ring_insert := (ring_insert to_string sha256_hex).

(** What a call is kept as, whatever the ring holds. *)
Definition call_key (plugin_id tool_name : str) (args : Json) : Key :=
  mkKey plugin_id tool_name (sha256_hex (canonical_args args)).

Definition call_record (now : Z) (plugin_id tool_name : str) (args : Json) (status_of : str → ResultStatus) : Recorded :=
  let large := (MAX_ARGS_BYTES <? utf8_len (canonical_args args))%N in
  mkRecorded plugin_id tool_name (sha256_hex (canonical_args args))
    (if large then Status_TooLarge else status_of (canonical_args args))
    (if large then None else Some (canonical_args args)) now.

Definition caps (r : Ring) : Prop :=
  (∀ t, track_len r t ≤ MAX_ENTRIES_PER_TRACK) ∧ (ri_total_bytes r ≤ MAX_TOTAL_BYTES)%N.

Lemma ring_insert_spec now r t plugin_id tool_name args status_of :
  ring_ok r → caps r → (∀ c, bounded (status_of c)) →
  let key := call_key plugin_id tool_name args in
  ∃ r' e, ring_insert now r t plugin_id tool_name args status_of = Some r'
    ∧ ring_ok r' ∧ caps r' ∧ ri_next_lru_seq r' = N.succ (ri_next_lru_seq r)
    ∧ ring_find r' t key = Some e ∧ entry_snapshot e key = call_record now plugin_id tool_name args status_of
    ∧ ∀ t' k' e', ring_find r' t' k' = Some e' → (t', k') ≠ (t, key) → ring_find r t' k' = Some e'.
Proof.
  intros Hr [Hlen Htot] Hst key. unfold PluginResults.ring_insert. fold key.
  set (large := (MAX_ARGS_BYTES <? utf8_len (canonical_args args))%N).
  set (status := if large then Status_TooLarge else status_of (canonical_args args)).
  set (kept := if large then None else Some (canonical_args args)).
  replace (if large then (Status_TooLarge, None) else (status_of (canonical_args args), Some (canonical_args args)))
    with (status, kept) by (unfold status, kept; by destruct large).
  change (mkKey plugin_id tool_name (sha256_hex (canonical_args args))) with key.
  set (r1 := (ring_remove (evict_expired now r) t key).1).
  assert (shrinks r r1) as H1.
  { eapply shrinks_trans; [by apply (evict_expired_spec now r)|]. apply shrinks_remove. apply (evict_expired_spec now r Hr). }
  assert (ring_find r1 t key = None) as Hnone by (unfold r1; by rewrite find_remove, decide_True).
  set (e := mkEntry status kept now (ri_next_completed_seq r1) (ri_next_lru_seq r1) (entry_bytes status kept)).
  change (ring_push r1 t key e) with (place (N.succ (ri_next_completed_seq r1)) r1 t key e).
  set (r2 := place (N.succ (ri_next_completed_seq r1)) r1 t key e).
  assert (ring_ok r2) as Hr2.
  { apply ring_ok_place; simpl; [by apply H1|done|done|lia|lia|done|]. unfold entry_bytes, status, kept.
    destruct large eqn:Hlarge; [unfold MAX_TEXT_BYTES, MAX_ARGS_BYTES; lia|].
    apply N.ltb_ge in Hlarge. specialize (Hst (canonical_args args)). unfold bounded in Hst. destruct (status_of _); lia. }
  assert (newest r2 t key e) as Hn2.
  { split; [unfold r2; by rewrite find_place, decide_True|]. unfold r2; simpl. lia. }
  destruct (evict_track_overflow_spec (S (size (ri_order r2))) t r2 Hr2 ltac:(lia)) as (r3 & H3 & Hs3 & Hl3 & Hk3).
  rewrite H3. simpl. pose proof (Hk3 _ _ _ Hn2) as Hf3.
  destruct (evict_global_overflow_spec (S (size (ri_order r3))) r3 (sh_ok _ _ Hs3) ltac:(lia)) as (r4 & H4 & Hs4 & Hl4 & Hk4).
  pose proof (Hk4 _ _ _ (newest_shrinks _ _ _ _ _ Hs3 Hn2 Hf3)) as Hf4.
  pose proof (shrinks_trans _ _ _ Hs3 Hs4) as Hs24.
  exists r4, e. split_and!; [done|apply Hs4| |..|done| |].
  - split; [|done]. intros t'. etransitivity; [apply (sh_len _ _ Hs4)|]. destruct (decide (t' = t)) as [->|Hne]; [done|].
    etransitivity; [apply (sh_len _ _ Hs3)|]. unfold r2. rewrite track_len_place, decide_False by done.
    etransitivity; [apply (sh_len _ _ H1)|apply Hlen].
  - rewrite (sh_lru _ _ Hs24). simpl. by rewrite (sh_lru _ _ H1).
  - done.
  - intros t' k' e' Hf Hne. apply (sh_sub _ _ Hs24) in Hf. unfold r2 in Hf. rewrite find_place, decide_False in Hf by naive_solver.
    by apply (sh_sub _ _ H1).
Qed.

(** ** Looking up *)

Lemma ring_touch_absent r t k : ring_find r t k = None → ring_touch r t k = (r, None).
Proof. unfold ring_find, ring_touch. destruct (ri_tracks r !! t) as [entries|]; simpl; [|done]. by intros ->. Qed.

(** What a lookup leaves: only positions move. *)
Record touched (r r' : Ring) : Prop := {
  to_ok : ring_ok r';
  to_caps : caps r → caps r';
  to_lru : (ri_next_lru_seq r' ≤ N.succ (ri_next_lru_seq r))%N;
  to_sub : ∀ t k e', ring_find r' t k = Some e' →
    ∃ e, ring_find r t k = Some e ∧ entry_snapshot e' k = entry_snapshot e k;
}.

Lemma touched_shrinks r r' : shrinks r r' → touched r r'.
Proof.
  intros Hs. split; [apply Hs| |rewrite (sh_lru _ _ Hs); lia|].
  - intros [Hl Ht]. split; [intros t; etransitivity; [apply (sh_len _ _ Hs)|done]|]. pose proof (sh_total _ _ Hs). lia.
  - intros t k e' H%(sh_sub _ _ Hs). eauto.
Qed.

Lemma ring_touch_spec r t k : ring_ok r →
  touched r (ring_touch r t k).1 ∧ (ring_touch r t k).2 = (λ e, entry_snapshot e k) <$> ring_find r t k.
Proof.
  intros Hr. destruct (ring_find r t k) as [e|] eqn:He.
  2:{ rewrite ring_touch_absent by done. split; [|done]. by apply touched_shrinks, shrinks_refl. }
  assert (caps r → caps (ring_touch r t k).1) as Hcaps.
  { intros [Hl Ht]. unfold ring_touch, ring_find in *.
    destruct (ri_tracks r !! t) as [entries|] eqn:Htr; simpl in He; [|done]. rewrite He. split; [|done].
    intros t'. unfold track_len; simpl. destruct (decide (t' = t)) as [->|Hne]; [|by rewrite lookup_insert_ne; [apply Hl|]].
    rewrite lookup_insert_eq. erewrite map_size_insert_Some by done. specialize (Hl t). unfold track_len in Hl. by rewrite Htr in Hl. }
  rewrite (touch_place r t k e Hr He) in Hcaps |- *. split; [|done]. cbn [fst] in *. destruct (ring_remove_next r t k) as [Hn Hc].
  assert (ring_find (ring_remove r t k).1 t k = None) as Hnone by (by rewrite find_remove, decide_True).
  destruct (ok_bytes r Hr _ _ _ He) as [Hb Hmax]. split.
  - apply ring_ok_place; simpl; [by apply ring_ok_remove|done|done| |lia|done|done].
    pose proof (ok_completed r Hr _ _ _ He). simpl. lia.
  - done.
  - simpl. rewrite Hn. lia.
  - intros t' k' e'. rewrite find_place, find_remove. destruct (decide _) as [[-> ->]|]; [|by eauto]. intros [= <-].
    by exists e.
Qed.

Lemma touched_trans r1 r2 r3 : shrinks r1 r2 → touched r2 r3 → touched r1 r3.
Proof.
  intros Hs Ht. pose proof (touched_shrinks _ _ Hs) as Hs'. split; [apply Ht| | |].
  - intros Hc. by apply Ht, Hs'.
  - rewrite <- (sh_lru _ _ Hs). apply Ht.
  - intros t k e' (e & He & Heq)%(to_sub _ _ Ht). apply (sh_sub _ _ Hs) in He. eauto.
Qed.

(** A lookup of one call: the live entry, if it is not too old. *)
Lemma ring_get_spec now r t plugin_id tool_name sha : ring_ok r →
  let key := mkKey plugin_id tool_name sha in
  touched r (ring_get now r t plugin_id tool_name sha).1
  ∧ (ring_get now r t plugin_id tool_name sha).2
    = match ring_find r t key with
      | Some e => if expired now e then None else Some (entry_snapshot e key)
      | None => None
      end.
Proof.
  intros Hr key. destruct (evict_expired_spec now r Hr) as [Hs Hf]. unfold ring_get. fold key.
  destruct (ring_touch_spec (evict_expired now r) t key (sh_ok _ _ Hs)) as [Ht ->]. split; [by eapply touched_trans|].
  rewrite Hf. destruct (ring_find r t key) as [e|]; [|done]. by destruct (expired now e).
Qed.

Lemma max_completed_elem (l : list (Key * Entry)) best p : foldl (λ best p, match best with
    | None => Some p
    | Some b => if completed_le b.2 p.2 then Some p else best
    end) best l = Some p → p ∈ l ∨ best = Some p.
Proof.
  revert best; induction l as [|q l IH]; intros best; simpl; [by right|]. intros [H|H]%IH; [left; by right|].
  destruct best as [b|]; [|injection H as ->; left; left]. destruct (completed_le b.2 q.2); [|by right].
  injection H as ->. left. left.
Qed.

(** The latest answer is a live entry of that tool. *)
Lemma latest_spec now r t plugin_id tool_name : ring_ok r →
  touched r (latest now r t plugin_id tool_name).1
  ∧ ∀ answer, (latest now r t plugin_id tool_name).2 = Some answer →
      ∃ key e, ring_find r t key = Some e ∧ expired now e = false ∧ answer = entry_snapshot e key
        ∧ k_plugin_id key = plugin_id ∧ k_tool_name key = tool_name.
Proof.
  intros Hr. destruct (evict_expired_spec now r Hr) as [Hs Hf]. unfold latest.
  destruct (ri_tracks (evict_expired now r) !! t) as [entries|] eqn:Ht; [|split; [by apply touched_shrinks|done]].
  destruct (max_completed _) as [[key e0]|] eqn:Hmax; [|split; [by apply touched_shrinks|done]].
  destruct (ring_touch_spec (evict_expired now r) t key (sh_ok _ _ Hs)) as [Hto ->]. split; [by eapply touched_trans|].
  intros answer. rewrite Hf. destruct (ring_find r t key) as [e|] eqn:He; [|done]. destruct (expired now e) eqn:Hx; [done|].
  intros [= <-]. exists key, e. unfold max_completed in Hmax. apply max_completed_elem in Hmax as [Hin|]; [|done].
  apply list_elem_of_filter in Hin as [[Hp Hn] _]. done.
Qed.

(** ** Histories *)

Inductive RingOp :=
| Op_record (now : Z) (t plugin_id tool_name : str) (args : Json) (result : CallToolResult)
| Op_record_failure (now : Z) (t plugin_id tool_name : str) (args : Json)
| Op_get (now : Z) (t plugin_id tool_name sha : str)
| Op_latest (now : Z) (t plugin_id tool_name : str)
| Op_recorded_tools (now : Z) (t : str)
| Op_forget_track (t : str)
| Op_len (now : Z) (t : str).

Definition ring_step (r : Ring) (op : RingOp) : option Ring :=
  match op with
  | Op_record now t p n args result => record to_string sha256_hex now r t p n args result
  | Op_record_failure now t p n args => record_failure to_string sha256_hex now r t p n args
  | Op_get now t p n sha => Some (ring_get now r t p n sha).1
  | Op_latest now t p n => Some (latest now r t p n).1
  | Op_recorded_tools now t => Some (recorded_tools now r t).1
  | Op_forget_track t => Some (forget_track r t)
  | Op_len now t => Some (ring_len now r t).1
  end.

Definition ring_run (ops : list RingOp) : option Ring := foldl (λ r op, r ← r; ring_step r op) (Some empty_ring) ops.

(** The specification: the last call of each key in each track, nothing evicted. *)
#[local] Abbreviation CallLog := (gmap (str * Key) Recorded).

Definition log_step (log : CallLog) (op : RingOp) : CallLog :=
  match op with
  | Op_record now t p n args result =>
      <[(t, call_key p n args) := call_record now p n args (λ _, classify result)]> log
  | Op_record_failure now t p n args =>
      <[(t, call_key p n args) := call_record now p n args (λ _, Status_Error)]> log
  | Op_forget_track t => filter (λ x, x.1.1 ≠ t) log
  | _ => log
  end.

Definition call_log (ops : list RingOp) : CallLog := foldl log_step ∅ ops.

Record ring_inv (r : Ring) (log : CallLog) (n : nat) : Prop := {
  ri_ok : ring_ok r;
  ri_caps : caps r;
  ri_steps : (ri_next_lru_seq r ≤ N.of_nat n)%N;
  ri_log : ∀ t k e, ring_find r t k = Some e → log !! (t, k) = Some (entry_snapshot e k);
}.

Lemma touched_inv r r' log n : ring_inv r log n → touched r r' → ring_inv r' log (S n).
Proof.
  intros [Hok Hcaps Hn Hlog] [Hok' Hcaps' Hn' Hsub]. split; [done|by apply Hcaps'|lia|].
  intros t k e' (e & He & ->)%Hsub. by apply Hlog.
Qed.

Lemma insert_inv r log n now t p m args status_of : ring_inv r log n → (∀ c, bounded (status_of c)) →
  ∃ r', ring_insert now r t p m args status_of = Some r'
    ∧ ring_inv r' (<[(t, call_key p m args) := call_record now p m args status_of]> log) (S n)
    ∧ ∃ e, ring_find r' t (call_key p m args) = Some e
        ∧ entry_snapshot e (call_key p m args) = call_record now p m args status_of.
Proof.
  intros [Hok Hcaps Hn Hlog] Hst.
  destruct (ring_insert_spec now r t p m args status_of Hok Hcaps Hst) as (r' & e & H & Hok' & Hcaps' & Hn' & Hf & Hsnap & Hsub).
  exists r'. split_and!; [done| |by eauto]. split; [done|done|lia|]. intros t' k' e' Hf'.
  destruct (decide ((t', k') = (t, call_key p m args))) as [[= -> ->]|Hne].
  - rewrite lookup_insert_eq. rewrite Hf in Hf'. injection Hf' as <-. by rewrite Hsnap.
  - rewrite lookup_insert_ne by done. by apply Hlog, Hsub.
Qed.

Lemma ring_step_inv r log n op : ring_inv r log n → ∃ r', ring_step r op = Some r' ∧ ring_inv r' (log_step log op) (S n).
Proof.
  intros Hinv. destruct op as [now t p m args result|now t p m args|now t p m sha|now t p m|now t|t|now t]; simpl.
  - edestruct (insert_inv r log n now t p m args (λ _, classify result)) as (r' & ? & ? & _); eauto. intros. apply classify_bounded.
  - edestruct (insert_inv r log n now t p m args (λ _, Status_Error)) as (r' & ? & ? & _); eauto. by intros.
  - eexists. split; [done|]. eapply touched_inv; [done|]. apply ring_get_spec, Hinv.
  - eexists. split; [done|]. eapply touched_inv; [done|]. apply latest_spec, Hinv.
  - eexists. split; [done|]. eapply touched_inv; [done|]. apply touched_shrinks, evict_expired_spec, Hinv.
  - destruct (forget_spec t r (ri_ok _ _ _ Hinv)) as [Hs Hf]. eexists. split; [done|].
    destruct (touched_inv _ _ _ _ Hinv (touched_shrinks _ _ Hs)) as [H1 H2 H3 H4]. split; [done..|].
    intros t' k e He. apply map_lookup_filter_Some. split; [by apply H4|]. simpl. intros ->. by rewrite Hf, decide_True in He.
  - eexists. split; [done|]. eapply touched_inv; [done|]. apply touched_shrinks, evict_expired_spec, Hinv.
Qed.

Lemma ring_run_inv ops : ∃ r, ring_run ops = Some r ∧ ring_inv r (call_log ops) (length ops).
Proof.
  unfold ring_run, call_log. induction ops as [|op ops IH] using rev_ind.
  - exists empty_ring. split; [done|]. split; [apply ring_ok_empty| |done|].
    + split; [|done]. intros t. unfold track_len; simpl. by rewrite lookup_empty; unfold MAX_ENTRIES_PER_TRACK; lia.
    + intros t k e. unfold ring_find; simpl. by rewrite lookup_empty.
  - destruct IH as (r & Hr & Hinv). rewrite !foldl_app, Hr, length_app. simpl.
    destruct (ring_step_inv r _ _ op Hinv) as (r' & Hr' & Hinv'). exists r'. split; [done|]. by rewrite Nat.add_1_r.
Qed.

(** Whatever calls are recorded, looked up and forgotten, every operation returns; a
    track holds at most 64 entries, the ring at most 128 MiB, and the byte count is
    exactly the text and arguments of the entries it holds, each of which has its own
    place in the eviction order. A sequence number counts operations. *)
Theorem ring_bounded ops : ∃ r, ring_run ops = Some r
  ∧ (∀ t, track_len r t ≤ MAX_ENTRIES_PER_TRACK) ∧ (ri_total_bytes r ≤ MAX_TOTAL_BYTES)%N
  ∧ ri_total_bytes r = sum_bytes (live r)
  ∧ (∀ t k e, ring_find r t k = Some e →
       ri_order r !! e_lru_seq e = Some (t, k) ∧ e_bytes e = entry_bytes (e_status e) (e_args_canonical e))
  ∧ (∀ i t k, ri_order r !! i = Some (t, k) → ∃ e, ring_find r t k = Some e ∧ e_lru_seq e = i)
  ∧ (ri_next_lru_seq r ≤ N.of_nat (length ops))%N.
Proof.
  destruct (ring_run_inv ops) as (r & Hr & [Hok [Hl Ht] Hn _]). exists r. split_and!; [done..|by apply ok_total| | |done].
  - intros t k e He. split; [apply (ok_order r Hok); eauto|]. by eapply ok_bytes.
  - intros i t k H. by apply (ok_order r Hok).
Qed.

(** C40: The ring implements the log of last calls with losses but without lies: what it
    answers for a call is the log's record of that very call, and what it answers for a
    tool is the log's record of some call of that tool in that track, in both cases no
    older than the time to live. A body of an earlier call never stands in for a later
    one, an error included. *)
Theorem ring_refines_log ops : ∃ r, ring_run ops = Some r
  ∧ (∀ now t p n sha, match (ring_get now r t p n sha).2 with
                      | Some answer => call_log ops !! (t, mkKey p n sha) = Some answer
                                       ∧ (now - rc_completed_at answer ≤ TTL_MS)%Z
                      | None => True
                      end)
  ∧ (∀ now t p n, match (latest now r t p n).2 with
                  | Some answer => call_log ops !! (t, mkKey p n (rc_args_sha256 answer)) = Some answer
                                   ∧ (now - rc_completed_at answer ≤ TTL_MS)%Z
                  | None => True
                  end).
Proof.
  destruct (ring_run_inv ops) as (r & Hr & [Hok _ _ Hlog]). exists r. split_and!; [done| |].
  - intros now t p n sha. rewrite (proj2 (ring_get_spec now r t p n sha Hok)).
    destruct (ring_find r t _) as [e|] eqn:He; [|done]. destruct (expired now e) eqn:Hx; [done|].
    split; [by apply Hlog|]. apply Z.ltb_ge in Hx. done.
  - intros now t p n. destruct (latest now r t p n).2 as [answer|] eqn:Ha; [|done].
    destruct (proj2 (latest_spec now r t p n Hok) _ Ha) as ([p' n' sha] & e & He & Hx & -> & <- & <-).
    split; [by apply (Hlog t (mkKey p' n' sha))|]. apply Z.ltb_ge in Hx. done.
Qed.

(** A call just recorded is never evicted by its own recording: until it expires, and
    after any history, its lookup answers what it was classified as. *)
Theorem recorded_call_answered ops now t p n args result : ∃ r,
  ring_run (ops ++ [Op_record now t p n args result]) = Some r
  ∧ ∀ now', (ring_get now' r t p n (args_sha256 to_string sha256_hex args)).2
            = if (TTL_MS <? now' - now)%Z then None else Some (call_record now p n args (λ _, classify result)).
Proof.
  destruct (ring_run_inv ops) as (r & Hr & Hinv). unfold ring_run in *. rewrite foldl_app, Hr. simpl.
  destruct (insert_inv r (call_log ops) (length ops) now t p n args (λ _, classify result) Hinv) as (r' & H & Hinv' & e & He & Hs).
  { intros. apply classify_bounded. }
  exists r'. split; [done|]. intros now'. rewrite (proj2 (ring_get_spec now' r' t p n _ (ri_ok _ _ _ Hinv'))).
  unfold args_sha256. change (mkKey p n (sha256_hex (canonical_args args))) with (call_key p n args). rewrite He.
  unfold expired. rewrite Hs. by replace (e_completed_at e) with now by (by injection Hs).
Qed.
End recording.

(** Sixty-five calls in one track: the first one is gone, the others answer. *)
Module RingSample.

Definition to_string (v : Json) : option str := match v with JInt z => Some (show_N (Z.to_N z)) | _ => None end.
Definition reply (text : str) : CallToolResult := mkCallToolResult [mkContentBlock (lit "text") (Some text) []] None None None.
Definition calls (n : nat) : list RingOp :=
  (λ i, Op_record 0 (lit "track") (lit "market") (lit "quote") (JInt (Z.of_nat i)) (reply (show_N (N.of_nat i)))) <$> seq 0 n.
Definition answer (n i : nat) : option ResultStatus :=
  r ← ring_run to_string id (calls n);
  rc_status <$> (ring_get 1 r (lit "track") (lit "market") (lit "quote") (show_N (N.of_nat i))).2.

Example sixty_five_calls : answer 65 0 = None ∧ answer 65 1 = Some (Status_Ok (lit "1")) ∧ answer 64 0 = Some (Status_Ok (lit "0")).
Proof. vm_compute. auto. Qed.
End RingSample.
