(* ===== verification/Slices.v ===== *)
(** * Slices of text

    The [str] methods the report code adds to those of [Text]: byte-indexed slices, lines
    with their endings, trimming by a predicate, and the [Vec] methods [sort_unstable] and
    [dedup] on offsets. A slice [&s[a..b]] keeps the characters whose byte offset lies in
    the range; on character boundaries that is Rust's slice. *)

From stdpp Require Import prelude sorting.
From S2P Require Import Prelude Text.

(** [&s[a..b]], the text being at byte offset [off]. *)
Fixpoint slice_at (off a b : N) (s : str) : str :=
  match s with
  | [] => []
  | c :: s =>
      let rest := slice_at (off + utf8_width c) a b s in
      if ((a <=? off) && (off <? b))%N then c :: rest else rest
  end.

Definition byte_slice (a b : N) (s : str) : str := slice_at 0 a b s.

(** An offset a slice may start or end at. *)
Definition char_boundary (s : str) (n : N) : Prop := ∃ p, p `prefix_of` s ∧ utf8_len p = n.

(** [s.split_inclusive(sep)]. *)
Fixpoint split_inclusive (sep : N) (s : str) : list str :=
  match s with
  | [] => []
  | c :: s =>
      if (c =? sep)%N then [c] :: split_inclusive sep s
      else match split_inclusive sep s with [] => [[c]] | l :: ls => (c :: l) :: ls end
  end.

(** [trim_start_matches], [trim_end_matches] and [trim_matches] of a predicate. *)
Fixpoint skip_while (p : N → bool) (s : str) : str :=
  match s with c :: s' => if p c then skip_while p s' else s | [] => [] end.
Definition trim_end_matches (p : N → bool) (s : str) : str := reverse (skip_while p (reverse s)).
Definition trim_matches (p : N → bool) (s : str) : str := trim_end_matches p (skip_while p s).
Definition trim_end (s : str) : str := trim_end_matches is_whitespace s.

(** [take_while(..).count()]. *)
Fixpoint run_length (c : N) (s : str) : nat :=
  match s with d :: s => if (d =? c)%N then S (run_length c s) else 0 | [] => 0 end.

(** [rsplit_once] of one character. *)
Definition rsplit_once (sep : N) (s : str) : option (str * str) :=
  match split_once [sep] (reverse s) with
  | Some (after, before) => Some (reverse before, reverse after)
  | None => None
  end.

(** [s.strip_suffix(c).unwrap_or(s)]. *)
Definition without_suffix (p s : str) : str := default s (strip_suffix p s).

Definition ends_with (p s : str) : bool := bool_decide (is_Some (strip_suffix p s)).

(** [Vec::dedup]: repetitions of the previous kept element are dropped. *)
Fixpoint dedup_after (last : N) (l : list N) : list N :=
  match l with
  | [] => []
  | x :: l => if (x =? last)%N then dedup_after last l else x :: dedup_after x l
  end.
Definition dedup (l : list N) : list N := match l with [] => [] | x :: l => x :: dedup_after x l end.

(** [items.join(sep)]. *)
Fixpoint join (sep : str) (l : list str) : str :=
  match l with
  | [] => []
  | [x] => x
  | x :: l => x ++ sep ++ join sep l
  end.

(** A character that does not occur in a literal. *)
Ltac char_absent := let H := fresh in intros H; apply (bool_decide_pack _) in H; by vm_compute in H.

(** ** Byte slices *)
Lemma utf8_width_pos c : (0 < utf8_width c)%N.
Proof. unfold utf8_width. repeat case_match; lia. Qed.

Lemma slice_at_past off a b s : (b ≤ off)%N → slice_at off a b s = [].
Proof.
  revert off. induction s as [|c s IH]; intros off Hb; simpl; [done|].
  rewrite (proj2 (N.ltb_ge off b)), andb_false_r by lia. apply IH. lia.
Qed.

Lemma slice_at_before off a b s : (off + utf8_len s ≤ a)%N → slice_at off a b s = [].
Proof.
  revert off. unfold utf8_len. induction s as [|c s IH]; intros off Ha; simpl; [done|].
  simpl in Ha. pose proof (utf8_width_pos c).
  rewrite (proj2 (N.leb_gt a off)) by lia. apply IH. lia.
Qed.

Lemma slice_at_all off a b s : (a ≤ off)%N → (off + utf8_len s ≤ b)%N → slice_at off a b s = s.
Proof.
  revert off. unfold utf8_len. induction s as [|c s IH]; intros off Ha Hb; simpl; [done|].
  simpl in Hb. pose proof (utf8_width_pos c).
  rewrite (proj2 (N.leb_le a off)), (proj2 (N.ltb_lt off b)) by lia. simpl. f_equal. apply IH; lia.
Qed.

Lemma slice_at_str_app off a b s t :
  slice_at off a b (s ++ t) = slice_at off a b s ++ slice_at (off + utf8_len s) a b t.
Proof.
  revert off. induction s as [|c s IH]; intros off; simpl; [by rewrite N.add_0_r|].
  rewrite IH. replace (off + utf8_width c + utf8_len s)%N with (off + (utf8_width c + utf8_len s))%N by lia.
  by case_match.
Qed.

Lemma slice_at_split off a m b s :
  (a ≤ m)%N → (m ≤ b)%N → slice_at off a m s ++ slice_at off m b s = slice_at off a b s.
Proof.
  intros Ham Hmb. revert off. induction s as [|c s IH]; intros off; simpl; [done|].
  rewrite <-(IH (off + utf8_width c)%N). pose proof (utf8_width_pos c).
  destruct (N.ltb_spec off m).
  - rewrite (proj2 (N.leb_gt m off)), (proj2 (N.ltb_lt off b)), !andb_true_r by lia. simpl.
    by destruct (a <=? off)%N.
  - rewrite andb_false_r, (slice_at_past _ a m) by lia. simpl.
    rewrite (proj2 (N.leb_le a off)), (proj2 (N.leb_le m off)) by lia. done.
Qed.

Lemma byte_slice_split a m b s :
  (a ≤ m)%N → (m ≤ b)%N → byte_slice a m s ++ byte_slice m b s = byte_slice a b s.
Proof. apply slice_at_split. Qed.

Lemma byte_slice_all s : byte_slice 0 (utf8_len s) s = s.
Proof. apply slice_at_all; lia. Qed.

Lemma byte_slice_mid p q r :
  byte_slice (utf8_len p) (utf8_len p + utf8_len q) (p ++ q ++ r) = q.
Proof.
  unfold byte_slice. rewrite !slice_at_str_app, (slice_at_before _ _ _ p), (slice_at_all _ _ _ q) by lia.
  rewrite slice_at_past by lia. by rewrite app_nil_r.
Qed.

(** A slice that lies inside a part of the text is a slice of that part. *)
Lemma byte_slice_shift p q r a b :
  (b ≤ utf8_len q)%N → byte_slice (utf8_len p + a) (utf8_len p + b) (p ++ q ++ r) = byte_slice a b q.
Proof.
  intros Hb. unfold byte_slice. rewrite !slice_at_str_app, slice_at_before by lia. simpl.
  rewrite (slice_at_past _ _ _ r), app_nil_r by lia.
  assert (∀ off, slice_at (utf8_len p + off) (utf8_len p + a) (utf8_len p + b) q = slice_at off a b q) as H; [|by rewrite <-(H 0%N); f_equal; lia].
  clear. induction q as [|c q IH]; intros off; simpl; [done|].
  rewrite <-N.add_assoc, IH.
  replace (utf8_len p + a <=? utf8_len p + off)%N with (a <=? off)%N; [|apply eq_bool_prop_intro; rewrite !Is_true_true, !N.leb_le; lia].
  replace (utf8_len p + off <? utf8_len p + b)%N with (off <? b)%N; [|apply eq_bool_prop_intro; rewrite !Is_true_true, !N.ltb_lt; lia].
  done.
Qed.

Lemma utf8_len_nil s : utf8_len s = 0%N ↔ s = [].
Proof.
  split; [|by intros ->]. destruct s as [|c s]; [done|]. simpl. pose proof (utf8_width_pos c). lia.
Qed.

(** Between two boundaries a slice has the length of the range. *)
Lemma char_boundary_le s a b :
  char_boundary s a → char_boundary s b → (a ≤ b)%N →
  ∃ p q r, s = p ++ q ++ r ∧ utf8_len p = a ∧ utf8_len (p ++ q) = b.
Proof.
  intros (p & Hp & <-) (p' & Hp' & <-) Hle.
  destruct (prefix_weak_total p p' s Hp Hp') as [[q ->]|[q ->]].
  - destruct Hp' as [r ->]. exists p, q, r. by rewrite app_assoc.
  - destruct Hp as [r ->]. rewrite utf8_len_app in Hle |- *. exists p', [], (q ++ r).
    assert (utf8_len q = 0)%N as ->%utf8_len_nil by lia.
    rewrite ?app_nil_r. split_and!; [done|simpl; lia|done].
Qed.

Lemma utf8_len_byte_slice s a b :
  char_boundary s a → char_boundary s b → (a ≤ b)%N → utf8_len (byte_slice a b s) = (b - a)%N.
Proof.
  intros Ha Hb Hle. destruct (char_boundary_le s a b Ha Hb Hle) as (p & q & r & -> & <- & <-).
  rewrite utf8_len_app, byte_slice_mid. lia.
Qed.

Lemma char_boundary_prefix p r : char_boundary (p ++ r) (utf8_len p).
Proof. exists p. split; [by exists r|done]. Qed.

Lemma char_boundary_0 s : char_boundary s 0.
Proof. apply (char_boundary_prefix [] s). Qed.

Lemma char_boundary_len s : char_boundary s (utf8_len s).
Proof. by exists s. Qed.

(** ** Lines *)
Lemma concat_split_inclusive sep s : concat (split_inclusive sep s) = s.
Proof.
  induction s as [|c s IH]; simpl; [done|].
  case_match; simpl; [by rewrite IH|]. destruct (split_inclusive sep s); simpl in *; by rewrite <-IH.
Qed.

(** A line: one separator at most, at the end. *)
Definition is_line (sep : N) (l : str) : Prop := ∃ l', sep ∉ l' ∧ l = l' ++ [sep].

Lemma split_inclusive_line sep l' rest :
  sep ∉ l' → split_inclusive sep (l' ++ (sep :: rest)) = (l' ++ [sep]) :: split_inclusive sep rest.
Proof.
  induction l' as [|c l' IH]; intros Hn; simpl; [by rewrite N.eqb_refl|].
  apply not_elem_of_cons in Hn as [Hc Hl]. rewrite (proj2 (N.eqb_neq c sep)), IH by done. done.
Qed.

Lemma split_inclusive_last sep l : sep ∉ l → split_inclusive sep l = (if is_empty l then [] else [l]).
Proof.
  induction l as [|c l IH]; intros Hn; simpl; [done|].
  apply not_elem_of_cons in Hn as [Hc Hl]. rewrite (proj2 (N.eqb_neq c sep)), IH by done. by destruct l.
Qed.

Lemma split_inclusive_concat sep (ls : list str) t :
  Forall (is_line sep) ls → split_inclusive sep (concat ls ++ t) = ls ++ split_inclusive sep t.
Proof.
  induction 1 as [|l ls (l' & Hl & ->) _ IH]; simpl; [done|].
  rewrite <-!app_assoc. simpl. by rewrite split_inclusive_line, IH.
Qed.

(** Every line but the last ends with the separator. *)
Lemma split_inclusive_lines sep s :
  ∃ (ls : list str) (t : str), split_inclusive sep s = (ls ++ (if is_empty t then [] else [t])) ∧ Forall (is_line sep) ls ∧
          sep ∉ t ∧ s = concat ls ++ t.
Proof.
  induction s as [|c s (ls & t & Hs & Hls & Ht & ->)]; simpl.
  - exists [], []. split_and!; [done|done|apply not_elem_of_nil|done].
  - destruct (N.eqb_spec c sep) as [->|Hc].
    + exists ([sep] :: ls), t. rewrite Hs. split_and!; [done| |done|done].
      constructor; [|done]. exists []. split; [apply not_elem_of_nil|done].
    + rewrite Hs. destruct ls as [|l ls]; simpl.
      * exists [], (c :: t). split_and!; [by destruct t|done| |done]. apply not_elem_of_cons; auto.
      * exists ((c :: l) :: ls), t. split_and!; [done| |done|done].
        apply Forall_cons in Hls as [(l' & Hl & ->) Hls]. constructor; [|done].
        exists (c :: l'). split; [|done]. apply not_elem_of_cons; auto.
Qed.

Lemma split_inclusive_app sep s t :
  s = [] ∨ (∃ s', s = s' ++ [sep]) →
  split_inclusive sep (s ++ t) = split_inclusive sep s ++ split_inclusive sep t.
Proof.
  intros Hend. destruct (split_inclusive_lines sep s) as (ls & u & Hs & Hls & Hu & Heq).
  assert (u = []) as ->.
  { destruct Hend as [->|[s' ->]].
    - symmetry in Heq. apply app_eq_nil in Heq as [_ ?]. done.
    - destruct u as [|c u] using rev_ind; [done|]. rewrite app_assoc in Heq. simplify_list_eq.
      exfalso. apply Hu. rewrite elem_of_app, list_elem_of_singleton. auto. }
  simpl in Hs. rewrite Hs, Heq, !app_nil_r. by apply split_inclusive_concat.
Qed.

Lemma split_inclusive_nonempty sep s : Forall (λ l, l ≠ []) (split_inclusive sep s).
Proof.
  destruct (split_inclusive_lines sep s) as (ls & u & -> & Hls & _ & _).
  apply Forall_app. split; [|destruct u; simpl; by repeat constructor].
  eapply Forall_impl; [done|]. intros l (l' & _ & ->). by destruct l'.
Qed.

(** ** Trimming and splitting *)
Lemma skip_while_head p c s : p c = false → skip_while p (c :: s) = c :: s.
Proof. simpl. by intros ->. Qed.

Lemma trim_end_matches_last p s c : p c = false → trim_end_matches p (s ++ [c]) = s ++ [c].
Proof.
  intros Hc. unfold trim_end_matches. rewrite reverse_snoc, skip_while_head by done.
  by rewrite reverse_cons, reverse_involutive.
Qed.

Lemma without_suffix_app p s : without_suffix p (s ++ p) = s.
Proof. unfold without_suffix. by rewrite (proj2 (strip_suffix_Some p (s ++ p) s)). Qed.

Lemma without_suffix_other c s d : c ≠ d → without_suffix [c] (s ++ [d]) = s ++ [d].
Proof.
  intros Hne. unfold without_suffix. destruct (strip_suffix [c] (s ++ [d])) as [t|] eqn:Hs; [|done].
  apply strip_suffix_Some in Hs. by apply app_inj_2 in Hs as [_ [=]].
Qed.

Lemma trim_matches_ends p c s d : p c = false → p d = false → trim_matches p (c :: s ++ [d]) = c :: s ++ [d].
Proof.
  intros Hc Hd. unfold trim_matches. rewrite skip_while_head by done.
  rewrite app_comm_cons. by apply trim_end_matches_last.
Qed.

Lemma without_suffix_absent c s : c ∉ s → without_suffix [c] s = s.
Proof.
  intros Hn. unfold without_suffix. destruct (strip_suffix [c] s) eqn:Hs; [|done].
  apply strip_suffix_Some in Hs as ->. exfalso. apply Hn. rewrite elem_of_app, list_elem_of_singleton. auto.
Qed.

Lemma split_once_char c (a b : str) : c ∉ a → split_once [c] (a ++ c :: b) = Some (a, b).
Proof.
  induction a as [|x a IH]; intros Hn; simpl; [by rewrite N.eqb_refl|].
  apply not_elem_of_cons in Hn as [Hx Ha]. rewrite (proj2 (N.eqb_neq c x)) by done. by rewrite IH.
Qed.

Lemma rsplit_once_char c (a b : str) : c ∉ b → rsplit_once c (a ++ c :: b) = Some (a, b).
Proof.
  intros Hn. unfold rsplit_once. rewrite reverse_app, reverse_cons, <-app_assoc. cbn [app].
  rewrite split_once_char by (by rewrite elem_of_reverse). by rewrite !reverse_involutive.
Qed.

(** ** Sorted offsets *)
Lemma dedup_after_elem last l x : x ∈ dedup_after last l → x ∈ l.
Proof.
  revert last. induction l as [|y l IH]; intros last; simpl; [done|].
  case_match; rewrite ?elem_of_cons; naive_solver.
Qed.

Lemma elem_of_dedup_after last l x : x ∈ l → x = last ∨ x ∈ dedup_after last l.
Proof.
  revert last. induction l as [|y l IH]; intros last; simpl; rewrite ?elem_of_cons; [set_solver|].
  destruct (N.eqb_spec y last); rewrite ?elem_of_cons; naive_solver.
Qed.

Lemma elem_of_dedup l x : x ∈ dedup l ↔ x ∈ l.
Proof.
  destruct l as [|y l]; simpl; [done|]. rewrite !elem_of_cons. split.
  - intros [->|H%dedup_after_elem]; auto.
  - intros [->|H]; [auto|]. by apply elem_of_dedup_after.
Qed.

Lemma dedup_after_sorted last l :
  StronglySorted N.le (last :: l) → StronglySorted N.lt (last :: dedup_after last l).
Proof.
  revert last. induction l as [|y l IH]; intros last Hs; simpl; [by repeat constructor|].
  apply StronglySorted_inv in Hs as [Hs Hall]. apply Forall_cons in Hall as [Hle Hall].
  destruct (N.eqb_spec y last) as [->|Hne]; [by apply IH|].
  pose proof (IH _ Hs) as Hy. constructor; [done|].
  apply StronglySorted_inv in Hy as [_ Hlt]. constructor; [lia|].
  eapply Forall_impl; [done|]. simpl. lia.
Qed.

Lemma N_sort_sorted (l : list N) : StronglySorted N.le (ord_sort l).
Proof. exact (ord_sort_sorted (T:=N) l). Qed.

Lemma dedup_sorted l : StronglySorted N.le l → StronglySorted N.lt (dedup l).
Proof. destruct l as [|y l]; simpl; [constructor|]. apply dedup_after_sorted. Qed.

(** A strictly ascending list is determined by its elements. *)
Lemma StronglySorted_lt_NoDup l : StronglySorted N.lt l → NoDup l.
Proof.
  induction 1 as [|x l _ IH Hx]; constructor; [|done].
  intros Hin. eapply Forall_forall in Hx; [|done]. lia.
Qed.

#[local] Instance N_lt_antisymm : AntiSymm (=) N.lt.
Proof. intros x y Hx Hy. lia. Qed.

Lemma StronglySorted_lt_ext l1 l2 :
  StronglySorted N.lt l1 → StronglySorted N.lt l2 → (∀ x, x ∈ l1 ↔ x ∈ l2) → l1 = l2.
Proof.
  intros H1 H2 Hext. apply (StronglySorted_unique N.lt); [done|done|].
  apply NoDup_Permutation; auto using StronglySorted_lt_NoDup.
Qed.
