(* ===== verification/Blocks.v ===== *)
(** * Report blocks: slicing a report body and writing its fences

    [crates/calm-types/src/report_blocks/mod.rs] and [fence.rs]. A track report is one
    Markdown text and, at the same time, a list of addressable blocks. [scan] walks the
    lines of a body with a fence state and cuts it before each H1/H2 heading and around
    each well-formed [neige-block] fence; [write_value] prints a payload as canonical JSON;
    [strip_markers_and_split] takes the block-id markers of a marked read out again. Byte
    offsets stay byte offsets; [serde_json]'s reader and its rendering of one scalar are the
    parameters of [SerdeText]. *)

From stdpp Require Import prelude strings list sorting.
From S2P Require Import Prelude Text Slices Float64 Identity.

(** [serde_json::from_str::<Value>] and [serde_json::to_string] of a scalar. *)
Class SerdeText := {
  json_from_str : str → option Json;
  json_scalar : Json → str;
}.

(** A derived, addressable slice of a track report ([track_report.rs]). *)
Record ReportBlock := mkReportBlock {
  rb_id : str;
  rb_kind : str;
  rb_rev : N;
  rb_payload : Json;
}.

Definition KIND_PROSE : str := lit "prose".
Definition KIND_TASK : str := lit "task".
Definition KIND_OBJECTIVE : str := lit "objective".

Definition DATA_KINDS : list str :=
  lit <$> ["chart.candles"; "chart.series"; "table"; "app"; "task"; "preview"; "view"; "window";
           "html"; "objective"]%string.

Definition is_data_kind (kind : str) : bool := bool_decide (kind ∈ DATA_KINDS).
Definition in_sections (kind : str) : bool := bool_decide (kind ≠ KIND_TASK) && bool_decide (kind ≠ KIND_OBJECTIVE).

Definition backtick : N := 96.
Definition tilde : N := 126.
Definition newline : N := 10.
Definition dash : str := [8212%N].
Definition ticks : str := lit "```".

(** ** Canonical JSON ([fence.rs]) *)
Section fence.
Context `{Serde : SerdeText}.

Definition is_scalar (v : Json) : bool :=
  match v with JObject _ | JArray _ => false | _ => true end.

Definition pad (indent : nat) : str := concat (replicate indent (lit "  ")).

(** Items one per line, a comma after all but the last. *)
Fixpoint broken_lines (indent : nat) (items : list str) : str :=
  match items with
  | [] => []
  | [item] => pad indent ++ item ++ [newline]
  | item :: items => pad indent ++ item ++ lit "," ++ [newline] ++ broken_lines indent items
  end.

(** The keys of an object are written in their order. *)
Definition object_text (indent : nat) (entries : list (str * str)) : str :=
  if is_empty entries then lit "{}"
  else lit "{" ++ [newline]
       ++ broken_lines (S indent)
            ((λ kv, json_scalar (JString kv.1) ++ lit ": " ++ kv.2) <$> merge_sort entry_le entries)
       ++ pad indent ++ lit "}".

Definition array_text (indent : nat) (items : list Json) (texts : list str) : str :=
  if is_empty items then lit "[]"
  else if forallb is_scalar items then lit "[" ++ join (lit ", ") (json_scalar <$> items) ++ lit "]"
  else lit "[" ++ [newline] ++ broken_lines (S indent) texts ++ pad indent ++ lit "]".

Fixpoint write_value (v : Json) (indent : nat) : str :=
  match v with
  | JObject fields =>
      object_text indent
        ((fix go (fields : list (str * Json)) : list (str * str) :=
            match fields with
            | [] => []
            | (k, w) :: rest => (k, write_value w (S indent)) :: go rest
            end) fields)
  | JArray items =>
      array_text indent items
        ((fix go (items : list Json) : list str :=
            match items with
            | [] => []
            | w :: rest => write_value w (S indent) :: go rest
            end) items)
  | scalar => json_scalar scalar
  end.

Definition canonical_json (v : Json) : str := write_value v 0.

(** The fence of a non-prose block. *)
Record NonProseFence := mkNonProseFence { npf_kind : str; npf_payload : Json }.

Definition is_kind_byte (c : N) : bool :=
  is_ascii_lowercase c || is_ascii_digit c || (c =? 46)%N || (c =? 95)%N || (c =? 45)%N.

Definition neige_open_kind (line : str) : option str :=
  match strip_prefix (lit "```neige-block ") line with
  | None => None
  | Some kind =>
      let kind := without_suffix [newline] kind in
      let kind := without_suffix [13%N] kind in
      if negb (is_empty kind) && forallb is_kind_byte kind then Some kind else None
  end.

Definition json_is_object (v : Json) : bool := match v with JObject _ => true | _ => false end.

Definition parse_fence (raw : str) : option NonProseFence :=
  match split_once [newline] raw with
  | None => None
  | Some (first_line, rest) =>
      match neige_open_kind first_line with
      | None => None
      | Some kind =>
          let rest := without_suffix [newline] rest in
          let '(interior, close) := default ([], rest) (rsplit_once newline rest) in
          let close := without_suffix [13%N] close in
          if bool_decide (close = ticks) then
            match json_from_str interior with
            | Some payload =>
                if json_is_object payload then Some (mkNonProseFence kind payload) else None
            | None => None
            end
          else None
      end
  end.

Definition render_fence (kind : str) (payload : Json) : str :=
  lit "```neige-block " ++ kind ++ [newline] ++ canonical_json payload ++ [newline] ++ ticks ++ [newline].
End fence.

(** ** The line scanner ([mod.rs]) *)
Definition is_h1_or_h2 (line : str) : bool := starts_with (lit "# ") line || starts_with (lit "## ") line.

Definition fence_run (line : str) (marker : N) : option nat :=
  let length := run_length marker line in
  if bool_decide (3 ≤ length) then Some length else None.

(** At most three spaces of indentation; the scan stops after four. *)
Definition strip_fence_indent (line : str) : str :=
  let indent := run_length 32%N (take 4 line) in
  if bool_decide (indent ≤ 3) then drop indent line else line.

Definition fence_tail_is_blank (line : str) (run : nat) : bool :=
  forallb (λ c, (c =? 32) || (c =? 9))%N (drop run line).

Definition opening_fence (line : str) : option (N * nat) :=
  let line := strip_fence_indent line in
  let try_marker (marker : N) : option (N * nat) :=
    match fence_run line marker with
    | Some length =>
        if negb (marker =? backtick)%N || negb (contains [backtick] (drop length line))
        then Some (marker, length) else None
    | None => None
    end in
  match try_marker backtick with Some m => Some m | None => try_marker tilde end.

Definition malformed_fence_error (start : N) : str :=
  lit "malformed ```neige-block fence starting at byte " ++ show_N start
  ++ lit ": the fence interior must be a single JSON object and the opening/closing ``` lines must be unindented and undecorated".

Definition indented_opener_error (offset : N) : str :=
  lit "indented ```neige-block opener at byte " ++ show_N offset
  ++ lit ": a neige-block fence must start at column 0 " ++ dash
  ++ lit " remove the leading spaces (or wrap the snippet in a ~~~ fence if it is only an example)".

Definition trailing_text_error (offset : N) : str :=
  lit "```neige-block opener with trailing text at byte " ++ show_N offset
  ++ lit ": the info string must be exactly `neige-block <kind>` " ++ dash
  ++ lit " remove everything after the kind".

Definition unterminated_fence_error (start : N) : str :=
  lit "unterminated ```neige-block fence starting at byte " ++ show_N start
  ++ lit " (missing closing ``` line)".

(** The locals of the loop: offset, cut points, refused fences, and the open fence with
    its marker, minimal closing run and, for a [neige-block], its start. *)
Record ScanState := mkScanState {
  ss_offset : N;
  ss_starts : list N;
  ss_invalid : list str;
  ss_fence : option (N * nat * option N);
}.

Section scan.
Context `{Serde : SerdeText}.

Definition opener_errors (line : str) (offset : N) : list str :=
  let stripped := strip_fence_indent line in
  if starts_with (lit "```neige-block") stripped then
    if bool_decide (utf8_len stripped ≠ utf8_len line) then [indented_opener_error offset]
    else match strip_prefix (lit "```neige-block ") line with
         | Some rest =>
             if contains_char (λ c, (c =? 32) || (c =? 9))%N (trim_end rest)
             then [trailing_text_error offset] else []
         | None => []
         end
  else [].

Definition scan_line (body : str) (st : ScanState) (line_with_ending : str) : ScanState :=
  let line_end := (ss_offset st + utf8_len line_with_ending)%N in
  let line := without_suffix [13%N] (without_suffix [newline] line_with_ending) in
  match ss_fence st with
  | Some (marker, minimum, neige_start) =>
      let fence_line := strip_fence_indent line in
      if match fence_run fence_line marker with
         | Some length => bool_decide (minimum ≤ length) && fence_tail_is_blank fence_line length
         | None => false
         end
      then
        match neige_start with
        | Some start =>
            if bool_decide (is_Some (parse_fence (byte_slice start line_end body)))
            then mkScanState line_end (ss_starts st ++ [start; line_end]) (ss_invalid st) None
            else mkScanState line_end (ss_starts st) (ss_invalid st ++ [malformed_fence_error start]) None
        | None => mkScanState line_end (ss_starts st) (ss_invalid st) None
        end
      else mkScanState line_end (ss_starts st) (ss_invalid st) (ss_fence st)
  | None =>
      match neige_open_kind line with
      | Some _ =>
          mkScanState line_end (ss_starts st) (ss_invalid st) (Some (backtick, 3, Some (ss_offset st)))
      | None =>
          match opening_fence line with
          | Some (marker, length) =>
              mkScanState line_end (ss_starts st)
                (ss_invalid st ++ (if (marker =? backtick)%N then opener_errors line (ss_offset st) else []))
                (Some (marker, length, None))
          | None =>
              mkScanState line_end
                (if is_h1_or_h2 line then ss_starts st ++ [ss_offset st] else ss_starts st)
                (ss_invalid st) None
          end
      end
  end.

Definition scan_lines (body : str) (st : ScanState) (lines : list str) : ScanState :=
  foldl (scan_line body) st lines.

(** [starts.iter().enumerate().map(|(i, start)| body[start..starts.get(i + 1)])]. *)
Definition slices_at (body : str) (starts : list N) : list str :=
  imap (λ index start, byte_slice start (default (utf8_len body) (starts !! S index)) body) starts.

Record Scan := mkScan { scan_slices : list str; scan_invalid_fences : list str }.

Definition cut_points (body : str) (starts : list N) : list N :=
  let starts := dedup (ord_sort starts) in
  let starts := filter (λ start, start < utf8_len body)%N starts in
  if bool_decide (head starts = Some 0%N) then starts else 0%N :: starts.

Definition scan (body : str) : Scan :=
  let st := scan_lines body (mkScanState 0 [] [] None) (split_inclusive newline body) in
  let invalid_fences :=
    match ss_fence st with
    | Some (_, _, Some start) => ss_invalid st ++ [unterminated_fence_error start]
    | _ => ss_invalid st
    end in
  if is_empty body then mkScan [[]] invalid_fences
  else mkScan (slices_at body (cut_points body (ss_starts st))) invalid_fences.

Definition split_body (body : str) : list str := scan_slices (scan body).
Definition invalid_neige_fences (body : str) : list str := scan_invalid_fences (scan body).

Definition flatten (blocks : list str) : str := concat blocks.

Definition check_prose_markdown (markdown : str) : result unit str :=
  match invalid_neige_fences markdown with
  | first :: _ => Err first
  | [] =>
      if existsb (λ slice, bool_decide (is_Some (parse_fence slice))) (split_body markdown)
      then Err (lit "prose markdown may not embed a ```neige-block fence " ++ dash
                ++ lit " create the data block with its own kind")
      else Ok tt
  end.

Definition unknown_kind_message (kind : str) : str :=
  lit "unknown kind `" ++ kind ++ lit "` " ++ dash ++ lit " supported kinds: " ++ KIND_PROSE
  ++ lit ", " ++ join (lit ", ") DATA_KINDS.

(** A block's contribution to the flat body. *)
Definition flat_text (block : ReportBlock) : str :=
  if bool_decide (rb_kind block = KIND_PROSE)
  then default [] (json_get (rb_payload block) (lit "markdown") ≫= json_as_str)
  else render_fence (rb_kind block) (rb_payload block).

Definition append_block_text (body text : str) : str :=
  (if negb (is_empty body) && negb (ends_with [newline] body) then body ++ [newline] else body) ++ text.

(** ** Block-id markers *)
Definition marker_line (id : str) : str := lit "<!-- neige:" ++ id ++ lit " -->" ++ [newline].

Definition is_hex_byte (c : N) : bool := (is_ascii_digit c || (97 <=? c) && (c <=? 102))%N.

Definition marker_line_id (line : str) : option str :=
  let line := without_suffix [newline] line in
  let line := without_suffix [13%N] line in
  match strip_prefix (lit "<!-- neige:") (trim_matches (λ c, (c =? 32) || (c =? 9))%N line) with
  | None => None
  | Some rest =>
      match strip_suffix (lit " -->") rest with
      | None => None
      | Some id =>
          if (utf8_len id =? 6)%N && starts_with (lit "b_") id && forallb is_hex_byte (drop 2 id)
          then Some id else None
      end
  end.

Record MarkedBody := mkMarkedBody { mb_cleaned : str; mb_slices : list str; mb_hints : list (option str) }.

(** The text without its marker lines, and each marker with the offset it stood at. *)
Definition strip_line (acc : str * list (N * str)) (line : str) : str * list (N * str) :=
  match marker_line_id line with
  | Some id => (acc.1, acc.2 ++ [(utf8_len acc.1, id)])
  | None => (acc.1 ++ line, acc.2)
  end.

Definition strip_markers (body : str) : str * list (N * str) :=
  foldl strip_line ([], []) (split_inclusive newline body).

(** The offsets the slices start at. *)
Fixpoint slice_offsets (offset : N) (slices : list str) : list N :=
  match slices with
  | [] => []
  | slice :: slices => offset :: slice_offsets (offset + utf8_len slice) slices
  end.

(** [binary_search] on the sorted cut points finds the one equal entry, if any. *)
Definition bind_hint (starts : list N) (hints : list (option str)) (m : N * str) : list (option str) :=
  match list_find (λ start, start = m.1) starts with
  | Some (index, _) => <[index := Some m.2]> hints
  | None => hints
  end.

Definition strip_markers_and_split (body : str) : MarkedBody :=
  let '(cleaned, markers) := strip_markers body in
  let starts := slice_offsets 0 (split_body cleaned)
                ++ filter (λ offset, offset < utf8_len cleaned)%N markers.*1 in
  let starts := dedup (ord_sort starts) in
  let slices := slices_at cleaned starts in
  mkMarkedBody cleaned slices (foldl (bind_hint starts) (replicate (length slices) None) markers).
End scan.
