(* ===== verification/BlockRules.v ===== *)
(** * Slicing a report body is lossless

    The rules of [Blocks]: the slices of a body concatenate to it, a marked body splits back
    into the texts and ids it was rendered from, a written fence is read as it was written
    and is cut out whole, and the canonical text of a payload depends on its content alone. *)

From stdpp Require Import prelude strings list sorting.
From S2P Require Import Prelude Text Slices Float64 Identity Blocks.

(** ** Cutting at offsets *)
Lemma slices_at_cons body s starts :
  slices_at body (s :: starts) =
  byte_slice s (default (utf8_len body) (head starts)) body :: slices_at body starts.
Proof. unfold slices_at. simpl. f_equal. by destruct starts. Qed.

Lemma flatten_slices_at body s starts :
  StronglySorted N.lt (s :: starts) → Forall (λ t, t < utf8_len body)%N (s :: starts) →
  flatten (slices_at body (s :: starts)) = byte_slice s (utf8_len body) body.
Proof.
  unfold flatten. revert s. induction starts as [|t starts IH]; intros s Hs Hlt; rewrite slices_at_cons; cbn [concat head default].
  - apply app_nil_r.
  - apply StronglySorted_inv in Hs as [Hs Hall]. apply Forall_cons in Hall as [Hst _].
    apply Forall_cons in Hlt as [_ Hlt]. pose proof (Forall_inv Hlt) as Ht. simpl in Ht.
    rewrite (IH t) by done. apply byte_slice_split; lia.
Qed.

Lemma length_slices_at body starts : length (slices_at body starts) = length starts.
Proof. apply length_imap. Qed.

Lemma StronglySorted_filter {A} (R : A → A → Prop) (P : A → Prop) `{∀ x, Decision (P x)} (l : list A) :
  StronglySorted R l → StronglySorted R (filter P l).
Proof.
  induction 1 as [|x l Hl IH Hx]; [constructor|].
  rewrite filter_cons. case_decide; [|done]. constructor; [done|].
  rewrite Forall_forall in *. intros y [_ Hy]%list_elem_of_filter. auto.
Qed.

Lemma cut_points_spec body starts :
  body ≠ [] →
  ∃ rest, cut_points body starts = 0%N :: rest ∧ StronglySorted N.lt (0%N :: rest) ∧
          Forall (λ t, t < utf8_len body)%N (0%N :: rest).
Proof.
  intros Hb. assert (0 < utf8_len body)%N as Hpos.
  { destruct (N.eq_0_gt_0_cases (utf8_len body)) as [H%utf8_len_nil|]; [done|lia]. }
  unfold cut_points. set (l := filter _ (dedup _)).
  assert (StronglySorted N.lt l) as Hs.
  { apply StronglySorted_filter, dedup_sorted, N_sort_sorted. }
  assert (Forall (λ t, t < utf8_len body)%N l) as Hl.
  { apply Forall_forall. by intros x [Hx _]%list_elem_of_filter. }
  case_bool_decide as Hd.
  - destruct l as [|x l]; simplify_eq/=. eauto.
  - exists l. split_and!; [done| |by constructor]. constructor; [done|].
    destruct l as [|x l]; [constructor|]. simpl in Hd.
    apply StronglySorted_inv in Hs as [_ Hx].
    assert (0 < x)%N by (destruct (N.eq_0_gt_0_cases x); [congruence|done]).
    constructor; [done|]. eapply Forall_impl; [done|]. simpl. lia.
Qed.

Section blocks.
Context `{Serde : SerdeText}.

(** Cutting a body into slices loses and adds nothing: the slices concatenate to the body byte for byte. *)
Theorem split_lossless body : flatten (split_body body) = body.
Proof.
  unfold split_body, scan. destruct (is_empty body) eqn:He; [by destruct body|].
  destruct (cut_points_spec body
    (ss_starts (scan_lines body (mkScanState 0 [] [] None) (split_inclusive newline body))))
    as (rest & Hc & Hs & Hl); [by destruct body|].
  cbn [scan_slices]. rewrite Hc, flatten_slices_at by done. apply byte_slice_all.
Qed.

(** ** A text inside a larger body scans as it does alone *)
Definition shift_fence (d : N) (f : option (N * nat * option N)) : option (N * nat * option N) :=
  match f with Some (marker, minimum, start) => Some (marker, minimum, N.add d <$> start) | None => None end.

(** [st] is the state [st0] of the scan of a part, at displacement [d], after the cut points [before]. *)
Record shifted (d : N) (before : list N) (st0 st : ScanState) : Prop := {
  sh_offset : ss_offset st = (d + ss_offset st0)%N;
  sh_starts : ss_starts st = before ++ (N.add d <$> ss_starts st0);
  sh_fence : ss_fence st = shift_fence d (ss_fence st0);
}.

Lemma scan_line_shifted p q r before st0 st line :
  (ss_offset st0 + utf8_len line ≤ utf8_len q)%N →
  shifted (utf8_len p) before st0 st →
  shifted (utf8_len p) before (scan_line q st0 line) (scan_line (p ++ q ++ r) st line).
Proof.
  intros Hin [Ho Hs Hf]. unfold scan_line. rewrite Hf, Ho.
  destruct (ss_fence st0) as [[[marker minimum] [start|]]|]; cbn [shift_fence fmap option_fmap option_map].
  - destruct (match fence_run _ _ with Some _ => _ | None => _ end);
      [|by constructor; cbn; rewrite ?Ho, ?Hs; [lia|..]].
    rewrite <-N.add_assoc, byte_slice_shift by done.
    case_bool_decide; constructor; cbn; rewrite ?Hs, ?fmap_app, ?app_assoc; done || lia.
  - destruct (match fence_run _ _ with Some _ => _ | None => _ end);
      constructor; cbn; rewrite ?Ho, ?Hs; done || lia.
  - destruct (neige_open_kind _); [constructor; cbn; rewrite ?Ho, ?Hs; done || lia|].
    destruct (opening_fence _) as [[marker length]|]; [constructor; cbn; rewrite ?Ho, ?Hs; done || lia|].
    constructor; cbn; [lia| |done]. destruct (is_h1_or_h2 _); rewrite Hs, ?fmap_app, ?app_assoc; done.
Qed.

Lemma scan_lines_shifted p q r before lines st0 st :
  (ss_offset st0 + utf8_len (concat lines) ≤ utf8_len q)%N →
  shifted (utf8_len p) before st0 st →
  shifted (utf8_len p) before (scan_lines q st0 lines) (scan_lines (p ++ q ++ r) st lines).
Proof.
  unfold scan_lines. revert st0 st. induction lines as [|line lines IH]; intros st0 st Hin Hsh; [done|].
  cbn [concat] in Hin. rewrite utf8_len_app in Hin. cbn [foldl].
  apply IH; [|apply scan_line_shifted; [lia|done]].
  assert (ss_offset (scan_line q st0 line) = (ss_offset st0 + utf8_len line)%N) as ->; [|lia].
  unfold scan_line. repeat case_match; done.
Qed.

Definition scan_text (t : str) : ScanState :=
  scan_lines t (mkScanState 0 [] [] None) (split_inclusive newline t).

(** A text scanned from outside any fence, anywhere in a body. *)
Lemma scan_part p q r st :
  ss_offset st = utf8_len p → ss_fence st = None →
  shifted (utf8_len p) (ss_starts st) (scan_text q) (scan_lines (p ++ q ++ r) st (split_inclusive newline q)).
Proof.
  intros Ho Hf. apply scan_lines_shifted.
  - rewrite concat_split_inclusive. cbn. lia.
  - constructor; cbn; [lia|by rewrite app_nil_r|done].
Qed.

Lemma scan_text_offset t : ss_offset (scan_text t) = utf8_len t.
Proof.
  assert (∀ lines st, ss_offset (scan_lines t st lines) = (ss_offset st + utf8_len (concat lines))%N) as H.
  { induction lines as [|line lines IH]; intros st; cbn; [lia|]. rewrite utf8_len_app.
    unfold scan_lines in IH |- *. cbn. rewrite IH.
    assert (ss_offset (scan_line t st line) = (ss_offset st + utf8_len line)%N) as ->; [|lia].
    unfold scan_line. repeat case_match; done. }
  unfold scan_text. rewrite H, concat_split_inclusive. done.
Qed.

(** Cut points lie at or before the end of the scanned text. *)
Definition starts_bounded (st : ScanState) : Prop :=
  Forall (λ s, s ≤ ss_offset st)%N (ss_starts st) ∧
  match ss_fence st with Some (_, _, Some start) => (start ≤ ss_offset st)%N | _ => True end.

Lemma scan_line_bounded t st line : starts_bounded st → starts_bounded (scan_line t st line).
Proof.
  intros [Hs Hf]. unfold scan_line.
  assert (Forall (λ s, s ≤ ss_offset st + utf8_len line)%N (ss_starts st)) as Hs'.
  { eapply Forall_impl; [done|]. simpl. lia. }
  repeat case_match; simplify_eq; split; cbn; try done; try lia;
    try (apply Forall_app; (split; [done|])); repeat constructor; simpl; try lia.
Qed.

Lemma scan_text_bounded t : Forall (λ s, s ≤ utf8_len t)%N (ss_starts (scan_text t)).
Proof.
  rewrite <-(scan_text_offset t).
  assert (starts_bounded (scan_text t)) as [H _]; [|done].
  unfold scan_text, scan_lines.
  assert (∀ lines st, starts_bounded st → starts_bounded (foldl (scan_line t) st lines)) as H.
  { induction lines as [|line lines IH]; intros st Hst; cbn; [done|]. by apply IH, scan_line_bounded. }
  apply H. split; cbn; done.
Qed.

Lemma elem_of_cut_points body starts s :
  s ∈ cut_points body starts ↔ s = 0%N ∨ s ∈ starts ∧ (s < utf8_len body)%N.
Proof.
  unfold cut_points. set (l := filter _ _).
  assert (s ∈ l ↔ s ∈ starts ∧ (s < utf8_len body)%N) as Hl.
  { unfold l. rewrite list_elem_of_filter, elem_of_dedup, (ord_sort_perm starts). tauto. }
  case_bool_decide as Hd; [|rewrite elem_of_cons, Hl; done].
  split; [rewrite Hl; tauto|]. intros [->|Hs]; [|by rewrite Hl].
  destruct l; simplify_eq/=. apply list_elem_of_here.
Qed.

(** A text that is one slice has no cut point strictly inside. *)
Lemma one_slice_starts t s :
  t ≠ [] → split_body t = [t] → s ∈ ss_starts (scan_text t) → s = 0%N ∨ s = utf8_len t.
Proof.
  intros Hne Hone Hs. unfold split_body, scan in Hone. destruct t as [|c t]; [done|].
  set (body := c :: t) in *. cbn [is_empty scan_slices body] in Hone. fold body in Hone.
  change (scan_lines body _ _) with (scan_text body) in Hone.
  destruct (cut_points_spec body (ss_starts (scan_text body)) Hne) as (rest & Hc & _).
  pose proof (proj1 (Forall_forall _ _) (scan_text_bounded body) s Hs) as Hle. cbv beta in Hle.
  destruct (decide (s < utf8_len body)%N); [|right; lia]. left.
  assert (s ∈ cut_points body (ss_starts (scan_text body))) as Hin.
  { apply elem_of_cut_points. auto. }
  rewrite Hc in Hin, Hone. apply (f_equal length) in Hone. rewrite length_slices_at in Hone.
  destruct rest; [|done]. by apply list_elem_of_singleton in Hin.
Qed.

(** A text that can stand as a block of its own: one slice, closed, and complete lines. *)
Record block_text (t : str) : Prop := {
  bt_nonempty : t ≠ [];
  bt_newline : ∃ t', t = t' ++ [newline];
  bt_closed : ss_fence (scan_text t) = None;
  bt_one : split_body t = [t];
}.

Lemma concat_newline (texts : list str) :
  Forall block_text texts → concat texts = [] ∨ ∃ s, concat texts = s ++ [newline].
Proof.
  induction 1 as [|t texts Ht _ IH]; [by left|]. right. cbn. destruct (bt_newline _ Ht) as [t' ->].
  destruct IH as [->|[s ->]]; [exists t'; by rewrite app_nil_r|]. exists ((t' ++ [newline]) ++ s). by rewrite <-!app_assoc.
Qed.

Lemma scan_texts (texts : list str) p r st :
  Forall block_text texts → ss_offset st = utf8_len p → ss_fence st = None →
  let st' := scan_lines (p ++ concat texts ++ r) st (split_inclusive newline (concat texts)) in
  ss_offset st' = utf8_len (p ++ concat texts) ∧ ss_fence st' = None ∧
  ∀ s, s ∈ ss_starts st' →
       s ∈ ss_starts st ∨ s ∈ slice_offsets (utf8_len p) texts ∨ s = utf8_len (p ++ concat texts).
Proof.
  intros Hts. revert p st. induction Hts as [|t texts Ht Hts IH]; intros p st Ho Hf; cbn [concat].
  - rewrite app_nil_r. split_and!; cbn; auto.
  - rewrite split_inclusive_app by (right; apply Ht).
    destruct (scan_part p t (concat texts ++ r) st Ho Hf) as [Ho1 Hs1 Hf1].
    unfold scan_lines in *. rewrite foldl_app.
    rewrite <-app_assoc. set (st1 := foldl _ st (split_inclusive newline t)) in *.
    rewrite scan_text_offset, <-utf8_len_app in Ho1. rewrite (bt_closed _ Ht) in Hf1.
    destruct (IH (p ++ t) st1 Ho1 Hf1) as (Ho2 & Hf2 & Hs2).
    rewrite <-!app_assoc in *. split_and!; [done|done|].
    intros s [Hs|Hs]%Hs2; cbn [slice_offsets]; rewrite elem_of_cons.
    + rewrite Hs1, elem_of_app in Hs. destruct Hs as [Hs|(s0 & -> & Hs0)%list_elem_of_fmap]; [auto|].
      apply one_slice_starts in Hs0 as [->| ->]; try apply Ht.
      * right; left; left. lia.
      * rewrite <-utf8_len_app. destruct texts; [right; right; cbn; by rewrite app_nil_r|].
        right; left; right. cbn [slice_offsets]. rewrite utf8_len_app. apply list_elem_of_here.
    + rewrite utf8_len_app in Hs at 1. tauto.
Qed.

(** Every cut point is the start of a line or the end of the text. *)
Definition line_boundary (t : str) (n : N) : Prop :=
  ∃ ls ks, split_inclusive newline t = ls ++ ks ∧ utf8_len (concat ls) = n.

Definition boundaries (t : str) (st : ScanState) : Prop :=
  Forall (line_boundary t) (ss_starts st) ∧
  match ss_fence st with Some (_, _, Some start) => line_boundary t start | _ => True end.

Lemma scan_line_boundaries t st line :
  line_boundary t (ss_offset st) → line_boundary t (ss_offset st + utf8_len line) →
  boundaries t st → boundaries t (scan_line t st line).
Proof.
  intros Ho Hl [Hs Hf]. unfold scan_line.
  repeat case_match; simplify_eq; split; cbn; try done;
    try (apply Forall_app; (split; [done|])); by repeat constructor.
Qed.

Lemma scan_text_line_boundaries t : Forall (line_boundary t) (ss_starts (scan_text t)).
Proof.
  assert (∀ lines ls st, split_inclusive newline t = ls ++ lines → ss_offset st = utf8_len (concat ls) →
            boundaries t st → boundaries t (foldl (scan_line t) st lines)) as H.
  { induction lines as [|line lines IH]; intros ls st Ht Ho Hst; cbn; [done|].
    assert (utf8_len (concat (ls ++ [line])) = ss_offset st + utf8_len line)%N as Hnext.
    { rewrite concat_app, utf8_len_app, Ho. cbn. by rewrite app_nil_r. }
    apply (IH (ls ++ [line])).
    - by rewrite <-app_assoc.
    - rewrite Hnext. unfold scan_line. repeat case_match; done.
    - apply scan_line_boundaries; [by exists ls, (line :: lines)| |done].
      exists (ls ++ [line]), lines. by rewrite <-app_assoc. }
  apply (H _ []); [done|done|by split; cbn].
Qed.

(** So it is a character boundary, and no slice of the scan panics. *)
Lemma line_char_boundary t n : line_boundary t n → char_boundary t n.
Proof.
  intros (ls & ks & Ht & <-). rewrite <-(concat_split_inclusive newline t), Ht, concat_app. apply char_boundary_prefix.
Qed.

Lemma scan_text_boundaries t : Forall (char_boundary t) (ss_starts (scan_text t)).
Proof. eapply Forall_impl; [apply scan_text_line_boundaries|]. intros n. apply line_char_boundary. Qed.

Lemma cut_points_boundaries t : Forall (char_boundary t) (cut_points t (ss_starts (scan_text t))).
Proof.
  apply Forall_forall. intros s [->|[Hs _]]%elem_of_cut_points; [apply char_boundary_0|].
  eapply Forall_forall in Hs; [|apply scan_text_boundaries]. done.
Qed.

Lemma slice_offsets_slices_at t s starts :
  StronglySorted N.lt (s :: starts) → Forall (λ x, x < utf8_len t)%N (s :: starts) →
  Forall (char_boundary t) (s :: starts) →
  slice_offsets s (slices_at t (s :: starts)) = s :: starts.
Proof.
  revert s. induction starts as [|x starts IH]; intros s Hs Hlt Hb; rewrite slices_at_cons; [done|].
  change (default (utf8_len t) (head (x :: starts))) with x. cbn [slice_offsets].
  apply StronglySorted_inv in Hs as [Hs Hall]. apply Forall_cons in Hall as [Hsx _].
  apply Forall_cons in Hb as [Hbs Hb]. apply Forall_cons in Hlt as [_ Hlt].
  pose proof (Forall_inv Hb) as Hbx. cbv beta in Hbx.
  rewrite (utf8_len_byte_slice t s x Hbs Hbx) by lia.
  f_equal. replace (s + (x - s))%N with x by lia. by apply IH.
Qed.

(** Every text but the last ends its line. *)
Definition ends_line (t : str) : Prop := ∃ t', t = t' ++ [newline].

Fixpoint lined (texts : list str) : Prop :=
  match texts with [] => True | t :: texts => (texts ≠ [] → ends_line t) ∧ lined texts end.

Lemma concat_lines_end (ls : list str) : Forall (is_line newline) ls → ls ≠ [] → ends_line (concat ls).
Proof.
  intros Hls Hne. destruct ls as [|l ls _] using rev_ind; [done|].
  apply Forall_app in Hls as [_ [(l' & _ & ->) _]%Forall_cons].
  exists (concat ls ++ l'). rewrite concat_app. cbn. by rewrite app_nil_r, app_assoc.
Qed.

Lemma ends_line_suffix p q : ends_line (p ++ q) → q ≠ [] → ends_line q.
Proof.
  intros [t' Ht] Hne. destruct q as [|c q _] using rev_ind; [done|]. rewrite app_assoc in Ht.
  apply app_inj_tail in Ht as [_ ->]. by exists q.
Qed.

Lemma line_boundary_ends t n p r :
  line_boundary t n → t = p ++ r → utf8_len p = n → (0 < n < utf8_len t)%N → ends_line p.
Proof.
  intros (ls & ks & Hsp & Hn) -> Hp Hlt.
  destruct (split_inclusive_lines newline (p ++ r)) as (ls' & u & Hs & Hls & Hu & Ht).
  assert (p ++ r = concat ls ++ concat ks) as Heq by (by rewrite <-concat_app, <-Hsp, concat_split_inclusive).
  assert (p = concat ls) as ->.
  { apply (f_equal (byte_slice 0 n)) in Heq.
    assert (∀ a b, utf8_len a = n → byte_slice 0 n (a ++ b) = a) as H.
    { intros a b <-. apply (byte_slice_mid [] a b). }
    by rewrite !H in Heq. }
  assert (Forall (is_line newline) ls) as Hl.
  { rewrite Hs in Hsp. destruct ks as [|k ks _] using rev_ind.
    - exfalso. rewrite Heq, app_nil_r in Hlt. lia.
    - rewrite app_assoc in Hsp. destruct u; cbn [is_empty] in Hsp; [rewrite app_nil_r in Hsp; subst ls'|apply app_inj_tail in Hsp as [-> _]];
        repeat (apply Forall_app in Hls as [Hls _]); done. }
  apply concat_lines_end; [done|]. intros ->. cbn in Hn. lia.
Qed.

Lemma slices_at_lined t s starts :
  StronglySorted N.lt (s :: starts) → Forall (λ x, x < utf8_len t)%N (s :: starts) →
  Forall (char_boundary t) (s :: starts) → Forall (line_boundary t) starts → lined (slices_at t (s :: starts)).
Proof.
  revert s. induction starts as [|x starts IH]; intros s Hs Hlt Hb Hl; rewrite slices_at_cons; [done|].
  change (default (utf8_len t) (head (x :: starts))) with x. cbn [lined]. split.
  - intros _. apply StronglySorted_inv in Hs as [_ [Hsx _]%Forall_cons]. apply Forall_cons in Hb as [Hbs [Hbx _]%Forall_cons].
    apply Forall_cons in Hlt as [_ [Hltx _]%Forall_cons]. apply Forall_cons in Hl as [Hl _].
    destruct (char_boundary_le t s x Hbs Hbx) as (p & q & r & -> & <- & <-); [lia|].
    rewrite utf8_len_app, byte_slice_mid. apply (ends_line_suffix p).
    + eapply line_boundary_ends; [done|by rewrite <-app_assoc|done|lia].
    + intros ->. rewrite app_nil_r in Hsx. lia.
  - apply StronglySorted_inv in Hs as [Hs _]. apply Forall_cons in Hb as [_ Hb].
    apply Forall_cons in Hlt as [_ Hlt]. apply Forall_cons in Hl as [_ Hl]. by apply IH.
Qed.

Lemma split_body_lined body : lined (split_body body).
Proof.
  destruct body as [|c t]; [done|]. unfold split_body, scan. cbn [is_empty scan_slices]. set (body := c :: t).
  change (scan_lines body _ _) with (scan_text body).
  destruct (cut_points_spec body (ss_starts (scan_text body))) as (rest & Hc & Hs & Hl); [done|].
  pose proof (cut_points_boundaries body) as Hb. rewrite Hc in *. apply slices_at_lined; [done..|].
  apply StronglySorted_inv in Hs as [_ Hs]. rewrite Forall_forall in *. intros x Hx.
  assert (x ∈ cut_points body (ss_starts (scan_text body))) as [->|[Hin _]]%elem_of_cut_points by (rewrite Hc; by right).
  - apply Hs in Hx. lia.
  - pose proof (scan_text_line_boundaries body) as H. rewrite Forall_forall in H. auto.
Qed.

(** The offsets of the slices of a non-empty body are its cut points. *)
Lemma split_body_offsets t :
  t ≠ [] → slice_offsets 0 (split_body t) = cut_points t (ss_starts (scan_text t)).
Proof.
  intros Hne. destruct (cut_points_spec t (ss_starts (scan_text t)) Hne) as (rest & Hc & Hs & Hl).
  pose proof (cut_points_boundaries t) as Hb. unfold split_body, scan. destruct t as [|c t]; [done|].
  set (body := c :: t) in *. cbn [is_empty scan_slices body]. fold body.
  change (scan_lines body _ _) with (scan_text body). rewrite Hc in *. by apply slice_offsets_slices_at.
Qed.

Lemma elem_of_slice_offsets o (texts : list str) s :
  s ∈ slice_offsets o texts ↔ ∃ p t q, texts = p ++ t :: q ∧ s = (o + utf8_len (concat p))%N.
Proof.
  revert o. induction texts as [|t texts IH]; intros o; cbn [slice_offsets].
  - split; [by intros ?%elem_of_nil|]. by intros ([|] & ? & ? & ? & _).
  - rewrite elem_of_cons, IH. split.
    + intros [->|(p & u & q & -> & ->)]; [exists [], t, texts; cbn; split; [done|lia]|].
      exists (t :: p), u, q. cbn. rewrite utf8_len_app. split; [done|lia].
    + intros ([|t' p] & u & q & ? & ->); simplify_eq/=; [left; lia|].
      right. exists p, u, q. rewrite utf8_len_app. split; [done|lia].
Qed.

Lemma slice_offsets_sorted o (texts : list str) :
  Forall (λ t, t ≠ []) texts → StronglySorted N.lt (slice_offsets o texts) ∧
  Forall (λ s, o ≤ s < o + utf8_len (concat texts))%N (slice_offsets o texts).
Proof.
  intros Hne. revert o. induction Hne as [|t texts Ht _ IH]; intros o; cbn [slice_offsets concat]; [by repeat constructor|].
  assert (0 < utf8_len t)%N by (destruct (N.eq_0_gt_0_cases (utf8_len t)) as [?%utf8_len_nil|]; [done|lia]).
  destruct (IH (o + utf8_len t)%N) as [Hs Hb]. rewrite utf8_len_app. split; constructor; try done.
  - eapply Forall_impl; [done|]. intros s; cbv beta. lia.
  - lia.
  - eapply Forall_impl; [done|]. intros s; cbv beta. lia.
Qed.

Lemma slices_at_offsets p (texts : list str) :
  slices_at (p ++ concat texts) (slice_offsets (utf8_len p) texts) = texts.
Proof.
  revert p. induction texts as [|t texts IH]; intros p; cbn [slice_offsets]; [done|].
  rewrite slices_at_cons. rewrite <-utf8_len_app. cbn [concat]. f_equal.
  - assert (default (utf8_len (p ++ t ++ concat texts)) (head (slice_offsets (utf8_len (p ++ t)) texts))
            = utf8_len p + utf8_len t)%N as ->; [|apply byte_slice_mid].
    destruct texts; cbn; rewrite ?app_nil_r, utf8_len_app; done.
  - rewrite app_assoc. apply IH.
Qed.

Lemma slice_offsets_app o (l k : list str) :
  slice_offsets o (l ++ k) = slice_offsets o l ++ slice_offsets (o + utf8_len (concat l)) k.
Proof.
  revert o. induction l as [|t l IH]; intros o; cbn [app slice_offsets concat]; [by rewrite N.add_0_r|].
  by rewrite IH, utf8_len_app, N.add_assoc.
Qed.

Lemma slice_offsets_shift d o (l : list str) : slice_offsets (d + o) l = N.add d <$> slice_offsets o l.
Proof.
  revert o. induction l as [|t l IH]; intros o; cbn [slice_offsets]; [done|].
  rewrite fmap_cons, <-IH. by rewrite N.add_assoc.
Qed.

Lemma slices_at_nonempty t starts :
  StronglySorted N.lt starts → Forall (λ x, x < utf8_len t)%N starts → Forall (char_boundary t) starts →
  Forall (λ s, s ≠ []) (slices_at t starts).
Proof.
  induction starts as [|a starts IH]; intros Hs Hlt Hb; [constructor|]. rewrite slices_at_cons.
  apply StronglySorted_inv in Hs as [Hs Hall]. apply Forall_cons in Hlt as [Ha Hlt], Hb as [Hba Hb].
  constructor; [|by apply IH]. intros He.
  assert (a < default (utf8_len t) (head starts) ∧ char_boundary t (default (utf8_len t) (head starts)))%N
    as [Hlt' Hb'].
  { destruct starts; simpl; [split; [done|apply char_boundary_len]|]. by apply Forall_cons in Hall as [? _], Hb as [? _]. }
  pose proof (utf8_len_byte_slice t a _ Hba Hb' ltac:(lia)) as Hl. rewrite He in Hl. cbn in Hl. lia.
Qed.

(** The slices of a text, none when there is no text. *)
Definition slices (t : str) : list str := if is_empty t then [] else split_body t.

Lemma concat_slices t : concat (slices t) = t.
Proof. destruct t as [|c t]; [done|]. apply (split_lossless (c :: t)). Qed.

Lemma slices_nonempty t : Forall (λ s, s ≠ []) (slices t).
Proof.
  destruct t as [|c t]; [constructor|]. unfold slices, split_body, scan. cbn [is_empty scan_slices].
  set (body := c :: t). change (scan_lines body _ _) with (scan_text body).
  destruct (cut_points_spec body (ss_starts (scan_text body))) as (rest & Hc & Hs & Hl); [done|].
  pose proof (cut_points_boundaries body) as Hb. rewrite Hc in *. by apply slices_at_nonempty.
Qed.

Lemma elem_of_offsets_slices t s :
  s ∈ slice_offsets 0 (slices t) ↔ t ≠ [] ∧ (s = 0%N ∨ s ∈ ss_starts (scan_text t) ∧ (s < utf8_len t)%N).
Proof.
  destruct t as [|c t]; [split; [by intros ?%elem_of_nil|by intros [? _]]|].
  unfold slices. cbn [is_empty]. rewrite split_body_offsets, elem_of_cut_points by done. naive_solver.
Qed.

(** Texts whose offsets are the cut points of their concatenation are its slices. *)
Lemma split_body_texts (texts : list str) :
  texts ≠ [] → Forall (λ t, t ≠ []) texts →
  (∀ s, s ∈ slice_offsets 0 texts ↔
        s = 0%N ∨ s ∈ ss_starts (scan_text (concat texts)) ∧ (s < utf8_len (concat texts))%N) →
  split_body (concat texts) = texts.
Proof.
  intros Hne Hte Hel. set (body := concat texts) in *.
  assert (body ≠ []) as Hb.
  { unfold body. destruct texts as [|t texts]; [done|]. apply Forall_cons in Hte as [Ht _]. simpl. by destruct t. }
  assert (split_body body = slices_at body (cut_points body (ss_starts (scan_text body)))) as ->.
  { unfold split_body, scan. by destruct body. }
  destruct (cut_points_spec body (ss_starts (scan_text body)) Hb) as (rest & Hc & Hs & _).
  assert (cut_points body (ss_starts (scan_text body)) = slice_offsets 0 texts) as ->.
  { rewrite <-Hc in Hs. apply StronglySorted_lt_ext; [done|by apply slice_offsets_sorted|].
    intros s. by rewrite elem_of_cut_points, Hel. }
  apply (slices_at_offsets []).
Qed.
End blocks.
