(* ===== verification/MarkerRules.v ===== *)
(** * Block-id markers are stripped and bound

    The rules of [strip_markers_and_split]: no marker line reaches storage, the slices are
    the cleaned text, and a marked read of complete blocks comes back block by block, each
    with the id it was shown with. *)

From stdpp Require Import prelude strings list sorting.
From S2P Require Import Prelude Text Slices Float64 Identity Blocks BlockRules.

(** The shape of a block id: [b_] and four lowercase hexadecimal digits. *)
Definition block_id (id : str) : Prop :=
  ∃ hex, id = lit "b_" ++ hex ∧ length hex = 4 ∧ forallb is_hex_byte hex = true.

Lemma is_hex_byte_bound c : is_hex_byte c = true → (48 <= c < 103)%N.
Proof. unfold is_hex_byte, is_ascii_digit. rewrite orb_true_iff, !andb_true_iff, !N.leb_le. lia. Qed.

Lemma utf8_len_ascii s : forallb is_hex_byte s = true → utf8_len s = N.of_nat (length s).
Proof.
  induction s as [|c s IH]; [done|]. cbn [forallb]. rewrite andb_true_iff. intros [Hc%is_hex_byte_bound Hs].
  cbn [utf8_len foldr length]. unfold utf8_len in IH. rewrite (IH Hs). unfold utf8_width.
  rewrite (proj2 (N.ltb_lt c 128)) by lia. lia.
Qed.

Lemma marker_line_id_marker_line id : block_id id → marker_line_id (marker_line id) = Some id.
Proof.
  intros (hex & -> & Hlen & Hhex). set (id := lit "b_" ++ hex).
  assert (marker_line id = (60%N :: (lit "!-- neige:" ++ id ++ lit " --") ++ [62%N]) ++ [newline]) as Hm.
  { unfold marker_line. rewrite <-!app_comm_cons, <-!app_assoc. done. }
  unfold marker_line_id. rewrite Hm, without_suffix_app.
  rewrite app_comm_cons, without_suffix_other, <-app_comm_cons, trim_matches_ends by done.
  replace (60%N :: (lit "!-- neige:" ++ id ++ lit " --") ++ [62%N]) with (lit "<!-- neige:" ++ id ++ lit " -->")
    by (rewrite <-!app_assoc; done).
  rewrite strip_prefix_app, (proj2 (strip_suffix_Some (lit " -->") _ id)) by done.
  unfold id. rewrite utf8_len_app, (utf8_len_ascii hex Hhex), Hlen.
  rewrite (proj2 (starts_with_spec _ _)) by (by exists hex).
  change (drop 2 (lit "b_" ++ hex)) with hex. by rewrite Hhex.
Qed.

Section markers.
Context `{Serde : SerdeText}.

Definition unmarked (line : str) : Prop := marker_line_id line = None.
#[local] Instance unmarked_dec line : Decision (unmarked line).
Proof. apply _. Defined.

Lemma strip_lines lines acc :
  (foldl strip_line acc lines).1 = acc.1 ++ concat (filter unmarked lines).
Proof.
  revert acc. induction lines as [|line lines IH]; intros acc; cbn [foldl]; [by rewrite app_nil_r|].
  rewrite IH, filter_cons. unfold strip_line. destruct (marker_line_id line) eqn:Hm.
  - rewrite decide_False by (unfold unmarked; congruence). done.
  - rewrite decide_True by done. cbn. by rewrite <-app_assoc.
Qed.

(** Offsets of the markers lie inside the cleaned text, on a boundary. *)
Lemma strip_lines_offsets lines acc :
  Forall (λ m, char_boundary acc.1 m.1) acc.2 →
  Forall (λ m, char_boundary (foldl strip_line acc lines).1 m.1) (foldl strip_line acc lines).2.
Proof.
  revert acc. induction lines as [|line lines IH]; intros acc Hacc; cbn [foldl]; [done|]. apply IH.
  unfold strip_line. destruct (marker_line_id line); cbn.
  - apply Forall_app. split; [done|]. repeat constructor. apply char_boundary_len.
  - eapply Forall_impl; [done|]. intros m (p & [r ->] & <-). exists p. split; [|done]. exists (r ++ line). by rewrite app_assoc.
Qed.

Lemma split_inclusive_filter body :
  split_inclusive newline (concat (filter unmarked (split_inclusive newline body)))
  = filter unmarked (split_inclusive newline body).
Proof.
  destruct (split_inclusive_lines newline body) as (ls & t & -> & Hls & Ht & _).
  rewrite filter_app, concat_app, split_inclusive_concat.
  - f_equal. destruct t as [|c t]; [done|]. cbn [is_empty]. rewrite filter_cons, filter_nil.
    case_decide; [|done]. cbn [concat]. rewrite app_nil_r. by rewrite split_inclusive_last.
  - apply Forall_forall. intros l [_ Hl]%list_elem_of_filter. by eapply Forall_forall in Hls.
Qed.

(** Where the marked text is cut. *)
Definition marked_starts (cleaned : str) (markers : list (N * str)) : list N :=
  dedup (ord_sort (slice_offsets 0 (split_body cleaned)
                   ++ filter (λ offset, offset < utf8_len cleaned)%N markers.*1)).

Lemma elem_of_marked_starts cleaned markers s :
  s ∈ marked_starts cleaned markers ↔
  s ∈ slice_offsets 0 (split_body cleaned) ∨ s ∈ markers.*1 ∧ (s < utf8_len cleaned)%N.
Proof.
  unfold marked_starts. rewrite elem_of_dedup, (ord_sort_perm (_ ++ _)), elem_of_app, list_elem_of_filter. tauto.
Qed.

Lemma marked_starts_spec cleaned markers :
  cleaned ≠ [] →
  ∃ rest, marked_starts cleaned markers = 0%N :: rest ∧ StronglySorted N.lt (0%N :: rest) ∧
          Forall (λ t, t < utf8_len cleaned)%N (0%N :: rest).
Proof.
  intros Hne. assert (StronglySorted N.lt (marked_starts cleaned markers)) as Hs.
  { apply dedup_sorted, N_sort_sorted. }
  destruct (cut_points_spec cleaned (ss_starts (scan_text cleaned)) Hne) as (cuts & Hc & _ & Hl).
  assert (0%N ∈ marked_starts cleaned markers) as H0.
  { apply elem_of_marked_starts. left. rewrite split_body_offsets, Hc by done. apply list_elem_of_here. }
  assert (Forall (λ t, t < utf8_len cleaned)%N (marked_starts cleaned markers)) as Hlt.
  { apply Forall_forall. intros s [Hin|[_ Hin]]%elem_of_marked_starts; [|done].
    rewrite split_body_offsets, Hc in Hin by done. by eapply Forall_forall in Hl. }
  destruct (marked_starts cleaned markers) as [|x rest]; [by apply elem_of_nil in H0|].
  assert (x = 0%N) as ->; [|eauto].
  apply elem_of_cons in H0 as [H0|H0]; [done|].
  apply StronglySorted_inv in Hs as [_ Hx]. eapply Forall_forall in Hx; [|done]. lia.
Qed.

Lemma length_bind_hints starts hints markers :
  length (foldl (bind_hint starts) hints markers) = length hints.
Proof.
  revert hints. induction markers as [|m markers IH]; intros hints; cbn [foldl]; [done|].
  rewrite IH. unfold bind_hint. destruct (list_find _ starts) as [[i ?]|]; [|done]. by rewrite length_insert.
Qed.

(** A marker never reaches storage: the cleaned text is the body less its marker lines and
    holds none, the slices concatenate to it, and every slice has one hint position. *)
Theorem markers_stripped body :
  let mb := strip_markers_and_split body in
  split_inclusive newline (mb_cleaned mb) = filter unmarked (split_inclusive newline body) ∧
  Forall unmarked (split_inclusive newline (mb_cleaned mb)) ∧
  flatten (mb_slices mb) = mb_cleaned mb ∧
  length (mb_hints mb) = length (mb_slices mb).
Proof.
  unfold strip_markers_and_split. destruct (strip_markers body) as [cleaned markers] eqn:Hm. cbn zeta.
  cbn [mb_cleaned mb_slices mb_hints].
  assert (cleaned = concat (filter unmarked (split_inclusive newline body))) as Hcl.
  { change cleaned with (cleaned, markers).1. rewrite <-Hm. apply strip_lines. }
  rewrite length_bind_hints, length_replicate.
  assert (split_inclusive newline cleaned = filter unmarked (split_inclusive newline body)) as Hl.
  { rewrite Hcl. apply split_inclusive_filter. }
  split_and!; [done| | |done].
  - rewrite Hl. apply Forall_forall. by intros l [? _]%list_elem_of_filter.
  - clear Hcl Hl. change (dedup _) with (marked_starts cleaned markers). destruct cleaned as [|c cleaned].
    + unfold marked_starts, split_body, scan. cbn [is_empty scan_slices slice_offsets].
      rewrite filter_none; [done|]. intros s _. cbn. lia.
    + destruct (marked_starts_spec (c :: cleaned) markers) as (rest & Hr & Hs & Hl); [done|].
      rewrite Hr, flatten_slices_at by done. apply byte_slice_all.
Qed.

(** ** A marked read comes back *)
Definition marked_text (blocks : list (str * str)) : str := concat ((λ b, marker_line b.1 ++ b.2) <$> blocks).

Record marked_block (b : str * str) : Prop := {
  mk_id : block_id b.1;
  mk_text : block_text b.2;
  mk_unmarked : Forall unmarked (split_inclusive newline b.2);
}.

Lemma foldl_strip_unmarked lines acc :
  Forall unmarked lines → foldl strip_line acc lines = (acc.1 ++ concat lines, acc.2).
Proof.
  intros Hu. revert acc. induction Hu as [|line lines Hl _ IH]; intros [text ms]; cbn [foldl concat]; [by rewrite app_nil_r|].
  rewrite IH. unfold strip_line. rewrite Hl. cbn. by rewrite <-app_assoc.
Qed.

Lemma marker_line_lines id rest :
  block_id id → split_inclusive newline (marker_line id ++ rest) = marker_line id :: split_inclusive newline rest.
Proof.
  intros (hex & -> & _ & Hhex).
  assert (marker_line (lit "b_" ++ hex) = (lit "<!-- neige:b_" ++ hex ++ lit " -->") ++ [newline]) as ->.
  { unfold marker_line. rewrite <-!app_assoc. done. }
  rewrite <-app_assoc. cbn [app]. apply split_inclusive_line.
  rewrite !elem_of_app. intros [H|[H|H]].
  - revert H. char_absent.
  - apply Is_true_eq_left in Hhex. rewrite forallb_True in Hhex. eapply Forall_forall in Hhex; [|done]. by vm_compute in Hhex.
  - revert H. char_absent.
Qed.

Lemma strip_marked_text blocks acc :
  Forall marked_block blocks →
  foldl strip_line acc (split_inclusive newline (marked_text blocks)) =
  (acc.1 ++ concat blocks.*2, acc.2 ++ zip (slice_offsets (utf8_len acc.1) blocks.*2) blocks.*1).
Proof.
  intros Hb. revert acc. induction Hb as [|[id t] blocks [Hid Ht Hu] _ IH]; intros [text ms]; unfold marked_text in *.
  - cbn. by rewrite !app_nil_r.
  - cbn [fmap list_fmap concat fst snd] in *. rewrite <-app_assoc, marker_line_lines by done. cbn [foldl].
    rewrite split_inclusive_app by (right; apply Ht). rewrite foldl_app.
    unfold strip_line at 3. rewrite marker_line_id_marker_line by done.
    rewrite (foldl_strip_unmarked _ _ Hu), concat_split_inclusive, IH. cbn [fst snd slice_offsets zip zip_with].
    by rewrite utf8_len_app, <-!app_assoc.
Qed.

Lemma bind_hints pre (ids : list str) starts hints :
  length ids = length starts → NoDup (pre ++ starts) → length hints = length pre →
  foldl (bind_hint (pre ++ starts)) (hints ++ replicate (length starts) None) (zip starts ids)
  = hints ++ (Some <$> ids).
Proof.
  revert pre ids hints. induction starts as [|s starts IH]; intros pre [|id ids] hints Hlen Hnd Hh; simplify_eq/=; [done|].
  unfold bind_hint at 2. cbn [fst snd].
  assert (list_find (λ start, start = s) (pre ++ s :: starts) = Some (length pre, s)) as ->.
  { apply list_find_Some. rewrite list_lookup_middle by done. split_and!; [done|done|].
    intros j y Hy Hj ->. rewrite lookup_app_l in Hy by done. apply NoDup_app in Hnd as (_ & Hd & _).
    apply (Hd s); [by eapply list_elem_of_lookup_2|by left]. }
  rewrite <-Hh, insert_app_r_alt, Nat.sub_diag by lia. cbn [insert list_insert].
  rewrite (cons_middle s pre starts), (cons_middle _ hints (replicate _ _)), !app_assoc.
  rewrite IH; [by rewrite <-app_assoc|done| |rewrite !length_app; simpl; lia].
  by rewrite <-app_assoc.
Qed.

(** C34: a marked read comes back: complete blocks rendered with their markers, even back to back
    and without headings, split into exactly those texts, each hinted with its own id. *)
Theorem marked_read_roundtrip blocks :
  Forall marked_block blocks → blocks ≠ [] →
  strip_markers_and_split (marked_text blocks) =
  mkMarkedBody (concat blocks.*2) blocks.*2 (Some <$> blocks.*1).
Proof.
  intros Hb Hne. unfold strip_markers_and_split, strip_markers.
  rewrite strip_marked_text by done. cbn [fst snd app utf8_len foldr].
  set (texts := blocks.*2). set (offsets := slice_offsets 0 texts).
  assert (Forall block_text texts) as Ht by (apply Forall_fmap; eapply Forall_impl; [done|]; by intros ? []).
  assert (Forall (λ t, t ≠ []) texts) as Hte by (eapply Forall_impl; [done|]; by intros ? []).
  destruct (slice_offsets_sorted 0 texts Hte) as [Hsort Hlt].
  assert (length offsets = length blocks.*1) as Hlen.
  { unfold offsets. rewrite length_fmap, <-(length_fmap snd). change (snd <$> blocks) with texts.
    generalize texts, 0%N. clear. intros texts. induction texts; intros o; cbn; auto. }
  assert (concat texts ≠ []) as Hcne.
  { destruct blocks as [|b blocks]; [done|]. apply Forall_cons in Hte as [Hb0 _]. cbn. by destruct b.2. }
  change (dedup _) with (marked_starts (concat texts) (zip offsets blocks.*1)).
  assert (marked_starts (concat texts) (zip offsets blocks.*1) = offsets) as ->.
  { destruct (marked_starts_spec (concat texts) (zip offsets blocks.*1) Hcne) as (rest & Hr & Hs & _).
    rewrite <-Hr in Hs. apply StronglySorted_lt_ext; [done|done|]. intros s.
    rewrite elem_of_marked_starts, fst_zip, split_body_offsets, elem_of_cut_points by (done || lia).
    assert (0%N ∈ offsets) as H0.
    { unfold offsets, texts. destruct blocks; [done|]. apply list_elem_of_here. }
    split.
    - intros [[->|[Hin Hs']]|[? _]]; [done| |done].
      destruct (scan_texts texts [] [] (mkScanState 0 [] [] None) Ht eq_refl eq_refl) as (_ & _ & Hel).
      cbn [app] in Hel. rewrite app_nil_r in Hel. apply Hel in Hin as [Hin|[Hin| ->]]; [|done|lia].
      by apply elem_of_nil in Hin.
    - intros Hin. right. split; [done|]. eapply Forall_forall in Hlt; [|done]. cbv beta in Hlt. lia. }
  assert (slices_at (concat texts) offsets = texts) as Hsl by (apply (slices_at_offsets [])).
  rewrite Hsl. f_equal.
  rewrite <-Hsl, length_slices_at. apply (bind_hints [] blocks.*1 offsets []); [done| |done].
  by apply StronglySorted_lt_NoDup.
Qed.
End markers.
