(* ===== verification/FenceRules.v ===== *)
(** * Fences are read back and cut out whole

    The rules of [render_fence], [parse_fence] and [canonical_json]: equal payloads have one
    text, a written fence is parsed as it was written, its interior holds no line that could
    close it, and the scanner cuts it out of any body as a slice of its own. *)

From stdpp Require Import prelude strings list sorting.
From S2P Require Import Prelude Text Slices Float64 Identity Blocks BlockRules.

(** ** One text per payload *)

(** The same JSON value: arrays item by item, objects up to the order of their entries. *)
#[warnings="-register-all"]
Inductive json_equiv : Json → Json → Prop :=
| je_scalar v : is_scalar v = true → json_equiv v v
| je_array l l' : Forall2 json_equiv l l' → json_equiv (JArray l) (JArray l')
| je_object f g h :
    f ≡ₚ g → NoDup f.*1 → Forall2 (λ a b, a.1 = b.1 ∧ json_equiv a.2 b.2) g h →
    json_equiv (JObject f) (JObject h).

Lemma merge_sort_entries {A} (l1 l2 : list (str * A)) :
  l1 ≡ₚ l2 → NoDup l1.*1 → merge_sort entry_le l1 = merge_sort entry_le l2.
Proof.
  intros Hp Hnd. apply (StronglySorted_unique_strong entry_le).
  - intros [k a] [k' b]. rewrite !merge_sort_Permutation, <-Hp. intros Ha Hb H1 H2.
    assert (k = k') as <- by (apply (anti_symm ord_le); done).
    f_equal. apply list_elem_of_lookup in Ha as [i Hi], Hb as [j Hj].
    assert (i = j) as <-.
    { eapply (NoDup_lookup l1.*1 _ _ k); [done| |]; rewrite list_lookup_fmap; [by rewrite Hi|by rewrite Hj]. }
    by simplify_eq.
  - apply (StronglySorted_merge_sort entry_le).
  - apply (StronglySorted_merge_sort entry_le).
  - by rewrite !merge_sort_Permutation.
Qed.

Lemma NoDup_Permutation_keys {A} (l1 l2 : list (str * A)) : l1 ≡ₚ l2 → NoDup l1.*1 → NoDup l2.*1.
Proof. by intros ->. Qed.

Section fences.
Context `{Serde : SerdeText}.

Definition entry_text (indent : nat) (kv : str * Json) : str * str := (kv.1, write_value kv.2 (S indent)).

Lemma write_value_object fields indent :
  write_value (JObject fields) indent = object_text indent (entry_text indent <$> fields).
Proof. simpl. f_equal. induction fields as [|[k w] rest IH]; [done|]. simpl. by rewrite IH. Qed.

Lemma write_value_array items indent :
  write_value (JArray items) indent = array_text indent items ((λ w, write_value w (S indent)) <$> items).
Proof. reflexivity. Qed.

Lemma json_equiv_scalar v w :
  json_equiv v w → is_scalar v = is_scalar w ∧ (is_scalar v = true → json_scalar v = json_scalar w).
Proof. by destruct 1. Qed.

Lemma write_value_equiv v w : json_equiv v w → ∀ indent, write_value v indent = write_value w indent.
Proof.
  revert v w. fix IH 3. intros v w Heq. destruct Heq as [v Hv|l l' Hl|f g h Hp Hnd Hgh]; intros indent.
  - done.
  - rewrite !write_value_array.
    assert ((λ w, write_value w (S indent)) <$> l = (λ w, write_value w (S indent)) <$> l') as ->.
    { induction Hl as [|x y l l' Hxy _ IHl]; [done|]. rewrite !fmap_cons, IHl. f_equal. by apply IH. }
    assert (forallb is_scalar l = forallb is_scalar l' ∧ is_empty l = is_empty l' ∧
            (forallb is_scalar l = true → json_scalar <$> l = json_scalar <$> l')) as (Hs & He & Ht).
    { clear IH. induction Hl as [|x y l l' [Hxy Hs]%json_equiv_scalar _ (IHs & _ & IHt)]; [done|].
      cbn [forallb is_empty]. rewrite <-Hxy, <-IHs. split_and!; [done|done|].
      rewrite andb_true_iff. intros [Hx Hls]. rewrite !fmap_cons. f_equal; auto. }
    unfold array_text. rewrite <-Hs, <-He. destruct (is_empty l); [done|].
    destruct (forallb is_scalar l); [|done]. by rewrite Ht.
  - rewrite !write_value_object.
    assert (entry_text indent <$> h = entry_text indent <$> g) as ->.
    { clear Hp. induction Hgh as [|[k x] [k' y] g h [Hk Hxy] _ IHl]; [done|]. simpl in Hk, Hxy. subst k'.
      rewrite !fmap_cons, IHl. f_equal. unfold entry_text. simpl. f_equal. symmetry. by apply IH. }
    unfold object_text. assert (entry_text indent <$> f ≡ₚ entry_text indent <$> g) as Hfg by by rewrite Hp.
    assert (NoDup (entry_text indent <$> f).*1) as Hnd'.
    { rewrite <-list_fmap_compose. exact Hnd. }
    rewrite (merge_sort_entries _ _ Hfg Hnd').
    assert (is_empty (entry_text indent <$> f) = is_empty (entry_text indent <$> g)) as ->; [|done].
    apply Permutation_length in Hp. by destruct f, g.
Qed.

(** The canonical text of a payload depends on the value alone: two payloads equal up to the
    order of their object entries, at any depth, are written byte for byte the same. *)
Theorem canonical_json_unique v w : json_equiv v w → canonical_json v = canonical_json w.
Proof. intros H. by apply write_value_equiv. Qed.

(** ** The written fence is read back *)
Definition valid_kind (kind : str) : Prop := kind ≠ [] ∧ forallb is_kind_byte kind = true.

Lemma kind_byte_bound c : is_kind_byte c = true → (45 <= c)%N.
Proof.
  unfold is_kind_byte, is_ascii_lowercase, is_ascii_digit.
  rewrite !orb_true_iff, !andb_true_iff, !N.leb_le, !N.eqb_eq. lia.
Qed.

Lemma kind_elem kind c : valid_kind kind → c ∈ kind → (45 <= c)%N.
Proof.
  intros [_ Hk] Hin. apply kind_byte_bound. apply Is_true_eq_left in Hk. rewrite forallb_True in Hk.
  eapply Forall_forall in Hk; [|done]. by apply Is_true_eq_true.
Qed.

Lemma neige_open_kind_spec kind :
  valid_kind kind → neige_open_kind (lit "```neige-block " ++ kind) = Some kind.
Proof.
  intros Hk. unfold neige_open_kind. rewrite strip_prefix_app.
  rewrite (without_suffix_absent newline) by (intros Hin; by apply (kind_elem kind) in Hin).
  rewrite without_suffix_absent by (intros Hin; by apply (kind_elem kind) in Hin).
  destruct Hk as [Hne Hk]. rewrite Hk. by destruct kind.
Qed.

Lemma parse_render kind payload :
  valid_kind kind → json_is_object payload = true →
  json_from_str (canonical_json payload) = Some payload →
  parse_fence (render_fence kind payload) = Some (mkNonProseFence kind payload).
Proof.
  intros Hk Ho Hj. unfold parse_fence, render_fence.
  rewrite (app_assoc (lit _) kind). cbn [app].
  rewrite split_once_char.
  2:{ rewrite elem_of_app. intros [H|H]; [revert H; char_absent|].
      by apply (kind_elem kind) in H. }
  rewrite neige_open_kind_spec by done.
  replace (canonical_json payload ++ newline :: ticks ++ [newline])
    with ((canonical_json payload ++ newline :: ticks) ++ [newline]) by (by rewrite <-app_assoc).
  rewrite without_suffix_app, rsplit_once_char by char_absent.
  cbn [from_option id]. rewrite without_suffix_absent by char_absent.
  rewrite bool_decide_eq_true_2 by done. by rewrite Hj, Ho.
Qed.

(** ** No line of a canonical text closes a fence *)

(** Outside leading spaces, no line begins with a backtick; [start] says that only spaces were
    seen on the current line. *)
Fixpoint lines_ok (start : bool) (s : str) : Prop :=
  match s with
  | [] => True
  | c :: s =>
      if (c =? newline)%N then lines_ok true s
      else if start && (c =? 32)%N then lines_ok true s
      else (start = true → c ≠ backtick) ∧ lines_ok false s
  end.

Fixpoint line_start (start : bool) (s : str) : bool :=
  match s with
  | [] => start
  | c :: s => line_start ((c =? newline)%N || start && (c =? 32)%N) s
  end.

Lemma lines_ok_app start s t : lines_ok start (s ++ t) ↔ lines_ok start s ∧ lines_ok (line_start start s) t.
Proof.
  revert start. induction s as [|c s IH]; intros start; simpl; [tauto|].
  destruct (c =? newline)%N; simpl; [apply IH|].
  destruct (start && (c =? 32)%N); simpl; rewrite IH; tauto.
Qed.

Lemma line_start_app start s t : line_start start (s ++ t) = line_start (line_start start s) t.
Proof. revert start. induction s as [|c s IH]; intros start; simpl; [done|]. apply IH. Qed.

(** A text that can follow anything on a line. *)
Definition value_ok (w : str) : Prop := ∀ start, lines_ok start w ∧ line_start start w = false.

Lemma inline_ok s : newline ∉ s → lines_ok false s ∧ line_start false s = false.
Proof.
  induction s as [|c s IH]; intros Hn; simpl; [done|].
  apply not_elem_of_cons in Hn as [Hc Hs]. rewrite (proj2 (N.eqb_neq c newline)) by done. simpl.
  destruct (IH Hs). split_and!; auto.
Qed.

Lemma value_ok_app w s : value_ok w → lines_ok false s ∧ line_start false s = false → value_ok (w ++ s).
Proof.
  intros Hw [Hs He] start. destruct (Hw start) as [H1 H2]. rewrite lines_ok_app, line_start_app, H2. auto.
Qed.

Lemma value_ok_inline w : value_ok w → lines_ok false w ∧ line_start false w = false.
Proof. intros H. apply H. Qed.

Lemma inline_app s t :
  lines_ok false s ∧ line_start false s = false → lines_ok false t ∧ line_start false t = false →
  lines_ok false (s ++ t) ∧ line_start false (s ++ t) = false.
Proof. intros [H1 H2] [H3 H4]. rewrite lines_ok_app, line_start_app, H2. auto. Qed.

Lemma value_ok_cons c s :
  c ≠ newline → c ≠ 32%N → c ≠ backtick → lines_ok false s ∧ line_start false s = false → value_ok (c :: s).
Proof.
  intros Hn Hsp Hb [Hs He] start. simpl.
  rewrite (proj2 (N.eqb_neq c newline)), (proj2 (N.eqb_neq c 32)), andb_false_r by done. auto.
Qed.

Lemma pad_ok n : lines_ok true (pad n) ∧ line_start true (pad n) = true.
Proof. unfold pad. induction n as [|n IH]; simpl; [done|]. exact IH. Qed.

Lemma broken_lines_ok n items :
  Forall value_ok items →
  lines_ok true (broken_lines n items) ∧ line_start true (broken_lines n items) = true.
Proof.
  destruct (pad_ok n) as [Hp1 Hp2].
  induction 1 as [|w items Hw Hitems IH]; [done|]. destruct (Hw true) as [Hw1 Hw2].
  assert (∀ s, lines_ok false s ∧ line_start false s = true →
               lines_ok true (pad n ++ w ++ s) ∧ line_start true (pad n ++ w ++ s) = true) as H.
  { intros s [Hs He]. rewrite !lines_ok_app, !line_start_app, Hp2, Hw2. auto. }
  destruct items as [|w' items]; apply H; [done|]. destruct IH as [IH1 IH2]. split; [split; [done|exact IH1]|exact IH2].
Qed.

(** How [serde_json] writes a scalar: on one line, beginning with neither a space nor a backtick. *)
Definition scalar_clean : Prop :=
  ∀ v, is_scalar v = true →
    ∃ c s, json_scalar v = c :: s ∧ c ≠ newline ∧ c ≠ 32%N ∧ c ≠ backtick ∧ newline ∉ s.

Lemma scalar_ok v : scalar_clean → is_scalar v = true → value_ok (json_scalar v).
Proof.
  intros Hsc (c & s & -> & ? & ? & ? & Hs)%Hsc. apply value_ok_cons; [done..|]. by apply inline_ok.
Qed.

Lemma join_ok items :
  scalar_clean → forallb is_scalar items = true →
  lines_ok false (join (lit ", ") (json_scalar <$> items)) ∧
  line_start false (join (lit ", ") (json_scalar <$> items)) = false.
Proof.
  intros Hsc. induction items as [|v items IH]; [done|]. cbn [forallb]. rewrite andb_true_iff. intros [Hv Hvs].
  specialize (IH Hvs). apply scalar_ok, value_ok_inline in Hv; [|done].
  destruct items as [|w items]; [exact Hv|]. cbn [fmap list_fmap join] in *.
  apply inline_app; [done|]. apply inline_app; [done|exact IH].
Qed.

Lemma block_ok (c d : N) n items :
  c ≠ newline → c ≠ 32%N → c ≠ backtick → d ≠ newline → d ≠ 32%N → d ≠ backtick →
  Forall value_ok items → value_ok ([c] ++ [newline] ++ broken_lines (S n) items ++ pad n ++ [d]).
Proof.
  intros ?????? Hitems. cbn [app]. apply value_ok_cons; [done..|]. cbn [lines_ok line_start].
  rewrite N.eqb_refl. cbn [orb]. destruct (broken_lines_ok (S n) items Hitems) as [Hb1 Hb2], (pad_ok n) as [Hp1 Hp2].
  destruct (value_ok_cons d [] ltac:(done) ltac:(done) ltac:(done) (conj I eq_refl) true) as [Hd1 Hd2].
  rewrite !lines_ok_app, !line_start_app, Hb2, Hp2. auto.
Qed.

Lemma write_value_ok v indent : scalar_clean → value_ok (write_value v indent).
Proof.
  intros Hsc. revert v indent. fix IH 1. intros v indent. destruct v as [|b|z|x|s|items|fields].
  1-5: by apply scalar_ok.
  - rewrite write_value_array. unfold array_text.
    destruct (is_empty items); [apply value_ok_cons; done|].
    destruct (forallb is_scalar items) eqn:Hs.
    + cbn [lit app fmap list_fmap String.list_ascii_of_string]. apply value_ok_cons; [done..|].
      apply inline_app; [by apply join_ok|done].
    + apply (block_ok 91 93); [done..|]. clear Hs.
      induction items as [|w items IHl]; constructor; [apply IH|exact IHl].
  - rewrite write_value_object. unfold object_text.
    destruct (is_empty _); [apply value_ok_cons; done|].
    apply (block_ok 123 125); [done..|]. apply Forall_fmap.
    rewrite merge_sort_Permutation. apply Forall_fmap.
    induction fields as [|[k w] fields IHl]; constructor; [|exact IHl].
    apply value_ok_app; [by apply scalar_ok|]. apply inline_app; [done|]. apply value_ok_inline, IH.
Qed.

Lemma lines_ok_split start s :
  lines_ok start s →
  match split_inclusive newline s with [] => True | l :: ls => lines_ok start l ∧ Forall (lines_ok true) ls end.
Proof.
  revert start. induction s as [|c s IH]; intros start Hs; [done|]. cbn [split_inclusive lines_ok] in *.
  destruct (N.eqb_spec c newline) as [->|Hc].
  - split; [done|]. specialize (IH true Hs). destruct (split_inclusive newline s) as [|l ls]; [done|].
    destruct IH. by constructor.
  - assert (∃ st, lines_ok st s ∧ ∀ l, lines_ok st l → lines_ok start (c :: l)) as (st & Hst & Hl).
    { cbn [lines_ok]. rewrite (proj2 (N.eqb_neq c newline)) by done.
      destruct (start && (c =? 32)%N); [by exists true|]. exists false. naive_solver. }
    specialize (IH st Hst). destruct (split_inclusive newline s) as [|l ls].
    + split; [by apply Hl|done].
    + destruct IH. split; [by apply Hl|done].
Qed.

Lemma lines_ok_prefix start s t : lines_ok start (s ++ t) → lines_ok start s.
Proof. rewrite lines_ok_app. tauto. Qed.

Lemma lines_ok_without_suffix start p s : lines_ok start s → lines_ok start (without_suffix p s).
Proof.
  unfold without_suffix. destruct (strip_suffix p s) as [u|] eqn:Hs; simpl; [|done].
  apply strip_suffix_Some in Hs as ->. apply lines_ok_prefix.
Qed.

Lemma lines_ok_no_fence line : lines_ok true line → fence_run (strip_fence_indent line) backtick = None.
Proof.
  assert (∀ s, lines_ok true s → head s ≠ Some backtick) as Hhead.
  { intros [|c s] Hs; simpl in *; [done|]. intros [= ->]. simpl in Hs. naive_solver. }
  assert (∀ s, head s ≠ Some backtick → fence_run s backtick = None) as Hrun.
  { intros [|c s] Hs; [done|]. unfold fence_run. simpl in *.
    rewrite (proj2 (N.eqb_neq c backtick)) by congruence. done. }
  intros Hl. apply Hrun. unfold strip_fence_indent.
  assert (∀ k s, lines_ok true s → lines_ok true (drop (run_length 32%N (take k s)) s)) as Hdrop.
  { induction k as [|k IH]; intros [|c s] Hs; try done. cbn [take run_length].
    destruct (N.eqb_spec c 32) as [->|]; [|exact Hs]. cbn [drop]. apply IH. exact Hs. }
  case_bool_decide; [by apply Hhead, Hdrop|by apply Hhead].
Qed.

(** Lines that cannot close the open fence leave it open. *)
Lemma scan_lines_open body lines o starts invalid fence :
  Forall (lines_ok true) lines → fence.1.1 = backtick →
  foldl (scan_line body) (mkScanState o starts invalid (Some fence)) lines =
  mkScanState (o + utf8_len (concat lines)) starts invalid (Some fence).
Proof.
  intros Hl Hm. revert o.
  induction Hl as [|line lines Hline _ IH]; intros o; cbn [foldl concat]; [by rewrite N.add_0_r|].
  assert (scan_line body (mkScanState o starts invalid (Some fence)) line =
          mkScanState (o + utf8_len line) starts invalid (Some fence)) as ->.
  { unfold scan_line. cbn [ss_fence ss_offset ss_starts ss_invalid].
    destruct fence as [[marker minimum] start]. simpl in Hm. subst marker.
    rewrite lines_ok_no_fence; [done|]. by do 2 apply lines_ok_without_suffix. }
  rewrite IH, utf8_len_app. f_equal. lia.
Qed.

Record writable (kind : str) (payload : Json) : Prop := {
  wr_scalar : scalar_clean;
  wr_kind : valid_kind kind;
  wr_object : json_is_object payload = true;
  wr_reads : json_from_str (canonical_json payload) = Some payload;
}.

Lemma render_fence_lines kind payload :
  writable kind payload →
  split_inclusive newline (render_fence kind payload) =
  (lit "```neige-block " ++ kind ++ [newline])
    :: split_inclusive newline (canonical_json payload ++ [newline]) ++ [ticks ++ [newline]].
Proof.
  intros [_ Hk _ _]. unfold render_fence.
  replace (lit "```neige-block " ++ kind ++ [newline] ++ canonical_json payload ++ [newline] ++ ticks ++ [newline])
    with ((lit "```neige-block " ++ kind) ++ newline :: (canonical_json payload ++ [newline]) ++ ticks ++ [newline])
    by (rewrite <-!app_assoc; done).
  rewrite split_inclusive_line.
  - rewrite split_inclusive_app by eauto. by rewrite <-app_assoc.
  - rewrite elem_of_app. intros [H|H]; [revert H; char_absent|]. by apply (kind_elem kind) in H.
Qed.

Lemma scan_render_fence kind payload :
  writable kind payload →
  scan_text (render_fence kind payload) =
  mkScanState (utf8_len (render_fence kind payload)) [0%N; utf8_len (render_fence kind payload)] [] None.
Proof.
  intros Hw. pose proof Hw as [Hsc Hk Ho Hj]. set (f := render_fence kind payload).
  assert (split_inclusive newline f = _) as Hlines by apply (render_fence_lines kind payload Hw).
  assert (Forall (lines_ok true) (split_inclusive newline (canonical_json payload ++ [newline]))) as Hin.
  { assert (lines_ok true (canonical_json payload ++ [newline])) as Hc.
    { destruct (write_value_ok payload 0 Hsc true) as [Hc He]. apply lines_ok_app. split; [exact Hc|done]. }
    apply lines_ok_split in Hc. revert Hc. destruct (split_inclusive newline (_ ++ [newline])); [done|]. intros []. by constructor. }
  pose proof (concat_split_inclusive newline f) as Hf. rewrite Hlines in Hf.
  unfold scan_text. rewrite Hlines. unfold scan_lines. cbn [foldl]. unfold scan_line at 2.
  cbn [ss_fence ss_offset ss_starts ss_invalid].
  rewrite (app_assoc (lit _) kind), without_suffix_app.
  rewrite without_suffix_absent.
  2:{ rewrite elem_of_app. intros [H|H]; [revert H; char_absent|]. by apply (kind_elem kind) in H. }
  rewrite neige_open_kind_spec, foldl_app by done.
  rewrite (scan_lines_open f _ _ _ _ _ Hin) by done. cbn [foldl]. unfold scan_line.
  cbn [ss_fence ss_offset ss_starts ss_invalid].
  change (fence_run _ backtick) with (Some 3). cbv iota.
  rewrite (bool_decide_eq_true_2 (3 ≤ 3)) by done. cbn [andb].
  change (fence_tail_is_blank _ 3) with true. cbv iota.
  rewrite <-app_assoc.
  assert (0 + utf8_len (lit "```neige-block " ++ kind ++ [newline])
          + utf8_len (concat (split_inclusive newline (canonical_json payload ++ [newline])))
          + utf8_len (ticks ++ [newline]) = utf8_len f)%N as ->.
  { rewrite <-Hf. cbn [concat]. rewrite concat_app, !utf8_len_app.
    change (concat [ticks ++ [newline]]) with ((ticks ++ [newline]) ++ []). rewrite app_nil_r, !utf8_len_app. lia. }
  rewrite byte_slice_all, bool_decide_eq_true_2; [done|]. unfold f. rewrite parse_render by done. eauto.
Qed.

(** A text of complete lines that ends outside any fence. *)
Definition closed_text (t : str) : Prop :=
  (t = [] ∨ ∃ t', t = t' ++ [newline]) ∧ ss_fence (scan_text t) = None.

Lemma scan_three pre f post :
  closed_text pre → closed_text f →
  ss_starts (scan_text (pre ++ f ++ post)) =
  (N.add 0 <$> ss_starts (scan_text pre)) ++ (N.add (utf8_len pre) <$> ss_starts (scan_text f))
    ++ (N.add (utf8_len (pre ++ f)) <$> ss_starts (scan_text post)).
Proof.
  intros [Hpn Hpf] [Hfn Hff]. unfold scan_text at 1.
  rewrite split_inclusive_app, (split_inclusive_app _ f) by done. unfold scan_lines. rewrite !foldl_app.
  destruct (scan_part [] pre (f ++ post) (mkScanState 0 [] [] None) eq_refl eq_refl) as [Ho1 Hs1 Hf1].
  cbn [app utf8_len foldr ss_starts] in *. fold (utf8_len pre) in *. unfold scan_lines in *.
  set (st1 := foldl _ _ (split_inclusive newline pre)) in *.
  rewrite scan_text_offset in Ho1. rewrite Hpf in Hf1.
  destruct (scan_part pre f post st1 Ho1 Hf1) as [Ho2 Hs2 Hf2]. unfold scan_lines in *.
  set (st2 := foldl _ st1 _) in *.
  rewrite scan_text_offset, <-utf8_len_app in Ho2. rewrite Hff in Hf2.
  destruct (scan_part (pre ++ f) post [] st2 Ho2 Hf2) as [_ Hs3 _]. unfold scan_lines in *.
  rewrite app_nil_r, <-app_assoc in Hs3. by rewrite Hs3, Hs2, Hs1, <-app_assoc.
Qed.

Lemma render_fence_closed kind payload : writable kind payload → closed_text (render_fence kind payload).
Proof.
  intros Hw. split; [right|by rewrite scan_render_fence].
  eexists. unfold render_fence. by rewrite !app_assoc.
Qed.

(** C37: a written data block is never torn or merged: after any closed text and before any text, the
    fence is one slice of the body and the texts around it are sliced as they are alone; and it is
    read back as the kind and payload it was written from. *)
Theorem fence_cut_out pre kind payload post :
  writable kind payload → closed_text pre →
  split_body (pre ++ render_fence kind payload ++ post) = slices pre ++ [render_fence kind payload] ++ slices post ∧
  parse_fence (render_fence kind payload) = Some (mkNonProseFence kind payload).
Proof.
  intros Hw Hpre. split; [|destruct Hw; by apply parse_render].
  pose proof (render_fence_closed kind payload Hw) as Hf. pose proof (scan_render_fence kind payload Hw) as Hsf.
  set (f := render_fence kind payload) in *. set (texts := slices pre ++ [f] ++ slices post).
  assert (f ≠ []) as Hfne by done.
  assert (concat texts = pre ++ f ++ post) as Hcat.
  { unfold texts. rewrite !concat_app, !concat_slices. cbn [concat]. by rewrite app_nil_r. }
  rewrite <-Hcat. apply split_body_texts.
  - unfold texts. by destruct (slices pre).
  - unfold texts. rewrite !Forall_app. split_and!; auto using slices_nonempty.
  - rewrite Hcat, scan_three, Hsf by done. cbn [ss_starts]. intros s.
    unfold texts. rewrite slice_offsets_app, concat_slices, elem_of_app, elem_of_offsets_slices.
    cbn [app slice_offsets]. rewrite elem_of_cons, N.add_0_l.
    replace (utf8_len pre + utf8_len f)%N with (utf8_len (pre ++ f) + 0)%N by (rewrite utf8_len_app; lia).
    rewrite slice_offsets_shift, !elem_of_app, !list_elem_of_fmap. setoid_rewrite elem_of_offsets_slices.
    rewrite !utf8_len_app. setoid_rewrite elem_of_cons. setoid_rewrite list_elem_of_singleton.
    assert (0 < utf8_len f)%N as Hfl.
    { destruct (N.eq_0_gt_0_cases (utf8_len f)) as [?%utf8_len_nil|]; [done|lia]. }
    pose proof (proj1 (Forall_forall _ _) (scan_text_bounded pre)) as Hbp. cbv beta in Hbp.
    pose proof (proj1 (Forall_forall _ _) (scan_text_bounded post)) as Hbq. cbv beta in Hbq.
    split.
    + intros [(Hne & [->|[Hs Hlt]])|[->|(y & -> & Hne & [->|[Hy Hlt]])]].
      * auto.
      * right. split; [|lia]. left. exists s. split; [lia|done].
      * right. split; [|lia]. right; left. exists 0%N. split; [lia|auto].
      * right. split; [|destruct (N.eq_0_gt_0_cases (utf8_len post)) as [?%utf8_len_nil|]; [done|lia]].
        right; left. exists (utf8_len f). split; [lia|auto].
      * right. split; [|lia]. right; right. exists y. auto.
    + intros [->|[[(y & -> & Hy)|[(y & -> & [->| ->])|(y & -> & Hy)]] Hlt]].
      * destruct pre as [|c pre]; [right; left; done|]. left. auto.
      * specialize (Hbp y Hy). destruct (N.eq_dec y (utf8_len pre)) as [->|]; [right; left; lia|].
        left. split; [|right; split; [done|lia]]. intros ->. by apply elem_of_nil in Hy.
      * right; left. lia.
      * right; right. exists 0%N. split; [lia|]. split; [|auto]. intros ->. cbn in Hlt. lia.
      * right; right. exists y. split; [done|]. split; [|right; split; [done|lia]].
        intros ->. by apply elem_of_nil in Hy.
Qed.
End fences.
