(* ===== verification/Align.v ===== *)
(** * Report-block identity across rewrites

    [crates/calm-types/src/report_blocks/align.rs]. A wholesale rewrite of a report keeps the
    ids of the blocks it keeps: marker hints bind first, then exact matches on a longest
    common subsequence of the blocks' canonical texts, then, inside each gap between two
    anchors, the unique data block of a kind and the texts at least half alike. A slice that
    matches nothing gets a fresh id. Vectors updated by index are lists with stdpp's insert;
    a [HashMap] is a [gmap], iterated in an unspecified order. *)

From Corelib Require Import SpecFloat.
From stdpp Require Import prelude strings list gmap sorting.
From S2P Require Import Prelude Text Slices Float64 Identity Blocks.

(** ** Similarity of two texts *)

(** [levenshtein]: one row of the table from the previous one: the row's character, the other
    text, the row above from the diagonal cell on, and the cell to the left. *)
Fixpoint lev_row (left_char : N) (rs : str) (previous : list nat) (last : nat) : list nat :=
  match rs, previous with
  | right_char :: rs, diagonal :: previous =>
      let above := default 0 (head previous) in
      let cell :=
        if (left_char =? right_char)%N then diagonal else 1 + ((diagonal `min` above) `min` last) in
      cell :: lev_row left_char rs previous cell
  | _, _ => []
  end.

Fixpoint lev_rows (ls : str) (left_index : nat) (rs : str) (previous : list nat) : list nat :=
  match ls with
  | [] => previous
  | left_char :: ls =>
      lev_rows ls (S left_index) rs (S left_index :: lev_row left_char rs previous (S left_index))
  end.

Definition levenshtein (ls rs : str) : nat :=
  default 0 (lev_rows ls 0 rs (seq 0 (S (length rs))) !! length rs).

Definition f64_div : f64 → f64 → f64 := SFdiv 53 1024.
Definition f64_geb (x y : f64) : bool := SFleb y x.
Definition f64_one : f64 := f64_of_Z 1.
Definition f64_half : f64 := f64_div f64_one (f64_of_Z 2).

(** [f64::total_cmp]; the one NaN of the model is the positive one. *)
Definition f64_total_cmp (x y : f64) : comparison :=
  match x, y with
  | S754_nan, S754_nan => Eq
  | S754_nan, _ => Gt
  | _, S754_nan => Lt
  | S754_zero a, S754_zero b => if Bool.eqb a b then Eq else if a then Lt else Gt
  | _, _ => default Eq (SFcompare x y)
  end.

Definition similarity (ls rs : str) : f64 :=
  let maximum := length ls `max` length rs in
  if maximum =? 0 then f64_one
  else f64_sub f64_one (f64_div (f64_of_Z (Z.of_nat (levenshtein ls rs))) (f64_of_Z (Z.of_nat maximum))).

(** [slice::sort_by], a stable sort: [leb a b] when [compare(a, b)] is not [Greater]. *)
Fixpoint insert_by {A} (leb : A → A → bool) (x : A) (l : list A) : list A :=
  match l with
  | [] => [x]
  | y :: l' => if leb x y then x :: l else y :: insert_by leb x l'
  end.
Definition sort_by {A} (leb : A → A → bool) (l : list A) : list A := foldr (insert_by leb) [] l.

(** ** Longest common subsequence *)
Abbreviation texts := (list (option str)).

(** [None] is not eligible for matching, not even with [None]. *)
Definition same_text (old new : option str) : bool := bool_decide (is_Some old) && bool_decide (old = new).

Fixpoint lcs_row (old : option str) (new : texts) (below : list nat) : list nat :=
  match new with
  | [] => [0]
  | text :: new =>
      let row := lcs_row old new (tail below) in
      (if same_text old text then default 0 (head (tail below)) + 1
       else default 0 (head below) `max` default 0 (head row)) :: row
  end.

Fixpoint lcs_lengths (old new : texts) : list (list nat) :=
  match old with
  | [] => [replicate (S (length new)) 0]
  | text :: old =>
      let below := lcs_lengths old new in
      lcs_row text new (default [] (head below)) :: below
  end.

Definition cell (lengths : list (list nat)) (i j : nat) : nat := default 0 (default [] (lengths !! i) !! j).

Fixpoint lcs_walk (fuel : nat) (lengths : list (list nat)) (old new : texts) (i j : nat)
  : option (list (nat * nat)) :=
  match old !! i, new !! j with
  | Some o, Some n =>
      match fuel with
      | 0 => None
      | S fuel =>
          if same_text o n then
            match lcs_walk fuel lengths old new (S i) (S j) with
            | Some rest => Some ((i, j) :: rest)
            | None => None
            end
          else if cell lengths i (S j) <=? cell lengths (S i) j then lcs_walk fuel lengths old new (S i) j
          else lcs_walk fuel lengths old new i (S j)
      end
  | _, _ => Some []
  end.

Definition lcs_matches (old new : texts) : option (list (nat * nat)) :=
  lcs_walk (length old + length new) (lcs_lengths old new) old new 0 0.

(** ** Minting an id *)
Definition utf8_bytes (c : N) : list N :=
  let tail k := (128 + N.land (N.shiftr c (6 * k)) 63)%N in
  if (c <? 128)%N then [c]
  else if (c <? 2048)%N then [192 + N.shiftr c 6; tail 0]%N
  else if (c <? 65536)%N then [224 + N.shiftr c 12; tail 1; tail 0]%N
  else [240 + N.shiftr c 18; tail 2; tail 1; tail 0]%N.

(** [usize::to_le_bytes], eight bytes. *)
Definition le_bytes (n : nat) : list N :=
  (λ k, N.land (N.shiftr (N.of_nat n) (8 * k)) 255)%N <$> N_range 8.

Definition fnv_step (hash byte : N) : N := (N.lxor hash byte * 16777619 mod u32_modulus)%N.
Definition fnv_hash (raw : str) (index : nat) : N :=
  foldl fnv_step 2166136261%N ((raw ≫= utf8_bytes) ++ le_bytes index).

Definition hex_digit (d : N) : N := if (d <? 10)%N then (48 + d)%N else (87 + d)%N.
Definition u16_modulus : N := 65536.

(** [format!("b_{:04x}")] of a [u16]. *)
Definition block_id_of (n : N) : str :=
  lit "b_" ++ (hex_digit <$> [n / 4096 mod 16; n / 256 mod 16; n / 16 mod 16; n mod 16]%N).

(** The candidates, from the hash upward; [None] is the [unreachable!]. *)
Fixpoint probe (candidates : nat) (n : N) (used : gset str) : option (str * gset str) :=
  match candidates with
  | 0 => None
  | S candidates =>
      let id := block_id_of n in
      if bool_decide (id ∈ used) then probe candidates ((n + 1) mod u16_modulus) used
      else Some (id, {[id]} ∪ used)
  end.

Definition mint_id (raw : str) (index : nat) (used : gset str) : option (str * gset str) :=
  probe (N.to_nat u16_modulus) (fnv_hash raw index mod u16_modulus) used.

(** ** Matching inside a gap *)
Abbreviation assignments := (list (option nat)).

Definition pair_score : Type := f64 * nat * nat.

Definition abs_diff (a b : nat) : nat := (a - b) + (b - a).

Definition score_leb (p q : pair_score) : bool :=
  match f64_total_cmp q.1.1 p.1.1 with
  | Lt => true
  | Gt => false
  | Eq => abs_diff p.1.2 p.2 <=? abs_diff q.1.2 q.2
  end.

Definition scored (old new : texts) : list pair_score :=
  concat (imap (λ old_index old_text,
    match old_text with
    | None => []
    | Some old_text =>
        concat (imap (λ new_index new_text,
          match new_text with
          | None => []
          | Some new_text =>
              let score := similarity old_text new_text in
              if f64_geb score f64_half then [(score, old_index, new_index)] else []
          end) new)
    end) old).

(** The locals of the pairing loop: assignments and the used flags of both sides. *)
Record GapState := mkGapState { gs_assignments : assignments; gs_old_used : list bool; gs_new_used : list bool }.

Definition take_pair (old_offset new_offset : nat) (st : GapState) (p : pair_score) : GapState :=
  let '(_, old_index, new_index) := p in
  if negb (default false (gs_old_used st !! old_index)) && negb (default false (gs_new_used st !! new_index)) then
    mkGapState (<[new_offset + new_index := Some (old_offset + old_index)]> (gs_assignments st))
      (<[old_index := true]> (gs_old_used st)) (<[new_index := true]> (gs_new_used st))
  else st.

Definition similarity_matches (old new : texts) (old_offset new_offset : nat) (a : assignments) : assignments :=
  gs_assignments
    (foldl (take_pair old_offset new_offset)
       (mkGapState a (replicate (length old) false) (replicate (length new) false))
       (sort_by score_leb (scored old new))).

Section align.
Context `{Serde : SerdeText}.

Definition comparable_flat (block : ReportBlock) : option str :=
  if bool_decide (rb_kind block = KIND_PROSE)
  then json_get (rb_payload block) (lit "markdown") ≫= json_as_str
  else Some (flat_text block).

(** [entry(kind).or_default().push(index)]. *)
Definition push_kind (m : gmap str (list nat)) (kind : str) (index : nat) : gmap str (list nat) :=
  <[kind := default [] (m !! kind) ++ [index]]> m.

Definition range (first last : nat) : list nat := seq first (last - first).

Definition eligible (text : texts) (index : nat) : bool := bool_decide (is_Some (mjoin (text !! index))).

Definition old_kinds (old_blocks : list ReportBlock) (old_text : texts) (first last : nat) : gmap str (list nat) :=
  foldl (λ m index,
    match old_blocks !! index with
    | Some block =>
        if eligible old_text index && bool_decide (rb_kind block ≠ KIND_PROSE)
        then push_kind m (rb_kind block) index else m
    | None => m
    end) ∅ (range first last).

Definition new_kinds (fences : list (option NonProseFence)) (new_text : texts) (first last : nat) : gmap str (list nat) :=
  foldl (λ m index,
    match fences !! index with
    | Some (Some fence) => if eligible new_text index then push_kind m (npf_kind fence) index else m
    | _ => m
    end) ∅ (range first last).

(** The vectors the passes update. *)
Record AlignState := mkAlignState { al_old : texts; al_new : texts; al_assignments : assignments }.

Definition pair_kind (new_by_kind : gmap str (list nat)) (st : AlignState) (k : str * list nat) : AlignState :=
  match k.2, new_by_kind !! k.1 with
  | [old_index], Some [new_index] =>
      mkAlignState (<[old_index := None]> (al_old st)) (<[new_index := None]> (al_new st))
        (<[new_index := Some old_index]> (al_assignments st))
  | _, _ => st
  end.

Definition same_kind_pairs (old_blocks : list ReportBlock) (fences : list (option NonProseFence))
    (old_gap new_gap : nat * nat) (st : AlignState) : AlignState :=
  foldl (pair_kind (new_kinds fences (al_new st) new_gap.1 new_gap.2)) st
    (map_to_list (old_kinds old_blocks (al_old st) old_gap.1 old_gap.2)).

Definition sub {A} (first last : nat) (l : list A) : list A := take (last - first) (drop first l).

(** One gap: the kind pass, then the similarity pass, then past the anchor. *)
Definition align_gap (old_blocks : list ReportBlock) (fences : list (option NonProseFence))
    (acc : AlignState * (nat * nat)) (anchor : nat * nat) : AlignState * (nat * nat) :=
  let '(st, (previous_old, previous_new)) := acc in
  let '(anchor_old, anchor_new) := anchor in
  let st := same_kind_pairs old_blocks fences (previous_old, anchor_old) (previous_new, anchor_new) st in
  (mkAlignState (al_old st) (al_new st)
     (similarity_matches (sub previous_old anchor_old (al_old st)) (sub previous_new anchor_new (al_new st))
        previous_old previous_new (al_assignments st)),
   (S anchor_old, S anchor_new)).

(** First-occurrence-unique old ids. *)
Fixpoint unique_ids (seen : gset str) (blocks : list ReportBlock) : list bool :=
  match blocks with
  | [] => []
  | block :: blocks =>
      bool_decide (rb_id block ∉ seen) :: unique_ids ({[rb_id block]} ∪ seen) blocks
  end.

Definition index_by_id (old_blocks : list ReportBlock) (unique : list bool) : gmap str nat :=
  foldl (λ m entry, let '(index, block, first) := entry in if (first : bool) then <[rb_id block := index]> m else m)
    ∅ (zip (zip (seq 0 (length old_blocks)) old_blocks) unique).

(** The hint loop: assignments and taken flags. *)
Definition bind_slice (ids : gmap str nat) (acc : assignments * list bool) (entry : nat * option str)
  : assignments * list bool :=
  match entry.2 ≫= (λ id, ids !! id) with
  | Some old_index =>
      if negb (default false (acc.2 !! old_index))
      then (<[entry.1 := Some old_index]> acc.1, <[old_index := true]> acc.2) else acc
  | None => acc
  end.

Definition bind_hints_pass (old_blocks : list ReportBlock) (slices : list str) (hints : list (option str))
  : assignments * list bool :=
  foldl (bind_slice (index_by_id old_blocks (unique_ids ∅ old_blocks)))
    (replicate (length slices) None, replicate (length old_blocks) false)
    (take (length slices) (zip (seq 0 (length hints)) hints)).

Definition canonical_text (slice : str) : str :=
  match parse_fence slice with
  | Some fence => render_fence (npf_kind fence) (npf_payload fence)
  | None => slice
  end.

Definition start_state (old_blocks : list ReportBlock) (slices : list str) (hints : list (option str)) : AlignState :=
  let '(a, taken) := bind_hints_pass old_blocks slices hints in
  let unique := unique_ids ∅ old_blocks in
  mkAlignState
    (imap (λ index block,
       if default false (unique !! index) && negb (default false (taken !! index))
       then comparable_flat block else None) old_blocks)
    (imap (λ index slice,
       if bool_decide (mjoin (a !! index) = None) then Some (canonical_text slice) else None) slices)
    a.

Definition set_anchors (anchors : list (nat * nat)) (a : assignments) : assignments :=
  foldl (λ a p, <[p.2 := Some p.1]> a) a anchors.

(** Every assignment of a slice to an old block. *)
Definition assign (old_blocks : list ReportBlock) (slices : list str) (hints : list (option str)) : option assignments :=
  let st := start_state old_blocks slices hints in
  let fences := parse_fence <$> slices in
  match lcs_matches (al_old st) (al_new st) with
  | None => None
  | Some anchors =>
      let st := mkAlignState (al_old st) (al_new st) (set_anchors anchors (al_assignments st)) in
      Some (al_assignments
        (foldl (align_gap old_blocks fences) (st, (0, 0))
           (anchors ++ [(length old_blocks, length slices)])).1)
  end.

Definition u32_saturating_succ (n : N) : N := N.min (n + 1) (u32_modulus - 1).

Definition reused_rev (old : ReportBlock) (text : str) : N :=
  if bool_decide (comparable_flat old = Some text) then rb_rev old else u32_saturating_succ (rb_rev old).

Definition block_of (slice id : str) (rev : N) : ReportBlock :=
  match parse_fence slice with
  | Some fence => mkReportBlock id (npf_kind fence) rev (npf_payload fence)
  | None => mkReportBlock id KIND_PROSE rev (JObject [(lit "markdown", JString slice)])
  end.

(** The result blocks in order; [used] grows by each minted id. *)
Fixpoint emit (old_blocks : list ReportBlock) (index : nat) (slices : list str) (a : assignments) (used : gset str)
  : option (list ReportBlock) :=
  match slices with
  | [] => Some []
  | slice :: slices =>
      match mjoin (a !! index) with
      | Some old_index =>
          match old_blocks !! old_index with
          | Some old =>
              cons (block_of slice (rb_id old) (reused_rev old (canonical_text slice)))
                <$> emit old_blocks (S index) slices a used
          | None => None
          end
      | None =>
          match mint_id slice index used with
          | Some (id, used) => cons (block_of slice id 1) <$> emit old_blocks (S index) slices a used
          | None => None
          end
      end
  end.

Definition reassign_ids_with_hints_reserving (old_blocks : list ReportBlock) (slices : list str)
    (hints : list (option str)) (reserved : gset str) : option (list ReportBlock) :=
  match assign old_blocks slices hints with
  | Some a => emit old_blocks 0 slices a (list_to_set (rb_id <$> old_blocks) ∪ reserved)
  | None => None
  end.

Definition reassign_ids_with_hints (old_blocks : list ReportBlock) (slices : list str) (hints : list (option str))
  : option (list ReportBlock) :=
  reassign_ids_with_hints_reserving old_blocks slices hints ∅.

Definition reassign_ids (old_blocks : list ReportBlock) (slices : list str) : option (list ReportBlock) :=
  reassign_ids_with_hints old_blocks slices [].
End align.

(** ** Alignment is optimal

    The two dynamic programs of [Align] against their specifications: [levenshtein] is the
    least number of edits between two texts, and [lcs_matches] always returns a common
    subsequence of the greatest length. *)

(** ** Edit distance *)

(** [edits l r n]: [n] insertions, deletions and substitutions turn [l] into [r]. *)
Inductive edits : str → str → nat → Prop :=
| ed_nil : edits [] [] 0
| ed_keep c l r n : edits l r n → edits (c :: l) (c :: r) n
| ed_substitute a b l r n : edits l r n → edits (a :: l) (b :: r) (S n)
| ed_delete a l r n : edits l r n → edits (a :: l) r (S n)
| ed_insert b l r n : edits l r n → edits l (b :: r) (S n).

(** The distance by recursion on both texts. *)
Fixpoint dist (l r : str) : nat :=
  match l with
  | [] => length r
  | a :: l' =>
      (fix go (r : str) : nat :=
         match r with
         | [] => length l
         | b :: r' =>
             if (a =? b)%N then dist l' r'
             else 1 + ((dist l' r' `min` dist l' r) `min` go r')
         end) r
  end.

Lemma dist_cons a l b r :
  dist (a :: l) (b :: r) =
  if (a =? b)%N then dist l r else 1 + ((dist l r `min` dist l (b :: r)) `min` dist (a :: l) r).
Proof. done. Qed.

Lemma edits_drop_right b l r n : edits l (b :: r) n → ∃ m, edits l r m ∧ m ≤ S n.
Proof.
  remember (b :: r) as r' eqn:Hr. intros H. revert Hr.
  induction H as [|c l r' n H _|c d l r' n H _|c l r' n H IH|c l r' n H _]; intros Hr; simplify_eq.
  - exists (S n). split; [by constructor|lia].
  - exists (S n). split; [by constructor|lia].
  - destruct IH as (m & Hm & Hle); [done|]. exists (S m). split; [by constructor|lia].
  - exists n. split; [done|lia].
Qed.

Lemma edits_drop_left a l r n : edits (a :: l) r n → ∃ m, edits l r m ∧ m ≤ S n.
Proof.
  remember (a :: l) as l' eqn:Hl. intros H. revert Hl.
  induction H as [|c l' r n H _|c d l' r n H _|c l' r n H _|c l' r n H IH]; intros Hl; simplify_eq.
  - exists (S n). split; [by constructor|lia].
  - exists (S n). split; [by constructor|lia].
  - exists n. split; [done|lia].
  - destruct IH as (m & Hm & Hle); [done|]. exists (S m). split; [by constructor|lia].
Qed.

Lemma edits_nil_l r : edits [] r (length r).
Proof. induction r; by constructor. Qed.
Lemma edits_nil_r l : edits l [] (length l).
Proof. induction l; by constructor. Qed.

Lemma dist_edits l r : edits l r (dist l r).
Proof.
  revert r. induction l as [|a l IH]; intros r; [apply edits_nil_l|].
  induction r as [|b r IHr]; [apply edits_nil_r|].
  rewrite dist_cons. destruct (N.eqb_spec a b) as [->|]; [constructor; apply IH|].
  destruct (Nat.min_spec (dist l r `min` dist l (b :: r)) (dist (a :: l) r)) as [[_ ->]|[_ ->]]; [|by constructor].
  destruct (Nat.min_spec (dist l r) (dist l (b :: r))) as [[_ ->]|[_ ->]]; by constructor.
Qed.

Lemma dist_least l r n : edits l r n → dist l r ≤ n.
Proof.
  revert r n. induction l as [|a l IH]; intros r.
  - induction r as [|b r IHr]; intros n H; [simpl; lia|].
    inversion H; subst. simpl. apply le_n_S, IHr. done.
  - induction r as [|b r IHr]; intros n H.
    + inversion H; subst. match goal with H : edits l [] _ |- _ => apply IH in H end.
      destruct l; simpl in *; lia.
    + rewrite dist_cons. destruct (N.eqb_spec a b) as [->|Hab].
      * inversion H; subst.
        -- eauto.
        -- match goal with H : edits l r _ |- _ => apply IH in H end. lia.
        -- match goal with H : edits l (b :: r) _ |- _ => apply edits_drop_right in H as (m & Hm & Hle) end.
           apply IH in Hm. lia.
        -- match goal with H : edits (b :: l) r _ |- _ => apply edits_drop_left in H as (m & Hm & Hle) end.
           apply IH in Hm. lia.
      * inversion H; subst; [done| | |].
        -- match goal with H : edits l r _ |- _ => apply IH in H end. lia.
        -- match goal with H : edits l (b :: r) _ |- _ => apply IH in H end. lia.
        -- match goal with H : edits (a :: l) r _ |- _ => apply IHr in H end. lia.
Qed.

Lemma edits_app l r n l' r' m : edits l r n → edits l' r' m → edits (l ++ l') (r ++ r') (n + m).
Proof. induction 1; intros; simpl; try constructor; auto. Qed.

Lemma edits_reverse l r n : edits l r n → edits (reverse l) (reverse r) n.
Proof.
  induction 1 as [|c l r n _ IH|a b l r n _ IH|a l r n _ IH|b l r n _ IH]; rewrite ?reverse_cons; [constructor|..].
  - rewrite <-(Nat.add_0_r n). apply edits_app; [done|]. repeat constructor.
  - rewrite <-Nat.add_1_r. apply edits_app; [done|]. repeat constructor.
  - rewrite <-Nat.add_1_r, <-(app_nil_r (reverse r)). apply edits_app; [done|]. repeat constructor.
  - rewrite <-Nat.add_1_r, <-(app_nil_r (reverse l)). apply edits_app; [done|]. repeat constructor.
Qed.

(** A row of the table: distances of one prefix to every prefix of the other text, the
    prefixes reversed. *)
Fixpoint dist_row (p q rs : str) : list nat :=
  dist p q :: match rs with [] => [] | c :: rs => dist_row p (c :: q) rs end.

Lemma lev_row_spec a p q rs :
  dist (a :: p) q :: lev_row a rs (dist_row p q rs) (dist (a :: p) q) = dist_row (a :: p) q rs.
Proof.
  revert q. induction rs as [|b rs IH]; intros q; [done|].
  cbn [dist_row]. f_equal. rewrite <-IH. cbn [lev_row].
  assert (default 0 (head (dist_row p (b :: q) rs)) = dist p (b :: q)) as -> by (by destruct rs).
  by rewrite <-dist_cons.
Qed.

Lemma lev_rows_spec ls p rs :
  lev_rows ls (length p) rs (dist_row p [] rs) = dist_row (reverse ls ++ p) [] rs.
Proof.
  revert p. induction ls as [|a ls IH]; intros p; [done|]. cbn [lev_rows].
  change (S (length p)) with (dist (a :: p) []). rewrite lev_row_spec.
  change (dist (a :: p) []) with (length (a :: p)). rewrite IH, reverse_cons, <-app_assoc. done.
Qed.

Lemma dist_row_last p q rs : dist_row p q rs !! length rs = Some (dist p (reverse rs ++ q)).
Proof.
  revert q. induction rs as [|c rs IH]; intros q; [done|]. cbn [length dist_row lookup list_lookup].
  by rewrite IH, reverse_cons, <-app_assoc.
Qed.

Lemma dist_row_nil q rs : dist_row [] q rs = seq (length q) (S (length rs)).
Proof. revert q. induction rs as [|c rs IH]; intros q; [done|]. cbn [dist_row]. by rewrite IH. Qed.

(** [levenshtein] is the edit distance: that many edits turn one text into the other, and no
    fewer do. *)
Theorem levenshtein_least ls rs :
  edits ls rs (levenshtein ls rs) ∧ ∀ n, edits ls rs n → levenshtein ls rs ≤ n.
Proof.
  assert (levenshtein ls rs = dist (reverse ls) (reverse rs)) as ->.
  { unfold levenshtein. pose proof (dist_row_nil [] rs) as Hr. pose proof (lev_rows_spec ls [] rs) as Hl.
    cbn [length] in Hr, Hl. by rewrite <-Hr, Hl, dist_row_last, !app_nil_r. }
  split.
  - rewrite <-(reverse_involutive ls), <-(reverse_involutive rs) at 1. apply edits_reverse, dist_edits.
  - intros n Hn%edits_reverse. by apply dist_least.
Qed.

(** ** Longest common subsequence *)

(** [csub old new k]: the two lists have a common subsequence of [k] eligible texts. *)
Inductive csub : texts → texts → nat → Prop :=
| cs_nil : csub [] [] 0
| cs_match o n old new k : same_text o n = true → csub old new k → csub (o :: old) (n :: new) (S k)
| cs_skip_old o old new k : csub old new k → csub (o :: old) new k
| cs_skip_new n old new k : csub old new k → csub old (n :: new) k.

Fixpoint lcs_len (old new : texts) : nat :=
  match old with
  | [] => 0
  | o :: old' =>
      (fix go (new : texts) : nat :=
         match new with
         | [] => 0
         | n :: new' => if same_text o n then S (lcs_len old' new') else lcs_len old' new `max` go new'
         end) new
  end.

Lemma lcs_len_cons o old n new :
  lcs_len (o :: old) (n :: new) =
  if same_text o n then S (lcs_len old new) else lcs_len old (n :: new) `max` lcs_len (o :: old) new.
Proof. done. Qed.

Lemma lcs_len_nil_r old : lcs_len old [] = 0.
Proof. by destruct old. Qed.

Lemma csub_drop_old o old new k : csub (o :: old) new k → ∃ m, csub old new m ∧ k ≤ S m.
Proof.
  remember (o :: old) as old' eqn:Ho. intros H. revert Ho.
  induction H as [|o' n old' new k _ H _|o' old' new k H _|n old' new k H IH]; intros Ho; simplify_eq.
  - exists k. split; [by constructor|lia].
  - exists k. split; [done|lia].
  - destruct IH as (m & Hm & Hle); [done|]. exists m. split; [by constructor|lia].
Qed.

Lemma csub_drop_new n old new k : csub old (n :: new) k → ∃ m, csub old new m ∧ k ≤ S m.
Proof.
  remember (n :: new) as new' eqn:Hn. intros H. revert Hn.
  induction H as [|o n' old new' k _ H _|o old new' k H IH|n' old new' k H _]; intros Hn; simplify_eq.
  - exists k. split; [by constructor|lia].
  - destruct IH as (m & Hm & Hle); [done|]. exists m. split; [by constructor|lia].
  - exists k. split; [done|lia].
Qed.

Lemma csub_nil_r old k : csub old [] k → k = 0.
Proof. remember [] as new. induction 1; naive_solver. Qed.
Lemma csub_nil_l new k : csub [] new k → k = 0.
Proof. remember [] as old. induction 1; naive_solver. Qed.

Lemma lcs_len_greatest old new k : csub old new k → k ≤ lcs_len old new.
Proof.
  revert new k. induction old as [|o old IH]; intros new; [intros k ->%csub_nil_l; lia|].
  induction new as [|n new IHn]; intros k H; [apply csub_nil_r in H; lia|].
  rewrite lcs_len_cons. destruct (same_text o n) eqn:Hs.
  - inversion H; subst.
    + apply le_n_S. eauto.
    + match goal with H : csub old (n :: new) _ |- _ => apply csub_drop_new in H as (m & Hm & Hle) end.
      apply IH in Hm. lia.
    + match goal with H : csub (o :: old) new _ |- _ => apply csub_drop_old in H as (m & Hm & Hle) end.
      apply IH in Hm. lia.
  - inversion H; subst; [congruence| |].
    + match goal with H : csub old _ _ |- _ => apply IH in H end. lia.
    + match goal with H : csub (o :: old) new _ |- _ => apply IHn in H end. lia.
Qed.

(** A row of the table: the greatest lengths against every suffix of the new texts. *)
Fixpoint lcs_len_row (old new : texts) : list nat :=
  lcs_len old new :: match new with [] => [] | _ :: new => lcs_len_row old new end.

Lemma lcs_len_row_head old new : head (lcs_len_row old new) = Some (lcs_len old new).
Proof. by destruct new. Qed.

Lemma lcs_row_spec o old new : lcs_row o new (lcs_len_row old new) = lcs_len_row (o :: old) new.
Proof.
  induction new as [|n new IH]; [done|]. cbn [lcs_row lcs_len_row tail]. rewrite IH. f_equal.
  rewrite !lcs_len_row_head. cbn [head default from_option id]. rewrite lcs_len_cons.
  destruct (same_text o n); [apply Nat.add_1_r|done].
Qed.

Lemma lcs_lengths_spec old new i :
  i ≤ length old → lcs_lengths old new !! i = Some (lcs_len_row (drop i old) new).
Proof.
  revert i. induction old as [|o old IH]; intros i Hi.
  - simpl in Hi. assert (i = 0) as -> by lia. cbn. f_equal. clear. induction new; [done|]. simpl. by f_equal.
  - cbn [lcs_lengths]. destruct i as [|i]; [|apply IH; simpl in Hi; lia].
    cbn [lookup list_lookup drop]. f_equal.
    specialize (IH 0 (Nat.le_0_l _)). rewrite drop_0 in IH.
    destruct (lcs_lengths old new) as [|row rest]; [done|]. cbn in IH. simplify_eq/=. apply lcs_row_spec.
Qed.

Lemma lcs_len_row_lookup old new j : j ≤ length new → lcs_len_row old new !! j = Some (lcs_len old (drop j new)).
Proof.
  revert j. induction new as [|n new IH]; intros [|j] Hj; simpl in *; try done; [lia|]. apply IH. lia.
Qed.

Lemma cell_spec old new i j :
  i ≤ length old → j ≤ length new → cell (lcs_lengths old new) i j = lcs_len (drop i old) (drop j new).
Proof. intros Hi Hj. unfold cell. rewrite lcs_lengths_spec by done. cbn. by rewrite lcs_len_row_lookup. Qed.

(** Matches by index: eligible equal texts, ascending on both sides. *)
Definition before (p q : nat * nat) : Prop := p.1 < q.1 ∧ p.2 < q.2.

Record common (old new : texts) (ps : list (nat * nat)) : Prop := {
  cm_same : ∀ i j, (i, j) ∈ ps → ∃ o n, old !! i = Some o ∧ new !! j = Some n ∧ same_text o n = true;
  cm_sorted : StronglySorted before ps;
}.

Lemma common_nil old new : common old new [].
Proof. split; [by intros ?? ?%elem_of_nil|constructor]. Qed.

Lemma common_csub old new ps : common old new ps → csub old new (length ps).
Proof.
  assert (∀ i j, Forall (λ p, i ≤ p.1 ∧ j ≤ p.2) ps → common old new ps →
            csub (drop i old) (drop j new) (length ps)) as H.
  2:{ intros Hc. apply (H 0 0); [|done]. apply Forall_forall. intros ? _. lia. }
  assert (∀ i old' k, csub (drop i old) old' k → ∀ i', i' ≤ i → csub (drop i' old) old' k) as Hold.
  { intros i old' k Hk i' Hi. induction Hi as [|i Hi IH]; [done|]. apply IH.
    destruct (old !! i) as [o|] eqn:Ho.
    - rewrite (drop_S _ _ _ Ho). by constructor.
    - apply lookup_ge_None in Ho. by rewrite drop_ge in Hk |- * by lia. }
  assert (∀ j new' k, csub new' (drop j new) k → ∀ j', j' ≤ j → csub new' (drop j' new) k) as Hnew.
  { intros j new' k Hk j' Hj. induction Hj as [|j Hj IH]; [done|]. apply IH.
    destruct (new !! j) as [o|] eqn:Ho.
    - rewrite (drop_S _ _ _ Ho). by constructor.
    - apply lookup_ge_None in Ho. by rewrite drop_ge in Hk |- * by lia. }
  induction ps as [|[i0 j0] ps IH]; intros i j Hlb [Hs Hsort].
  - simpl. generalize (drop i old), (drop j new). clear. intros old new.
    induction old; [induction new|]; by constructor.
  - apply Forall_cons in Hlb as [[Hi Hj] _]. simpl in Hi, Hj.
    destruct (Hs i0 j0) as (o & n & Ho & Hn & Hsame); [left|].
    apply (Hold i0); [|done]. apply (Hnew j0); [|done].
    rewrite (drop_S _ _ _ Ho), (drop_S _ _ _ Hn). constructor; [done|].
    apply StronglySorted_inv in Hsort as [Hsort Hall]. apply IH.
    + eapply Forall_impl; [done|]. unfold before. simpl. lia.
    + split; [|done]. intros i1 j1 Hin. apply Hs. by right.
Qed.

Lemma lcs_walk_spec old new fuel i j :
  i ≤ length old → j ≤ length new → length old - i + (length new - j) ≤ fuel →
  ∃ ps, lcs_walk fuel (lcs_lengths old new) old new i j = Some ps ∧ common old new ps ∧
        Forall (λ p, i ≤ p.1 ∧ j ≤ p.2) ps ∧ length ps = lcs_len (drop i old) (drop j new).
Proof.
  revert i j. induction fuel as [|fuel IH]; intros i j Hi Hj Hf.
  - assert (i = length old) as -> by lia. exists []. cbn.
    rewrite lookup_ge_None_2, drop_all by lia. split_and!; [done|apply common_nil|done|done].
  - cbn [lcs_walk]. destruct (old !! i) as [o|] eqn:Ho.
    2:{ apply lookup_ge_None in Ho. exists []. rewrite drop_ge by lia. split_and!; [done|apply common_nil|done|done]. }
    destruct (new !! j) as [n|] eqn:Hn.
    2:{ apply lookup_ge_None in Hn. exists []. rewrite (drop_ge new), lcs_len_nil_r by lia.
        split_and!; [done|apply common_nil|done|done]. }
    pose proof (lookup_lt_Some _ _ _ Ho). pose proof (lookup_lt_Some _ _ _ Hn).
    rewrite (drop_S _ _ _ Ho), (drop_S _ _ _ Hn), lcs_len_cons, <-(drop_S _ _ _ Ho), <-(drop_S _ _ _ Hn).
    destruct (same_text o n) eqn:Hs.
    + destruct (IH (S i) (S j)) as (ps & -> & [Hc Hsort] & Hlb & Hl); [lia..|].
      exists ((i, j) :: ps). split_and!; [done| | |by rewrite <-Hl].
      * split; [intros i' j' [[= -> ->]|Hin]%elem_of_cons; eauto|]. constructor; [done|exact Hlb].
      * constructor; [done|]. eapply Forall_impl; [done|]. simpl. lia.
    + rewrite !cell_spec by lia.
      destruct (Nat.leb_spec (lcs_len (drop i old) (drop (S j) new)) (lcs_len (drop (S i) old) (drop j new))) as [Hle|Hle].
      * destruct (IH (S i) j) as (ps & -> & Hc & Hlb & Hl); [lia..|]. exists ps.
        split_and!; [done|done| |lia]. eapply Forall_impl; [done|]. simpl. lia.
      * destruct (IH i (S j)) as (ps & -> & Hc & Hlb & Hl); [lia..|]. exists ps.
        split_and!; [done|done| |lia]. eapply Forall_impl; [done|]. simpl. lia.
Qed.

(** [lcs_matches] is optimal: the walk returns, its matches are eligible equal texts ascending on
    both sides, and no other such list of matches is longer. *)
Theorem lcs_optimal old new :
  ∃ ps, lcs_matches old new = Some ps ∧ common old new ps ∧ ∀ qs, common old new qs → length qs ≤ length ps.
Proof.
  destruct (lcs_walk_spec old new (length old + length new) 0 0) as (ps & Hps & Hc & _ & Hl); [lia..|].
  exists ps. split_and!; [done|done|]. intros qs Hq%common_csub%lcs_len_greatest. by rewrite Hl.
Qed.
