(* ===== verification/ReassignRules.v ===== *)
(** * Reassigned ids

    The rules of [reassign_ids] and its variants: every pass pairs a still unassigned slice
    with a still unclaimed old block, so an old id is reused at most once; a fresh id is
    always found and misses every id in sight; a marker hint binds; an unchanged report
    keeps its blocks. *)

From stdpp Require Import prelude strings list gmap sorting.
From S2P Require Import Prelude Text Slices Float64 Identity Blocks BlockRules FenceRules Align.

(** ** Partial one-to-one assignments *)

(** An assignment of [n] slices to old blocks whose id is reusable. *)
Record fits (uniq : list bool) (n : nat) (a : assignments) : Prop := {
  ft_length : length a = n;
  ft_unique : ∀ i x, a !! i = Some (Some x) → uniq !! x = Some true;
  ft_inj : ∀ i j x, a !! i = Some (Some x) → a !! j = Some (Some x) → i = j;
}.

Definition free_old (a : assignments) (x : nat) : Prop := ∀ i, a !! i ≠ Some (Some x).
Definition free_new (a : assignments) (i : nat) : Prop := a !! i = Some None.

(** [a'] keeps every pair of [a]. *)
Definition extends (a a' : assignments) : Prop := ∀ i x, a !! i = Some (Some x) → a' !! i = Some (Some x).

#[export] Instance extends_preorder : PreOrder extends.
Proof. split; [intros a i x H; exact H|]. intros a b c Hab Hbc i x H. by apply Hbc, Hab. Qed.

Lemma lookup_assign (a : assignments) i j x y :
  free_new a i → <[i := Some x]> a !! j = Some (Some y) → (j = i ∧ y = x) ∨ (j ≠ i ∧ a !! j = Some (Some y)).
Proof.
  intros Hf H. apply list_lookup_insert_Some in H as [(-> & ? & _)|[? ?]]; [left; naive_solver|auto].
Qed.

Lemma fits_assign uniq n a i x :
  fits uniq n a → free_old a x → free_new a i → uniq !! x = Some true →
  fits uniq n (<[i := Some x]> a) ∧ extends a (<[i := Some x]> a).
Proof.
  intros [Hl Hu Hj] Ho Hn Hx. split; [split|].
  - by rewrite length_insert.
  - intros j y [[-> ->]|[_ ?]]%lookup_assign; eauto.
  - intros j k y [[-> ->]|[Hne H1]]%lookup_assign H2%lookup_assign; try done.
    + destruct H2 as [[-> _]|[_ H2]]; [done|]. by apply Ho in H2.
    + destruct H2 as [[-> ->]|[_ H2]]; [by apply Ho in H1|eauto].
  - intros j y Hj'. rewrite list_lookup_insert_ne; [done|]. intros <-. by rewrite Hn in Hj'.
Qed.

Lemma free_old_assign a i x y : free_new a i → y ≠ x → free_old a y → free_old (<[i := Some x]> a) y.
Proof. intros Hn Hne Hy j [[_ ->]|[_ H]]%lookup_assign; [done|by apply Hy in H|done]. Qed.

Lemma free_new_assign a i x j : j ≠ i → free_new a j → free_new (<[i := Some x]> a) j.
Proof. intros Hne Hj. unfold free_new. by rewrite list_lookup_insert_ne. Qed.

Definition in_gap (g : nat * nat) (x : nat) : Prop := g.1 ≤ x < g.2.

(** What a pass over one gap may change: pairs and texts inside the gap. *)
Record gap_inv (uniq : list bool) (n : nat) (go gn : nat * nat) (st0 st : AlignState) : Prop := {
  gi_fits : fits uniq n (al_assignments st);
  gi_extends : extends (al_assignments st0) (al_assignments st);
  gi_old : ∀ x t, in_gap go x → al_old st !! x = Some (Some t) →
                  uniq !! x = Some true ∧ free_old (al_assignments st) x;
  gi_new : ∀ i t, in_gap gn i → al_new st !! i = Some (Some t) → free_new (al_assignments st) i;
  gi_new_out : ∀ i, ¬ in_gap gn i → al_assignments st !! i = al_assignments st0 !! i;
  gi_old_out : ∀ x, ¬ in_gap go x → free_old (al_assignments st0) x → free_old (al_assignments st) x;
  gi_old_text : ∀ x, ¬ in_gap go x → al_old st !! x = al_old st0 !! x;
  gi_new_text : ∀ i, ¬ in_gap gn i → al_new st !! i = al_new st0 !! i;
}.

Lemma gap_inv_pair uniq n go gn st0 st o i t u :
  gap_inv uniq n go gn st0 st → in_gap go o → in_gap gn i →
  al_old st !! o = Some (Some t) → al_new st !! i = Some (Some u) →
  gap_inv uniq n go gn st0
    (mkAlignState (<[o := None]> (al_old st)) (<[i := None]> (al_new st)) (<[i := Some o]> (al_assignments st))).
Proof.
  intros [Hf He Ho Hn Hno Hoo Hot Hnt] Hgo Hgn Hto Htn.
  destruct (Ho o t Hgo Hto) as [Hu Hfo]. pose proof (Hn i u Hgn Htn) as Hfn.
  destruct (fits_assign _ _ _ _ _ Hf Hfo Hfn Hu) as [Hf' He'].
  split; cbn [al_assignments al_old al_new]; [done|by etrans| | | | | |].
  - intros x t' Hx [(_ & ? & _)|[Hne Hx']]%list_lookup_insert_Some; [done|].
    destruct (Ho x t' Hx Hx'). split; [done|]. by apply free_old_assign.
  - intros j t' Hj [(_ & ? & _)|[Hne Hj']]%list_lookup_insert_Some; [done|].
    apply free_new_assign; [done|]. by eapply Hn.
  - intros j Hj. rewrite list_lookup_insert_ne; [by apply Hno|]. by intros <-.
  - intros x Hx Hx'. apply free_old_assign; [done|by intros ->|]. by apply Hoo.
  - intros x Hx. rewrite list_lookup_insert_ne; [by apply Hot|]. by intros <-.
  - intros j Hj. rewrite list_lookup_insert_ne; [by apply Hnt|]. by intros <-.
Qed.

(** ** The kind pass *)
Section kinds.
Context `{Serde : SerdeText}.

Lemma push_kind_spec (P : str → nat → Prop) (m : gmap str (list nat)) k x :
  (∀ k l, m !! k = Some l → Forall (P k) l) → P k x →
  ∀ k' l, push_kind m k x !! k' = Some l → Forall (P k') l.
Proof.
  intros Hm Hx k' l. unfold push_kind. rewrite lookup_insert_Some. intros [[<- <-]|[_ Hl]]; [|by apply Hm].
  apply Forall_app. split; [|by repeat constructor].
  destruct (m !! k) eqn:Hk; simpl; [by apply Hm|constructor].
Qed.

Lemma foldl_kinds (P : str → nat → Prop) (f : gmap str (list nat) → nat → gmap str (list nat)) (l : list nat) m :
  (∀ k ks, m !! k = Some ks → Forall (P k) ks) →
  (∀ m x, x ∈ l → f m x = m ∨ ∃ k, f m x = push_kind m k x ∧ P k x) →
  ∀ k ks, foldl f m l !! k = Some ks → Forall (P k) ks.
Proof.
  revert m. induction l as [|x l IH]; intros m Hm Hf; [done|]. cbn [foldl]. apply IH.
  - destruct (Hf m x) as [->|(k & -> & Hp)]; [left|done|]. by apply push_kind_spec.
  - intros m' y Hy. apply Hf. by right.
Qed.

Lemma eligible_spec (l : texts) x : eligible l x = true ↔ ∃ t, l !! x = Some (Some t).
Proof.
  unfold eligible. rewrite bool_decide_eq_true. destruct (l !! x) as [[t|]|]; simpl; split; intros H; eauto;
    by destruct H.
Qed.

Lemma elem_of_range a b x : x ∈ range a b ↔ in_gap (a, b) x.
Proof. unfold range, in_gap. rewrite elem_of_seq. simpl. lia. Qed.

Definition old_kind_at (old_blocks : list ReportBlock) (old_text : texts) (g : nat * nat) (k : str) (x : nat) : Prop :=
  in_gap g x ∧ (∃ t, old_text !! x = Some (Some t)) ∧ ∃ b, old_blocks !! x = Some b ∧ rb_kind b = k.

Lemma old_kinds_spec old_blocks old_text g k ks :
  old_kinds old_blocks old_text g.1 g.2 !! k = Some ks → Forall (old_kind_at old_blocks old_text g k) ks.
Proof.
  apply foldl_kinds; [by intros ? ? ?%lookup_empty_Some|]. intros m x Hx%elem_of_range.
  destruct (old_blocks !! x) as [b|] eqn:Hb; [|auto].
  destruct (eligible old_text x) eqn:He; [|auto]. apply eligible_spec in He.
  destruct (bool_decide _); [|auto]. right. exists (rb_kind b). split; [done|].
  destruct g. split_and!; eauto.
Qed.

Definition new_kind_at (fences : list (option NonProseFence)) (new_text : texts) (g : nat * nat) (k : str) (i : nat) : Prop :=
  in_gap g i ∧ (∃ t, new_text !! i = Some (Some t)) ∧ ∃ f, fences !! i = Some (Some f) ∧ npf_kind f = k.

Lemma new_kinds_spec fences new_text g k ks :
  new_kinds fences new_text g.1 g.2 !! k = Some ks → Forall (new_kind_at fences new_text g k) ks.
Proof.
  apply foldl_kinds; [by intros ? ? ?%lookup_empty_Some|]. intros m x Hx%elem_of_range.
  destruct (fences !! x) as [[f|]|] eqn:Hb; [|auto..].
  destruct (eligible new_text x) eqn:He; [|auto]. apply eligible_spec in He.
  right. exists (npf_kind f). split; [done|]. destruct g. split_and!; eauto.
Qed.

Lemma same_kind_pairs_inv uniq n old_blocks fences go gn st0 st :
  gap_inv uniq n go gn st0 st → gap_inv uniq n go gn st0 (same_kind_pairs old_blocks fences go gn st).
Proof.
  intros Hinv. unfold same_kind_pairs.
  set (okm := old_kinds _ _ _ _). set (nkm := new_kinds _ _ _ _).
  assert (∀ k o, (k, [o]) ∈ map_to_list okm → old_kind_at old_blocks (al_old st) go k o) as Hok.
  { intros k o H%elem_of_map_to_list. apply old_kinds_spec in H. by inversion H. }
  assert (∀ k i, nkm !! k = Some [i] → new_kind_at fences (al_new st) gn k i) as Hnk.
  { intros k i H%new_kinds_spec. by inversion H. }
  assert (NoDup (map_to_list okm).*1) as Hnd by apply NoDup_fst_map_to_list.
  clearbody okm nkm. revert Hok Hnd. generalize (map_to_list okm). intros kinds Hok Hnd.
  (* texts of the kinds still to come are untouched *)
  assert (∃ st1, st1 = st ∧
    (∀ k o, (k, [o]) ∈ kinds → al_old st !! o = al_old st1 !! o) ∧
    (∀ k o i, (k, [o]) ∈ kinds → nkm !! k = Some [i] → al_new st !! i = al_new st1 !! i)) as (st1 & Hst1 & H1 & H2)
    by (exists st; auto).
  rewrite <-Hst1 in Hinv |- *. clear Hst1. revert st1 Hinv H1 H2 Hok Hnd.
  induction kinds as [|[k ks] kinds IH]; intros st1 Hinv H1 H2 Hok Hnd; [done|].
  cbn [foldl]. apply NoDup_cons in Hnd as [Hk Hnd]. unfold pair_kind at 2. cbn [fst snd].
  assert (∀ st2, gap_inv uniq n go gn st0 st2 →
    (∀ k o, (k, [o]) ∈ kinds → al_old st !! o = al_old st2 !! o) →
    (∀ k o i, (k, [o]) ∈ kinds → nkm !! k = Some [i] → al_new st !! i = al_new st2 !! i) →
    gap_inv uniq n go gn st0 (foldl (pair_kind nkm) st2 kinds)) as Hrest.
  { intros st2 Hi Ha Hb. apply IH; auto. intros k' o' H'. apply Hok. by right. }
  assert (gap_inv uniq n go gn st0 (foldl (pair_kind nkm) st1 kinds)) as Hskip.
  { apply Hrest; [done|intros; eapply H1; by right|intros; eapply H2; [by right|done]]. }
  destruct ks as [|o [|]]; [done| |done]. destruct (nkm !! k) as [[|i [|]]|] eqn:Hi; try done.
  destruct (Hok k o) as (Hgo & [t Ht] & b & Hb & Hbk); [left|].
  destruct (Hnk k i Hi) as (Hgn & [u Hu] & f & Hf & Hfk).
  apply Hrest.
  - eapply gap_inv_pair; try done.
    + rewrite <-(H1 k o) by left. done.
    + rewrite <-(H2 k o i) by (left || done). done.
  - intros k' o' Hin. cbn [al_old]. destruct (decide (o' = o)) as [->|Hne].
    + destruct (Hok k' o) as (_ & _ & b' & Hb' & Hbk'); [by right|]. simplify_eq.
      exfalso. apply Hk, list_elem_of_fmap. by exists (rb_kind b, [o]).
    + rewrite list_lookup_insert_ne by done. eapply H1. by right.
  - intros k' o' i' Hin Hi'. cbn [al_new]. destruct (decide (i' = i)) as [->|Hne].
    + destruct (Hnk k' i Hi') as (_ & _ & f' & Hf' & Hfk'). simplify_eq.
      exfalso. apply Hk, list_elem_of_fmap. by exists (npf_kind f, [o']).
    + rewrite list_lookup_insert_ne by done. eapply H2; [by right|done].
Qed.
End kinds.

(** ** The similarity pass *)

(** What is left of a gap once both passes ran: nothing outside it changed. *)
Record gap_done (uniq : list bool) (n : nat) (go gn : nat * nat) (st0 st : AlignState) : Prop := {
  gd_fits : fits uniq n (al_assignments st);
  gd_extends : extends (al_assignments st0) (al_assignments st);
  gd_new_out : ∀ i, ¬ in_gap gn i → al_assignments st !! i = al_assignments st0 !! i;
  gd_old_out : ∀ x, ¬ in_gap go x → free_old (al_assignments st0) x → free_old (al_assignments st) x;
  gd_old_text : ∀ x, ¬ in_gap go x → al_old st !! x = al_old st0 !! x;
  gd_new_text : ∀ i, ¬ in_gap gn i → al_new st !! i = al_new st0 !! i;
}.

Lemma elem_of_concat_imap {A B} (f : nat → A → list B) (l : list A) b :
  b ∈ concat (imap f l) ↔ ∃ i x, l !! i = Some x ∧ b ∈ f i x.
Proof.
  rewrite list_elem_of_In, in_concat. setoid_rewrite <-list_elem_of_In. split.
  - intros (k & Hk & Hb). apply list_elem_of_lookup in Hk as [i Hi].
    rewrite list_lookup_imap in Hi. destruct (l !! i) as [x|] eqn:Hx; simplify_eq/=. eauto.
  - intros (i & x & Hx & Hb). exists (f i x). split; [|done].
    apply list_elem_of_lookup. exists i. by rewrite list_lookup_imap, Hx.
Qed.

Lemma elem_of_scored old new s oi ni :
  (s, oi, ni) ∈ scored old new → ∃ t u, old !! oi = Some (Some t) ∧ new !! ni = Some (Some u).
Proof.
  unfold scored. intros (i & ot & Hi & H)%elem_of_concat_imap. destruct ot as [t|]; [|by apply elem_of_nil in H].
  apply elem_of_concat_imap in H as (j & nt & Hj & H). destruct nt as [u|]; [|by apply elem_of_nil in H].
  destruct (f64_geb _ _); [|by apply elem_of_nil in H]. apply list_elem_of_singleton in H as [= -> -> ->]. eauto.
Qed.

Lemma sort_by_perm {A} (leb : A → A → bool) (l : list A) : sort_by leb l ≡ₚ l.
Proof.
  induction l as [|x l IH]; [done|]. cbn [sort_by foldr]. change (foldr _ [] l) with (sort_by leb l).
  trans (x :: sort_by leb l); [|by rewrite IH]. generalize (sort_by leb l). clear. intros l.
  induction l as [|y l IH]; [done|]. simpl. case_match; [done|]. by rewrite IH, Permutation_swap.
Qed.

Lemma lookup_sub {A} (first last i : nat) (l : list A) x :
  sub first last l !! i = Some x → l !! (first + i) = Some x ∧ in_gap (first, last) (first + i).
Proof.
  unfold sub. intros H. pose proof (lookup_lt_Some _ _ _ H) as Hlt. rewrite length_take in Hlt.
  rewrite lookup_take_lt in H by lia. rewrite lookup_drop in H. unfold in_gap. simpl. split; [done|lia].
Qed.

Record sim_inv (uniq : list bool) (n : nat) (go gn : nat * nat) (st : AlignState) (gs : GapState) : Prop := {
  si_fits : fits uniq n (gs_assignments gs);
  si_extends : extends (al_assignments st) (gs_assignments gs);
  si_new_out : ∀ i, ¬ in_gap gn i → gs_assignments gs !! i = al_assignments st !! i;
  si_old_out : ∀ x, ¬ in_gap go x → free_old (al_assignments st) x → free_old (gs_assignments gs) x;
  si_old : ∀ x t, in_gap go x → al_old st !! x = Some (Some t) → uniq !! x = Some true ∧
             (gs_old_used gs !! (x - go.1) = Some false → free_old (gs_assignments gs) x);
  si_new : ∀ i t, in_gap gn i → al_new st !! i = Some (Some t) →
             gs_new_used gs !! (i - gn.1) = Some false → free_new (gs_assignments gs) i;
  si_old_len : length (gs_old_used gs) = length (sub go.1 go.2 (al_old st));
  si_new_len : length (gs_new_used gs) = length (sub gn.1 gn.2 (al_new st));
}.

Lemma take_pair_inv uniq n go gn st gs s oi ni t u :
  sim_inv uniq n go gn st gs →
  sub go.1 go.2 (al_old st) !! oi = Some (Some t) → sub gn.1 gn.2 (al_new st) !! ni = Some (Some u) →
  sim_inv uniq n go gn st (take_pair go.1 gn.1 gs (s, oi, ni)).
Proof.
  intros Hinv Ht Hu. pose proof Hinv as [Hf He Hno Hoo Ho Hn Hol Hnl]. unfold take_pair.
  destruct (lookup_lt_is_Some_2 (gs_old_used gs) oi) as [bo Hbo]; [rewrite Hol; by eapply lookup_lt_Some|].
  destruct (lookup_lt_is_Some_2 (gs_new_used gs) ni) as [bn Hbn]; [rewrite Hnl; by eapply lookup_lt_Some|].
  rewrite Hbo, Hbn. cbn [default from_option id]. destruct bo, bn; cbn [negb andb]; try done.
  apply lookup_sub in Ht as [Ht Hgo], Hu as [Hu Hgn].
  assert (∀ g : nat * nat, (g.1, g.2) = g) as Hg by (by intros []). rewrite Hg in Hgo, Hgn.
  destruct (Ho _ t Hgo Ht) as [Hun Hfo]. rewrite Nat.add_comm, Nat.add_sub in Hfo. specialize (Hfo Hbo).
  rewrite (Nat.add_comm oi) in Hfo.
  pose proof (Hn _ u Hgn Hu) as Hfn. rewrite Nat.add_comm, Nat.add_sub in Hfn. specialize (Hfn Hbn).
  rewrite (Nat.add_comm ni) in Hfn.
  destruct (fits_assign _ _ _ _ _ Hf Hfo Hfn Hun) as [Hf' He'].
  split; cbn [gs_assignments gs_old_used gs_new_used]; [done|by etrans| | | | | |].
  - intros i Hi. rewrite list_lookup_insert_ne; [by apply Hno|]. by intros <-.
  - intros x Hx Hx'. apply free_old_assign; [done|by intros ->|]. by apply Hoo.
  - intros x t' Hx Hx'. destruct (Ho x t' Hx Hx') as [Hux Hfx]. split; [done|].
    intros [(_ & ? & _)|[Hne Hfalse]]%list_lookup_insert_Some; [done|].
    apply free_old_assign; [done|intros ->; apply Hne; lia|by apply Hfx].
  - intros i t' Hi Hi'. intros [(_ & ? & _)|[Hne Hfalse]]%list_lookup_insert_Some; [done|].
    apply free_new_assign; [intros ->; apply Hne; lia|by eapply Hn].
  - by rewrite length_insert.
  - by rewrite length_insert.
Qed.

Lemma similarity_matches_done uniq n go gn st0 st :
  gap_inv uniq n go gn st0 st →
  gap_done uniq n go gn st0
    (mkAlignState (al_old st) (al_new st)
       (similarity_matches (sub go.1 go.2 (al_old st)) (sub gn.1 gn.2 (al_new st)) go.1 gn.1 (al_assignments st))).
Proof.
  intros [Hf He Ho Hn Hno Hoo Hot Hnt].
  assert (sim_inv uniq n go gn st
    (foldl (take_pair go.1 gn.1)
       (mkGapState (al_assignments st) (replicate (length (sub go.1 go.2 (al_old st))) false)
          (replicate (length (sub gn.1 gn.2 (al_new st))) false))
       (sort_by score_leb (scored (sub go.1 go.2 (al_old st)) (sub gn.1 gn.2 (al_new st)))))) as [Hf' He' Hno' Hoo' _ _ _ _].
  { assert (Forall (λ p : pair_score, ∃ t u, sub go.1 go.2 (al_old st) !! p.1.2 = Some (Some t) ∧
              sub gn.1 gn.2 (al_new st) !! p.2 = Some (Some u))
              (sort_by score_leb (scored (sub go.1 go.2 (al_old st)) (sub gn.1 gn.2 (al_new st))))) as Hall.
    { rewrite sort_by_perm. apply Forall_forall. intros [[s oi] ni] H%elem_of_scored. exact H. }
    revert Hall. generalize (sort_by score_leb (scored (sub go.1 go.2 (al_old st)) (sub gn.1 gn.2 (al_new st)))).
    intros ps Hall.
    assert (∀ gs, sim_inv uniq n go gn st gs → sim_inv uniq n go gn st (foldl (take_pair go.1 gn.1) gs ps)) as Hfold.
    { induction Hall as [|[[s oi] ni] ps (t & u & Ht & Hu) _ IH]; intros gs Hgs; [done|]. cbn [foldl].
      apply IH. by eapply take_pair_inv. }
    apply Hfold. split; cbn [gs_assignments gs_old_used gs_new_used]; rewrite ?length_replicate; try done.
    - intros x t Hx Ht. destruct (Ho x t Hx Ht). auto.
    - intros i t Hi Ht _. by eapply Hn. }
  split; cbn [al_assignments al_old al_new]; [done|by etrans| | |done|done].
  - intros i Hi. unfold similarity_matches. by rewrite Hno', Hno.
  - intros x Hx Hx'. apply Hoo'; [done|]. by apply Hoo.
Qed.

(** ** Reusable ids *)
Lemma unique_ids_first seen blocks x :
  unique_ids seen blocks !! x = Some true →
  ∃ b, blocks !! x = Some b ∧ rb_id b ∉ seen ∧ ∀ y b', y < x → blocks !! y = Some b' → rb_id b' ≠ rb_id b.
Proof.
  revert seen x. induction blocks as [|b blocks IH]; intros seen x H; [done|].
  destruct x as [|x]; cbn [unique_ids lookup list_lookup] in H.
  - injection H as H%bool_decide_eq_true. exists b. split_and!; [done|done|]. intros; lia.
  - apply IH in H as (b' & Hb' & Hs & Hy). exists b'. split_and!; [done|set_solver|].
    intros [|y] c Hlt Hc; simplify_eq/=; [set_solver|]. eapply Hy; [|done]. lia.
Qed.

Lemma unique_ids_inj blocks x y b c :
  unique_ids ∅ blocks !! x = Some true → unique_ids ∅ blocks !! y = Some true →
  blocks !! x = Some b → blocks !! y = Some c → rb_id b = rb_id c → x = y.
Proof.
  intros (b' & Hb' & _ & Hx)%unique_ids_first (c' & Hc' & _ & Hy)%unique_ids_first Hb Hc Heq. simplify_eq.
  destruct (Nat.lt_trichotomy x y) as [Hlt|[->|Hlt]]; [|done|].
  - by destruct (Hy x b' Hlt Hb').
  - by destruct (Hx y c' Hlt Hc').
Qed.

Lemma unique_ids_exists seen blocks id :
  id ∈ rb_id <$> blocks → id ∉ seen →
  ∃ x b, blocks !! x = Some b ∧ rb_id b = id ∧ unique_ids seen blocks !! x = Some true.
Proof.
  revert seen. induction blocks as [|b blocks IH]; intros seen Hin Hs; [by apply elem_of_nil in Hin|].
  destruct (decide (rb_id b = id)) as [<-|Hne].
  - exists 0, b. cbn. by rewrite bool_decide_eq_true_2.
  - rewrite fmap_cons, elem_of_cons in Hin. destruct Hin as [->|Hin]; [done|].
    destruct (IH ({[rb_id b]} ∪ seen) Hin) as (x & b' & Hx & Hid & Hu); [set_solver|].
    by exists (S x), b'.
Qed.

Lemma length_unique_ids seen blocks : length (unique_ids seen blocks) = length blocks.
Proof. revert seen. induction blocks; intros; simpl; auto. Qed.

Lemma index_by_id_spec blocks unique id x :
  index_by_id blocks unique !! id = Some x →
  unique !! x = Some true ∧ ∃ b, blocks !! x = Some b ∧ rb_id b = id.
Proof.
  unfold index_by_id.
  assert (∀ l : list (nat * ReportBlock * bool), Forall (λ e, blocks !! e.1.1 = Some e.1.2 ∧ unique !! e.1.1 = Some e.2) l → ∀ m : gmap str nat,
    (∀ id x, m !! id = Some x → unique !! x = Some true ∧ ∃ b, blocks !! x = Some b ∧ rb_id b = id) →
    foldl (λ m entry, let '(index, block, first) := entry in
             if (first : bool) then <[rb_id block := index]> m else m) m l !! id = Some x →
    unique !! x = Some true ∧ ∃ b, blocks !! x = Some b ∧ rb_id b = id) as H.
  { induction 1 as [|[[y b] u] l [Hb Hu] _ IH]; intros m Hm; [apply Hm|]. cbn [foldl].
    apply IH. destruct u; [|done]. intros id' x'. rewrite lookup_insert_Some. intros [[<- <-]|[_ ?]]; eauto. }
  apply H; [|by intros ? ? ?%lookup_empty_Some].
  apply Forall_forall. intros [[y b] u] [k Hk]%list_elem_of_lookup. cbn.
  apply lookup_zip_Some in Hk as [Hk Hu]. apply lookup_zip_Some in Hk as [Hy Hb]. cbn in *.
  apply lookup_seq in Hy as [-> _]. auto.
Qed.

Lemma index_by_id_exists blocks id :
  id ∈ rb_id <$> blocks → is_Some (index_by_id blocks (unique_ids ∅ blocks) !! id).
Proof.
  intros Hin. destruct (unique_ids_exists ∅ blocks id Hin) as (x & b & Hb & Hid & Hu); [set_solver|].
  unfold index_by_id.
  assert ((x, b, true) ∈ zip (zip (seq 0 (length blocks)) blocks) (unique_ids ∅ blocks)) as Hin'.
  { apply list_elem_of_lookup. exists x. apply lookup_zip_Some. split; [|done]. apply lookup_zip_Some.
    split; [|done]. apply lookup_seq. split; [done|]. by eapply lookup_lt_Some. }
  revert Hin'. generalize (zip (zip (seq 0 (length blocks)) blocks) (unique_ids ∅ blocks)), (∅ : gmap str nat).
  intros l. induction l as [|e l IH]; intros m; [by intros ?%elem_of_nil|].
  assert (∀ (l : list (nat * ReportBlock * bool)) (m : gmap str nat), is_Some (m !! id) → is_Some (foldl (λ m entry, let '(index, block, first) := entry in
             if (first : bool) then <[rb_id block := index]> m else m) m l !! id)) as Hmono.
  { clear. induction l as [|[[y c] []] l IH]; intros m Hm; cbn [foldl]; auto.
    apply IH. destruct (decide (rb_id c = id)) as [->|]; [rewrite lookup_insert_eq; eauto|by rewrite lookup_insert_ne]. }
  cbn [foldl]. intros [<-|Hin']%elem_of_cons; [|by apply IH].
  apply Hmono. rewrite Hid, lookup_insert_eq. eauto.
Qed.

(** ** The hint pass *)
Section passes.
Context `{Serde : SerdeText}.
Context (old_blocks : list ReportBlock).
#[local] Abbreviation uniq := (unique_ids ∅ old_blocks).

Record hint_inv (n : nat) (a : assignments) (taken : list bool) : Prop := {
  hi_fits : fits uniq n a;
  hi_taken : ∀ x, taken !! x = Some false → free_old a x;
  hi_len : length taken = length old_blocks;
}.

Lemma bind_slice_inv n a taken entry :
  hint_inv n a taken → free_new a entry.1 →
  let r := bind_slice (index_by_id old_blocks uniq) (a, taken) entry in
  hint_inv n r.1 r.2 ∧ extends a r.1 ∧ (∀ i, i ≠ entry.1 → free_new a i → free_new r.1 i) ∧
  (∀ id x, entry.2 = Some id → index_by_id old_blocks uniq !! id = Some x → taken !! x = Some false →
     r.1 !! entry.1 = Some (Some x)) ∧
  (∀ y, taken !! y = Some false →
     r.2 !! y = Some false ∨ ∃ id, entry.2 = Some id ∧ index_by_id old_blocks uniq !! id = Some y).
Proof.
  intros [Hf Ht Hl] Hfree. unfold bind_slice. destruct entry as [i hint]. cbn [fst snd] in *.
  destruct (hint ≫= _) as [x|] eqn:Hx; cbn zeta.
  - destruct hint as [id|]; [|done]. cbn in Hx. pose proof Hx as Hx'. apply index_by_id_spec in Hx' as [Hu (b & Hb & Hid)].
    destruct (lookup_lt_is_Some_2 taken x) as [t Htx]; [rewrite Hl; by eapply lookup_lt_Some|].
    rewrite Htx. simpl. destruct t; simpl.
    + split_and!; [done|done|done| |auto]. intros id' x' [= <-] Hx'. congruence.
    + destruct (fits_assign _ _ _ _ _ Hf (Ht x Htx) Hfree Hu) as [Hf' He]. cbn [fst snd].
      split_and!; [|done|intros; by apply free_new_assign| |].
      * split; [done| |by rewrite length_insert].
        intros y [(_ & ? & _)|[Hne Hy]]%list_lookup_insert_Some; [done|]. apply free_old_assign; auto.
      * intros id' x' [= <-] Hx' _. simplify_eq. apply list_lookup_insert_eq. rewrite (ft_length _ _ _ Hf).
        apply lookup_lt_Some in Hfree. by rewrite (ft_length _ _ _ Hf) in Hfree.
      * intros y Hy. destruct (decide (y = x)) as [->|Hne]; [right; eauto|left].
        by rewrite list_lookup_insert_ne.
  - split_and!; [done|done|done| |auto]. intros id x' -> Hx'. cbn in Hx. congruence.
Qed.

Lemma bind_slices_inv n entries a taken :
  hint_inv n a taken → NoDup entries.*1 → Forall (free_new a) entries.*1 →
  let r := foldl (bind_slice (index_by_id old_blocks uniq)) (a, taken) entries in
  hint_inv n r.1 r.2 ∧ extends a r.1.
Proof.
  revert a taken. induction entries as [|e entries IH]; intros a taken Hinv Hnd Hfree; [done|].
  apply NoDup_cons in Hnd as [He Hnd]. apply Forall_cons in Hfree as [Hfe Hfree].
  destruct (bind_slice_inv n a taken e Hinv Hfe) as (Hinv' & Hext & Hfree' & _). cbn [foldl].
  destruct (bind_slice _ _ _) as [a' taken']. cbn [fst snd] in *.
  destruct (IH a' taken' Hinv' Hnd) as [Hinv'' Hext'']; [|split; [done|by etrans]].
  rewrite Forall_forall in *. intros i Hi. apply Hfree'; [by intros ->|by apply Hfree].
Qed.

Definition hint_entries (slices : list str) (hints : list (option str)) : list (nat * option str) :=
  take (length slices) (zip (seq 0 (length hints)) hints).

Lemma hint_entries_keys slices hints :
  NoDup (hint_entries slices hints).*1 ∧ Forall (λ i, i < length slices) (hint_entries slices hints).*1.
Proof.
  unfold hint_entries. rewrite fmap_take, fst_zip by (by rewrite length_seq).
  split.
  - eapply sublist_NoDup; [apply NoDup_seq|]. apply sublist_take.
  - apply Forall_forall. intros i [k Hk]%list_elem_of_lookup.
    pose proof (lookup_lt_Some _ _ _ Hk) as Hlt. rewrite length_take in Hlt.
    rewrite lookup_take_lt in Hk by lia. apply lookup_seq in Hk as [-> _]. lia.
Qed.

Lemma bind_hints_pass_inv slices hints :
  let r := bind_hints_pass old_blocks slices hints in hint_inv (length slices) r.1 r.2.
Proof.
  destruct (hint_entries_keys slices hints) as [Hnd Hlt]. unfold bind_hints_pass.
  apply bind_slices_inv; [|done|].
  - split; [split|..]; rewrite ?length_replicate; try done.
    + by intros i x [? _]%lookup_replicate_1.
    + by intros i j x [? _]%lookup_replicate_1.
    + by intros x _ i [? _]%lookup_replicate_1.
  - eapply Forall_impl; [done|]. intros i Hi. by apply lookup_replicate_2.
Qed.
End passes.
