(* ===== verification/ReassignIds.v ===== *)
(** * What a rewrite does to block ids

    The passes of [assign] composed over all gaps, the minting of fresh ids, and the
    theorems on [reassign_ids_with_hints_reserving] and [reassign_ids]. *)

From stdpp Require Import prelude strings list gmap sorting.
From S2P Require Import Prelude Text Slices Float64 Identity Blocks BlockRules MarkerRules FenceRules Align ReassignRules.

(** ** All gaps *)
Section assign.
Context `{Serde : SerdeText}.
Context (old_blocks : list ReportBlock).
#[local] Abbreviation uniq := (unique_ids ∅ old_blocks).

(** Past the anchors taken so far, an eligible text that is no anchor is unassigned. *)
Record open_inv (n : nat) (from : nat * nat) (anchors : list (nat * nat)) (st : AlignState) : Prop := {
  oi_fits : fits uniq n (al_assignments st);
  oi_old : ∀ x t, from.1 ≤ x → x ∉ anchors.*1 → al_old st !! x = Some (Some t) →
             uniq !! x = Some true ∧ free_old (al_assignments st) x;
  oi_new : ∀ i t, from.2 ≤ i → i ∉ anchors.*2 → al_new st !! i = Some (Some t) → free_new (al_assignments st) i;
  oi_ahead : Forall (λ p, from.1 ≤ p.1 ∧ from.2 ≤ p.2) anchors;
}.

Lemma align_gap_inv fences n from anchor anchors st :
  open_inv n from (anchor :: anchors) st → StronglySorted before (anchor :: anchors) →
  let r := align_gap old_blocks fences (st, from) anchor in
  open_inv n r.2 anchors r.1 ∧ extends (al_assignments st) (al_assignments r.1).
Proof.
  intros [Hf Ho Hn [[Hpo Hpn] _]%Forall_cons] Hsort. apply StronglySorted_inv in Hsort as [Hsort Hall].
  destruct from as [po pn], anchor as [ao an]. unfold align_gap. cbn zeta. cbn [fst snd] in *.
  assert (∀ x, x ∈ anchors.*1 → ao < x) as Ha1.
  { intros x ([y z] & -> & Hin)%list_elem_of_fmap. eapply Forall_forall in Hall; [|done]. by destruct Hall. }
  assert (∀ x, x ∈ anchors.*2 → an < x) as Ha2.
  { intros x ([y z] & -> & Hin)%list_elem_of_fmap. eapply Forall_forall in Hall; [|done]. by destruct Hall. }
  assert (gap_inv uniq n (po, ao) (pn, an) st st) as Hgap.
  { split; try done.
    - intros x t [Hx Hao] Ht. simpl in *. eapply Ho; [done| |done].
      intros [->|H%Ha1]%elem_of_cons; simpl in *; lia.
    - intros i t [Hi Hao] Ht. simpl in *. eapply Hn; [done| |done].
      intros [->|H%Ha2]%elem_of_cons; simpl in *; lia. }
  apply (same_kind_pairs_inv uniq n old_blocks fences) in Hgap.
  apply similarity_matches_done in Hgap as [Hf' He Hno Hoo Hot Hnt]. cbn [fst snd al_assignments al_old al_new] in *.
  split; [|done]. split; cbn [fst snd al_assignments al_old al_new]; [done| | |].
  - intros x t Hx Hnin Ht. assert (¬ in_gap (po, ao) x) as Hout by (unfold in_gap; simpl; lia).
    rewrite Hot in Ht by done. destruct (Ho x t) as [Hu Hfree]; [lia| |done|auto].
    intros [->|H]%elem_of_cons; simpl in *; [lia|done].
  - intros i t Hi Hnin Ht. assert (¬ in_gap (pn, an) i) as Hout by (unfold in_gap; simpl; lia).
    rewrite Hnt in Ht by done. unfold free_new. rewrite Hno by done. eapply Hn; [lia| |done].
    intros [->|H]%elem_of_cons; simpl in *; [lia|done].
  - eapply Forall_impl; [done|]. intros [y z] [H1 H2]. simpl in *. lia.
Qed.

Lemma align_gaps_inv fences n from anchors st :
  open_inv n from anchors st → StronglySorted before anchors →
  let r := foldl (align_gap old_blocks fences) (st, from) anchors in
  fits uniq n (al_assignments r.1) ∧ extends (al_assignments st) (al_assignments r.1).
Proof.
  revert from st. induction anchors as [|anchor anchors IH]; intros from st Hinv Hsort; [by destruct Hinv|].
  destruct (align_gap_inv fences n from anchor anchors st Hinv Hsort) as [Hinv' Hext]. cbn [foldl].
  destruct (align_gap _ _ _ _) as [st' from']. cbn [fst snd] in *.
  apply StronglySorted_inv in Hsort as [Hsort _].
  destruct (IH from' st' Hinv' Hsort). split; [done|by etrans].
Qed.

(** ** The anchors *)
Lemma set_anchors_inv n anchors a :
  fits uniq n a → StronglySorted before anchors →
  (∀ x i, (x, i) ∈ anchors → uniq !! x = Some true ∧ free_old a x ∧ free_new a i) →
  let a' := set_anchors anchors a in
  fits uniq n a' ∧ extends a a' ∧
  (∀ x, x ∉ anchors.*1 → free_old a x → free_old a' x) ∧ (∀ i, i ∉ anchors.*2 → free_new a i → free_new a' i).
Proof.
  unfold set_anchors. revert a. induction anchors as [|[x i] anchors IH]; intros a Hf Hsort Hfree; [done|].
  apply StronglySorted_inv in Hsort as [Hsort Hall]. destruct (Hfree x i) as (Hu & Hx & Hi); [left|].
  destruct (fits_assign _ _ _ _ _ Hf Hx Hi Hu) as [Hf' He]. cbn [foldl fst snd].
  destruct (IH _ Hf' Hsort) as (Hf'' & He'' & Hold & Hnew).
  - intros y j Hin. eapply Forall_forall in Hall as [H1 H2]; [|done]. simpl in *.
    destruct (Hfree y j) as (Huy & Hy & Hj); [by right|]. split_and!; [done| |].
    + apply free_old_assign; [done|lia|done].
    + apply free_new_assign; [lia|done].
  - split_and!; [done|by etrans| |].
    + intros y Hy Hfy. rewrite fmap_cons in Hy. apply not_elem_of_cons in Hy as [Hne Hy].
      apply Hold; [done|]. by apply free_old_assign.
    + intros j Hj Hfj. rewrite fmap_cons in Hj. apply not_elem_of_cons in Hj as [Hne Hj].
      apply Hnew; [done|]. by apply free_new_assign.
Qed.

Lemma same_text_true o n : same_text o n = true → ∃ t, o = Some t ∧ n = Some t.
Proof. unfold same_text. rewrite andb_true_iff, !bool_decide_eq_true. intros [[t ->] <-]. eauto. Qed.

Lemma start_state_spec slices hints :
  let st := start_state old_blocks slices hints in
  let a := (bind_hints_pass old_blocks slices hints).1 in
  al_assignments st = a ∧ length (al_old st) = length old_blocks ∧ length (al_new st) = length slices ∧
  (∀ x t, al_old st !! x = Some (Some t) → uniq !! x = Some true ∧ free_old a x) ∧
  (∀ i t, al_new st !! i = Some (Some t) → free_new a i).
Proof.
  destruct (bind_hints_pass_inv old_blocks slices hints) as [Hf Ht Hl].
  unfold start_state. destruct (bind_hints_pass _ _ _) as [a taken]. cbn [fst snd al_assignments al_old al_new] in *.
  rewrite !length_imap. split_and!; [done..| |].
  - intros x t Hx. rewrite list_lookup_imap in Hx. destruct (old_blocks !! x) as [b|] eqn:Hb; [|done]. simpl in Hx.
    destruct (lookup_lt_is_Some_2 uniq x) as [u Hu]; [rewrite length_unique_ids; by eapply lookup_lt_Some|].
    destruct (lookup_lt_is_Some_2 taken x) as [v Hv]; [rewrite Hl; by eapply lookup_lt_Some|].
    rewrite Hu, Hv in Hx. destruct u, v; simplify_eq/=. auto.
  - intros i t Hi. rewrite list_lookup_imap in Hi. destruct (slices !! i) as [s|] eqn:Hs; [|done]. simpl in Hi.
    case_bool_decide as Hm; [|done].
    destruct (lookup_lt_is_Some_2 a i) as [v Hv]; [rewrite (ft_length _ _ _ Hf); by eapply lookup_lt_Some|].
    rewrite Hv in Hm. simpl in Hm. by subst.
Qed.

(** The passes as a whole: they return, keep the hinted pairs and reuse an old id at most once. *)
Lemma assign_spec slices hints :
  ∃ a, assign old_blocks slices hints = Some a ∧ fits uniq (length slices) a ∧
       extends (bind_hints_pass old_blocks slices hints).1 a.
Proof.
  pose proof (hi_fits _ _ _ _ (bind_hints_pass_inv old_blocks slices hints)) as Hf.
  destruct (start_state_spec slices hints) as (Ha & Hlo & Hln & Ho & Hn). unfold assign.
  set (st := start_state old_blocks slices hints) in *.
  destruct (lcs_optimal (al_old st) (al_new st)) as (anchors & -> & [Hc Hsort] & _). rewrite Ha.
  destruct (set_anchors_inv (length slices) anchors _ Hf Hsort) as (Hf' & He' & Ho' & Hn').
  { intros x i Hin. destruct (Hc x i Hin) as (o & n & Hx & Hi & (t & -> & ->)%same_text_true).
    destruct (Ho x t Hx). split_and!; [done|done|by eapply Hn]. }
  eexists. split; [done|].
  match goal with |- context [foldl _ (?s, ?f) ?l] =>
    destruct (align_gaps_inv (parse_fence <$> slices) (length slices) f l s) as [Hfits Hext] end.
  - split; cbn [fst snd al_assignments al_old al_new]; [done| | |apply Forall_forall; intros ? _; lia].
    + intros x t _ Hx Ht. rewrite fmap_app in Hx. apply not_elem_of_app in Hx as [Hx _].
      destruct (Ho x t Ht). auto.
    + intros i t _ Hi Ht. rewrite fmap_app in Hi. apply not_elem_of_app in Hi as [Hi _]. eauto.
  - assert (Forall (λ p, before p (length old_blocks, length slices)) anchors) as Hlast.
    { apply Forall_forall. intros [x i] Hin. destruct (Hc x i Hin) as (o & n & Hx & Hi & _).
      apply lookup_lt_Some in Hx, Hi. unfold before. simpl. lia. }
    clear -Hsort Hlast. induction Hsort as [|p ps Hps IH Hp]; [by repeat constructor|].
    apply Forall_cons in Hlast as [Hpl Hlast]. simpl. constructor; [by apply IH|].
    apply Forall_app. split; [done|]. constructor; [done|constructor].
  - cbn [al_assignments] in Hext. split; [exact Hfits|]. etrans; [exact He'|exact Hext].
Qed.
End assign.

(** ** Fresh ids *)
Lemma hex_digit_inj a b : (a < 16)%N → (b < 16)%N → hex_digit a = hex_digit b → a = b.
Proof. unfold hex_digit. intros. destruct (N.ltb_spec a 10), (N.ltb_spec b 10); lia. Qed.

Lemma block_id_of_inj m n : (m < u16_modulus)%N → (n < u16_modulus)%N → block_id_of m = block_id_of n → m = n.
Proof.
  unfold block_id_of, u16_modulus. intros Hm Hn. simpl. intros Heq. injection Heq as H3 H2 H1 H0.
  apply hex_digit_inj in H3, H2, H1, H0; try (apply N.mod_lt; done).
  pose proof (N.Div0.div_mod m 16). pose proof (N.Div0.div_mod n 16).
  pose proof (N.Div0.div_mod (m / 16) 16). pose proof (N.Div0.div_mod (n / 16) 16).
  pose proof (N.Div0.div_mod (m / 256) 16). pose proof (N.Div0.div_mod (n / 256) 16).
  rewrite (N.Div0.div_div m 16 16), (N.Div0.div_div n 16 16) in *.
  rewrite (N.Div0.div_div m 256 16), (N.Div0.div_div n 256 16) in *.
  change (16 * 16)%N with 256%N in *. change (256 * 16)%N with 4096%N in *.
  rewrite (N.mod_small (m / 4096)), (N.mod_small (n / 4096)) in H3 by (apply N.Div0.div_lt_upper_bound; lia).
  lia.
Qed.

Lemma block_id_of_shape n : block_id (block_id_of n).
Proof.
  eexists. split; [done|]. split; [done|].
  assert (∀ d, is_hex_byte (hex_digit (d mod 16)) = true) as H; [|simpl; by rewrite !H].
  intros d. assert (d mod 16 < 16)%N as Hd by (by apply N.mod_lt).
  revert Hd. generalize (d mod 16)%N. intros x Hx. unfold is_hex_byte, is_ascii_digit, hex_digit.
  destruct (N.ltb_spec x 10); rewrite orb_true_iff, !andb_true_iff, !N.leb_le; lia.
Qed.

Lemma probe_Some k n used id used' :
  probe k n used = Some (id, used') → id ∉ used ∧ used' = ({[id]} ∪ used) ∧ block_id id.
Proof.
  revert n. induction k as [|k IH]; intros n H; [done|]. cbn [probe] in H.
  case_bool_decide; [by apply IH in H|]. simplify_eq. split_and!; [done|done|apply block_id_of_shape].
Qed.

Lemma mint_id_Some raw index used id used' :
  mint_id raw index used = Some (id, used') → id ∉ used ∧ used' = ({[id]} ∪ used) ∧ block_id id.
Proof. apply probe_Some. Qed.

Lemma probe_None k n used j :
  probe k n used = None → j < k → block_id_of ((n + N.of_nat j) mod u16_modulus) ∈ used ∨ ¬ (n < u16_modulus)%N.
Proof.
  revert n j. induction k as [|k IH]; intros n j H Hj; [lia|]. cbn [probe] in H.
  destruct (N.ltb_spec n u16_modulus) as [Hn|Hn]; [left|right; lia].
  case_bool_decide as Hin; [|done]. destruct j as [|j].
  - rewrite N.add_0_r, N.mod_small by done. done.
  - destruct (IH ((n + 1) mod u16_modulus)%N j H) as [Hin'|Hout]; [lia| |].
    + rewrite N.Div0.add_mod_idemp_l in Hin'. by replace (n + N.of_nat (S j))%N with (n + 1 + N.of_nat j)%N by lia.
    + exfalso. apply Hout. by apply N.mod_lt.
Qed.

(** Distinct candidates: the probe of every 16-bit value visits 65,536 different ids. *)
Lemma candidates_NoDup n :
  (n < u16_modulus)%N →
  NoDup ((λ j, block_id_of ((n + N.of_nat j) mod u16_modulus)%N) <$> seq 0 (N.to_nat u16_modulus)).
Proof.
  intros Hn. apply NoDup_fmap_2_strong; [|apply NoDup_seq].
  intros i j Hi%elem_of_seq Hj%elem_of_seq Heq%block_id_of_inj; try (by apply N.mod_lt).
  assert (∀ k, k < N.to_nat u16_modulus → ((n + N.of_nat k) mod u16_modulus =
            if (n + N.of_nat k <? u16_modulus)%N then n + N.of_nat k else n + N.of_nat k - u16_modulus)%N) as Hmod.
  { intros k Hk. destruct (N.ltb_spec (n + N.of_nat k) u16_modulus); [by apply N.mod_small|].
    replace (n + N.of_nat k)%N with (n + N.of_nat k - u16_modulus + 1 * u16_modulus)%N at 1 by lia.
    rewrite N.Div0.mod_add. apply N.mod_small. lia. }
  rewrite !Hmod in Heq by lia.
  destruct (N.ltb_spec (n + N.of_nat i) u16_modulus), (N.ltb_spec (n + N.of_nat j) u16_modulus); lia.
Qed.

Lemma mint_id_total raw index used :
  size used < N.to_nat u16_modulus →
  ∃ id, mint_id raw index used = Some (id, ({[id]} ∪ used)) ∧ id ∉ used ∧ block_id id.
Proof.
  intros Hsize. unfold mint_id.
  destruct (probe _ _ _) as [[id used']|] eqn:Hp.
  - apply probe_Some in Hp as (Hid & -> & Hb). eauto.
  - exfalso. set (n := (fnv_hash raw index mod u16_modulus)%N) in *.
    assert (n < u16_modulus)%N as Hn by (by apply N.mod_lt).
    assert (list_to_set ((λ j, block_id_of ((n + N.of_nat j) mod u16_modulus)%N) <$> seq 0 (N.to_nat u16_modulus)) ⊆ used) as Hsub.
    { intros id Hid. apply elem_of_list_to_set, list_elem_of_fmap in Hid as (j & -> & Hj%elem_of_seq).
      destruct (probe_None _ _ _ j Hp) as [?|?]; [lia|done|done]. }
    apply subseteq_size in Hsub. rewrite size_list_to_set, length_fmap, length_seq in Hsub by (by apply candidates_NoDup).
    lia.
Qed.

(** ** The result *)
Section emit.
Context `{Serde : SerdeText}.
Context (old_blocks : list ReportBlock).
#[local] Abbreviation uniq := (unique_ids ∅ old_blocks).

(** A block of the result: the heir of an old one, with its id, or a new one at revision 1. *)
Definition heir_of (slice : str) (old b : ReportBlock) : Prop :=
  b = block_of slice (rb_id old) (reused_rev old (canonical_text slice)).

Lemma rb_id_block_of slice id rev : rb_id (block_of slice id rev) = id.
Proof. unfold block_of. by destruct (parse_fence slice). Qed.

Lemma emit_Some index slices a used n bs :
  fits uniq n a → list_to_set (rb_id <$> old_blocks) ⊆ used → emit old_blocks index slices a used = Some bs →
  length bs = length slices ∧ NoDup (rb_id <$> bs) ∧
    ∀ k slice b, slices !! k = Some slice → bs !! k = Some b →
      (∃ x old, a !! (index + k) = Some (Some x) ∧ old_blocks !! x = Some old ∧ heir_of slice old b) ∨
      (mjoin (a !! (index + k)) = None ∧ ∃ id, b = block_of slice id 1 ∧ id ∉ used ∧ block_id id).
Proof.
  intros Hf. revert index used bs. induction slices as [|s slices IH]; intros index used bs Hold; cbn [emit].
  { intros [= <-]. split_and!; [done|constructor|done]. }
  destruct (mjoin (a !! index)) as [x|] eqn:Ha.
  - assert (a !! index = Some (Some x)) as Hax by (destruct (a !! index) as [[]|]; simplify_eq/=; done).
    destruct (unique_ids_first ∅ old_blocks x) as (old & Hx & _); [by eapply ft_unique|]. rewrite Hx.
    destruct (emit old_blocks (S index) slices a used) as [tl|] eqn:He; [|done]. cbn [fmap option_fmap option_map]. intros [= <-].
    destruct (IH (S index) used tl Hold He) as (Hlen & Hnd & Hbs). split_and!; [by simpl; rewrite Hlen| |].
    + rewrite fmap_cons, rb_id_block_of. constructor; [|done].
      intros (b & Hid & [k Hk]%list_elem_of_lookup)%list_elem_of_fmap.
      destruct (lookup_lt_is_Some_2 slices k) as [s' Hs']; [rewrite <-Hlen; by eapply lookup_lt_Some|].
      destruct (Hbs k s' b Hs' Hk) as [(y & o & Hy & Ho & ->)|(_ & id & -> & Hid' & _)]; rewrite rb_id_block_of in Hid.
      * assert (x = y) as <-.
        { eapply unique_ids_inj; [by eapply ft_unique|by eapply ft_unique| | |]; done. }
        pose proof (ft_inj _ _ _ Hf _ _ _ Hax Hy). lia.
      * apply Hid'. subst. apply Hold, elem_of_list_to_set, list_elem_of_fmap. exists old.
        split; [done|]. by eapply list_elem_of_lookup_2.
    + intros [|k] slice b Hs Hb; simplify_eq/=.
      * left. exists x, old. by rewrite Nat.add_0_r.
      * rewrite <-Nat.add_succ_comm. eauto.
  - destruct (mint_id s index used) as [[id used']|] eqn:Hm; [|done]. apply mint_id_Some in Hm as (Hid & -> & Hshape).
    destruct (emit old_blocks (S index) slices a ({[id]} ∪ used)) as [tl|] eqn:He; [|done].
    cbn [fmap option_fmap option_map]. intros [= <-].
    destruct (IH (S index) ({[id]} ∪ used) tl) as (Hlen & Hnd & Hbs); [set_solver|done|].
    split_and!; [by simpl; rewrite Hlen| |].
    + rewrite fmap_cons, rb_id_block_of. constructor; [|done].
      intros (b & Hidb & [k Hk]%list_elem_of_lookup)%list_elem_of_fmap.
      destruct (lookup_lt_is_Some_2 slices k) as [s' Hs']; [rewrite <-Hlen; by eapply lookup_lt_Some|].
      destruct (Hbs k s' b Hs' Hk) as [(y & o & Hy & Ho & ->)|(_ & id' & -> & Hid' & _)]; rewrite rb_id_block_of in Hidb.
      * apply Hid, Hold, elem_of_list_to_set, list_elem_of_fmap. exists o. split; [done|]. by eapply list_elem_of_lookup_2.
      * set_solver.
    + intros [|k] slice b Hs Hb; simplify_eq/=.
      * right. rewrite Nat.add_0_r. eauto.
      * rewrite <-Nat.add_succ_comm. destruct (Hbs k slice b Hs Hb) as [?|(? & id' & ? & ? & ?)]; [by left|].
        right. split; [done|]. exists id'. split_and!; [done|set_solver|done].
Qed.

Lemma emit_total index slices a used n :
  fits uniq n a → list_to_set (rb_id <$> old_blocks) ⊆ used → size used + length slices ≤ N.to_nat u16_modulus →
  is_Some (emit old_blocks index slices a used).
Proof.
  intros Hf. revert index used. induction slices as [|s slices IH]; intros index used Hold Hsize; cbn [emit]; [by eexists|].
  simpl in Hsize. destruct (mjoin (a !! index)) as [x|] eqn:Ha.
  - assert (a !! index = Some (Some x)) as Hax by (destruct (a !! index) as [[]|]; simplify_eq/=; done).
    destruct (unique_ids_first ∅ old_blocks x) as (old & Hx & _); [by eapply ft_unique|]. rewrite Hx.
    apply fmap_is_Some, IH; [done|lia].
  - destruct (mint_id_total s index used) as (id & -> & Hid & _); [lia|]. apply fmap_is_Some, IH; [set_solver|].
    rewrite size_union by set_solver. rewrite size_singleton. lia.
Qed.

Lemma emit_spec index slices a used n :
  fits uniq n a → list_to_set (rb_id <$> old_blocks) ⊆ used → size used + length slices ≤ N.to_nat u16_modulus →
  ∃ bs, emit old_blocks index slices a used = Some bs ∧ length bs = length slices ∧ NoDup (rb_id <$> bs) ∧
    ∀ k slice b, slices !! k = Some slice → bs !! k = Some b →
      (∃ x old, a !! (index + k) = Some (Some x) ∧ old_blocks !! x = Some old ∧ heir_of slice old b) ∨
      (mjoin (a !! (index + k)) = None ∧ ∃ id, b = block_of slice id 1 ∧ id ∉ used ∧ block_id id).
Proof.
  intros Hf Hold Hsize. destruct (emit_total index slices a used n Hf Hold Hsize) as [bs Hbs].
  exists bs. split; [done|]. by eapply emit_Some.
Qed.
End emit.

Section theorems.
Context `{Serde : SerdeText}.

(** Whatever a rewrite yields, it yields new ids outside the old and the reserved ones. *)
Lemma reassign_Some old_blocks slices hints reserved bs :
  reassign_ids_with_hints_reserving old_blocks slices hints reserved = Some bs →
  length bs = length slices ∧ NoDup (rb_id <$> bs) ∧
  ∀ k slice b, slices !! k = Some slice → bs !! k = Some b →
    (∃ old, old ∈ old_blocks ∧ heir_of slice old b) ∨
    (∃ id, b = block_of slice id 1 ∧ id ∉ rb_id <$> old_blocks ∧ id ∉ reserved ∧ block_id id).
Proof.
  intros Hbs. destruct (assign_spec old_blocks slices hints) as (a & Ha & Hf & He).
  unfold reassign_ids_with_hints_reserving in Hbs. rewrite Ha in Hbs. cbn [mbind option_bind] in Hbs.
  destruct (emit_Some old_blocks 0 slices a (list_to_set (rb_id <$> old_blocks) ∪ reserved) _ bs Hf) as (Hlen & Hnd & Hel);
    [set_solver|done|].
  split_and!; [done..|]. intros k slice b Hs Hb. destruct (Hel k slice b Hs Hb) as [(x & old & _ & Hx & Hh)|(_ & id & ? & Hid & ?)].
  - left. exists old. split; [by eapply list_elem_of_lookup_2|done].
  - right. exists id. split_and!; [done|set_solver|set_solver|done].
Qed.

Lemma reassign_emit old_blocks slices hints reserved :
  length old_blocks + size reserved + length slices ≤ N.to_nat u16_modulus →
  ∃ a bs, assign old_blocks slices hints = Some a ∧
    reassign_ids_with_hints_reserving old_blocks slices hints reserved = Some bs ∧
    extends (bind_hints_pass old_blocks slices hints).1 a ∧
    length bs = length slices ∧ NoDup (rb_id <$> bs) ∧
    ∀ k slice b, slices !! k = Some slice → bs !! k = Some b →
      (∃ x old, a !! k = Some (Some x) ∧ old_blocks !! x = Some old ∧ heir_of slice old b) ∨
      (mjoin (a !! k) = None ∧ ∃ id, b = block_of slice id 1 ∧ id ∉ rb_id <$> old_blocks ∧ id ∉ reserved ∧ block_id id).
Proof.
  intros Hsize. destruct (assign_spec old_blocks slices hints) as (a & Ha & Hf & He).
  destruct (emit_spec old_blocks 0 slices a (list_to_set (rb_id <$> old_blocks) ∪ reserved) _ Hf)
    as (bs & Hbs & Hlen & Hnd & Hel); [set_solver| |].
  { pose proof (size_union_alt (list_to_set (rb_id <$> old_blocks) : gset str) reserved) as Hu.
    assert (size (reserved ∖ list_to_set (rb_id <$> old_blocks)) ≤ size reserved) by (apply subseteq_size; set_solver).
    assert (size (list_to_set (rb_id <$> old_blocks) : gset str) ≤ length old_blocks).
    { rewrite <-(length_fmap rb_id old_blocks). generalize (rb_id <$> old_blocks). intros l. clear.
      induction l as [|id l IH]; [done|]. simpl.
      pose proof (size_union_alt ({[id]} : gset str) (list_to_set l)) as Hu. rewrite size_singleton in Hu.
      assert (size ((list_to_set l : gset str) ∖ {[id]}) ≤ size (list_to_set l : gset str)) by (apply subseteq_size; set_solver).
      lia. }
    lia. }
  exists a, bs. unfold reassign_ids_with_hints_reserving. rewrite Ha. split_and!; [done..|].
  intros k slice b Hs Hb. destruct (Hel k slice b Hs Hb) as [?|(? & id & ? & Hid & ?)]; [by left|right].
  split; [done|]. exists id. split_and!; [done| | |done]; set_solver.
Qed.


Lemma bind_slices_hint old_blocks n entries a taken i id x :
  hint_inv old_blocks n a taken → NoDup entries.*1 → Forall (free_new a) entries.*1 →
  index_by_id old_blocks (unique_ids ∅ old_blocks) !! id = Some x → taken !! x = Some false →
  (∀ pre post, entries = pre ++ (i, Some id) :: post → Forall (λ e, e.2 ≠ Some id) pre) →
  (i, Some id) ∈ entries →
  (foldl (bind_slice (index_by_id old_blocks (unique_ids ∅ old_blocks))) (a, taken) entries).1 !! i = Some (Some x).
Proof.
  intros Hinv Hnd Hfree Hx Htx Hfirst Hin. revert a taken Hinv Hnd Hfree Htx Hfirst Hin.
  induction entries as [|e entries IH]; intros a taken Hinv Hnd Hfree Htx Hfirst Hin; [by apply elem_of_nil in Hin|].
  apply NoDup_cons in Hnd as [He Hnd]. apply Forall_cons in Hfree as [Hfe Hfree].
  destruct (bind_slice_inv old_blocks n a taken e Hinv Hfe) as (Hinv' & Hext & Hfree' & Hbind & Htaken). cbn [foldl].
  destruct (bind_slice _ _ _) as [a' taken'] eqn:Hb. cbn [fst snd] in *.
  assert (Forall (free_new a') entries.*1) as Hfree''.
  { rewrite Forall_forall in *. intros j Hj. apply Hfree'; [by intros ->|by apply Hfree]. }
  apply elem_of_cons in Hin as [<-|Hin].
  - specialize (Hbind id x eq_refl Hx Htx). destruct (bind_slices_inv old_blocks n entries a' taken' Hinv' Hnd Hfree'') as [_ Hext'].
    by apply Hext'.
  - apply (IH a' taken'); [done..| | |done].
    + destruct (Htaken x Htx) as [?|(id' & He2 & Hid')]; [done|]. exfalso.
      apply index_by_id_spec in Hx as (_ & b & Hbx & <-), Hid' as (_ & b' & Hbx' & <-). simplify_eq.
      apply list_elem_of_split in Hin as (pre & post & ->).
      specialize (Hfirst (e :: pre) post eq_refl). by apply Forall_cons in Hfirst as [? _].
    + intros pre post ->. by specialize (Hfirst (e :: pre) post eq_refl) as [_ ?]%Forall_cons.
Qed.

Lemma lookup_hint_entries slices hints k e :
  hint_entries slices hints !! k = Some e ↔ k < length slices ∧ e.1 = k ∧ hints !! k = Some e.2.
Proof.
  destruct e as [j h]. unfold hint_entries. rewrite lookup_take_Some, lookup_zip_Some, lookup_seq. simpl. split.
  - intros [[[-> _] H] Hlt]. auto.
  - intros (Hlt & -> & H). split; [split; [split; [done|]|done]|done]. by eapply lookup_lt_Some.
Qed.

(** A marker hint binds: the slice first hinted with the id of an old block becomes that
    block's heir, whatever else in the report matches it better. *)
Theorem hint_binds old_blocks slices hints reserved i id bs :
  length old_blocks + size reserved + length slices ≤ N.to_nat u16_modulus →
  reassign_ids_with_hints_reserving old_blocks slices hints reserved = Some bs →
  hints !! i = Some (Some id) → (∀ j, j < i → hints !! j ≠ Some (Some id)) →
  i < length slices → id ∈ rb_id <$> old_blocks →
  ∃ b, bs !! i = Some b ∧ rb_id b = id.
Proof.
  intros Hsize Hbs Hi Hfirst Hlt Hin.
  destruct (reassign_emit old_blocks slices hints reserved Hsize) as (a & bs' & Ha & Hbs' & Hext & Hlen & _ & Hel).
  assert (bs' = bs) as -> by congruence.
  destruct (index_by_id_exists old_blocks id Hin) as [x Hx].
  assert (a !! i = Some (Some x)) as Hax.
  { apply Hext. unfold bind_hints_pass. destruct (hint_entries_keys slices hints) as [Hnd Hkeys].
    apply (bind_slices_hint old_blocks (length slices) _ _ _ i id x); [|done| |done| | |].
    - split; [split|..]; rewrite ?length_replicate; try done.
      + by intros ? ? [? _]%lookup_replicate_1.
      + by intros ? ? ? [? _]%lookup_replicate_1.
      + by intros ? _ ? [? _]%lookup_replicate_1.
    - eapply Forall_impl; [done|]. intros j Hj. by apply lookup_replicate_2.
    - apply lookup_replicate_2. apply index_by_id_spec in Hx as (_ & b & Hb & _). by eapply lookup_lt_Some.
    - intros pre post Heq. apply Forall_forall. intros [j h] [k Hk]%list_elem_of_lookup. simpl. intros ->.
      assert (hint_entries slices hints !! k = Some (j, Some id)) as Hek.
      { unfold hint_entries. rewrite Heq. by apply lookup_app_l_Some. }
      assert (hint_entries slices hints !! length pre = Some (i, Some id)) as Hep.
      { unfold hint_entries. rewrite Heq. by apply list_lookup_middle. }
      apply lookup_hint_entries in Hek as (_ & <- & Hk'), Hep as (_ & Hpre & _). simpl in *. subst i.
      apply (Hfirst j); [by eapply lookup_lt_Some|done].
    - apply list_elem_of_lookup. exists i. by apply lookup_hint_entries. }
  destruct (lookup_lt_is_Some_2 slices i Hlt) as [slice Hs].
  destruct (lookup_lt_is_Some_2 bs i) as [b Hb]; [by rewrite Hlen|].
  exists b. split; [done|].
  destruct (Hel i slice b Hs Hb) as [(y & old & Hy & Ho & ->)|(Hn & _)]; [|by rewrite Hax in Hn].
  rewrite rb_id_block_of. simplify_eq. apply index_by_id_spec in Hx as (_ & b' & Hb' & <-). by simplify_eq.
Qed.

(** ** An unchanged report *)

(** A block as the document stores it. *)
Definition stored (b : ReportBlock) : Prop :=
  (rb_kind b = KIND_PROSE ∧ ∃ t, rb_payload b = JObject [(lit "markdown", JString t)] ∧ parse_fence t = None) ∨
  (rb_kind b ≠ KIND_PROSE ∧ writable (rb_kind b) (rb_payload b)).

Lemma stored_spec b :
  stored b → comparable_flat b = Some (flat_text b) ∧ canonical_text (flat_text b) = flat_text b ∧
             block_of (flat_text b) (rb_id b) (rb_rev b) = b.
Proof.
  unfold stored, comparable_flat, canonical_text, block_of, flat_text. destruct b as [id kind rev payload].
  cbn [rb_id rb_kind rb_rev rb_payload].
  intros [(-> & t & -> & Ht)|(Hk & Hw)].
  - rewrite !bool_decide_eq_true_2 by done.
    change (json_get (JObject [(lit "markdown", JString t)]) (lit "markdown") ≫= json_as_str) with (Some t).
    change (default [] (Some t)) with t. by rewrite Ht.
  - rewrite !bool_decide_eq_false_2 by done. destruct Hw. rewrite !parse_render by done. done.
Qed.

Lemma lcs_walk_diagonal (xs : texts) L i k :
  Forall is_Some xs → length xs = i + k → lcs_walk (k + length xs) L xs xs i i = Some ((λ j, (j, j)) <$> seq i k).
Proof.
  intros Hs. revert i. induction k as [|k IH]; intros i Hl.
  - destruct (0 + length xs); cbn; by rewrite lookup_ge_None_2 by lia.
  - destruct (lookup_lt_is_Some_2 xs i) as [x Hx]; [lia|].
    cbn [Nat.add lcs_walk]. rewrite Hx. eapply Forall_lookup_1 in Hs as Hsx; [|done].
    unfold same_text. rewrite !bool_decide_eq_true_2 by done. cbn [andb].
    rewrite IH by lia. done.
Qed.

Lemma set_anchors_diagonal n i k :
  i + k = n →
  set_anchors ((λ j, (j, j)) <$> seq i k) ((Some <$> seq 0 i) ++ replicate k None) = Some <$> seq 0 n.
Proof.
  unfold set_anchors. revert i. induction k as [|k IH]; intros i Hn.
  - cbn. rewrite app_nil_r. by replace n with i by lia.
  - cbn [seq fmap list_fmap foldl fst snd replicate].
    rewrite insert_app_r_alt, length_fmap, length_seq, Nat.sub_diag by (by rewrite length_fmap, length_seq).
    cbn [insert list_insert]. rewrite <-(IH (S i)) by lia. f_equal.
    rewrite seq_S, fmap_app, <-app_assoc. done.
Qed.

Lemma align_gaps_diagonal old_blocks fences st i k :
  foldl (align_gap old_blocks fences) (st, (i, i)) ((λ j, (j, j)) <$> seq i k) = (st, (i + k, i + k)).
Proof.
  revert i. induction k as [|k IH]; intros i; [by rewrite !Nat.add_0_r|].
  cbn [seq fmap list_fmap foldl].
  assert (align_gap old_blocks fences (st, (i, i)) (i, i) = (st, (S i, S i))) as ->.
  { unfold align_gap, same_kind_pairs, old_kinds, range, sub. cbn [fst snd]. rewrite Nat.sub_diag. cbn [seq foldl take].
    rewrite map_to_list_empty. cbn. by destruct st. }
  rewrite IH. by rewrite <-Nat.add_succ_comm.
Qed.

Lemma unique_ids_NoDup seen blocks :
  NoDup (rb_id <$> blocks) → (∀ b, b ∈ blocks → rb_id b ∉ seen) → unique_ids seen blocks = replicate (length blocks) true.
Proof.
  revert seen. induction blocks as [|b blocks IH]; intros seen Hnd Hs; [done|].
  rewrite fmap_cons in Hnd. apply NoDup_cons in Hnd as [Hb Hnd]. cbn [unique_ids length replicate]. f_equal.
  - apply bool_decide_eq_true_2, Hs. left.
  - apply IH; [done|]. intros c Hc. rewrite not_elem_of_union, not_elem_of_singleton. split; [|apply Hs; by right].
    intros Heq. apply Hb. rewrite <-Heq. by apply list_elem_of_fmap_2.
Qed.

Lemma emit_diagonal old_blocks used i k :
  Forall stored old_blocks → length old_blocks = i + k →
  emit old_blocks i (drop i (flat_text <$> old_blocks)) (Some <$> seq 0 (length old_blocks)) used = Some (drop i old_blocks).
Proof.
  intros Hst. revert i. induction k as [|k IH]; intros i Hl.
  - rewrite !drop_ge by (rewrite ?length_fmap; lia). done.
  - destruct (lookup_lt_is_Some_2 old_blocks i) as [b Hb]; [lia|].
    rewrite (drop_S _ _ _ Hb), (drop_S (flat_text <$> old_blocks) (flat_text b)) by (by rewrite list_lookup_fmap, Hb).
    cbn [emit]. rewrite list_lookup_fmap, (proj2 (lookup_seq 0 _ i i)) by lia. cbn [fmap option_fmap option_map mjoin option_join].
    rewrite Hb, IH by lia. cbn [fmap option_fmap option_map].
    eapply Forall_lookup_1 in Hst as Hb'; [|done]. destruct (stored_spec b Hb') as (Hc & Hcan & Hblock).
    rewrite Hcan. unfold reused_rev. rewrite Hc, bool_decide_eq_true_2 by done. by rewrite Hblock.
Qed.

(** A rewrite that changes nothing changes nothing: the stored blocks of a report, sliced into
    their own texts, come back with their ids, kinds, revisions and payloads. *)
Theorem unchanged_report_kept old_blocks :
  Forall stored old_blocks → NoDup (rb_id <$> old_blocks) →
  reassign_ids old_blocks (flat_text <$> old_blocks) = Some old_blocks.
Proof.
  intros Hst Hnd. set (n := length old_blocks).
  assert (start_state old_blocks (flat_text <$> old_blocks) [] =
          mkAlignState (Some ∘ flat_text <$> old_blocks) (Some ∘ flat_text <$> old_blocks) (replicate n None)) as Hstart.
  { unfold start_state, bind_hints_pass. cbn [length seq zip zip_with]. rewrite take_nil. cbn [foldl].
    rewrite length_fmap, (unique_ids_NoDup ∅ old_blocks) by (done || set_solver). f_equal.
    - apply list_eq. intros i. rewrite list_lookup_imap, list_lookup_fmap.
      destruct (old_blocks !! i) as [b|] eqn:Hb; [|done]. simpl.
      pose proof (lookup_lt_Some _ _ _ Hb). rewrite !lookup_replicate_2 by done. simpl. f_equal.
      eapply Forall_lookup_1 in Hst; [|done]. by apply stored_spec.
    - apply list_eq. intros i. rewrite list_lookup_imap, !list_lookup_fmap.
      destruct (old_blocks !! i) as [b|] eqn:Hb; [|done]. simpl.
      pose proof (lookup_lt_Some _ _ _ Hb). rewrite lookup_replicate_2 by done. simpl. do 2 f_equal.
      eapply Forall_lookup_1 in Hst; [|done]. by apply stored_spec. }
  assert (assign old_blocks (flat_text <$> old_blocks) [] = Some (Some <$> seq 0 n)) as Ha.
  { unfold assign. rewrite Hstart. cbn [al_old al_new al_assignments].
    set (xs := Some ∘ flat_text <$> old_blocks).
    assert (length xs = n) as Hlx by apply length_fmap.
    unfold lcs_matches. rewrite Hlx. rewrite <-Hlx at 2.
    rewrite lcs_walk_diagonal by (done || by apply Forall_fmap, Forall_true; intros; eexists).
    rewrite foldl_app, align_gaps_diagonal, length_fmap. fold n. cbn [foldl].
    assert (∀ st, align_gap old_blocks (parse_fence <$> (flat_text <$> old_blocks)) (st, (0 + n, 0 + n)) (n, n)
                  = (st, (S n, S n))) as ->.
    { intros st. pose proof (align_gaps_diagonal old_blocks (parse_fence <$> (flat_text <$> old_blocks)) st n 1) as H.
      cbn in H. by rewrite Nat.add_1_r in H. }
    cbn [fst al_assignments]. f_equal. by apply (set_anchors_diagonal n 0 n). }
  unfold reassign_ids, reassign_ids_with_hints, reassign_ids_with_hints_reserving. rewrite Ha.
  by apply (emit_diagonal old_blocks _ 0 n).
Qed.
End theorems.
