(* ===== verification/ReportSample.v ===== *)
(** * Sample reports

    Concrete reports on which the rules of slicing, fences and ids are applied. The stand-in
    for [serde_json] prints scalars on one line and reads back the one payload it knows. *)

From stdpp Require Import prelude strings list gmap sorting.
From S2P Require Import Prelude Text Slices Float64 Identity Blocks BlockRules MarkerRules FenceRules Align ReassignRules ReassignIds.

Definition quoted (s : str) : str :=
  [34%N] ++ (s ≫= λ c, if (c =? newline)%N then lit "\n" else if (c =? 34)%N then lit "\" ++ [34%N] else [c]) ++ [34%N].

Definition sample_scalar (v : Json) : str :=
  match v with
  | JNull => lit "null"
  | JBool b => if b then lit "true" else lit "false"
  | JString s => quoted s
  | _ => lit "0"
  end.

Definition task_payload : Json := JObject [(lit "goal", JString (lit "ship")); (lit "key", JString (lit "k"))].

Definition mute_serde : SerdeText := {| json_from_str := λ _, None; json_scalar := sample_scalar |}.
#[local] Instance sample_serde : SerdeText := {|
  json_from_str := λ s, if bool_decide (s = @canonical_json mute_serde task_payload) then Some task_payload else None;
  json_scalar := sample_scalar;
|}.

Lemma quoted_clean s : newline ∉ (s ≫= λ c, if (c =? newline)%N then lit "\n" else if (c =? 34)%N then lit "\" ++ [34%N] else [c]).
Proof.
  intros (c & Hin & _)%list_elem_of_bind. revert Hin.
  destruct (c =? newline)%N eqn:Hc; [char_absent|]. destruct (c =? 34)%N; [char_absent|].
  intros H%list_elem_of_singleton. apply N.eqb_neq in Hc. congruence.
Qed.

Lemma sample_scalar_clean : scalar_clean.
Proof.
  intros v _. destruct v as [|[]| | |s| |]; simpl;
    try (eexists _, _; split_and!; [reflexivity|done|done|done|char_absent]).
  eexists _, _. split_and!; [reflexivity|done|done|done|].
  rewrite elem_of_app. intros [H|H]; [by apply quoted_clean in H|revert H; char_absent].
Qed.

Lemma task_writable : writable KIND_TASK task_payload.
Proof. split; [apply sample_scalar_clean|split; [done|by vm_compute]|done|by vm_compute]. Qed.

Definition text_a : str := lit "# A" ++ [newline] ++ lit "alpha" ++ [newline].
Definition text_b : str := lit "plain" ++ [newline].
Definition id_a : str := lit "b_0001".
Definition id_b : str := lit "b_00ff".

Lemma marked_read_roundtrip_witness :
  strip_markers_and_split (marked_text [(id_a, text_a); (id_b, text_b)]) =
  mkMarkedBody (text_a ++ text_b) [text_a; text_b] [Some id_a; Some id_b].
Proof.
  apply (marked_read_roundtrip [(id_a, text_a); (id_b, text_b)]); [|done].
  repeat constructor;
    first [ by (eexists; vm_compute) | by (exists (lit "0001")) | by (exists (lit "00ff"))
          | by (exists (lit "# A" ++ [newline] ++ lit "alpha")) | by (exists (lit "plain"))
          | by vm_compute | done ].
Defined.

Lemma canonical_json_unique_witness :
  canonical_json (JObject [(lit "b", JBool true); (lit "a", JArray [JNull])]) =
  canonical_json (JObject [(lit "a", JArray [JNull]); (lit "b", JBool true)]).
Proof.
  apply (canonical_json_unique (JObject [(lit "b", JBool true); (lit "a", JArray [JNull])])).
  eapply (je_object _ [(lit "a", JArray [JNull]); (lit "b", JBool true)]).
  - apply Permutation_swap.
  - apply (bool_decide_unpack _). by vm_compute.
  - constructor; [split; [done|]; apply je_array; constructor; [by apply je_scalar|constructor]|].
    constructor; [split; [done|by apply je_scalar]|constructor].
Defined.

Lemma fence_cut_out_witness :
  split_body (text_a ++ render_fence KIND_TASK task_payload ++ text_b)
  = [text_a; render_fence KIND_TASK task_payload; text_b].
Proof.
  rewrite (proj1 (fence_cut_out text_a KIND_TASK task_payload text_b task_writable
    (conj (or_intror (ex_intro _ (lit "# A" ++ [newline] ++ lit "alpha") eq_refl)) eq_refl))).
  by vm_compute.
Defined.

Definition block_a : ReportBlock := mkReportBlock id_a KIND_PROSE 3 (JObject [(lit "markdown", JString text_a)]).
Definition block_t : ReportBlock := mkReportBlock id_b KIND_TASK 2 task_payload.
Definition sample_blocks : list ReportBlock := [block_a; block_t].

Lemma room_for (k : nat) : Nat.leb k 100 = true → k ≤ N.to_nat u16_modulus.
Proof. intros H%Nat.leb_le. unfold u16_modulus. lia. Qed.


(** The second slice reads like the first block, yet the hint sends it to the task. *)
Lemma hint_binds_witness :
  ∃ bs b, reassign_ids_with_hints_reserving sample_blocks [text_b; text_a] [None; Some id_b] ∅ = Some bs ∧
          bs !! 1 = Some b ∧ rb_id b = id_b.
Proof.
  eexists.
  destruct (hint_binds sample_blocks [text_b; text_a] [None; Some id_b] ∅ 1 id_b
    (default [] (reassign_ids_with_hints_reserving sample_blocks [text_b; text_a] [None; Some id_b] ∅)))
    as (b & Hb & Hid).
  - apply room_for. by vm_compute.
  - vm_compute. reflexivity.
  - done.
  - by intros [|j] Hj; [|lia].
  - simpl. lia.
  - apply (bool_decide_unpack _). by vm_compute.
  - exists b. split_and!; [|exact Hb|exact Hid]. vm_compute. reflexivity.
Defined.

Lemma unchanged_report_kept_witness :
  reassign_ids sample_blocks (flat_text <$> sample_blocks) = Some sample_blocks.
Proof.
  apply unchanged_report_kept.
  - constructor; [|constructor; [|constructor]].
    + left. split; [done|]. exists text_a. by vm_compute.
    + right. split; [done|apply task_writable].
  - apply (bool_decide_unpack _). by vm_compute.
Defined.
