(* ===== verification/DocStore.v ===== *)
(** * The document store of a track report

    [crates/calm-report/src/document.rs] keeps a report in an Automerge document: a
    [summary] text, a [blocks] map and an [order] list at the root. Automerge is third-party
    code and appears as the class [Automerge] of the calls the code makes; [AutomergeLaws]
    states what Automerge documents of them for one replica, as the effect of each call on
    the object graph of the document. The operations here are the readers and writers the
    report code is built from. *)

From stdpp Require Import prelude strings list gmap.
From S2P Require Import Prelude Text Slices Float64 Identity Blocks.

Local Open Scope calm_scope.

Inductive ObjType := OMap | OList | OText.
#[export] Instance ObjType_eq_dec : EqDecision ObjType.
Proof. solve_decision. Defined.

(** A value at a map key or a list index; [VUint n] is a scalar whose [to_u64] is [n], [VScalar] any other. *)
Inductive AmValue (O : Type) :=
| VStr (s : str)
| VUint (n : N)
| VScalar
| VObj (ty : ObjType) (o : O).
Arguments VStr {O}.
Arguments VUint {O}.
Arguments VScalar {O}.
Arguments VObj {O}.

(** The calls; [None] is an [AutomergeError]. *)
Class Automerge := {
  AutoCommit : Type;
  ObjId : Type;
  ObjId_eq_dec :: EqDecision ObjId;
  ObjId_countable :: Countable ObjId;
  ROOT : ObjId;
  am_new : AutoCommit;
  am_get : AutoCommit → ObjId → str → option (option (AmValue ObjId));
  am_get_at : AutoCommit → ObjId → nat → option (option (AmValue ObjId));
  am_length : AutoCommit → ObjId → nat;
  am_keys : AutoCommit → ObjId → list str;
  am_text : AutoCommit → ObjId → option str;
  am_put : ObjId → str → AmValue ObjId → AutoCommit → option AutoCommit;
  am_put_object : ObjId → str → ObjType → AutoCommit → option (AutoCommit * ObjId);
  am_delete : ObjId → str → AutoCommit → option AutoCommit;
  am_delete_at : ObjId → nat → AutoCommit → option AutoCommit;
  am_insert : ObjId → nat → str → AutoCommit → option AutoCommit;
  am_update_text : ObjId → str → AutoCommit → option AutoCommit;
}.

(** ** An operation on the document: a result, and the document it leaves *)
Section store.
Context `{Store : Automerge}.

Definition doc_op (A : Type) : Type := AutoCommit → result A str * AutoCommit.

Definition ret {A} (a : A) : doc_op A := λ d, (Ok a, d).
Definition fail {A} (message : str) : doc_op A := λ d, (Err message, d).
Definition bind {A B} (m : doc_op A) (k : A → doc_op B) : doc_op B :=
  λ d, match m d with (Ok a, d) => k a d | (Err e, d) => (Err e, d) end.

(** A read, and a write under the context message of its failure. *)
Definition reading {A} (f : AutoCommit → result A str) : doc_op A := λ d, (f d, d).
Definition writing (message : str) (f : AutoCommit → option AutoCommit) : doc_op unit :=
  λ d, match f d with Some d => (Ok tt, d) | None => (Err message, d) end.
Definition creating {A} (message : str) (f : AutoCommit → option (AutoCommit * A)) : doc_op A :=
  λ d, match f d with Some (d, a) => (Ok a, d) | None => (Err message, d) end.

(** [with_context] on a result. *)
Definition context {A} (message : str) (r : result A str) : result A str :=
  match r with Ok a => Ok a | Err _ => Err message end.
Definition some_or {A} (message : str) (o : option A) : result A str :=
  match o with Some a => Ok a | None => Err message end.

(** [for x in l { f(x)?; }]. *)
Fixpoint each {A} (f : A → doc_op unit) (l : list A) : doc_op unit :=
  match l with [] => ret tt | x :: l => bind (f x) (λ _, each f l) end.

Definition FIELD_SUMMARY : str := lit "summary".
Definition FIELD_BLOCKS : str := lit "blocks".
Definition FIELD_ORDER : str := lit "order".
Definition FIELD_DOC_REV : str := lit "doc_rev".
Definition LEGACY_FIELD_BODY : str := lit "body".
Definition KEY_KIND : str := lit "kind".
Definition KEY_REV : str := lit "rev".
Definition KEY_TEXT : str := lit "text".

Definition tick_name (name : str) : str := lit "`" ++ name ++ lit "`".
Definition obj_type_name (ty : ObjType) : str :=
  lit (match ty with OMap => "Map" | OList => "List" | OText => "Text" end)%string.

(** ** Readers *)
Definition text_at (d : AutoCommit) (parent : ObjId) (prop : str) : result str str :=
  let? found := some_or (lit "read " ++ tick_name prop) (am_get d parent prop) in
  let? value := some_or (lit "malformed report doc: missing " ++ tick_name prop) found in
  match value with
  | VObj OText o => some_or (lit "read " ++ tick_name prop ++ lit " text") (am_text d o)
  | _ => Err (lit "malformed report doc: " ++ tick_name prop ++ lit " is not a Text object")
  end.

Definition typed_at (d : AutoCommit) (parent : ObjId) (prop : str) (ty : ObjType) : result (option ObjId) str :=
  let? found := some_or (lit "read " ++ tick_name prop) (am_get d parent prop) in
  match found with
  | None => Ok None
  | Some (VObj actual o) =>
      if bool_decide (actual = ty) then Ok (Some o)
      else Err (lit "malformed report doc: " ++ tick_name prop ++ lit " is not a " ++ obj_type_name ty ++ lit " object")
  | Some _ =>
      Err (lit "malformed report doc: " ++ tick_name prop ++ lit " is not a " ++ obj_type_name ty ++ lit " object")
  end.

Definition blocks_map (d : AutoCommit) : result (option ObjId) str := typed_at d ROOT FIELD_BLOCKS OMap.

Definition order_list (d : AutoCommit) : result ObjId str :=
  let? found := typed_at d ROOT FIELD_ORDER OList in
  some_or (lit "malformed report doc: blocks map present but order list missing") found.

Definition entry_at (d : AutoCommit) (blocks_id : ObjId) (id : str) : result (option ObjId) str :=
  typed_at d blocks_id id OMap.

Definition summary_text_id (d : AutoCommit) : result ObjId str :=
  let? found := some_or (lit "read summary") (am_get d ROOT FIELD_SUMMARY) in
  let? value := some_or (lit "malformed report doc: missing summary at root") found in
  match value with
  | VObj OText o => Ok o
  | _ => Err (lit "malformed report doc: summary is not a Text object")
  end.

Definition value_str (v : AmValue ObjId) : option str := match v with VStr s => Some s | _ => None end.
Definition value_u64 (v : AmValue ObjId) : option N := match v with VUint n => Some n | _ => None end.

(** [collect] of results stops at the first error. *)
Fixpoint collect {A B} (f : A → result B str) (l : list A) : result (list B) str :=
  match l with
  | [] => Ok []
  | x :: l => let? y := f x in let? ys := collect f l in Ok (y :: ys)
  end.

Definition order_entry (d : AutoCommit) (order_id : ObjId) (index : nat) : result str str :=
  let? found := some_or (lit "read order entry " ++ show_N (N.of_nat index)) (am_get_at d order_id index) in
  some_or (lit "malformed report doc: order entry " ++ show_N (N.of_nat index) ++ lit " is not a Str block id")
    (found ≫= value_str).

Definition order_ids (d : AutoCommit) : result (list str) str :=
  let? order_id := order_list d in
  collect (order_entry d order_id) (seq 0 (am_length d order_id)).

Definition no_blocks : str := lit "doc invariant: blocks map must exist (run ensure_blocks_layout)".

Definition live_blocks (d : AutoCommit) : result ObjId str :=
  let? found := blocks_map d in some_or no_blocks found.

(** [read block rev]: a Uint that fits [u32]. *)
Definition rev_of (missing : str) (id : str) (v : option (AmValue ObjId)) : result N str :=
  let? rev := some_or missing (v ≫= value_u64) in
  if (rev <? u32_modulus)%N then Ok rev
  else Err (lit "malformed report doc: block " ++ id ++ lit " rev " ++ show_N rev ++ lit " exceeds u32").

Definition doc_rev (d : AutoCommit) : result N str :=
  let? found := some_or (lit "read doc_rev") (am_get d ROOT FIELD_DOC_REV) in
  match found with
  | None => Ok 0%N
  | Some (VObj _ _) => Err (lit "doc_rev must be a scalar")
  | Some v => some_or (lit "doc_rev must be an unsigned integer") (value_u64 v)
  end.

(** ** Writers *)
Definition increment_doc_rev : doc_op N :=
  bind (reading doc_rev) (λ rev,
    if (rev + 1 <? u64_modulus)%N then
      bind (writing (lit "write doc_rev") (am_put ROOT FIELD_DOC_REV (VUint (rev + 1)))) (λ _, ret (rev + 1)%N)
    else fail (lit "doc_rev overflow")).

Definition set_summary (new_summary : str) : doc_op unit :=
  bind (reading summary_text_id) (λ o, writing (lit "update summary text") (am_update_text o new_summary)).

(** The [expect]s of [insert_block_entry] panic; the message stands for the panic. *)
Definition insert_block_entry (blocks_id : ObjId) (id kind : str) (rev : N) (content : str) : doc_op unit :=
  bind (creating (lit "put_object on blocks map cannot fail") (am_put_object blocks_id id OMap)) (λ entry,
  bind (writing (lit "put on fresh map cannot fail") (am_put entry KEY_KIND (VStr kind))) (λ _,
  bind (writing (lit "put on fresh map cannot fail") (am_put entry KEY_REV (VUint rev))) (λ _,
  bind (creating (lit "put_object on fresh map cannot fail") (am_put_object entry KEY_TEXT OText)) (λ text_id,
  writing (lit "update_text on freshly-minted Text obj cannot fail") (am_update_text text_id content))))).

Definition replace_text_object (entry : ObjId) (replacement : str) : doc_op unit :=
  bind (writing (lit "delete superseded block text object") (am_delete entry KEY_TEXT)) (λ _,
  bind (creating (lit "create replacement block text object") (am_put_object entry KEY_TEXT OText)) (λ text_id,
  writing (lit "write replacement block text") (am_update_text text_id replacement))).

(** [while length > 0 { delete(0) }]: one deletion per entry. *)
Definition clear_order (order_id : ObjId) : doc_op unit :=
  λ d, each (λ _, writing (lit "clear order list") (am_delete_at order_id 0)) (replicate (am_length d order_id) tt) d.

Fixpoint rebuild_order (order_id : ObjId) (index : nat) (ids : list str) : doc_op unit :=
  match ids with
  | [] => ret tt
  | id :: ids =>
      bind (writing (lit "rebuild order list") (am_insert order_id index id)) (λ _, rebuild_order order_id (S index) ids)
  end.
End store.

(** ** What the calls do

    A document is a graph of objects; every call on a live object of the right type succeeds
    and changes that object only. A new object is empty and was not in the document. *)
Inductive Node (O : Type) :=
| NMap (m : gmap str (AmValue O))
| NList (l : list (AmValue O))
| NText (s : str).
Arguments NMap {O}.
Arguments NList {O}.
Arguments NText {O}.

Definition empty_node {O} (ty : ObjType) : Node O :=
  match ty with OMap => NMap ∅ | OList => NList [] | OText => NText [] end.

Class AutomergeLaws `{Store : Automerge} := {
  view : AutoCommit → gmap ObjId (Node ObjId);
  view_new : view am_new = {[ROOT := NMap ∅]};
  law_get d o m k : view d !! o = Some (NMap m) → am_get d o k = Some (m !! k);
  law_get_at d o l i : view d !! o = Some (NList l) → am_get_at d o i = Some (l !! i);
  law_length d o l : view d !! o = Some (NList l) → am_length d o = length l;
  law_keys d o m : view d !! o = Some (NMap m) → am_keys d o ≡ₚ (map_to_list m).*1;
  law_text d o s : view d !! o = Some (NText s) → am_text d o = Some s;
  law_put d o m k v : view d !! o = Some (NMap m) →
    ∃ d', am_put o k v d = Some d' ∧ view d' = <[o := NMap (<[k := v]> m)]> (view d);
  law_put_object d o m k ty : view d !! o = Some (NMap m) →
    ∃ d' o', am_put_object o k ty d = Some (d', o') ∧ view d !! o' = None ∧
             view d' = <[o' := empty_node ty]> (<[o := NMap (<[k := VObj ty o']> m)]> (view d));
  law_delete d o m k : view d !! o = Some (NMap m) → is_Some (m !! k) →
    ∃ d', am_delete o k d = Some d' ∧ view d' = <[o := NMap (delete k m)]> (view d);
  law_delete_at d o l i : view d !! o = Some (NList l) → i < length l →
    ∃ d', am_delete_at o i d = Some d' ∧ view d' = <[o := NList (delete i l)]> (view d);
  law_insert d o l i s : view d !! o = Some (NList l) → i ≤ length l →
    ∃ d', am_insert o i s d = Some d' ∧ view d' = <[o := NList (take i l ++ (VStr s :: drop i l))]> (view d);
  law_update_text d o s t : view d !! o = Some (NText s) →
    ∃ d', am_update_text o t d = Some d' ∧ view d' = <[o := NText t]> (view d);
}.

(** ** A document that holds a report *)

(** The stored form of a block. *)
Record BlockEntry := mkBlockEntry { be_kind : str; be_rev : N; be_text : str }.

(** The objects of a report document. *)
Inductive Slot := SRoot | SSummary | SBlocks | SOrder | SEntry (id : str) | SText (id : str).
#[export] Instance Slot_eq_dec : EqDecision Slot.
Proof. solve_decision. Defined.

(** The report a document stands for: the root's other fields, the summary, the order and the blocks. *)
Record Report (O : Type) := mkReport {
  rp_root : gmap str (AmValue O);
  rp_summary : str;
  rp_order : list str;
  rp_blocks : gmap str BlockEntry;
}.
Arguments mkReport {O}.
Arguments rp_root {O}.
Arguments rp_summary {O}.
Arguments rp_order {O}.
Arguments rp_blocks {O}.

Section represents.
Context `{Laws : AutomergeLaws}.

Definition entry_map (b : BlockEntry) (text_id : ObjId) : gmap str (AmValue ObjId) :=
  {[KEY_KIND := VStr (be_kind b); KEY_REV := VUint (be_rev b); KEY_TEXT := VObj OText text_id]}.

Definition entry_node (loc : Slot → ObjId) (id : str) (b : BlockEntry) : Node ObjId :=
  NMap (entry_map b (loc (SText id))).

Lemma entry_map_kind b o : entry_map b o !! KEY_KIND = Some (VStr (be_kind b)).
Proof. done. Qed.
Lemma entry_map_rev b o : entry_map b o !! KEY_REV = Some (VUint (be_rev b)).
Proof. done. Qed.
Lemma entry_map_text b o : entry_map b o !! KEY_TEXT = Some (VObj OText o).
Proof. done. Qed.

Definition node_of (loc : Slot → ObjId) (r : Report ObjId) (s : Slot) : option (Node ObjId) :=
  match s with
  | SRoot => Some (NMap (rp_root r))
  | SSummary => Some (NText (rp_summary r))
  | SBlocks => Some (NMap (map_imap (λ id _, Some (VObj OMap (loc (SEntry id)))) (rp_blocks r)))
  | SOrder => Some (NList (VStr <$> rp_order r))
  | SEntry id => entry_node loc id <$> rp_blocks r !! id
  | SText id => NText ∘ be_text <$> rp_blocks r !! id
  end.

Definition with_summary (r : Report ObjId) (s : str) : Report ObjId :=
  mkReport (rp_root r) s (rp_order r) (rp_blocks r).
Definition with_order (r : Report ObjId) (order : list str) : Report ObjId :=
  mkReport (rp_root r) (rp_summary r) order (rp_blocks r).
Definition with_blocks (r : Report ObjId) (m : gmap str BlockEntry) : Report ObjId :=
  mkReport (rp_root r) (rp_summary r) (rp_order r) m.

(** [d] holds [r], with its objects at [loc]: every object is where it should be and no two
    coincide. *)
Record represents (d : AutoCommit) (loc : Slot → ObjId) (r : Report ObjId) : Prop := {
  rs_root : loc SRoot = ROOT;
  rs_summary : rp_root r !! FIELD_SUMMARY = Some (VObj OText (loc SSummary));
  rs_blocks : rp_root r !! FIELD_BLOCKS = Some (VObj OMap (loc SBlocks));
  rs_order : rp_root r !! FIELD_ORDER = Some (VObj OList (loc SOrder));
  rs_node : ∀ s n, node_of loc r s = Some n → view d !! loc s = Some n;
  rs_inj : ∀ s t, is_Some (node_of loc r s) → is_Some (node_of loc r t) → loc s = loc t → s = t;
}.

Definition holds (d : AutoCommit) (r : Report ObjId) : Prop := ∃ loc, represents d loc r.

(** One object changed in place. *)
Lemma represents_update d d' loc r r' s n :
  represents d loc r → is_Some (node_of loc r s) → node_of loc r' s = Some n →
  view d' = <[loc s := n]> (view d) →
  (∀ t m, t ≠ s → node_of loc r' t = Some m → node_of loc r t = Some m) →
  rp_root r' !! FIELD_SUMMARY = rp_root r !! FIELD_SUMMARY →
  rp_root r' !! FIELD_BLOCKS = rp_root r !! FIELD_BLOCKS →
  rp_root r' !! FIELD_ORDER = rp_root r !! FIELD_ORDER →
  represents d' loc r'.
Proof.
  intros [Hr Hs Hb Ho Hn Hi] Hlive Hn' Hview Hsame Es Eb Eo.
  assert (∀ t, is_Some (node_of loc r' t) → is_Some (node_of loc r t)) as Hl.
  { intros t [m Hm]. destruct (decide (t = s)) as [->|Hne]; [done|]. eauto. }
  split; rewrite ?Es, ?Eb, ?Eo; try done.
  - intros t m Ht. rewrite Hview. destruct (decide (t = s)) as [->|Hne]; [rewrite lookup_insert_eq; congruence|].
    apply Hsame in Ht; [|done]. rewrite lookup_insert_ne; [by apply Hn|].
    intros Heq. apply Hne. symmetry. apply Hi; eauto.
  - intros t u Ht Hu. apply Hi; auto.
Qed.

(** ** Reading a represented document *)
Section readers.
Context (d : AutoCommit) (loc : Slot → ObjId) (r : Report ObjId) (Hrep : represents d loc r).

Lemma get_root k : am_get d ROOT k = Some (rp_root r !! k).
Proof. apply law_get. rewrite <-(rs_root _ _ _ Hrep). by apply (rs_node _ _ _ Hrep). Qed.

Lemma blocks_map_rep : blocks_map d = Ok (Some (loc SBlocks)).
Proof. unfold blocks_map, typed_at. rewrite get_root, (rs_blocks _ _ _ Hrep). done. Qed.

Lemma live_blocks_rep : live_blocks d = Ok (loc SBlocks).
Proof. unfold live_blocks. by rewrite blocks_map_rep. Qed.

Lemma order_list_rep : order_list d = Ok (loc SOrder).
Proof. unfold order_list, typed_at. rewrite get_root, (rs_order _ _ _ Hrep). done. Qed.

Lemma summary_rep : text_at d ROOT FIELD_SUMMARY = Ok (rp_summary r).
Proof.
  unfold text_at. rewrite get_root, (rs_summary _ _ _ Hrep). cbn.
  by rewrite (law_text d (loc SSummary) (rp_summary r)) by (by apply (rs_node _ _ _ Hrep)).
Qed.

Lemma summary_id_rep : summary_text_id d = Ok (loc SSummary).
Proof. unfold summary_text_id. rewrite get_root, (rs_summary _ _ _ Hrep). done. Qed.

Lemma entry_at_rep id : entry_at d (loc SBlocks) id = Ok ((λ _, loc (SEntry id)) <$> rp_blocks r !! id).
Proof.
  unfold entry_at, typed_at. erewrite law_get by (by apply (rs_node _ _ _ Hrep)).
  rewrite map_lookup_imap. by destruct (rp_blocks r !! id).
Qed.

Lemma keys_rep : am_keys d (loc SBlocks) ≡ₚ (map_to_list (rp_blocks r)).*1.
Proof.
  rewrite law_keys by (by apply (rs_node _ _ _ Hrep)).
  apply NoDup_Permutation; [apply NoDup_fst_map_to_list..|].
  intros id. rewrite !list_elem_of_fmap. split.
  - intros ([k v] & -> & H%elem_of_map_to_list). rewrite map_lookup_imap in H.
    destruct (rp_blocks r !! k) as [b|] eqn:Hb; [|done]. exists (k, b). by rewrite elem_of_map_to_list.
  - intros ([k b] & -> & H%elem_of_map_to_list). exists (k, VObj OMap (loc (SEntry k))).
    rewrite elem_of_map_to_list, map_lookup_imap. simpl in *. by rewrite H.
Qed.

Lemma entry_get id b k :
  rp_blocks r !! id = Some b →
  am_get d (loc (SEntry id)) k = Some (entry_map b (loc (SText id)) !! k).
Proof. intros Hb. apply law_get, (rs_node _ _ _ Hrep). cbn. by rewrite Hb. Qed.

Lemma entry_text_rep id b :
  rp_blocks r !! id = Some b → text_at d (loc (SEntry id)) KEY_TEXT = Ok (be_text b).
Proof.
  intros Hb. unfold text_at. rewrite (entry_get _ b) by done. rewrite entry_map_text. cbn [some_or result_bind].
  rewrite (law_text d (loc (SText id)) (be_text b)); [done|]. apply (rs_node _ _ _ Hrep). cbn. by rewrite Hb.
Qed.

Lemma collect_ok {A B} (f : A → result B str) (g : A → B) (l : list A) :
  (∀ x, x ∈ l → f x = Ok (g x)) → collect f l = Ok (g <$> l).
Proof.
  induction l as [|x l IH]; intros H; [done|]. cbn. rewrite H by left. cbn. rewrite IH; [done|].
  intros y Hy. apply H. by right.
Qed.

Lemma order_ids_rep : order_ids d = Ok (rp_order r).
Proof.
  unfold order_ids. rewrite order_list_rep. cbn.
  rewrite (law_length d _ (VStr <$> rp_order r)), length_fmap by (by apply (rs_node _ _ _ Hrep)).
  rewrite (collect_ok _ (λ i, default [] (rp_order r !! i))).
  - f_equal. apply list_eq. intros i. rewrite list_lookup_fmap.
    destruct (decide (i < length (rp_order r))) as [Hi|Hi].
    + rewrite (proj2 (lookup_seq 0 _ i i)) by lia. cbn.
      destruct (lookup_lt_is_Some_2 _ _ Hi) as [x Hx]. by rewrite Hx.
    + rewrite (lookup_ge_None_2 (rp_order r)) by lia. by rewrite lookup_ge_None_2 by (rewrite length_seq; lia).
  - intros i Hi%elem_of_seq. unfold order_entry.
    erewrite law_get_at by (by apply (rs_node _ _ _ Hrep)). rewrite list_lookup_fmap.
    destruct (lookup_lt_is_Some_2 (rp_order r) i) as [x Hx]; [lia|]. by rewrite Hx.
Qed.
End readers.
End represents.

(** ** Writers of the document store keep a report a report

    Each writer of [DocStore], run on a document that holds a report, succeeds and leaves a
    document that holds the report changed in one place. The proofs of the handlers use
    these rules only, never the object graph. *)

Section writers.
Context `{Laws : AutomergeLaws}.
Implicit Types (d : AutoCommit) (loc : Slot → ObjId) (r : Report ObjId).

Lemma bind_ok {A B} (m : doc_op A) (k : A → doc_op B) d a d' : m d = (Ok a, d') → bind m k d = k a d'.
Proof. intros H. unfold bind. by rewrite H. Qed.

Lemma set_summary_rep d loc r s :
  represents d loc r → ∃ d', set_summary s d = (Ok tt, d') ∧ represents d' loc (with_summary r s).
Proof.
  intros Hrep. unfold set_summary. rewrite (bind_ok _ _ d (loc SSummary) d).
  2:{ unfold reading. by rewrite (summary_id_rep d loc r). }
  destruct (law_update_text d (loc SSummary) (rp_summary r) s) as (d' & Hd' & Hv); [by apply (rs_node _ _ _ Hrep)|].
  exists d'. unfold writing. rewrite Hd'. split; [done|].
  eapply (represents_update d d' loc r _ SSummary); [done|done|done|exact Hv| |done..].
  intros [] m Hne Hm; done.
Qed.

Lemma root_put_rep d loc r k v :
  represents d loc r → k ≠ FIELD_SUMMARY → k ≠ FIELD_BLOCKS → k ≠ FIELD_ORDER →
  ∃ d', am_put ROOT k v d = Some d' ∧
        represents d' loc (mkReport (<[k := v]> (rp_root r)) (rp_summary r) (rp_order r) (rp_blocks r)).
Proof.
  intros Hrep ???. destruct (law_put d (loc SRoot) (rp_root r) k v) as (d' & Hd' & Hv); [by apply (rs_node _ _ _ Hrep)|].
  exists d'. rewrite <-(rs_root _ _ _ Hrep). split; [done|].
  eapply (represents_update d d' loc r _ SRoot); [done|done|done|exact Hv| | | |];
    [intros [] m Hne Hm; done|cbn [rp_root]; by rewrite lookup_insert_ne..].
Qed.

Lemma entry_put_rep d loc r id b k v b' :
  represents d loc r → rp_blocks r !! id = Some b →
  <[k := v]> (entry_map b (loc (SText id))) = entry_map b' (loc (SText id)) → be_text b' = be_text b →
  ∃ d', am_put (loc (SEntry id)) k v d = Some d' ∧ represents d' loc (with_blocks r (<[id := b']> (rp_blocks r))).
Proof.
  intros Hrep Hb Hmap Htext.
  destruct (law_put d (loc (SEntry id)) (entry_map b (loc (SText id))) k v) as (d' & Hd' & Hv).
  { apply (rs_node _ _ _ Hrep). cbn. by rewrite Hb. }
  exists d'. split; [done|]. rewrite Hmap in Hv.
  eapply (represents_update d d' loc r _ (SEntry id)); [done| | |exact Hv| |done..].
  - cbn. by rewrite Hb.
  - cbn. by rewrite lookup_insert_eq.
  - intros [| | | |id'|id'] m Hne Hm; cbn in *; try done.
    + rewrite <-Hm. do 2 f_equal. apply map_eq. intros i. rewrite !map_lookup_imap.
      destruct (decide (i = id)) as [->|Hi]; [by rewrite lookup_insert_eq, Hb|by rewrite lookup_insert_ne].
    + rewrite lookup_insert_ne in Hm by congruence. done.
    + destruct (decide (id' = id)) as [->|Hi]; [|by rewrite lookup_insert_ne in Hm].
      rewrite lookup_insert_eq in Hm. rewrite Hb. cbn in *. by rewrite <-Htext.
Qed.

Lemma put_kind_rep d loc r id b kind message :
  represents d loc r → rp_blocks r !! id = Some b →
  ∃ d', writing message (am_put (loc (SEntry id)) KEY_KIND (VStr kind)) d = (Ok tt, d') ∧
        represents d' loc (with_blocks r (<[id := mkBlockEntry kind (be_rev b) (be_text b)]> (rp_blocks r))).
Proof.
  intros Hrep Hb. destruct (entry_put_rep d loc r id b KEY_KIND (VStr kind) (mkBlockEntry kind (be_rev b) (be_text b)))
    as (d' & Hd' & Hr); [done|done| |done|].
  - unfold entry_map. cbn. by rewrite insert_insert_eq.
  - exists d'. unfold writing. by rewrite Hd'.
Qed.

Lemma put_rev_rep d loc r id b rev message :
  represents d loc r → rp_blocks r !! id = Some b →
  ∃ d', writing message (am_put (loc (SEntry id)) KEY_REV (VUint rev)) d = (Ok tt, d') ∧
        represents d' loc (with_blocks r (<[id := mkBlockEntry (be_kind b) rev (be_text b)]> (rp_blocks r))).
Proof.
  intros Hrep Hb. destruct (entry_put_rep d loc r id b KEY_REV (VUint rev) (mkBlockEntry (be_kind b) rev (be_text b)))
    as (d' & Hd' & Hr); [done|done| |done|].
  - unfold entry_map. cbn. rewrite insert_insert_ne, insert_insert_eq by done. done.
  - exists d'. unfold writing. by rewrite Hd'.
Qed.

Lemma delete_block_rep d loc r id message :
  represents d loc r → is_Some (rp_blocks r !! id) →
  ∃ d', writing message (am_delete (loc SBlocks) id) d = (Ok tt, d') ∧
        represents d' loc (with_blocks r (delete id (rp_blocks r))).
Proof.
  intros Hrep [b Hb].
  destruct (law_delete d (loc SBlocks) _ id (rs_node _ _ _ Hrep SBlocks _ eq_refl)) as (d' & Hd' & Hv).
  { rewrite map_lookup_imap, Hb. eauto. }
  exists d'. unfold writing. rewrite Hd'. split; [done|].
  eapply (represents_update d d' loc r _ SBlocks); [done|done|done| | |done..].
  - rewrite Hv. do 2 f_equal. apply map_eq. intros i. rewrite map_lookup_imap. cbn [with_blocks rp_blocks].
    destruct (decide (i = id)) as [->|Hi]; [by rewrite !lookup_delete_eq|]. by rewrite !lookup_delete_ne, map_lookup_imap by done.
  - intros [| | | |id'|id'] m Hne Hm; cbn in *; try done.
    + destruct (decide (id' = id)) as [->|Hi]; [rewrite lookup_delete_eq in Hm; done|by rewrite lookup_delete_ne in Hm].
    + destruct (decide (id' = id)) as [->|Hi]; [rewrite lookup_delete_eq in Hm; done|by rewrite lookup_delete_ne in Hm].
Qed.

(** Where new objects were put. *)
Definition relocate (loc : Slot → ObjId) (id : str) (e t : ObjId) (s : Slot) : ObjId :=
  if decide (s = SEntry id) then e else if decide (s = SText id) then t else loc s.

Lemma relocate_other loc id e t s : s ≠ SEntry id → s ≠ SText id → relocate loc id e t s = loc s.
Proof. intros H1 H2. unfold relocate. by rewrite !decide_False. Qed.

Lemma relocate_entry loc id e t : relocate loc id e t (SEntry id) = e.
Proof. unfold relocate. by rewrite decide_True. Qed.

Lemma relocate_text loc id e t : relocate loc id e t (SText id) = t.
Proof. unfold relocate. by rewrite decide_False, decide_True. Qed.

(** A new entry and text, or a new text under an old entry. *)
Lemma represents_fresh d d' loc r id b e t :
  represents d loc r →
  (e = loc (SEntry id) ∧ is_Some (rp_blocks r !! id) ∨ view d !! e = None) → view d !! t = None → e ≠ t →
  view d' !! e = Some (NMap (entry_map b t)) → view d' !! t = Some (NText (be_text b)) →
  view d' !! loc SBlocks = Some (NMap (<[id := VObj OMap e]> (map_imap (λ id _, Some (VObj OMap (loc (SEntry id)))) (rp_blocks r)))) →
  (∀ o, o ≠ loc SBlocks → o ≠ e → is_Some (view d !! o) → view d' !! o = view d !! o) →
  represents d' (relocate loc id e t) (with_blocks r (<[id := b]> (rp_blocks r))).
Proof.
  intros Hrep He Ht Het Hve Hvt Hvb Hkeep. pose proof Hrep as [Hr Hs Hb Ho Hn Hi].
  set (loc' := relocate loc id e t). set (r' := with_blocks r _).
  assert (∀ s n, node_of loc r s = Some n → s ≠ SEntry id → loc s ≠ e) as Hle.
  { intros s n Hsn Hne Heq. destruct He as [[-> Hsome]|Hnone].
    - apply Hne, Hi; [by eexists| |done]. destruct Hsome as [b0 Hb0]. cbn. rewrite Hb0. by eexists.
    - apply Hn in Hsn. rewrite Heq in Hsn. congruence. }
  assert (∀ s n, node_of loc r s = Some n → loc s ≠ t) as Hlt.
  { intros s n Hsn Heq. apply Hn in Hsn. rewrite Heq in Hsn. congruence. }
  assert (∀ s n, node_of loc' r' s = Some n → s ≠ SEntry id → s ≠ SText id → ∃ m, node_of loc r s = Some m) as Hlive.
  { intros [| | | |id'|id'] n Hsn H1 H2; cbn in *; eauto; rewrite lookup_insert_ne in Hsn by congruence;
      destruct (rp_blocks r !! id'); simpl in *; eauto. }
  assert (∀ s, s ≠ SEntry id → s ≠ SText id → loc' s = loc s) as Hother.
  { intros s H1 H2. by apply relocate_other. }
  split; rewrite ?Hother by done; try done.
  - intros s n Hsn. destruct (decide (s = SEntry id)) as [->|H1].
    { unfold loc'. rewrite relocate_entry, Hve. cbn in Hsn. rewrite lookup_insert_eq in Hsn. cbn in Hsn.
      rewrite <-Hsn. unfold entry_node, loc'. by rewrite relocate_text. }
    destruct (decide (s = SText id)) as [->|H2].
    { unfold loc'. rewrite relocate_text, Hvt. cbn in Hsn. rewrite lookup_insert_eq in Hsn. by rewrite <-Hsn. }
    rewrite Hother by done. destruct (decide (s = SBlocks)) as [->|H3].
    { rewrite Hvb, <-Hsn. cbn. do 2 f_equal. apply map_eq. intros i. rewrite map_lookup_imap.
      destruct (decide (i = id)) as [->|Hne]; [rewrite !lookup_insert_eq; cbn; by unfold loc'; rewrite relocate_entry|].
      rewrite !lookup_insert_ne, map_lookup_imap by done. destruct (rp_blocks r !! i); [|done]. cbn.
      by rewrite Hother by congruence. }
    destruct (Hlive s n Hsn H1 H2) as [m Hm]. pose proof (Hn s m Hm) as Hview.
    rewrite Hkeep, Hview; [|intros Heq; apply H3, Hi; [by eexists|by eexists|done]|by eapply Hle|by eexists].
    rewrite <-Hsn, <-Hm. destruct s as [| | | |id'|id']; try done; cbn.
    + rewrite lookup_insert_ne by congruence. destruct (rp_blocks r !! id'); [|done]. cbn. unfold entry_node.
      by rewrite Hother by congruence.
    + by rewrite lookup_insert_ne by congruence.
  - assert (∀ s, s ≠ SEntry id → is_Some (node_of loc' r' s) → loc' s ≠ e) as Hne1.
    { intros s H1 [n Hsn] Heq. destruct (decide (s = SText id)) as [->|H2].
      - unfold loc' in Heq. rewrite relocate_text in Heq. congruence.
      - destruct (Hlive s n Hsn H1 H2) as [m Hm]. rewrite Hother in Heq by done. by apply (Hle s m). }
    assert (∀ s, s ≠ SText id → is_Some (node_of loc' r' s) → loc' s ≠ t) as Hne2.
    { intros s H2 [n Hsn] Heq. destruct (decide (s = SEntry id)) as [->|H1].
      - unfold loc' in Heq. rewrite relocate_entry in Heq. congruence.
      - destruct (Hlive s n Hsn H1 H2) as [m Hm]. rewrite Hother in Heq by done. by apply (Hlt s m). }
    intros s u Hs1 Hu1 Heq.
    destruct (decide (s = SEntry id)) as [->|Hs2], (decide (u = SEntry id)) as [->|Hu2]; try done.
    { exfalso. apply (Hne1 u); [done|done|]. rewrite <-Heq. apply relocate_entry. }
    { exfalso. apply (Hne1 s); [done|done|]. rewrite Heq. apply relocate_entry. }
    destruct (decide (s = SText id)) as [->|Hs3], (decide (u = SText id)) as [->|Hu3]; try done.
    { exfalso. apply (Hne2 u); [done|done|]. rewrite <-Heq. apply relocate_text. }
    { exfalso. apply (Hne2 s); [done|done|]. rewrite Heq. apply relocate_text. }
    rewrite !Hother in Heq by done. destruct Hs1 as [n Hs1], Hu1 as [m Hu1].
    apply Hi; [by eapply Hlive|by eapply Hlive|done].
Qed.

Lemma insert_block_entry_rep d loc r id b :
  represents d loc r → rp_blocks r !! id = None →
  ∃ d' e t, insert_block_entry (loc SBlocks) id (be_kind b) (be_rev b) (be_text b) d = (Ok tt, d') ∧
            represents d' (relocate loc id e t) (with_blocks r (<[id := b]> (rp_blocks r))).
Proof.
  intros Hrep Hb. unfold insert_block_entry.
  pose proof (rs_node _ _ _ Hrep SBlocks _ eq_refl) as HB. set (B := map_imap _ _) in HB.
  destruct (law_put_object d (loc SBlocks) B id OMap HB) as (d1 & e & Hd1 & He & Hv1).
  assert (e ≠ loc SBlocks) as HeB by congruence.
  rewrite (bind_ok _ _ d e d1) by (unfold creating; by rewrite Hd1).
  destruct (law_put d1 e ∅ KEY_KIND (VStr (be_kind b))) as (d2 & Hd2 & Hv2); [by rewrite Hv1, lookup_insert_eq|].
  rewrite (bind_ok _ _ d1 tt d2) by (unfold writing; by rewrite Hd2).
  destruct (law_put d2 e {[KEY_KIND := VStr (be_kind b)]} KEY_REV (VUint (be_rev b))) as (d3 & Hd3 & Hv3);
    [by rewrite Hv2, lookup_insert_eq|].
  rewrite (bind_ok _ _ d2 tt d3) by (unfold writing; by rewrite Hd3).
  destruct (law_put_object d3 e (<[KEY_REV := VUint (be_rev b)]> {[KEY_KIND := VStr (be_kind b)]}) KEY_TEXT OText)
    as (d4 & t & Hd4 & Ht & Hv4); [by rewrite Hv3, lookup_insert_eq|].
  rewrite (bind_ok _ _ d3 t d4) by (unfold creating; by rewrite Hd4).
  destruct (law_update_text d4 t [] (be_text b)) as (d5 & Hd5 & Hv5); [by rewrite Hv4, lookup_insert_eq|].
  exists d5, e, t. unfold writing. rewrite Hd5. split; [done|].
  assert (e ≠ t) as Het by (intros ->; by rewrite Hv3, lookup_insert_eq in Ht).
  rewrite Hv3, Hv2, Hv1, !(lookup_insert_ne _ e) in Ht by done.
  assert (t ≠ loc SBlocks) as HtB by (intros ->; by rewrite lookup_insert_eq in Ht).
  rewrite lookup_insert_ne in Ht by done.
  rewrite Hv4, Hv3, Hv2, Hv1 in Hv5.
  apply (represents_fresh d d5 loc r id b e t); [done|by right|done|done| | | |]; rewrite Hv5.
  - rewrite lookup_insert_ne, lookup_insert_ne, lookup_insert_eq by done. do 2 f_equal.
  - by rewrite lookup_insert_eq.
  - rewrite !(lookup_insert_ne _ t), !(lookup_insert_ne _ e) by done. by rewrite lookup_insert_eq.
  - intros o HoB Hoe Hsome. assert (o ≠ t) as Hot by (intros ->; by rewrite Ht in Hsome; destruct Hsome).
    rewrite !(lookup_insert_ne _ t), !(lookup_insert_ne _ e), lookup_insert_ne by done. done.
Qed.

Lemma replace_text_rep d loc r id b content :
  represents d loc r → rp_blocks r !! id = Some b →
  ∃ d' t, replace_text_object (loc (SEntry id)) content d = (Ok tt, d') ∧
          represents d' (relocate loc id (loc (SEntry id)) t)
            (with_blocks r (<[id := mkBlockEntry (be_kind b) (be_rev b) content]> (rp_blocks r))).
Proof.
  intros Hrep Hb. unfold replace_text_object. set (e := loc (SEntry id)).
  assert (view d !! e = Some (NMap (entry_map b (loc (SText id))))) as He.
  { apply (rs_node _ _ _ Hrep). cbn. by rewrite Hb. }
  destruct (law_delete d e _ KEY_TEXT He) as (d1 & Hd1 & Hv1); [rewrite entry_map_text; eauto|].
  rewrite (bind_ok _ _ d tt d1) by (unfold writing; by rewrite Hd1).
  destruct (law_put_object d1 e (delete KEY_TEXT (entry_map b (loc (SText id)))) KEY_TEXT OText)
    as (d2 & t & Hd2 & Ht & Hv2); [by rewrite Hv1, lookup_insert_eq|].
  rewrite (bind_ok _ _ d1 t d2) by (unfold creating; by rewrite Hd2).
  destruct (law_update_text d2 t [] content) as (d3 & Hd3 & Hv3); [by rewrite Hv2, lookup_insert_eq|].
  exists d3, t. unfold writing. rewrite Hd3. split; [done|].
  assert (e ≠ t) as Het by (intros <-; by rewrite Hv1, lookup_insert_eq in Ht).
  rewrite Hv1, lookup_insert_ne in Ht by done. rewrite Hv2, Hv1 in Hv3.
  assert (loc SBlocks ≠ e) as HBe.
  { intros Heq. assert (SBlocks = SEntry id) as [=]. apply (rs_inj _ _ _ Hrep); [by eexists| |done].
    cbn. rewrite Hb. by eexists. }
  assert (loc SBlocks ≠ t) as HBt.
  { intros <-. by rewrite (rs_node _ _ _ Hrep SBlocks _ eq_refl) in Ht. }
  apply (represents_fresh d d3 loc r id _ e t); [done|left; eauto|done|done| | | |]; rewrite Hv3.
  - rewrite lookup_insert_ne, lookup_insert_ne, lookup_insert_eq by done. do 2 f_equal.
  - by rewrite lookup_insert_eq.
  - rewrite !(lookup_insert_ne _ t), !(lookup_insert_ne _ e) by done.
    rewrite (rs_node _ _ _ Hrep SBlocks _ eq_refl). do 2 f_equal. cbn. apply map_eq. intros i.
    destruct (decide (i = id)) as [->|Hne]; [by rewrite lookup_insert_eq, map_lookup_imap, Hb|by rewrite lookup_insert_ne].
  - intros o HoB Hoe Hsome. assert (o ≠ t) as Hot by (intros ->; by rewrite Ht in Hsome; destruct Hsome).
    rewrite !(lookup_insert_ne _ t), !(lookup_insert_ne _ e) by done. done.
Qed.

(** ** The order list *)
Lemma order_update d d' loc r order :
  represents d loc r → view d' = <[loc SOrder := NList (VStr <$> order)]> (view d) →
  represents d' loc (with_order r order).
Proof.
  intros Hrep Hv. eapply (represents_update d d' loc r _ SOrder); [done|done|done|exact Hv| |done..].
  intros [] m Hne Hm; done.
Qed.

Lemma delete_at_rep d loc r i message :
  represents d loc r → i < length (rp_order r) →
  ∃ d', writing message (am_delete_at (loc SOrder) i) d = (Ok tt, d') ∧
        represents d' loc (with_order r (delete i (rp_order r))).
Proof.
  intros Hrep Hi. destruct (law_delete_at d (loc SOrder) (VStr <$> rp_order r) i) as (d' & Hd' & Hv);
    [by apply (rs_node _ _ _ Hrep)|by rewrite length_fmap|].
  exists d'. unfold writing. rewrite Hd'. split; [done|]. apply (order_update d d'); [done|].
  rewrite Hv. do 2 f_equal. clear. generalize (rp_order r) i. induction l as [|x l IH]; intros [|j]; cbn; [done..|].
  by rewrite IH.
Qed.

Lemma insert_at_rep d loc r i id message :
  represents d loc r → i ≤ length (rp_order r) →
  ∃ d', writing message (am_insert (loc SOrder) i id) d = (Ok tt, d') ∧
        represents d' loc (with_order r (take i (rp_order r) ++ (id :: drop i (rp_order r)))).
Proof.
  intros Hrep Hi. destruct (law_insert d (loc SOrder) (VStr <$> rp_order r) i id) as (d' & Hd' & Hv);
    [by apply (rs_node _ _ _ Hrep)|by rewrite length_fmap|].
  exists d'. unfold writing. rewrite Hd'. split; [done|]. apply (order_update d d'); [done|].
  rewrite Hv. by rewrite fmap_app, fmap_cons, fmap_take, fmap_drop.
Qed.

Lemma clear_order_rep d loc r :
  represents d loc r → ∃ d', clear_order (loc SOrder) d = (Ok tt, d') ∧ represents d' loc (with_order r []).
Proof.
  intros Hrep. unfold clear_order.
  rewrite (law_length d _ (VStr <$> rp_order r)), length_fmap by (by apply (rs_node _ _ _ Hrep)).
  remember (rp_order r) as order eqn:Ho. revert d r Hrep Ho.
  induction order as [|x order IH]; intros d r Hrep Ho.
  - exists d. split; [done|]. destruct r; cbn in *. by rewrite Ho.
  - cbn [length replicate each].
    destruct (delete_at_rep d loc r 0 (lit "clear order list") Hrep) as (d1 & Hd1 & Hr1); [rewrite <-Ho; simpl; lia|].
    rewrite (bind_ok _ _ d tt d1) by done. rewrite <-Ho in Hr1.
    destruct (IH d1 _ Hr1 eq_refl) as (d' & Hd' & Hr'). by exists d'.
Qed.

Lemma rebuild_order_rep d loc r index ids :
  represents d loc r → index = length (rp_order r) →
  ∃ d', rebuild_order (loc SOrder) index ids d = (Ok tt, d') ∧ represents d' loc (with_order r (rp_order r ++ ids)).
Proof.
  revert d r index. induction ids as [|id ids IH]; intros d r index Hrep ->.
  - exists d. split; [done|]. rewrite app_nil_r. by destruct r.
  - cbn [rebuild_order].
    destruct (insert_at_rep d loc r (length (rp_order r)) id (lit "rebuild order list") Hrep) as (d1 & Hd1 & Hr1); [done|].
    rewrite (bind_ok _ _ d tt d1) by done. rewrite take_ge, drop_ge in Hr1 by done.
    destruct (IH d1 _ (S (length (rp_order r))) Hr1) as (d' & Hd' & Hr'); [cbn; rewrite length_app; simpl; lia|].
    exists d'. split; [done|]. cbn in Hr'. by rewrite <-app_assoc in Hr'.
Qed.
End writers.
