(* ===== verification/ReportDoc.v ===== *)
(** * The report document

    [ReportDoc] ([crates/calm-report/src/document.rs], [document/replace.rs]): the report as
    an ordered block map in the document store, read as a snapshot of blocks or as one flat
    body, and rewritten block by block, section by section or as a whole. A fallible method
    on [&mut self] is a [doc_op]: on an error it leaves the document as far as it got. A
    panic of the id minting is an error with its message. *)

From stdpp Require Import prelude strings list gmap.
From S2P Require Import Prelude Text Slices Float64 Identity PluginSchema Blocks Align DocStore.

Local Open Scope calm_scope.

(** The first id that occurs again. *)
Fixpoint first_duplicate (seen : gset str) (ids : list str) : option str :=
  match ids with
  | [] => None
  | id :: ids => if bool_decide (id ∈ seen) then Some id else first_duplicate ({[id]} ∪ seen) ids
  end.

(** [position]. *)
Definition position (id : str) (ids : list str) : option nat := fst <$> list_find (λ x, x = id) ids.

Section document.
Context `{Store : Automerge} `{Serde : SerdeText}.

(** ** Reading *)
Definition malformed (rest : str) : str := lit "malformed report doc: " ++ rest.

Definition block_payload (id kind text : str) : result Json str :=
  if bool_decide (kind = KIND_PROSE) then Ok (JObject [(lit "markdown", JString text)])
  else match parse_fence text with
       | None =>
           Err (malformed (lit "block " ++ id ++ lit " (kind " ++ kind
                           ++ lit ") text is not a well-formed neige-block fence"))
       | Some fence =>
           if bool_decide (npf_kind fence = kind) then Ok (npf_payload fence)
           else Err (malformed (lit "block " ++ id ++ lit " kind " ++ kind
                                ++ lit " does not match its fence kind " ++ npf_kind fence))
       end.

Definition snapshot_block (d : AutoCommit) (blocks_id : ObjId) (id : str) : result ReportBlock str :=
  let? found := entry_at d blocks_id id in
  let? entry := some_or (malformed (lit "order id " ++ id ++ lit " has no blocks entry")) found in
  let? kind_value := some_or (lit "read block " ++ id ++ lit " kind") (am_get d entry KEY_KIND) in
  let? kind := some_or (malformed (lit "block " ++ id ++ lit " has no Str kind")) (kind_value ≫= value_str) in
  let? rev_value := some_or (lit "read block " ++ id ++ lit " rev") (am_get d entry KEY_REV) in
  let? rev := rev_of (malformed (lit "block " ++ id ++ lit " has no Uint rev")) id rev_value in
  let? text := context (malformed (lit "block " ++ id ++ lit " text field")) (text_at d entry KEY_TEXT) in
  let? payload := block_payload id kind text in
  Ok (mkReportBlock id kind rev payload).

Definition blocks_snapshot (d : AutoCommit) : result (list ReportBlock) str :=
  let? found := blocks_map d in
  match found with
  | None => Ok []
  | Some blocks_id =>
      let? order := order_ids d in
      match first_duplicate ∅ order with
      | Some id => Err (malformed (lit "duplicate id " ++ id ++ lit " in order"))
      | None =>
          let map_len := length (am_keys d blocks_id) in
          if bool_decide (map_len = length order) then collect (snapshot_block d blocks_id) order
          else Err (malformed (lit "blocks map has " ++ show_N (N.of_nat map_len)
                               ++ lit " entries but order lists " ++ show_N (N.of_nat (length order))))
      end
  end.

Definition project_block (d : AutoCommit) (blocks_id : ObjId) (body : result str str) (id : str) : result str str :=
  let? body := body in
  let? found := entry_at d blocks_id id in
  let? entry := some_or (malformed (lit "order id " ++ id ++ lit " has no blocks entry")) found in
  let? text := context (malformed (lit "block " ++ id ++ lit " text field")) (text_at d entry KEY_TEXT) in
  Ok (append_block_text body text).

Definition project (d : AutoCommit) : result (str * str) str :=
  let? summary := text_at d ROOT FIELD_SUMMARY in
  let? found := blocks_map d in
  let? body :=
    match found with
    | Some blocks_id => let? ids := order_ids d in foldl (project_block d blocks_id) (Ok []) ids
    | None => context (malformed (lit "legacy doc must have a body Text at root")) (text_at d ROOT LEGACY_FIELD_BODY)
    end in
  Ok (summary, body).

Definition has_blocks_layout (d : AutoCommit) : result bool str :=
  let? found := blocks_map d in
  match found with None => Ok false | Some _ => let? _ := blocks_snapshot d in Ok true end.

Definition block_index (d : AutoCommit) : result (list (str * str * N)) str :=
  let? blocks := blocks_snapshot d in Ok ((λ b, (rb_id b, rb_kind b, rb_rev b)) <$> blocks).

Definition block_rev (d : AutoCommit) (id : str) : result (option N) str :=
  let? blocks_id := live_blocks d in
  let? found := entry_at d blocks_id id in
  match found with
  | None => Ok None
  | Some entry =>
      let? rev_value := some_or (lit "read block " ++ id ++ lit " rev") (am_get d entry KEY_REV) in
      let? rev := rev_of (malformed (lit "block " ++ id ++ lit " has no Uint rev")) id rev_value in
      Ok (Some rev)
  end.

(** ** One block *)

(** A non-prose block's stored text is its canonical fence. *)
Definition check_content (kind content : str) : result unit str :=
  if bool_decide (kind = KIND_PROSE) then Ok tt
  else match parse_fence content with
       | None =>
           Err (lit "doc invariant: non-prose block content must be a canonical neige-block fence (kind "
                ++ kind ++ lit ")")
       | Some fence =>
           if bool_decide (npf_kind fence = kind) then Ok tt
           else Err (lit "doc invariant: fence kind " ++ npf_kind fence
                     ++ lit " does not match block kind " ++ kind)
       end.

(** The entry an upsert replaces: its object, revision, kind and text. *)
Definition upsert_target (d : AutoCommit) (blocks_id : ObjId) (id : str)
  : result (ObjId * N * option str * str) str :=
  let? found := entry_at d blocks_id id in
  let? entry := some_or (lit "block " ++ id ++ lit " not found") found in
  let? rev_value := some_or (lit "read block rev") (am_get d entry KEY_REV) in
  let? rev := rev_of (lit "doc invariant: block entry has a Uint rev") id rev_value in
  let? text_found := typed_at d entry KEY_TEXT OText in
  let? text_id := some_or (malformed (lit "block " ++ id ++ lit " text field")) text_found in
  let? kind_value := some_or (lit "read block kind") (am_get d entry KEY_KIND) in
  let? text := some_or (lit "read block text") (am_text d text_id) in
  Ok (entry, rev, kind_value ≫= value_str, text).

Definition upsert_existing (blocks_id : ObjId) (id kind content : str) : doc_op (str * N) :=
  bind (reading (λ d, upsert_target d blocks_id id)) (λ target,
  let '(entry, rev, existing_kind, existing_text) := target in
  if bool_decide (existing_kind = Some kind) && bool_decide (existing_text = content) then ret (id, rev)
  else
    let next_rev := u32_saturating_succ rev in
    bind (writing (lit "put kind") (am_put entry KEY_KIND (VStr kind))) (λ _,
    bind (writing (lit "put rev") (am_put entry KEY_REV (VUint next_rev))) (λ _,
    bind (λ d, let '(r, d) := replace_text_object entry content d in (context (lit "replace block text") r, d)) (λ _,
    ret (id, next_rev))))).

Definition mint_failure : str := lit "a report cannot contain more than 65,536 distinct block ids".

Definition upsert_new (blocks_id : ObjId) (kind content : str) : doc_op (str * N) :=
  bind (reading order_list) (λ order_id,
  bind (reading (λ d, Ok (list_to_set (am_keys d blocks_id) : gset str, am_length d order_id))) (λ used_index,
  let '(used, index) := used_index in
  match mint_id content index used with
  | None => fail mint_failure
  | Some (id, _) =>
      bind (insert_block_entry blocks_id id kind 1 content) (λ _,
      bind (writing (lit "append block id to order") (am_insert order_id index id)) (λ _,
      ret (id, 1%N)))
  end)).

Definition upsert_block (id : option str) (kind content : str) : doc_op (str * N) :=
  bind (λ d, (check_content kind content, d)) (λ _,
  bind (reading live_blocks) (λ blocks_id,
  match id with
  | Some id => upsert_existing blocks_id id kind content
  | None => upsert_new blocks_id kind content
  end)).

Definition move_block (id : str) (to_index : nat) : doc_op unit :=
  bind (reading order_list) (λ order_id,
  bind (reading order_ids) (λ ids,
  bind (λ d, (some_or (lit "block " ++ id ++ lit " not found") (position id ids), d)) (λ from,
  if bool_decide (to_index < length ids) then
    if bool_decide (from = to_index) then ret tt
    else
      bind (writing (lit "remove from order") (am_delete_at order_id from)) (λ _,
      writing (lit "re-insert into order") (am_insert order_id to_index id))
  else fail (lit "move_block: index " ++ show_N (N.of_nat to_index) ++ lit " out of range (len "
             ++ show_N (N.of_nat (length ids)) ++ lit ")")))).

Definition delete_block (id : str) : doc_op unit :=
  bind (reading live_blocks) (λ blocks_id,
  bind (reading order_list) (λ order_id,
  bind (reading order_ids) (λ ids,
  bind (λ d, (some_or (lit "block " ++ id ++ lit " not found") (position id ids), d)) (λ index,
  bind (writing (lit "remove from order") (am_delete_at order_id index)) (λ _,
  writing (lit "remove block entry") (am_delete blocks_id id)))))).

(** ** All blocks *)
Definition delete_vanished (blocks_id : ObjId) (keep : gset str) (old : ReportBlock) : doc_op unit :=
  if bool_decide (rb_id old ∈ keep) then ret tt
  else writing (lit "delete vanished block entry") (am_delete blocks_id (rb_id old)).

Definition when (b : bool) (m : doc_op unit) : doc_op unit := if b then m else ret tt.

Definition write_aligned (blocks_id : ObjId) (old_by_id : gmap str ReportBlock) (block : ReportBlock) : doc_op unit :=
  let content := flat_text block in
  match old_by_id !! rb_id block with
  | Some old =>
      bind (reading (λ d, entry_at d blocks_id (rb_id block))) (λ found,
      bind (λ d, (some_or (lit "doc invariant: surviving block entry exists") found, d)) (λ entry,
      bind (when (bool_decide (rb_kind old ≠ rb_kind block))
              (writing (lit "put block kind") (am_put entry KEY_KIND (VStr (rb_kind block))))) (λ _,
      bind (when (bool_decide (rb_rev old ≠ rb_rev block))
              (writing (lit "put block rev") (am_put entry KEY_REV (VUint (rb_rev block))))) (λ _,
      when (bool_decide (flat_text old ≠ content))
        (bind (reading (λ d, typed_at d entry KEY_TEXT OText)) (λ text_found,
         bind (λ d, (some_or (lit "doc invariant: block entry has a text field") text_found, d)) (λ _,
         λ d, let '(r, d) := replace_text_object entry content d in (context (lit "replace block text") r, d))))))))
  | None => insert_block_entry blocks_id (rb_id block) (rb_kind block) (rb_rev block) content
  end.

Definition by_id (blocks : list ReportBlock) : gmap str ReportBlock :=
  foldl (λ m block, <[rb_id block := block]> m) ∅ blocks.

Definition apply_aligned_blocks (current aligned : list ReportBlock) : doc_op unit :=
  bind (reading live_blocks) (λ blocks_id,
  let keep : gset str := list_to_set (rb_id <$> aligned) in
  bind (each (delete_vanished blocks_id keep) current) (λ _,
  bind (each (write_aligned blocks_id (by_id current)) aligned) (λ _,
  let new_order := rb_id <$> aligned in
  bind (reading order_ids) (λ ids,
  if bool_decide (ids = new_order) then ret tt
  else bind (reading order_list) (λ order_id,
       bind (clear_order order_id) (λ _, rebuild_order order_id 0 new_order)))))).

(** ** Replacing ([replace.rs]) *)
Definition minted (r : option (list ReportBlock)) : doc_op (list ReportBlock) :=
  match r with Some blocks => ret blocks | None => fail mint_failure end.

Definition update (new_summary new_body : str) : doc_op unit :=
  bind (set_summary new_summary) (λ _,
  bind (reading blocks_snapshot) (λ current,
  bind (minted (reassign_ids current (split_body new_body))) (λ aligned,
  apply_aligned_blocks current aligned))).

Definition update_with_hints (new_summary : str) (slices : list str) (hints : list (option str)) : doc_op unit :=
  bind (set_summary new_summary) (λ _,
  bind (reading blocks_snapshot) (λ current,
  bind (minted (reassign_ids_with_hints current slices hints)) (λ aligned,
  apply_aligned_blocks current aligned))).

(** The slot of each kept block: it goes right before [replaced[slot]], or at the end. *)
Fixpoint kept_slots (rewritten : ReportBlock → bool) (position : gmap str nat) (count : nat)
    (anchor : option nat) (after_rewritten : bool) (blocks : list ReportBlock) : list (nat * ReportBlock) :=
  match blocks with
  | [] => []
  | block :: blocks =>
      if rewritten block then
        kept_slots rewritten position count
          (match position !! rb_id block with Some index => Some index | None => anchor end) true blocks
      else
        (match anchor with
         | Some index => S index
         | None => if after_rewritten then count `min` 1 else 0
         end, block) :: kept_slots rewritten position count anchor after_rewritten blocks
  end.

Definition at_slot (slots : list (nat * ReportBlock)) (replaced : list ReportBlock) (slot : nat) : list ReportBlock :=
  (filter (λ e, e.1 = slot) slots).*2 ++ option_list (replaced !! slot).

Definition weave (slots : list (nat * ReportBlock)) (replaced : list ReportBlock) : list ReportBlock :=
  seq 0 (S (length replaced)) ≫= at_slot slots replaced.

(** [collect] into a map from id to index: the last index of an id. *)
Definition index_of (blocks : list ReportBlock) : gmap str nat :=
  foldl (λ m entry, <[rb_id entry.2 := entry.1]> m) ∅ (zip (seq 0 (length blocks)) blocks).

Definition update_with_hints_keeping (new_summary : str) (slices : list str) (hints : list (option str))
    (rewritten : ReportBlock → bool) : doc_op unit :=
  bind (set_summary new_summary) (λ _,
  bind (reading blocks_snapshot) (λ current,
  let old := filter (λ b, rewritten b = true) current in
  let kept := filter (λ b, rewritten b = false) current in
  bind (minted (reassign_ids_with_hints_reserving old slices hints (list_to_set (rb_id <$> kept)))) (λ replaced,
  let slots := kept_slots rewritten (index_of replaced) (length replaced) None false current in
  apply_aligned_blocks current (weave slots replaced)))).

Definition replace_dropping_data_blocks (new_summary new_body : str) : doc_op unit :=
  bind (set_summary new_summary) (λ _,
  bind (reading blocks_snapshot) (λ current,
  let prose := filter (λ b, rb_kind b = KIND_PROSE) current in
  let data := filter (λ b, rb_kind b ≠ KIND_PROSE) current in
  bind (minted (reassign_ids_with_hints_reserving prose (split_body new_body) [] (list_to_set (rb_id <$> data)))) (λ aligned,
  apply_aligned_blocks current aligned))).

(** [span] is [start..end]; [members] are indices in it. *)
Definition replace_section_members (first last : nat) (members : list nat) (slices : list str)
    (hints : list (option str)) : doc_op (list ReportBlock) :=
  let span_text := show_N (N.of_nat first) ++ lit ".." ++ show_N (N.of_nat last) in
  bind (reading blocks_snapshot) (λ current,
  if negb (bool_decide (first ≤ last ∧ last ≤ length current)) then
    fail (lit "replace_section_members: " ++ span_text ++ lit " out of range (len "
          ++ show_N (N.of_nat (length current)) ++ lit ")")
  else if negb (forallb (λ index, bool_decide (first ≤ index ∧ index < last)) members) then
    fail (lit "replace_section_members: members [" ++ join (lit ", ") ((λ i, show_N (N.of_nat i)) <$> members)
          ++ lit "] outside " ++ span_text)
  else
    let before := take first current in
    let after := drop last current in
    let span := range first last in
    let block_at index := option_list (current !! index) in
    let old := filter (λ index, index ∈ members) span ≫= block_at in
    let kept := filter (λ index, index ∉ members) span ≫= block_at in
    bind (minted (reassign_ids_with_hints_reserving old slices hints
                    (list_to_set (rb_id <$> before ++ kept ++ after)))) (λ replaced,
    bind (apply_aligned_blocks current (before ++ replaced ++ kept ++ after)) (λ _, ret replaced))).

(** ** Seeding and migrating *)

(** The id of a block written to a fresh layout: a duplicate is reminted, the first occupant keeps it. *)
Fixpoint layout_ids (index : nat) (used seen : gset str) (blocks : list ReportBlock) : option (list (str * ReportBlock)) :=
  match blocks with
  | [] => Some []
  | block :: blocks =>
      if bool_decide (rb_id block ∉ seen) then
        cons (rb_id block, block) <$> layout_ids (S index) used ({[rb_id block]} ∪ seen) blocks
      else match mint_id (flat_text block) index used with
           | Some (id, used) => cons (id, block) <$> layout_ids (S index) used ({[id]} ∪ seen) blocks
           | None => None
           end
  end.

Fixpoint write_entries (message : str) (blocks_id order_id : ObjId) (index : nat) (entries : list (str * ReportBlock)) : doc_op unit :=
  match entries with
  | [] => ret tt
  | (id, block) :: entries =>
      bind (insert_block_entry blocks_id id (rb_kind block) (rb_rev block) (flat_text block)) (λ _,
      bind (writing message (am_insert order_id index id)) (λ _,
      write_entries message blocks_id order_id (S index) entries))
  end.

Definition write_blocks_layout (blocks : list ReportBlock) : doc_op unit :=
  bind (creating (lit "put_object at root cannot fail") (am_put_object ROOT FIELD_BLOCKS OMap)) (λ blocks_id,
  bind (creating (lit "put_object at root cannot fail") (am_put_object ROOT FIELD_ORDER OList)) (λ order_id,
  match layout_ids 0 (list_to_set (rb_id <$> blocks)) ∅ blocks with
  | Some entries => write_entries (lit "insert at list tail cannot fail") blocks_id order_id 0 entries
  | None => fail mint_failure
  end)).

Definition seed_summary (create write summary : str) : doc_op unit :=
  bind (creating create (am_put_object ROOT FIELD_SUMMARY OText)) (λ summary_id,
  writing write (am_update_text summary_id summary)).

(** [from_payload], on the new document. *)
Definition from_payload (summary body : str) (blocks : option (list ReportBlock)) : doc_op unit :=
  bind (seed_summary (lit "put_object on fresh AutoCommit cannot fail")
          (lit "update_text on freshly-minted Text obj cannot fail") summary) (λ _,
  bind (minted (reassign_ids (default [] blocks) (split_body body))) (λ blocks,
  write_blocks_layout blocks)).

Definition from_blocks_exact (summary : str) (blocks : list ReportBlock) : doc_op unit :=
  match first_duplicate ∅ (rb_id <$> blocks) with
  | Some id => fail (lit "duplicate block id " ++ id ++ lit " in exact report snapshot")
  | None =>
      bind (seed_summary (lit "create exact report summary") (lit "write exact report summary") summary) (λ _,
      bind (creating (lit "create exact report blocks map") (am_put_object ROOT FIELD_BLOCKS OMap)) (λ blocks_id,
      bind (creating (lit "create exact report order list") (am_put_object ROOT FIELD_ORDER OList)) (λ order_id,
      write_entries (lit "write exact report order entry") blocks_id order_id 0 ((λ b, (rb_id b, b)) <$> blocks))))
  end.

Definition ensure_block_objects (hint_blocks : option (list ReportBlock)) : doc_op bool :=
  bind (λ d, (context (lit "probe blocks map") (blocks_map d), d)) (λ found,
  match found with
  | Some _ => ret false
  | None =>
      bind (reading (λ d,
        let? found := some_or (lit "probe legacy body") (am_get d ROOT LEGACY_FIELD_BODY) in
        let? value := some_or (lit "legacy doc missing both blocks map and body Text") found in
        some_or (lit "read legacy body text") (match value with VObj _ o => am_text d o | _ => None end)))
        (λ body,
      bind (minted (reassign_ids (default [] hint_blocks) (split_body body))) (λ blocks,
      bind (write_blocks_layout blocks) (λ _,
      bind (writing (lit "delete legacy body") (am_delete ROOT LEGACY_FIELD_BODY)) (λ _,
      ret true))))
  end).

(** [ReportBlock == ReportBlock]. *)
Definition block_eqb (a b : ReportBlock) : bool :=
  bool_decide (rb_id a = rb_id b) && bool_decide (rb_kind a = rb_kind b) && (rb_rev a =? rb_rev b)%N
  && json_eqb (rb_payload a) (rb_payload b).

Fixpoint normalize_blocks (normalize : ReportBlock → ReportBlock) (blocks_id : ObjId) (changed : bool)
    (blocks : list ReportBlock) : doc_op bool :=
  match blocks with
  | [] => ret changed
  | block :: blocks =>
      let normalized := normalize block in
      if block_eqb normalized block then normalize_blocks normalize blocks_id changed blocks
      else
        bind (reading (λ d, entry_at d blocks_id (rb_id block))) (λ found,
        bind (λ d, (some_or (lit "block " ++ rb_id block ++ lit " vanished during task migration") found, d)) (λ entry,
        bind (λ d, let '(r, d) := replace_text_object entry (render_fence (rb_kind normalized) (rb_payload normalized)) d in
                   (context (lit "migrate terminal task block " ++ rb_id block) r, d)) (λ _,
        normalize_blocks normalize blocks_id true blocks)))
  end.

Definition normalize_task_fields (normalize : ReportBlock → ReportBlock) : doc_op bool :=
  bind (λ d, ((let? found := blocks_map d in
               some_or (lit "doc invariant: blocks map must exist after layout migration") found), d)) (λ blocks_id,
  bind (reading blocks_snapshot) (λ blocks, normalize_blocks normalize blocks_id false blocks)).
End document.
