(* ===== verification/ReportDocRules.v ===== *)
(** * The report document implements an ordered list of blocks

    The abstract report is a list of blocks with distinct ids. A document [holds_report] one
    when its objects are exactly that list: the refinement theorems say that each handler of
    [ReportDoc] succeeds on such a document and acts as the list operation it stands for. *)

From stdpp Require Import prelude strings list gmap.
From S2P Require Import Prelude Text Slices Float64 Identity PluginSchema Blocks BlockRules FenceRules Align ReassignRules ReassignIds DocStore ReportDoc.

Local Open Scope calm_scope.

Section report.
Context `{Laws : AutomergeLaws} `{Serde : SerdeText}.
Implicit Types (d : AutoCommit) (loc : Slot → ObjId).

(** ** The abstract report *)
Definition entry_of (b : ReportBlock) : BlockEntry := mkBlockEntry (rb_kind b) (rb_rev b) (flat_text b).

Definition entries (blocks : list ReportBlock) : gmap str BlockEntry :=
  list_to_map ((λ b, (rb_id b, entry_of b)) <$> blocks).

Record well_formed (blocks : list ReportBlock) : Prop := {
  wf_ids : NoDup (rb_id <$> blocks);
  wf_stored : Forall stored blocks;
  wf_rev : Forall (λ b, rb_rev b < u32_modulus)%N blocks;
}.

Definition report_of (root : gmap str (AmValue ObjId)) (summary : str) (blocks : list ReportBlock) : Report ObjId :=
  mkReport root summary (rb_id <$> blocks) (entries blocks).

(** [d] is the document of the report with this summary and these blocks; [root] has its other fields. *)
Definition holds_report d (root : gmap str (AmValue ObjId)) (summary : str) (blocks : list ReportBlock) : Prop :=
  well_formed blocks ∧ ∃ loc, represents d loc (report_of root summary blocks).

Lemma entries_keys (blocks : list ReportBlock) : ((λ b, (rb_id b, entry_of b)) <$> blocks).*1 = rb_id <$> blocks.
Proof. by rewrite <-list_fmap_compose. Qed.

Lemma lookup_entries blocks id e :
  NoDup (rb_id <$> blocks) → entries blocks !! id = Some e ↔ ∃ b, b ∈ blocks ∧ rb_id b = id ∧ e = entry_of b.
Proof.
  intros Hnd. unfold entries. rewrite <-elem_of_list_to_map by (by rewrite entries_keys).
  rewrite list_elem_of_fmap. split.
  - intros (b & [= -> ->] & Hb). eauto.
  - intros (b & Hb & <- & ->). eauto.
Qed.

Lemma lookup_entries_block blocks b :
  NoDup (rb_id <$> blocks) → b ∈ blocks → entries blocks !! rb_id b = Some (entry_of b).
Proof. intros Hnd Hb. apply lookup_entries; eauto. Qed.

Lemma lookup_entries_None blocks id : id ∉ rb_id <$> blocks → entries blocks !! id = None.
Proof. intros H. apply not_elem_of_list_to_map_1. by rewrite entries_keys. Qed.

Lemma first_duplicate_None seen ids :
  NoDup ids → (∀ id, id ∈ ids → id ∉ seen) → first_duplicate seen ids = None.
Proof.
  revert seen. induction ids as [|id ids IH]; intros seen Hnd Hs; [done|]. apply NoDup_cons in Hnd as [Hid Hnd].
  cbn [first_duplicate]. rewrite bool_decide_eq_false_2 by (apply Hs; left). apply IH; [done|].
  intros x Hx. rewrite not_elem_of_union, not_elem_of_singleton. split; [by intros ->|apply Hs; by right].
Qed.

Lemma first_duplicate_NoDup seen ids :
  first_duplicate seen ids = None → NoDup ids ∧ (∀ id, id ∈ ids → id ∉ seen).
Proof.
  revert seen. induction ids as [|id ids IH]; intros seen H; [split; [constructor|by intros ? ?%elem_of_nil]|].
  cbn [first_duplicate] in H. case_bool_decide as Hid; [done|]. apply IH in H as [Hnd Hs]. split.
  - constructor; [|done]. intros Hin. apply (Hs id Hin). set_solver.
  - intros x [->|Hx]%elem_of_cons; [done|]. specialize (Hs x Hx). set_solver.
Qed.

Lemma block_payload_stored b : stored b → block_payload (rb_id b) (rb_kind b) (flat_text b) = Ok (rb_payload b).
Proof.
  unfold stored, block_payload, flat_text. destruct b as [id kind rev payload]. cbn [rb_id rb_kind rb_rev rb_payload].
  intros [(-> & t & -> & Ht)|(Hk & Hw)].
  - rewrite !bool_decide_eq_true_2 by done. done.
  - rewrite !bool_decide_eq_false_2 by done. destruct Hw. rewrite parse_render by done. cbn.
    by rewrite bool_decide_eq_true_2.
Qed.

(** ** Reading *)
Section reading.
Context d loc root summary blocks
  (Hrep : represents d loc (report_of root summary blocks)) (Hwf : well_formed blocks).

Lemma snapshot_block_ok b : b ∈ blocks → snapshot_block d (loc SBlocks) (rb_id b) = Ok b.
Proof.
  intros Hb. assert (entries blocks !! rb_id b = Some (entry_of b)) as He by (apply lookup_entries_block; [apply Hwf|done]).
  unfold snapshot_block. rewrite (entry_at_rep d loc _ Hrep). cbn [rp_blocks report_of]. rewrite He. cbn [fmap option_fmap option_map result_bind some_or].
  rewrite !(entry_get d loc _ Hrep _ (entry_of b)) by done.
  rewrite entry_map_kind, entry_map_rev. cbn [some_or result_bind mbind option_bind value_str].
  unfold rev_of. cbn [mbind option_bind value_u64 some_or result_bind be_rev entry_of].
  assert (rb_rev b < u32_modulus)%N as Hrev by (pose proof (wf_rev _ Hwf) as H; eapply Forall_forall in H; eauto).
  rewrite (proj2 (N.ltb_lt _ _) Hrev). cbn [result_bind].
  rewrite (entry_text_rep d loc _ Hrep _ (entry_of b)) by done. cbn [context result_bind be_text be_kind entry_of].
  rewrite block_payload_stored by (pose proof (wf_stored _ Hwf) as H; eapply Forall_forall in H; eauto).
  by destruct b.
Qed.

Lemma size_entries : length (am_keys d (loc SBlocks)) = length blocks.
Proof.
  rewrite (keys_rep d loc _ Hrep). cbn [rp_blocks report_of]. rewrite length_fmap.
  unfold entries. rewrite map_to_list_to_map by (rewrite entries_keys; apply Hwf). by rewrite length_fmap.
Qed.

Lemma blocks_snapshot_ok : blocks_snapshot d = Ok blocks.
Proof.
  unfold blocks_snapshot. rewrite (blocks_map_rep d loc _ Hrep), (order_ids_rep d loc _ Hrep). cbn [result_bind rp_order report_of].
  rewrite first_duplicate_None by (apply Hwf || set_solver).
  rewrite size_entries, length_fmap, bool_decide_eq_true_2 by done.
  assert (∀ l, (∀ b, b ∈ l → b ∈ blocks) → collect (snapshot_block d (loc SBlocks)) (rb_id <$> l) = Ok l) as H; [|by apply H].
  induction l as [|b l IH]; intros Hl; [done|]. rewrite fmap_cons. cbn [collect].
  rewrite snapshot_block_ok by (apply Hl; left). cbn. rewrite IH; [done|]. intros c Hc. apply Hl. by right.
Qed.

Lemma project_ok : project d = Ok (summary, foldl append_block_text [] (flat_text <$> blocks)).
Proof.
  unfold project. rewrite (summary_rep d loc _ Hrep), (blocks_map_rep d loc _ Hrep), (order_ids_rep d loc _ Hrep).
  cbn [result_bind rp_order rp_summary report_of].
  assert (∀ l acc, (∀ b, b ∈ l → b ∈ blocks) →
    foldl (project_block d (loc SBlocks)) (Ok acc) (rb_id <$> l) = Ok (foldl append_block_text acc (flat_text <$> l))) as H.
  { induction l as [|b l IH]; intros acc Hl; [done|]. rewrite !fmap_cons. cbn [foldl].
    assert (entries blocks !! rb_id b = Some (entry_of b)) as He by (apply lookup_entries_block; [apply Hwf|apply Hl; left]).
    unfold project_block at 2. rewrite (entry_at_rep d loc _ Hrep). cbn [rp_blocks report_of]. rewrite He.
    cbn [fmap option_fmap option_map result_bind some_or].
    rewrite (entry_text_rep d loc _ Hrep _ (entry_of b)) by done. cbn [context result_bind be_text entry_of].
    apply IH. intros c Hc. apply Hl. by right. }
  rewrite H by done. done.
Qed.
End reading.

(** ** Writing all blocks *)
Lemma delete_vanished_loop d loc (root : gmap str (AmValue ObjId)) (summary : str) (order : list str) (m : gmap str BlockEntry) (keep : gset str) (l : list ReportBlock) :
  represents d loc (mkReport root summary order m) → NoDup (rb_id <$> l) → (∀ b, b ∈ l → is_Some (m !! rb_id b)) →
  ∃ d' m', each (delete_vanished (loc SBlocks) keep) l d = (Ok tt, d') ∧
    represents d' loc (mkReport root summary order m') ∧
    ∀ id, m' !! id = if decide (id ∈ rb_id <$> l ∧ id ∉ keep) then None else m !! id.
Proof.
  revert d m. induction l as [|b l IH]; intros d m Hrep Hnd Hin.
  - exists d, m. split_and!; [done|done|]. intros id. rewrite decide_False; [done|]. intros [?%elem_of_nil _]. done.
  - rewrite fmap_cons in Hnd. apply NoDup_cons in Hnd as [Hb Hnd]. cbn [each].
    assert (∃ d1 m1, delete_vanished (loc SBlocks) keep b d = (Ok tt, d1) ∧
              represents d1 loc (mkReport root summary order m1) ∧
              ∀ id, m1 !! id = if decide (id = rb_id b ∧ id ∉ keep) then None else m !! id) as (d1 & m1 & Hd1 & Hr1 & Hm1).
    { unfold delete_vanished. case_bool_decide as Hk.
      - exists d, m. split_and!; [done|done|]. intros id. rewrite decide_False; [done|]. by intros [-> ?].
      - destruct (delete_block_rep d loc _ (rb_id b) (lit "delete vanished block entry") Hrep) as (d1 & Hd1 & Hr1); [apply Hin; left|].
        exists d1, (delete (rb_id b) m). split_and!; [done|done|]. intros id. destruct (decide (id = rb_id b)) as [->|Hne].
        + by rewrite lookup_delete_eq, decide_True.
        + by rewrite lookup_delete_ne, decide_False by (done || by intros []). }
    rewrite (bind_ok _ _ d tt d1) by done.
    destruct (IH d1 m1 Hr1 Hnd) as (d' & m' & Hd' & Hr' & Hm').
    { intros c Hc. rewrite Hm1, decide_False; [apply Hin; by right|]. intros [Heq _].
      apply Hb. rewrite <-Heq. by apply list_elem_of_fmap_2. }
    exists d', m'. split_and!; [done|done|]. intros id. rewrite Hm', Hm1, fmap_cons.
    repeat case_decide; rewrite ?elem_of_cons in *; tauto || done.
Qed.

Lemma lookup_by_id (l : list ReportBlock) b : NoDup (rb_id <$> l) → b ∈ l → by_id l !! rb_id b = Some b.
Proof.
  unfold by_id. intros Hnd Hb. revert Hb. assert (∀ m : gmap str ReportBlock, b ∈ l ∨ (m !! rb_id b = Some b ∧ rb_id b ∉ rb_id <$> l) →
    (foldl (λ m block, <[rb_id block := block]> m) m l) !! rb_id b = Some b) as H; [|by eauto].
  induction l as [|c l IH]; intros m; [intros [?%elem_of_nil|[? _]]; done|].
  rewrite fmap_cons in Hnd |- *. apply NoDup_cons in Hnd as [Hc Hnd]. cbn [foldl]. intros [Hb|[Hm Hb]]; apply IH; try done.
  - apply elem_of_cons in Hb as [->|Hb]; [right|by left]. split; [apply lookup_insert_eq|done].
  - right. apply not_elem_of_cons in Hb as [Hne Hb]. split; [by rewrite lookup_insert_ne|done].
Qed.

Lemma lookup_by_id_None (l : list ReportBlock) id : id ∉ rb_id <$> l → by_id l !! id = None.
Proof.
  unfold by_id. assert (∀ m : gmap str ReportBlock, id ∉ rb_id <$> l → m !! id = None →
    foldl (λ m block, <[rb_id block := block]> m) m l !! id = None) as H; [|by eauto using lookup_empty].
  induction l as [|c l IH]; intros m Hid Hm; [done|]. rewrite fmap_cons in Hid. apply not_elem_of_cons in Hid as [Hne Hid].
  cbn [foldl]. apply IH; [done|]. by rewrite lookup_insert_ne.
Qed.

Lemma when_false (m : doc_op unit) d : when false m d = (Ok tt, d).
Proof. done. Qed.

Lemma insert_idem_blocks (r : Report ObjId) id b : rp_blocks r !! id = Some b → with_blocks r (<[id := b]> (rp_blocks r)) = r.
Proof. intros H. unfold with_blocks. rewrite insert_id by done. by destruct r. Qed.

(** One aligned block: whatever was stored under its id, its entry is written. *)
Lemma write_aligned_ok d loc (root : gmap str (AmValue ObjId)) (summary : str) (order : list str) (m : gmap str BlockEntry) current block :
  represents d loc (mkReport root summary order m) → NoDup (rb_id <$> current) →
  (∀ old, old ∈ current → rb_id old = rb_id block → m !! rb_id block = Some (entry_of old)) →
  (rb_id block ∉ rb_id <$> current → m !! rb_id block = None) →
  ∃ d' loc', write_aligned (loc SBlocks) (by_id current) block d = (Ok tt, d') ∧
    represents d' loc' (mkReport root summary order (<[rb_id block := entry_of block]> m)) ∧
    loc' SBlocks = loc SBlocks.
Proof.
  intros Hrep Hnd Hold Hnew. unfold write_aligned. set (id := rb_id block) in *.
  destruct (decide (id ∈ rb_id <$> current)) as [Hin|Hin].
  - apply list_elem_of_fmap in Hin as (old & Hid & Hin). specialize (Hold old Hin (eq_sym Hid)).
    rewrite Hid, (lookup_by_id current old) by done. rewrite <-Hid.
    rewrite (bind_ok _ _ d (Some (loc (SEntry id))) d).
    2:{ unfold reading. rewrite (entry_at_rep d loc _ Hrep). cbn [rp_blocks]. by rewrite Hold. }
    rewrite (bind_ok _ _ d (loc (SEntry id)) d) by done.
    (* the kind *)
    assert (∃ d1, when (bool_decide (rb_kind old ≠ rb_kind block))
                (writing (lit "put block kind") (am_put (loc (SEntry id)) KEY_KIND (VStr (rb_kind block)))) d = (Ok tt, d1) ∧
              represents d1 loc (mkReport root summary order (<[id := mkBlockEntry (rb_kind block) (rb_rev old) (flat_text old)]> m)))
      as (d1 & Hd1 & Hr1).
    { destruct (bool_decide_reflect (rb_kind old ≠ rb_kind block)) as [Hk|Hk%dec_stable]; [exact (put_kind_rep d loc _ id (entry_of old) (rb_kind block) _ Hrep Hold)|].
      exists d. split; [done|].
      assert (mkBlockEntry (rb_kind block) (rb_rev old) (flat_text old) = entry_of old) as -> by (by rewrite <-Hk).
      by rewrite insert_id. }
    rewrite (bind_ok _ _ d tt d1) by done.
    (* the revision *)
    assert (∃ d2, when (bool_decide (rb_rev old ≠ rb_rev block))
                (writing (lit "put block rev") (am_put (loc (SEntry id)) KEY_REV (VUint (rb_rev block)))) d1 = (Ok tt, d2) ∧
              represents d2 loc (mkReport root summary order (<[id := mkBlockEntry (rb_kind block) (rb_rev block) (flat_text old)]> m)))
      as (d2 & Hd2 & Hr2).
    { destruct (bool_decide_reflect (rb_rev old ≠ rb_rev block)) as [Hk|Hk%dec_stable].
      - destruct (put_rev_rep d1 loc _ id (mkBlockEntry (rb_kind block) (rb_rev old) (flat_text old)) (rb_rev block) (lit "put block rev") Hr1)
          as (d2 & Hd2 & Hr2); [apply lookup_insert_eq|].
        exists d2. split; [exact Hd2|].
        rewrite <-(insert_insert_eq m id _ (mkBlockEntry (rb_kind block) (rb_rev old) (flat_text old))). exact Hr2.
      - exists d1. split; [done|]. by rewrite <-Hk. }
    rewrite (bind_ok _ _ d1 tt d2) by done.
    (* the text *)
    destruct (bool_decide_reflect (flat_text old ≠ flat_text block)) as [Ht|Ht%dec_stable].
    + cbn [when]. rewrite (bind_ok _ _ d2 (Some (loc (SText id))) d2).
      2:{ unfold reading, typed_at. rewrite (entry_get d2 loc _ Hr2 id (mkBlockEntry (rb_kind block) (rb_rev block) (flat_text old)))
            by apply lookup_insert_eq.
          by rewrite entry_map_text. }
      rewrite (bind_ok _ _ d2 (loc (SText id)) d2) by done.
      destruct (replace_text_rep d2 loc _ id (mkBlockEntry (rb_kind block) (rb_rev block) (flat_text old)) (flat_text block) Hr2)
        as (d3 & t & Hd3 & Hr3); [apply lookup_insert_eq|].
      exists d3. eexists. rewrite Hd3. split; [done|]. split; [|by apply relocate_other].
      rewrite <-(insert_insert_eq m id _ (mkBlockEntry (rb_kind block) (rb_rev block) (flat_text old))). exact Hr3.
    + exists d2, loc. split; [done|]. split; [|done].
      assert (entry_of block = mkBlockEntry (rb_kind block) (rb_rev block) (flat_text old)) as -> by (unfold entry_of; by rewrite Ht).
      done.
  - rewrite lookup_by_id_None by done.
    destruct (insert_block_entry_rep d loc _ id (entry_of block) Hrep) as (d' & e & t & Hd' & Hr'); [by apply Hnew|].
    exists d'. eexists. split; [exact Hd'|]. split; [exact Hr'|]. by apply relocate_other.
Qed.

Lemma write_aligned_loop d loc (root : gmap str (AmValue ObjId)) (summary : str) (order : list str) (m : gmap str BlockEntry) current aligned :
  represents d loc (mkReport root summary order m) → NoDup (rb_id <$> current) → NoDup (rb_id <$> aligned) →
  (∀ b, b ∈ aligned → (∀ old, old ∈ current → rb_id old = rb_id b → m !! rb_id b = Some (entry_of old)) ∧
                      (rb_id b ∉ rb_id <$> current → m !! rb_id b = None)) →
  ∃ d' loc' m', each (write_aligned (loc SBlocks) (by_id current)) aligned d = (Ok tt, d') ∧
    represents d' loc' (mkReport root summary order m') ∧ loc' SBlocks = loc SBlocks ∧
    ∀ id, m' !! id = match entries aligned !! id with Some e => Some e | None => m !! id end.
Proof.
  intros Hrep Hnd. revert d loc m Hrep. induction aligned as [|b aligned IH]; intros d loc m Hrep Hna Hm.
  - exists d, loc, m. done.
  - rewrite fmap_cons in Hna. apply NoDup_cons in Hna as [Hb Hna]. cbn [each].
    destruct (write_aligned_ok d loc root summary order m current b Hrep Hnd) as (d1 & loc1 & Hd1 & Hr1 & Hl1);
      [apply Hm; left|apply Hm; left|].
    rewrite (bind_ok _ _ d tt d1) by done. rewrite <-Hl1.
    destruct (IH d1 loc1 _ Hr1 Hna) as (d' & loc' & m' & Hd' & Hr' & Hl' & Hm').
    { intros c Hc. assert (rb_id b ≠ rb_id c) as Hne.
      { intros Heq. apply Hb. rewrite Heq. by apply list_elem_of_fmap_2. }
      rewrite lookup_insert_ne by done. apply Hm. by right. }
    exists d', loc', m'. split_and!; [done|done|done|]. intros id. rewrite Hm'. unfold entries. rewrite fmap_cons, list_to_map_cons.
    destruct (decide (id = rb_id b)) as [->|Hne].
    + rewrite !lookup_insert_eq. change (list_to_map _) with (entries aligned). by rewrite lookup_entries_None.
    + by rewrite !lookup_insert_ne.
Qed.

(** The document write of a whole rewrite: from one list of blocks to another. *)
Lemma apply_aligned_ok d root summary current aligned :
  holds_report d root summary current → well_formed aligned →
  ∃ d', apply_aligned_blocks current aligned d = (Ok tt, d') ∧ holds_report d' root summary aligned.
Proof.
  intros [Hwf (loc & Hrep)] Hwfa. unfold apply_aligned_blocks.
  rewrite (bind_ok _ _ d (loc SBlocks) d) by (unfold reading; by rewrite (live_blocks_rep d loc _ Hrep)).
  destruct (delete_vanished_loop d loc root summary (rb_id <$> current) (entries current) (list_to_set (rb_id <$> aligned)) current)
    as (d1 & m1 & Hd1 & Hr1 & Hm1); [done|apply Hwf| |].
  { intros b Hb. rewrite lookup_entries_block by (apply Hwf || done). eauto. }
  rewrite (bind_ok _ _ d tt d1) by done.
  destruct (write_aligned_loop d1 loc root summary (rb_id <$> current) m1 current aligned Hr1)
    as (d2 & loc2 & m2 & Hd2 & Hr2 & Hl2 & Hm2); [apply Hwf|apply Hwfa| |].
  { intros b Hb. assert (rb_id b ∈ rb_id <$> aligned) as Hin by (by apply list_elem_of_fmap_2).
    rewrite Hm1, decide_False by (intros [_ H]; apply H; by apply elem_of_list_to_set). split.
    - intros old Hold <-. apply lookup_entries_block; [apply Hwf|done].
    - apply lookup_entries_None. }
  rewrite (bind_ok _ _ d1 tt d2) by done.
  rewrite (bind_ok _ _ d2 (rb_id <$> current) d2) by (unfold reading; by rewrite (order_ids_rep d2 loc2 _ Hr2)).
  assert (m2 = entries aligned) as ->.
  { apply map_eq. intros id. rewrite Hm2. destruct (entries aligned !! id) as [e|] eqn:He; [done|].
    rewrite Hm1. case_decide as Hd; [done|]. 
    destruct (decide (id ∈ rb_id <$> current)) as [Hin|Hin]; [|by apply lookup_entries_None].
    exfalso. apply Hd. split; [done|]. intros Hk%elem_of_list_to_set%list_elem_of_fmap. destruct Hk as (b & -> & Hb).
    rewrite lookup_entries_block in He by (apply Hwfa || done). done. }
  case_bool_decide as Hsame.
  - exists d2. split; [done|]. split; [done|]. exists loc2. unfold report_of. by rewrite <-Hsame.
  - rewrite (bind_ok _ _ d2 (loc2 SOrder) d2) by (unfold reading; by rewrite (order_list_rep d2 loc2 _ Hr2)).
    destruct (clear_order_rep d2 loc2 _ Hr2) as (d3 & Hd3 & Hr3).
    rewrite (bind_ok _ _ d2 tt d3) by done.
    destruct (rebuild_order_rep d3 loc2 _ 0 (rb_id <$> aligned) Hr3) as (d4 & Hd4 & Hr4); [done|].
    exists d4. split; [done|]. split; [done|]. by exists loc2.
Qed.
End report.
