(* ===== verification/ReportRules.v ===== *)
(** * The report document refines the abstract report

    A track report is, abstractly, a summary and a list of blocks with distinct ids. On a
    document that [holds_report] one, a wholesale rewrite installs exactly the aligned
    blocks and the body it was given, a move, a deletion or an upsert acts on the list, and
    a refused operation changes nothing. *)

From stdpp Require Import prelude strings list gmap.
From S2P Require Import Prelude Text Slices Float64 Identity PluginSchema Blocks BlockRules MarkerRules FenceRules Align ReassignRules ReassignIds DocStore ReportDoc ReportDocRules.

Local Open Scope calm_scope.
#[local] Opaque mint_id.

(** ** Canonical slices *)
Section slices.
Context `{Serde : SerdeText}.

(** What the write guards check of a slice: a fence of a known data kind, whose payload
    [serde_json] reads back from its canonical text. *)
Definition readable (slice : str) : Prop :=
  match parse_fence slice with
  | Some f => npf_kind f ≠ KIND_PROSE ∧ json_from_str (canonical_json (npf_payload f)) = Some (npf_payload f)
  | None => True
  end.

Lemma neige_open_kind_valid line kind : neige_open_kind line = Some kind → valid_kind kind.
Proof.
  unfold neige_open_kind. destruct (strip_prefix _ line) as [k|]; [|done]. set (k' := without_suffix [13%N] _).
  destruct (negb (is_empty k') && forallb is_kind_byte k') eqn:Hk; [|done]. intros [= <-].
  apply andb_true_iff in Hk as [Hne Hk]. split; [by destruct k'|done].
Qed.

Lemma parse_fence_shape slice f :
  parse_fence slice = Some f → valid_kind (npf_kind f) ∧ json_is_object (npf_payload f) = true.
Proof.
  unfold parse_fence. destruct (split_once _ _) as [[first rest]|]; [|done].
  destruct (neige_open_kind first) as [kind|] eqn:Hk; [|done]. apply neige_open_kind_valid in Hk.
  destruct (default _ _) as [interior close]. case_bool_decide; [|done].
  destruct (json_from_str interior) as [payload|]; [|done]. destruct (json_is_object payload) eqn:Ho; [|done].
  by intros [= <-].
Qed.

Lemma stored_block_of slice id rev : scalar_clean → readable slice → stored (block_of slice id rev).
Proof.
  unfold readable, stored, block_of. intros Hsc. destruct (parse_fence slice) as [f|] eqn:Hf; cbn [rb_kind rb_payload].
  - intros [Hk Hj]. right. apply parse_fence_shape in Hf as [Hv Ho]. by split.
  - intros _. left. split; [done|]. by exists slice.
Qed.

Lemma flat_text_block_of slice id rev : readable slice → flat_text (block_of slice id rev) = canonical_text slice.
Proof.
  unfold readable, flat_text, block_of, canonical_text. destruct (parse_fence slice) as [f|]; cbn [rb_kind rb_payload]; [|done].
  intros [Hk _]. by rewrite bool_decide_eq_false_2.
Qed.

Lemma render_fence_ends_line kind payload : ends_line (render_fence kind payload).
Proof. eexists. unfold render_fence. by rewrite !app_assoc. Qed.

Lemma canonical_text_ends_line t : ends_line t → ends_line (canonical_text t).
Proof. unfold canonical_text. destruct (parse_fence t); [intros _; apply render_fence_ends_line|done]. Qed.

Lemma ends_with_line t : ends_line t → ends_with [newline] t = true.
Proof. intros [t' ->]. unfold ends_with. by rewrite (proj2 (strip_suffix_Some [newline] (t' ++ [newline]) t')). Qed.

(** Texts that end their lines are joined without a separator. *)
Lemma append_lined acc (texts : list str) :
  acc = [] ∨ ends_line acc → lined texts → foldl append_block_text acc texts = acc ++ concat texts.
Proof.
  revert acc. induction texts as [|t texts IH]; intros acc Hacc Hl; [by rewrite app_nil_r|].
  destruct Hl as [Ht Hl]. cbn [foldl concat].
  assert (append_block_text acc t = acc ++ t) as ->.
  { unfold append_block_text. destruct Hacc as [->|He]; [done|]. rewrite (ends_with_line acc) by done. by rewrite andb_false_r. }
  destruct texts as [|u texts]; [cbn; by rewrite app_nil_r|].
  rewrite IH; [by rewrite app_assoc| |done]. right. destruct (Ht ltac:(done)) as [t' ->]. exists (acc ++ t'). by rewrite app_assoc.
Qed.

Lemma lined_canonical (texts : list str) : lined texts → lined (canonical_text <$> texts).
Proof.
  induction texts as [|t texts IH]; [done|]. intros [Ht Hl]. rewrite fmap_cons. split; [|by apply IH].
  intros Hne. apply canonical_text_ends_line, Ht. by destruct texts.
Qed.
End slices.

Section report.
Context `{Laws : AutomergeLaws} `{Serde : SerdeText}.
Implicit Types (d : AutoCommit) (loc : Slot → ObjId).

(** ** A wholesale rewrite *)
Lemma rev_of_new : (1 < u32_modulus)%N.
Proof. done. Qed.

Lemma reused_rev_bound old text : (rb_rev old < u32_modulus)%N → (reused_rev old text < u32_modulus)%N.
Proof. unfold reused_rev, u32_saturating_succ, u32_modulus. case_bool_decide; lia. Qed.

Definition new_id (current : list ReportBlock) (reserved : gset str) (id : str) : Prop :=
  block_id id ∧ (id ∉ rb_id <$> current) ∧ id ∉ reserved.

Lemma reassign_Some_well_formed (current : list ReportBlock) (slices : list str) (hints : list (option str)) (reserved : gset str) bs :
  scalar_clean → Forall readable slices → Forall (λ b, rb_rev b < u32_modulus)%N current →
  reassign_ids_with_hints_reserving current slices hints reserved = Some bs →
  well_formed bs ∧ flat_text <$> bs = canonical_text <$> slices ∧
  ∀ b, b ∈ bs → rb_id b ∈ rb_id <$> current ∨ new_id current reserved (rb_id b).
Proof.
  intros Hsc Hread Hrev Hbs. destruct (reassign_Some current slices hints reserved bs Hbs) as (Hlen & Hnd & Hel).
  assert (∀ k b, bs !! k = Some b → ∃ slice id rev, slices !! k = Some slice ∧ readable slice ∧ b = block_of slice id rev ∧
    (rev < u32_modulus)%N ∧ (id ∈ rb_id <$> current ∨ new_id current reserved id)) as H.
  { intros k b Hb. destruct (lookup_lt_is_Some_2 slices k) as [slice Hs]; [rewrite <-Hlen; by eapply lookup_lt_Some|].
    pose proof (Forall_lookup_1 _ _ _ _ Hread Hs) as Hr. rewrite Forall_forall in Hrev.
    destruct (Hel k slice b Hs Hb) as [(old & Hold & ->)|(id & -> & ? & ? & ?)].
    - eexists slice, _, _. split_and!; [done|done|done| |left; by apply list_elem_of_fmap_2].
      apply reused_rev_bound, Hrev, Hold.
    - exists slice, id, 1%N. split_and!; [done|done|done|done|right; by split_and!]. }
  split_and!.
  - split; [done|apply Forall_lookup; intros k b Hb; destruct (H k b Hb) as (slice & id & rev & _ & Hr & -> & Hlt & _)..].
    + by apply stored_block_of.
    + unfold block_of. destruct (parse_fence slice); exact Hlt.
  - apply list_eq. intros k. rewrite !list_lookup_fmap. destruct (bs !! k) as [b|] eqn:Hb.
    + destruct (H k b Hb) as (slice & id & rev & -> & Hr & -> & _). simpl. by rewrite flat_text_block_of.
    + apply lookup_ge_None in Hb. by rewrite lookup_ge_None_2 by lia.
  - intros b [k Hb]%list_elem_of_lookup. destruct (H k b Hb) as (slice & id & rev & _ & _ & -> & _ & Hid).
    by rewrite rb_id_block_of.
Qed.

Lemma reassign_well_formed (current : list ReportBlock) (slices : list str) (hints : list (option str)) (reserved : gset str) :
  scalar_clean → Forall readable slices → Forall (λ b, rb_rev b < u32_modulus)%N current →
  length current + size reserved + length slices ≤ N.to_nat u16_modulus →
  ∃ bs, reassign_ids_with_hints_reserving current slices hints reserved = Some bs ∧ well_formed bs ∧
        flat_text <$> bs = canonical_text <$> slices ∧
        ∀ b, b ∈ bs → rb_id b ∈ rb_id <$> current ∨ new_id current reserved (rb_id b).
Proof.
  intros Hsc Hread Hrev Hroom. destruct (reassign_emit current slices hints reserved Hroom) as (a & bs & _ & Hbs & _).
  exists bs. split; [done|]. by eapply reassign_Some_well_formed.
Qed.

Lemma reading_ok {A} (f : AutoCommit → result A str) d a : f d = Ok a → reading f d = (Ok a, d).
Proof. intros H. unfold reading. by rewrite H. Qed.

Lemma set_summary_ok d root s s' blocks :
  holds_report d root s blocks → ∃ d', set_summary s' d = (Ok tt, d') ∧ holds_report d' root s' blocks.
Proof.
  intros [Hwf (loc & Hrep)]. destruct (set_summary_rep d loc _ s' Hrep) as (d' & Hd' & Hr').
  exists d'. split; [done|]. split; [done|]. by exists loc.
Qed.

Lemma snapshot_ok d root s blocks : holds_report d root s blocks → blocks_snapshot d = Ok blocks.
Proof. intros [Hwf (loc & Hrep)]. by eapply blocks_snapshot_ok. Qed.

Lemma holds_wf d root s blocks : holds_report d root s blocks → well_formed blocks.
Proof. by intros [? _]. Qed.

Definition canonical_body (body : str) : str := concat (canonical_text <$> split_body body).

(** C8: rewriting a report with a summary and a body succeeds and installs them: the document then
    holds exactly the aligned blocks, and reads back as the new summary and the body with its
    fences in canonical form. *)
Theorem update_installs d root s blocks s' body :
  scalar_clean → holds_report d root s blocks → Forall readable (split_body body) →
  length blocks + length (split_body body) ≤ N.to_nat u16_modulus →
  ∃ aligned d', reassign_ids blocks (split_body body) = Some aligned ∧ update s' body d = (Ok tt, d') ∧
    holds_report d' root s' aligned ∧ blocks_snapshot d' = Ok aligned ∧ project d' = Ok (s', canonical_body body).
Proof.
  intros Hsc Hholds Hread Hroom.
  destruct (set_summary_ok d root s s' blocks Hholds) as (d1 & Hd1 & Hh1).
  destruct (reassign_well_formed blocks (split_body body) [] ∅) as (aligned & Ha & Hwf & Hflat & _);
    [done|done|apply (wf_rev _ (holds_wf _ _ _ _ Hholds))|rewrite size_empty; lia|].
  destruct (apply_aligned_ok d1 root s' blocks aligned Hh1 Hwf) as (d2 & Hd2 & Hh2).
  exists aligned, d2. split_and!; [exact Ha| |exact Hh2|by eapply snapshot_ok|].
  - unfold update. rewrite (bind_ok _ _ d tt d1) by done.
    rewrite (bind_ok _ _ d1 blocks d1) by (by eapply reading_ok, snapshot_ok).
    rewrite (bind_ok _ _ d1 aligned d1); [done|]. unfold minted, reassign_ids, reassign_ids_with_hints. by rewrite Ha.
  - destruct Hh2 as [_ (loc & Hrep)]. rewrite (project_ok _ _ _ _ _ Hrep Hwf), Hflat.
    do 2 f_equal. apply (append_lined []); [by left|]. apply lined_canonical, split_body_lined.
Qed.

(** ** Block operations *)
Inductive BlockOp :=
| OpUpsert (id : option str) (block : ReportBlock)
| OpMove (id : str) (to_index : nat)
| OpDelete (id : str).

(** [block] carries the kind and the payload; its fence or Markdown is the content written. *)
Definition run_op (op : BlockOp) : doc_op (option (str * N)) :=
  match op with
  | OpUpsert id block => bind (upsert_block id (rb_kind block) (flat_text block)) (λ r, ret (Some r))
  | OpMove id to_index => bind (move_block id to_index) (λ _, ret None)
  | OpDelete id => bind (delete_block id) (λ _, ret None)
  end.

(** What it does to the list: [None] when the operation is refused. *)
Definition spec_op (blocks : list ReportBlock) (op : BlockOp) : option (list ReportBlock * option (str * N)) :=
  match op with
  | OpUpsert (Some id) block =>
      '(i, old) ← list_find (λ b, rb_id b = id) blocks;
      if bool_decide (rb_kind old = rb_kind block ∧ flat_text old = flat_text block)
      then Some (blocks, Some (id, rb_rev old))
      else let rev := u32_saturating_succ (rb_rev old) in
           Some (<[i := mkReportBlock id (rb_kind block) rev (rb_payload block)]> blocks, Some (id, rev))
  | OpUpsert None block =>
      '(id, _) ← mint_id (flat_text block) (length blocks) (list_to_set (rb_id <$> blocks));
      Some (blocks ++ [mkReportBlock id (rb_kind block) 1 (rb_payload block)], Some (id, 1%N))
  | OpMove id to_index =>
      '(i, b) ← list_find (λ b, rb_id b = id) blocks;
      if bool_decide (to_index < length blocks)
      then Some (take to_index (delete i blocks) ++ b :: drop to_index (delete i blocks), None) else None
  | OpDelete id => '(i, _) ← list_find (λ b, rb_id b = id) blocks; Some (delete i blocks, None)
  end.

(** The content of an upsert is that of a block: prose without a fence, or a canonical fence. *)
Definition op_ok (op : BlockOp) : Prop := match op with OpUpsert _ block => stored block | _ => True end.

Lemma move_same {A} i (l : list A) b : l !! i = Some b → take i (delete i l) ++ b :: drop i (delete i l) = l.
Proof.
  revert i. induction l as [|x l IH]; intros [|i] Hi; simplify_eq/=; [done..|]. by rewrite IH.
Qed.

Lemma position_ids id (blocks : list ReportBlock) :
  position id (rb_id <$> blocks) = fst <$> list_find (λ b, rb_id b = id) blocks.
Proof. unfold position. rewrite list_find_fmap. by destruct (list_find _ blocks) as [[??]|]. Qed.

Lemma find_id_Some id (blocks : list ReportBlock) i b :
  list_find (λ b, rb_id b = id) blocks = Some (i, b) → blocks !! i = Some b ∧ rb_id b = id ∧ i < length blocks.
Proof. intros (Hi & Hb & _)%list_find_Some. split_and!; [done|done|by eapply lookup_lt_Some]. Qed.

Lemma find_id_None id (blocks : list ReportBlock) :
  list_find (λ b, rb_id b = id) blocks = None → id ∉ rb_id <$> blocks.
Proof. intros H%list_find_None. rewrite Forall_forall in H. intros (b & -> & Hb)%list_elem_of_fmap. by apply (H b). Qed.

Lemma well_formed_perm (blocks blocks' : list ReportBlock) : blocks ≡ₚ blocks' → well_formed blocks → well_formed blocks'.
Proof. intros Hp [Hn Hs Hr]. split; [by rewrite <-Hp|by rewrite <-Hp|by rewrite <-Hp]. Qed.

Lemma entries_perm (blocks blocks' : list ReportBlock) :
  blocks ≡ₚ blocks' → NoDup (rb_id <$> blocks) → entries blocks = entries blocks'.
Proof. intros Hp Hn. unfold entries. apply list_to_map_proper; [by rewrite entries_keys|by rewrite Hp]. Qed.

Lemma entries_insert blocks i b old :
  NoDup (rb_id <$> blocks) → blocks !! i = Some old → rb_id old = rb_id b →
  entries (<[i := b]> blocks) = <[rb_id b := entry_of b]> (entries blocks).
Proof.
  intros Hn Hi Hid. assert (rb_id <$> <[i := b]> blocks = rb_id <$> blocks) as Hids.
  { rewrite list_fmap_insert. apply list_insert_id. rewrite list_lookup_fmap, Hi. simpl. by rewrite Hid. }
  apply map_eq. intros k. apply option_eq. intros e. rewrite lookup_entries by (by rewrite Hids).
  destruct (decide (k = rb_id b)) as [->|Hne].
  - rewrite lookup_insert_eq. split.
    + intros (c & [j Hj]%list_elem_of_lookup & Hc & ->). f_equal.
      assert (i = j) as <-; [|rewrite list_lookup_insert_eq in Hj by (by eapply lookup_lt_Some); by simplify_eq].
      eapply (NoDup_lookup (rb_id <$> <[i:=b]> blocks)); [by rewrite Hids|by rewrite Hids, list_lookup_fmap, Hi|].
      rewrite list_lookup_fmap, Hj. simpl. by rewrite Hc, Hid.
    + intros [= <-]. exists b. split_and!; [|done|done]. apply list_elem_of_lookup. exists i.
      apply list_lookup_insert_eq. by eapply lookup_lt_Some.
  - rewrite lookup_insert_ne, lookup_entries by done. split; intros (c & [j Hj]%list_elem_of_lookup & Hc & ->);
      exists c; (split_and!; [|done|done]); apply list_elem_of_lookup; exists j.
    + destruct (decide (i = j)) as [<-|Hij]; [|by rewrite list_lookup_insert_ne in Hj].
      rewrite list_lookup_insert_eq in Hj by (by eapply lookup_lt_Some). simplify_eq.
    + rewrite list_lookup_insert_ne; [done|]. intros <-. simplify_eq.
Qed.

Lemma entries_delete blocks i b :
  NoDup (rb_id <$> blocks) → blocks !! i = Some b → entries (delete i blocks) = delete (rb_id b) (entries blocks).
Proof.
  intros Hn Hi. pose proof (delete_Permutation blocks i b Hi) as Hp.
  rewrite (entries_perm blocks (b :: delete i blocks)) by done. unfold entries. rewrite fmap_cons, list_to_map_cons.
  rewrite delete_insert_eq, delete_id; [done|]. apply not_elem_of_list_to_map_1. rewrite entries_keys.
  rewrite Hp, fmap_cons, NoDup_cons in Hn. tauto.
Qed.

Lemma report_holds d loc root s blocks :
  well_formed blocks → represents d loc (report_of root s blocks) → holds_report d root s blocks.
Proof. intros Hwf Hr. split; [done|]. by exists loc. Qed.

(** An operation that was refused: an error, and the document as it was. *)
Definition refused {A} (m : doc_op A) d : Prop := ∃ e, m d = (Err e, d).

Lemma refused_bind {A B} (m : doc_op A) (k : A → doc_op B) d a d' :
  m d = (Ok a, d') → d' = d → refused (k a) d → refused (bind m k) d.
Proof. intros Hm -> [e He]. exists e. by rewrite (bind_ok _ _ d a d). Qed.

Lemma refused_here {A B} (m : doc_op A) (k : A → doc_op B) d : refused m d → refused (bind m k) d.
Proof. intros [e He]. exists e. unfold bind. by rewrite He. Qed.

Section ops.
Context d loc (root : gmap str (AmValue ObjId)) (s : str) (blocks : list ReportBlock)
  (Hrep : represents d loc (report_of root s blocks)) (Hwf : well_formed blocks).

Lemma read_order_list : reading order_list d = (Ok (loc SOrder), d).
Proof. apply reading_ok. exact (order_list_rep d loc _ Hrep). Qed.

Lemma read_order_ids : reading order_ids d = (Ok (rb_id <$> blocks), d).
Proof. apply reading_ok. exact (order_ids_rep d loc _ Hrep). Qed.

Lemma read_live_blocks : reading live_blocks d = (Ok (loc SBlocks), d).
Proof. apply reading_ok. exact (live_blocks_rep d loc _ Hrep). Qed.

Lemma find_length id i b : list_find (λ b, rb_id b = id) blocks = Some (i, b) → i < length (rb_id <$> blocks).
Proof. intros (_ & _ & ?)%find_id_Some. by rewrite length_fmap. Qed.

Lemma move_block_ok id to_index :
  match spec_op blocks (OpMove id to_index) with
  | Some (blocks', _) => ∃ d', move_block id to_index d = (Ok tt, d') ∧ holds_report d' root s blocks'
  | None => refused (move_block id to_index) d
  end.
Proof.
  unfold spec_op, move_block. destruct (list_find _ blocks) as [[i b]|] eqn:Hf; cbn [mbind option_bind].
  - pose proof (find_length _ _ _ Hf) as Hlt. destruct (find_id_Some _ _ _ _ Hf) as (Hi & Hb & _).
    assert (blocks ≡ₚ take to_index (delete i blocks) ++ b :: drop to_index (delete i blocks)) as Hp.
    { by rewrite <-Permutation_middle, take_drop, <-delete_Permutation. }
    destruct (bool_decide_reflect (to_index < length blocks)) as [Hto|Hto].
    2:{ eapply refused_bind; [apply read_order_list|done|]. eapply refused_bind; [apply read_order_ids|done|].
        eapply (refused_bind _ _ d i); [by rewrite position_ids, Hf|done|].
        rewrite bool_decide_eq_false_2 by (by rewrite length_fmap). by eexists. }
    rewrite (bind_ok _ _ d _ d read_order_list), (bind_ok _ _ d _ d read_order_ids).
    rewrite (bind_ok _ _ d i d) by (by rewrite position_ids, Hf).
    rewrite (bool_decide_eq_true_2 (to_index < length (rb_id <$> blocks))) by (by rewrite length_fmap).
    destruct (bool_decide_reflect (i = to_index)) as [<-|Hne].
    + exists d. split; [done|]. apply (report_holds d loc); [by apply (well_formed_perm _ _ Hp)|].
      by rewrite move_same.
    + destruct (delete_at_rep d loc _ i (lit "remove from order") Hrep) as (d1 & Hd1 & Hr1); [done|].
      rewrite (bind_ok _ _ d tt d1) by done.
      destruct (insert_at_rep d1 loc _ to_index id (lit "re-insert into order") Hr1) as (d2 & Hd2 & Hr2).
      { cbn [rp_order with_order report_of]. rewrite length_delete by (rewrite list_lookup_fmap, Hi; eauto).
        rewrite length_fmap. lia. }
      exists d2. split; [done|]. apply (report_holds d2 loc); [by apply (well_formed_perm _ _ Hp)|].
      cbn [rp_order with_order report_of] in Hr2. unfold report_of. rewrite <-(entries_perm blocks) by (done || apply Hwf).
      rewrite fmap_app, fmap_cons, Hb, fmap_take, fmap_drop, list_fmap_delete. exact Hr2.
  - eapply refused_bind; [apply read_order_list|done|]. eapply refused_bind; [apply read_order_ids|done|].
    eexists. unfold bind at 1. by rewrite position_ids, Hf.
Qed.

Lemma delete_block_ok id :
  match spec_op blocks (OpDelete id) with
  | Some (blocks', _) => ∃ d', delete_block id d = (Ok tt, d') ∧ holds_report d' root s blocks'
  | None => refused (delete_block id) d
  end.
Proof.
  unfold spec_op, delete_block. destruct (list_find _ blocks) as [[i b]|] eqn:Hf; cbn [mbind option_bind].
  - pose proof (find_length _ _ _ Hf) as Hlt. destruct (find_id_Some _ _ _ _ Hf) as (Hi & Hb & _).
    rewrite (bind_ok _ _ d _ d read_live_blocks), (bind_ok _ _ d _ d read_order_list), (bind_ok _ _ d _ d read_order_ids).
    rewrite (bind_ok _ _ d i d) by (by rewrite position_ids, Hf).
    destruct (delete_at_rep d loc _ i (lit "remove from order") Hrep) as (d1 & Hd1 & Hr1); [done|].
    rewrite (bind_ok _ _ d tt d1) by done.
    destruct (delete_block_rep d1 loc _ id (lit "remove block entry") Hr1) as (d2 & Hd2 & Hr2).
    { cbn [rp_blocks with_order report_of]. rewrite <-Hb, lookup_entries_block; [eauto|apply Hwf|by eapply list_elem_of_lookup_2]. }
    exists d2. split; [done|]. apply (report_holds d2 loc).
    + destruct Hwf as [Hn Hs Hr]. split; [rewrite list_fmap_delete; by eapply sublist_NoDup, sublist_delete|by apply Forall_delete..].
    + unfold report_of. rewrite (entries_delete blocks i b), list_fmap_delete, Hb by (done || apply Hwf). exact Hr2.
  - eapply refused_bind; [apply read_live_blocks|done|]. eapply refused_bind; [apply read_order_list|done|].
    eapply refused_bind; [apply read_order_ids|done|]. eexists. unfold bind at 1. by rewrite position_ids, Hf.
Qed.

Lemma check_content_stored b : stored b → check_content (rb_kind b) (flat_text b) = Ok tt.
Proof.
  unfold stored, check_content, flat_text. intros [(-> & _)|(Hk & [_ Hv Ho Hj])]; [by rewrite bool_decide_eq_true_2|].
  rewrite !bool_decide_eq_false_2 by done. rewrite parse_render by done. by rewrite bool_decide_eq_true_2.
Qed.

Lemma find_entry id i b : list_find (λ b, rb_id b = id) blocks = Some (i, b) → entries blocks !! id = Some (entry_of b).
Proof.
  intros (Hi & <- & _)%find_id_Some. apply lookup_entries_block; [apply Hwf|]. by eapply list_elem_of_lookup_2.
Qed.

Lemma upsert_target_ok id i old :
  list_find (λ b, rb_id b = id) blocks = Some (i, old) →
  upsert_target d (loc SBlocks) id = Ok (loc (SEntry id), rb_rev old, Some (rb_kind old), flat_text old).
Proof.
  intros Hf. pose proof (find_entry _ _ _ Hf) as He. destruct (find_id_Some _ _ _ _ Hf) as (Hi & _ & _).
  unfold upsert_target, typed_at. rewrite (entry_at_rep d loc _ Hrep). cbn [rp_blocks report_of]. rewrite He.
  cbn [fmap option_fmap option_map result_bind some_or].
  rewrite !(entry_get d loc _ Hrep _ (entry_of old)) by done. rewrite entry_map_kind, entry_map_rev, entry_map_text.
  cbn [some_or result_bind]. unfold rev_of. cbn [mbind option_bind value_u64 value_str some_or result_bind be_rev be_kind entry_of].
  rewrite (proj2 (N.ltb_lt _ _) (Forall_lookup_1 _ _ _ _ (wf_rev _ Hwf) Hi)). cbn [result_bind some_or].
  rewrite bool_decide_eq_true_2 by done. cbn [result_bind some_or].
  rewrite (law_text d (loc (SText id)) (flat_text old)); [done|]. apply (rs_node _ _ _ Hrep). cbn. by rewrite He.
Qed.

Lemma saturating_bound n : (n < u32_modulus)%N → (u32_saturating_succ n < u32_modulus)%N.
Proof. unfold u32_saturating_succ, u32_modulus. lia. Qed.

Lemma upsert_existing_ok id block i old :
  stored block → list_find (λ b, rb_id b = id) blocks = Some (i, old) →
  let same := bool_decide (rb_kind old = rb_kind block ∧ flat_text old = flat_text block) in
  let rev := if same then rb_rev old else u32_saturating_succ (rb_rev old) in
  let blocks' := if same then blocks else <[i := mkReportBlock id (rb_kind block) rev (rb_payload block)]> blocks in
  ∃ d', upsert_existing (loc SBlocks) id (rb_kind block) (flat_text block) d = (Ok (id, rev), d') ∧ holds_report d' root s blocks'.
Proof.
  intros Hst Hf. pose proof (find_entry _ _ _ Hf) as He. destruct (find_id_Some _ _ _ _ Hf) as (Hi & Hid & _).
  unfold upsert_existing. rewrite (bind_ok _ _ d _ d (reading_ok _ _ _ (upsert_target_ok _ _ _ Hf))).
  rewrite !bool_decide_and. cbn zeta.
  replace (bool_decide (Some (rb_kind old) = Some (rb_kind block))) with (bool_decide (rb_kind old = rb_kind block))
    by (apply bool_decide_ext; split; [by intros ->|by intros [= ->]]).
  destruct (bool_decide _ && bool_decide _) eqn:Hsame; [exists d; split; [done|by apply (report_holds d loc)]|].
  set (rev := u32_saturating_succ (rb_rev old)). set (new := mkReportBlock id (rb_kind block) rev (rb_payload block)).
  destruct (put_kind_rep d loc _ id (entry_of old) (rb_kind block) (lit "put kind") Hrep He) as (d1 & Hd1 & Hr1).
  rewrite (bind_ok _ _ d tt d1) by done.
  destruct (put_rev_rep d1 loc _ id (mkBlockEntry (rb_kind block) (rb_rev old) (flat_text old)) rev (lit "put rev") Hr1) as (d2 & Hd2 & Hr2); [apply lookup_insert_eq|].
  rewrite (bind_ok _ _ d1 tt d2) by done.
  destruct (replace_text_rep d2 loc _ id (mkBlockEntry (rb_kind block) rev (flat_text old)) (flat_text block) Hr2) as (d3 & t & Hd3 & Hr3); [apply lookup_insert_eq|].
  rewrite (bind_ok _ _ d2 tt d3) by (by rewrite Hd3).
  exists d3. split; [done|]. eapply (report_holds d3).
  - destruct Hwf as [Hn Hs Hr]. split.
    + rewrite list_fmap_insert, list_insert_id; [done|]. rewrite list_lookup_fmap, Hi. simpl. by rewrite Hid.
    + apply Forall_insert; [done|exact Hst].
    + apply Forall_insert; [done|]. apply saturating_bound. exact (Forall_lookup_1 _ _ _ _ Hr Hi).
  - unfold report_of. rewrite (entries_insert blocks i new old) by (done || apply Hwf).
    rewrite list_fmap_insert, list_insert_id by (rewrite list_lookup_fmap, Hi; simpl; by rewrite Hid).
    cbn [with_blocks rp_blocks rp_root rp_summary rp_order report_of] in Hr3. rewrite !insert_insert_eq in Hr3. exact Hr3.
Qed.

Lemma upsert_new_ok block :
  stored block →
  match spec_op blocks (OpUpsert None block) with
  | Some (blocks', _) =>
      ∃ d' id, upsert_new (loc SBlocks) (rb_kind block) (flat_text block) d = (Ok (id, 1%N), d') ∧ holds_report d' root s blocks' ∧
               mint_id (flat_text block) (length blocks) (list_to_set (rb_id <$> blocks)) ≫= (λ p, Some p.1) = Some id
  | None => refused (upsert_new (loc SBlocks) (rb_kind block) (flat_text block)) d
  end.
Proof.
  intros Hst. unfold spec_op, upsert_new.
  assert (∀ T (k : gset str * nat → doc_op T), bind (reading (λ d, Ok (list_to_set (am_keys d (loc SBlocks)) : gset str, am_length d (loc SOrder)))) k d
    = k (list_to_set (rb_id <$> blocks), length blocks) d) as Hread.
  { intros T k. unfold bind, reading. f_equal. f_equal.
    - apply leibniz_equiv. rewrite (keys_rep d loc _ Hrep). cbn [rp_blocks report_of]. intros id.
      rewrite !elem_of_list_to_set. unfold entries.
      rewrite map_to_list_to_map by (rewrite entries_keys; apply Hwf). by rewrite entries_keys.
    - rewrite (law_length d _ (VStr <$> (rb_id <$> blocks))) by (exact (rs_node _ _ _ Hrep SOrder _ eq_refl)). by rewrite !length_fmap. }
  destruct (mint_id _ _ _) as [[id used]|] eqn:Hm; cbn [mbind option_bind].
  - rewrite (bind_ok _ _ d _ d read_order_list), Hread, Hm.
    apply mint_id_Some in Hm as (Hid & _ & _). rewrite elem_of_list_to_set in Hid.
    set (new := mkReportBlock id (rb_kind block) 1 (rb_payload block)).
    destruct (insert_block_entry_rep d loc _ id (entry_of new) Hrep) as (d1 & e & t & Hd1 & Hr1); [by apply lookup_entries_None|].
    rewrite (bind_ok _ _ d tt d1) by exact Hd1.
    destruct (insert_at_rep d1 _ _ (length blocks) id (lit "append block id to order") Hr1) as (d2 & Hd2 & Hr2);
      [cbn; by rewrite length_fmap|].
    rewrite relocate_other in Hd2 by done. rewrite (bind_ok _ _ d1 tt d2) by done.
    exists d2, id. split_and!; [done| |done]. eapply (report_holds d2).
    + destruct Hwf as [Hn Hs Hr]. split.
      * rewrite fmap_app. apply NoDup_app. split_and!; [done| |apply NoDup_singleton].
        intros x Hx Heq%list_elem_of_singleton. by subst.
      * apply Forall_app. split; [done|]. by apply Forall_singleton.
      * apply Forall_app. split; [done|]. by apply Forall_singleton.
    + cbn [with_order with_blocks rp_order rp_blocks rp_root rp_summary report_of] in Hr2.
      rewrite take_ge, drop_ge in Hr2 by (by rewrite length_fmap). unfold report_of.
      rewrite fmap_app, (entries_perm _ (new :: blocks)).
      * exact Hr2.
      * by rewrite Permutation_app_comm.
      * rewrite fmap_app. apply NoDup_app. split_and!; [apply Hwf| |apply NoDup_singleton].
        intros x Hx Heq%list_elem_of_singleton. by subst.
  - eapply refused_bind; [apply read_order_list|done|]. unfold refused. rewrite Hread, Hm. by eexists.
Qed.
End ops.

Lemma upsert_read d loc root s blocks id block :
  represents d loc (report_of root s blocks) → stored block →
  upsert_block id (rb_kind block) (flat_text block) d =
  match id with
  | Some id => upsert_existing (loc SBlocks) id (rb_kind block) (flat_text block) d
  | None => upsert_new (loc SBlocks) (rb_kind block) (flat_text block) d
  end.
Proof.
  intros Hrep Hst. unfold upsert_block. rewrite (bind_ok _ _ d tt d) by (by rewrite check_content_stored).
  rewrite (bind_ok _ _ d _ d (read_live_blocks d loc root s blocks Hrep)). by destruct id.
Qed.

Lemma block_op_step d root s blocks op :
  holds_report d root s blocks → op_ok op →
  match spec_op blocks op with
  | Some (blocks', r) => ∃ d', run_op op d = (Ok r, d') ∧ holds_report d' root s blocks'
  | None => refused (run_op op) d
  end.
Proof.
  intros [Hwf (loc & Hrep)] Hok. destruct op as [[id|] block|id to_index|id]; cbn [run_op op_ok] in *.
  - cbn [spec_op]. destruct (list_find _ blocks) as [[i old]|] eqn:Hf; cbn [mbind option_bind].
    + destruct (upsert_existing_ok d loc root s blocks Hrep Hwf id block i old Hok Hf) as (d' & Hd' & Hh').
      cbn zeta in *. destruct (bool_decide _); exists d'; (split; [|done]);
        rewrite (bind_ok _ _ d _ d' (eq_trans (upsert_read d loc root s blocks (Some id) block Hrep Hok) Hd')); done.
    + apply refused_here. unfold refused. rewrite (upsert_read d loc root s blocks) by done.
      unfold upsert_existing. eexists. unfold bind, reading, upsert_target. rewrite (entry_at_rep d loc _ Hrep).
      cbn [rp_blocks report_of]. rewrite lookup_entries_None by (by apply find_id_None). done.
  - pose proof (upsert_new_ok d loc root s blocks Hrep Hwf block Hok) as H. cbn [spec_op] in *.
    destruct (mint_id _ _ _) as [[id used]|] eqn:Hm; cbn [mbind option_bind fst] in *.
    + destruct H as (d' & id' & Hd' & Hh' & [= <-]). exists d'. split; [|done].
      rewrite (bind_ok _ _ d _ d' (eq_trans (upsert_read d loc root s blocks None block Hrep Hok) Hd')). done.
    + apply refused_here. unfold refused. rewrite (upsert_read d loc root s blocks) by done. exact H.
  - pose proof (move_block_ok d loc root s blocks Hrep Hwf id to_index) as H. cbn [spec_op] in *.
    destruct (list_find _ blocks) as [[i b]|]; cbn [mbind option_bind] in *; [|by apply refused_here].
    destruct (bool_decide _); [|by apply refused_here].
    destruct H as (d' & Hd' & Hh'). exists d'. split; [|done]. by rewrite (bind_ok _ _ d tt d').
  - pose proof (delete_block_ok d loc root s blocks Hrep Hwf id) as H. cbn [spec_op] in *.
    destruct (list_find _ blocks) as [[i b]|]; cbn [mbind option_bind] in *; [|by apply refused_here].
    destruct H as (d' & Hd' & Hh'). exists d'. split; [|done]. by rewrite (bind_ok _ _ d tt d').
Qed.

(** A session: one operation after the other, each with its answer. *)
Fixpoint run_ops (ops : list BlockOp) (d : AutoCommit) : list (option (option (str * N))) * AutoCommit :=
  match ops with
  | [] => ([], d)
  | op :: ops =>
      let '(r, d) := run_op op d in
      let '(rs, d) := run_ops ops d in
      (match r with Ok r => Some r | Err _ => None end :: rs, d)
  end.

Fixpoint spec_ops (ops : list BlockOp) (blocks : list ReportBlock) : list (option (option (str * N))) * list ReportBlock :=
  match ops with
  | [] => ([], blocks)
  | op :: ops =>
      match spec_op blocks op with
      | Some (blocks', r) => let '(rs, blocks) := spec_ops ops blocks' in (Some r :: rs, blocks)
      | None => let '(rs, blocks) := spec_ops ops blocks in (None :: rs, blocks)
      end
  end.

(** C11: whatever upserts, moves and deletions a session makes, the document answers each of them as
    the abstract list of blocks does - ids, revisions and refusals alike - and holds that list
    afterwards; a refused operation leaves no trace. *)
Theorem block_session_refines ops d root s blocks :
  holds_report d root s blocks → Forall op_ok ops →
  ∃ d', run_ops ops d = ((spec_ops ops blocks).1, d') ∧ holds_report d' root s (spec_ops ops blocks).2 ∧
        blocks_snapshot d' = Ok (spec_ops ops blocks).2.
Proof.
  intros Hh Hok. revert d blocks Hh. induction Hok as [|op ops Hop _ IH]; intros d blocks Hh; cbn [run_ops spec_ops].
  - exists d. split_and!; [done|done|by eapply snapshot_ok].
  - pose proof (block_op_step d root s blocks op Hh Hop) as H.
    destruct (spec_op blocks op) as [[blocks' r]|].
    + destruct H as (d1 & -> & Hh1). destruct (IH d1 blocks' Hh1) as (d' & -> & Hh' & Hs').
      exists d'. by destruct (spec_ops ops blocks').
    + destruct H as [e ->]. destruct (IH d blocks Hh) as (d' & -> & Hh' & Hs').
      exists d'. by destruct (spec_ops ops blocks).
Qed.

(** ** The document revision *)
Definition root_rev (root : gmap str (AmValue ObjId)) : option N :=
  match root !! FIELD_DOC_REV with None => Some 0%N | Some v => value_u64 v end.

Lemma doc_rev_rep d loc root s blocks rev :
  represents d loc (report_of root s blocks) → root_rev root = Some rev → doc_rev d = Ok rev.
Proof.
  intros Hrep Hrev. unfold doc_rev. rewrite (get_root d loc _ Hrep). cbn [rp_root report_of].
  unfold root_rev in Hrev. destruct (root !! FIELD_DOC_REV) as [[| | |]|]; by simplify_eq/=.
Qed.

Lemma doc_rev_step d root s blocks rev :
  holds_report d root s blocks → root_rev root = Some rev → (rev < u64_modulus)%N →
  doc_rev d = Ok rev ∧
  if decide (rev + 1 = u64_modulus)%N then refused increment_doc_rev d
  else ∃ d', increment_doc_rev d = (Ok (rev + 1)%N, d') ∧ doc_rev d' = Ok (rev + 1)%N ∧
             holds_report d' (<[FIELD_DOC_REV := VUint (rev + 1)]> root) s blocks.
Proof.
  intros [Hwf (loc & Hrep)] Hrev Hlt.
  pose proof (doc_rev_rep d loc root s blocks rev Hrep Hrev) as Hd. split; [done|].
  case_decide as Hmax.
  - eapply refused_bind; [by apply reading_ok|done|]. rewrite (proj2 (N.ltb_ge _ _)) by lia. by eexists.
  - destruct (root_put_rep d loc _ FIELD_DOC_REV (VUint (rev + 1)) Hrep) as (d' & Hd' & Hr'); [done..|].
    exists d'. split_and!.
    + unfold increment_doc_rev. rewrite (bind_ok _ _ d rev d) by (by apply reading_ok).
      rewrite (proj2 (N.ltb_lt _ _)) by lia. unfold bind, writing. by rewrite Hd'.
    + eapply doc_rev_rep; [exact Hr'|]. unfold root_rev. by rewrite lookup_insert_eq.
    + by apply (report_holds d' loc).
Qed.

(** A bump moves the document revision up by exactly one and changes nothing else; at the last
    64-bit revision it is refused and the document stays as it was. *)
Theorem doc_rev_bump d root s blocks rev :
  holds_report d root s blocks → root_rev root = Some rev → (rev < u64_modulus)%N →
  doc_rev d = Ok rev ∧
  if decide (rev + 1 = u64_modulus)%N then refused increment_doc_rev d
  else ∃ d', increment_doc_rev d = (Ok (rev + 1)%N, d') ∧ doc_rev d' = Ok (rev + 1)%N ∧
             holds_report d' (<[FIELD_DOC_REV := VUint (rev + 1)]> root) s blocks.
Proof. apply doc_rev_step. Qed.
End report.
