(* ===== verification/ReportParts.v ===== *)
(** * New reports, and rewrites of one part of a report

    A document seeded from blocks or from a body holds exactly that report. A section
    replacement and a rewrite that keeps some kinds of blocks touch the blocks they are
    allowed to touch and leave every other block as it is, its revision included. *)

From stdpp Require Import prelude strings list gmap.
From S2P Require Import Prelude Text Slices Float64 Identity PluginSchema Blocks BlockRules MarkerRules FenceRules Align ReassignRules ReassignIds DocStore ReportDoc ReportDocRules ReportRules.

Local Open Scope calm_scope.
#[local] Opaque mint_id.

Section parts.
Context `{Laws : AutomergeLaws} `{Serde : SerdeText}.
Implicit Types (d : AutoCommit) (loc : Slot → ObjId).

(** ** Seeding *)
Definition seed_loc (s b o : ObjId) (slot : Slot) : ObjId :=
  match slot with SSummary => s | SBlocks => b | SOrder => o | _ => ROOT end.

Definition seed_root (s b o : ObjId) : gmap str (AmValue ObjId) :=
  <[FIELD_ORDER := VObj OList o]> (<[FIELD_BLOCKS := VObj OMap b]> {[FIELD_SUMMARY := VObj OText s]}).

(** The three objects of a fresh document, created one after the other. *)
Lemma seed_represents (create write create_blocks create_order summary : str) :
  ∃ d1 d2 d3 s b o,
    seed_summary create write summary am_new = (Ok tt, d1) ∧
    creating create_blocks (am_put_object ROOT FIELD_BLOCKS OMap) d1 = (Ok b, d2) ∧
    creating create_order (am_put_object ROOT FIELD_ORDER OList) d2 = (Ok o, d3) ∧
    represents d3 (seed_loc s b o) (report_of (seed_root s b o) summary []).
Proof.
  pose proof view_new as Hv0.
  destruct (law_put_object am_new ROOT ∅ FIELD_SUMMARY OText) as (d0 & s & Hd0 & Hs & Hvs);
    [by rewrite Hv0, lookup_singleton_eq|].
  destruct (law_update_text d0 s [] summary) as (d1 & Hd1 & Hv1); [by rewrite Hvs, lookup_insert_eq|].
  assert (s ≠ ROOT) as HsR by (intros ->; by rewrite Hv0, lookup_singleton_eq in Hs).
  destruct (law_put_object d1 ROOT {[FIELD_SUMMARY := VObj OText s]} FIELD_BLOCKS OMap) as (d2 & b & Hd2 & Hb & Hv2).
  { by rewrite Hv1, Hvs, !(lookup_insert_ne _ s), lookup_insert_eq by done. }
  assert (b ≠ s) as Hbs by (intros ->; by rewrite Hv1, lookup_insert_eq in Hb).
  assert (b ≠ ROOT) as HbR.
  { intros ->. by rewrite Hv1, Hvs, !(lookup_insert_ne _ s), lookup_insert_eq in Hb. }
  destruct (law_put_object d2 ROOT (<[FIELD_BLOCKS := VObj OMap b]> {[FIELD_SUMMARY := VObj OText s]}) FIELD_ORDER OList)
    as (d3 & o & Hd3 & Ho & Hv3).
  { by rewrite Hv2, (lookup_insert_ne _ b), lookup_insert_eq by done. }
  assert (o ≠ b) as Hob by (intros ->; by rewrite Hv2, lookup_insert_eq in Ho).
  assert (o ≠ ROOT) as HoR by (intros ->; by rewrite Hv2, (lookup_insert_ne _ b), lookup_insert_eq in Ho).
  assert (o ≠ s) as Hos.
  { intros ->. by rewrite Hv2, (lookup_insert_ne _ b), (lookup_insert_ne _ ROOT), Hv1, lookup_insert_eq in Ho. }
  exists d1, d2, d3, s, b, o. split_and!.
  - unfold seed_summary. rewrite (bind_ok _ _ _ s d0) by (unfold creating; by rewrite Hd0). unfold writing. by rewrite Hd1.
  - unfold creating. by rewrite Hd2.
  - unfold creating. by rewrite Hd3.
  - split; try done.
    + intros slot n Hn. rewrite Hv3. destruct slot; cbn in Hn; simplify_eq; cbn [seed_loc].
      * by rewrite (lookup_insert_ne _ o), lookup_insert_eq.
      * by rewrite (lookup_insert_ne _ o), (lookup_insert_ne _ ROOT), Hv2, (lookup_insert_ne _ b),
          (lookup_insert_ne _ ROOT), Hv1, lookup_insert_eq by done.
      * by rewrite (lookup_insert_ne _ o), (lookup_insert_ne _ ROOT), Hv2, lookup_insert_eq by done.
      * by rewrite lookup_insert_eq.
    + intros x y Hx Hy. destruct x, y; cbn [seed_loc]; try done; cbn in Hx, Hy; by destruct Hx, Hy.
Qed.

Lemma write_entries_ok message d loc root summary pre (l : list ReportBlock) :
  represents d loc (report_of root summary pre) → NoDup (rb_id <$> pre ++ l) →
  ∃ d' loc', write_entries message (loc SBlocks) (loc SOrder) (length pre) ((λ b, (rb_id b, b)) <$> l) d = (Ok tt, d') ∧
             represents d' loc' (report_of root summary (pre ++ l)).
Proof.
  revert d loc pre. induction l as [|b l IH]; intros d loc pre Hrep Hnd.
  - exists d, loc. by rewrite app_nil_r.
  - assert (rb_id b ∉ rb_id <$> pre) as Hb.
    { rewrite fmap_app in Hnd. apply NoDup_app in Hnd as (_ & H & _). intros Hin. apply (H _ Hin). left. }
    rewrite fmap_cons. cbn [write_entries].
    destruct (insert_block_entry_rep d loc _ (rb_id b) (entry_of b) Hrep) as (d1 & e & t & Hd1 & Hr1); [by apply lookup_entries_None|].
    rewrite (bind_ok _ _ d tt d1) by exact Hd1.
    destruct (insert_at_rep d1 _ _ (length pre) (rb_id b) message Hr1) as (d2 & Hd2 & Hr2); [cbn; by rewrite length_fmap|].
    rewrite relocate_other in Hd2 by done. rewrite (bind_ok _ _ d1 tt d2) by done.
    assert (represents d2 (relocate loc (rb_id b) e t) (report_of root summary (pre ++ [b]))) as Hr.
    { cbn [with_order with_blocks rp_order rp_blocks rp_root rp_summary report_of] in Hr2.
      rewrite take_ge, drop_ge in Hr2 by (by rewrite length_fmap). unfold report_of.
      rewrite fmap_app, (entries_perm _ (b :: pre)); [exact Hr2|by rewrite Permutation_app_comm|].
      rewrite fmap_app. rewrite (fmap_app _ pre (b :: l)), fmap_cons, cons_middle, app_assoc in Hnd.
      by apply NoDup_app in Hnd as [? _]. }
    destruct (IH d2 _ _ Hr) as (d' & loc' & Hd' & Hr'); [by rewrite <-app_assoc|].
    exists d', loc'. rewrite length_app, Nat.add_1_r, !relocate_other in Hd' by done.
    by rewrite <-app_assoc in Hr'.
Qed.

Lemma exact_blocks_ok summary (blocks : list ReportBlock) :
  well_formed blocks →
  ∃ d root, from_blocks_exact summary blocks am_new = (Ok tt, d) ∧ holds_report d root summary blocks ∧ root_rev root = Some 0%N.
Proof.
  intros Hwf. unfold from_blocks_exact. rewrite first_duplicate_None by (apply Hwf || set_solver).
  destruct (seed_represents (lit "create exact report summary") (lit "write exact report summary")
    (lit "create exact report blocks map") (lit "create exact report order list") summary)
    as (d1 & d2 & d3 & s & b & o & Hd1 & Hd2 & Hd3 & Hr).
  rewrite (bind_ok _ _ _ tt d1), (bind_ok _ _ _ b d2), (bind_ok _ _ _ o d3) by done.
  destruct (write_entries_ok (lit "write exact report order entry") d3 _ _ _ [] blocks Hr) as (d & loc & Hd & Hr'); [apply Hwf|].
  exists d, (seed_root s b o). split; [exact Hd|]. split; [by apply (report_holds d loc)|done].
Qed.

(** A document made from exact blocks holds them, ids and revisions included; with a repeated id
    it is not made at all. *)
Theorem exact_blocks_held summary (blocks : list ReportBlock) :
  Forall stored blocks → Forall (λ b, rb_rev b < u32_modulus)%N blocks →
  if decide (NoDup (rb_id <$> blocks))
  then ∃ d root, from_blocks_exact summary blocks am_new = (Ok tt, d) ∧ holds_report d root summary blocks ∧
                 blocks_snapshot d = Ok blocks
  else refused (from_blocks_exact summary blocks) am_new.
Proof.
  intros Hst Hrev. case_decide as Hnd.
  - destruct (exact_blocks_ok summary blocks) as (d & root & Hd & Hh & _); [by split|].
    exists d, root. split_and!; [done|done|by eapply snapshot_ok].
  - unfold from_blocks_exact. destruct (first_duplicate ∅ (rb_id <$> blocks)) eqn:Hf; [by eexists|].
    exfalso. apply Hnd. by eapply first_duplicate_NoDup.
Qed.

Lemma layout_ids_unique index used seen (blocks : list ReportBlock) :
  NoDup (rb_id <$> blocks) → (∀ b, b ∈ blocks → rb_id b ∉ seen) →
  layout_ids index used seen blocks = Some ((λ b, (rb_id b, b)) <$> blocks).
Proof.
  revert index seen. induction blocks as [|b blocks IH]; intros index seen Hnd Hs; [done|].
  rewrite fmap_cons in Hnd. apply NoDup_cons in Hnd as [Hb Hnd]. cbn [layout_ids].
  rewrite bool_decide_eq_true_2 by (apply Hs; left). rewrite IH; [done|done|].
  intros c Hc. rewrite not_elem_of_union, not_elem_of_singleton. split; [|apply Hs; by right].
  intros Heq. apply Hb. rewrite <-Heq. by apply list_elem_of_fmap_2.
Qed.

(** A report made from a summary and a body reads back as that summary and that body, its fences in
    canonical form, in blocks with fresh ids at revision 1. *)
Theorem new_report_reads_back summary body :
  scalar_clean → Forall readable (split_body body) → length (split_body body) ≤ N.to_nat u16_modulus →
  ∃ blocks d root, reassign_ids [] (split_body body) = Some blocks ∧
    from_payload summary body None am_new = (Ok tt, d) ∧ holds_report d root summary blocks ∧
    blocks_snapshot d = Ok blocks ∧ project d = Ok (summary, canonical_body body).
Proof.
  intros Hsc Hread Hroom.
  destruct (reassign_well_formed [] (split_body body) [] ∅) as (blocks & Ha & Hwf & Hflat & _); [done|done|constructor|cbn [length]; rewrite size_empty; lia|].
  destruct (seed_represents (lit "put_object on fresh AutoCommit cannot fail") (lit "update_text on freshly-minted Text obj cannot fail")
    (lit "put_object at root cannot fail") (lit "put_object at root cannot fail") summary)
    as (d1 & d2 & d3 & s & b & o & Hd1 & Hd2 & Hd3 & Hr).
  destruct (write_entries_ok (lit "insert at list tail cannot fail") d3 _ _ _ [] blocks Hr) as (d & loc & Hd & Hr'); [apply Hwf|].
  assert (holds_report d (seed_root s b o) summary blocks) as Hh by (apply (report_holds d loc); done).
  exists blocks, d, (seed_root s b o). split_and!; [exact Ha| |exact Hh|by eapply snapshot_ok|].
  - unfold from_payload. rewrite (bind_ok _ _ _ tt d1) by done. rewrite (bind_ok _ _ _ blocks d1).
    2:{ unfold minted, default, reassign_ids, reassign_ids_with_hints. cbn [from_option id]. by rewrite Ha. }
    unfold write_blocks_layout. rewrite (bind_ok _ _ _ b d2), (bind_ok _ _ _ o d3) by done.
    rewrite layout_ids_unique by (apply Hwf || set_solver). exact Hd.
  - cbn [app] in Hr'. rewrite (project_ok _ _ _ _ _ Hr' Hwf), Hflat. do 2 f_equal.
    apply (append_lined []); [by left|]. apply lined_canonical, split_body_lined.
Qed.

(** ** Beside blocks that stay *)
Lemma reassign_beside_Some current old others slices hints bs :
  scalar_clean → well_formed current → current ≡ₚ old ++ others → Forall readable slices →
  reassign_ids_with_hints_reserving old slices hints (list_to_set (rb_id <$> others)) = Some bs →
  well_formed (bs ++ others) ∧ flat_text <$> bs = canonical_text <$> slices.
Proof.
  intros Hsc Hwf Hp Hread Hbs. pose proof (well_formed_perm _ _ Hp Hwf) as [Hn Hs Hr].
  apply Forall_app in Hs as [_ Hso], Hr as [Hrold Hro]. rewrite fmap_app in Hn. apply NoDup_app in Hn as (Hno & Hdis & Hnt).
  destruct (reassign_Some_well_formed _ _ _ _ _ Hsc Hread Hrold Hbs) as ([Hnb Hsb Hrb] & Hflat & Hids).
  split; [|done]. split; [|by apply Forall_app..].
  rewrite fmap_app. apply NoDup_app. split_and!; [done| |done].
  intros id (b & -> & Hb)%list_elem_of_fmap Hin. destruct (Hids b Hb) as [Ho|(_ & _ & Hn)].
  - by apply (Hdis _ Ho).
  - apply Hn. by apply elem_of_list_to_set.
Qed.

Lemma reassign_beside current old others slices hints :
  scalar_clean → well_formed current → current ≡ₚ old ++ others → Forall readable slices →
  length current + length slices ≤ N.to_nat u16_modulus →
  ∃ bs, reassign_ids_with_hints_reserving old slices hints (list_to_set (rb_id <$> others)) = Some bs ∧
        well_formed (bs ++ others) ∧ flat_text <$> bs = canonical_text <$> slices.
Proof.
  intros Hsc Hwf Hp Hread Hroom. pose proof (well_formed_perm _ _ Hp Hwf) as [Hn Hs Hr].
  rewrite fmap_app in Hn. apply NoDup_app in Hn as (_ & _ & Hnt).
  assert (size (list_to_set (rb_id <$> others) : gset str) ≤ length others) as Hsize.
  { rewrite size_list_to_set by done. by rewrite length_fmap. }
  destruct (reassign_emit old slices hints (list_to_set (rb_id <$> others))) as (a & bs & _ & Hbs & _);
    [rewrite Hp, length_app in Hroom; lia|].
  exists bs. split; [done|]. by eapply reassign_beside_Some.
Qed.

Lemma write_parts d root s s' current aligned :
  holds_report d root s current → well_formed aligned →
  ∃ d1 d', set_summary s' d = (Ok tt, d1) ∧ reading blocks_snapshot d1 = (Ok current, d1) ∧
           apply_aligned_blocks current aligned d1 = (Ok tt, d') ∧ holds_report d' root s' aligned.
Proof.
  intros Hh Hwf. destruct (set_summary_ok d root s s' current Hh) as (d1 & Hd1 & Hh1).
  destruct (apply_aligned_ok d1 root s' current aligned Hh1 Hwf) as (d' & Hd' & Hh').
  exists d1, d'. split_and!; [done|by eapply reading_ok, snapshot_ok|done|done].
Qed.

Lemma filter_split_perm {A} (P : A → Prop) `{∀ x, Decision (P x)} (l : list A) :
  l ≡ₚ filter P l ++ filter (λ x, ¬ P x) l.
Proof.
  induction l as [|x l IH]; [done|]. rewrite !filter_cons. destruct (decide (P x)).
  - rewrite decide_False by tauto. cbn. by constructor.
  - rewrite decide_True by done. rewrite <-Permutation_middle. by constructor.
Qed.

(** The block indices of a section, its members first. *)
Definition at_indices (current : list ReportBlock) (indices : list nat) : list ReportBlock :=
  indices ≫= λ i, option_list (current !! i).

Lemma at_indices_seq (current : list ReportBlock) first n :
  first + n ≤ length current → at_indices current (seq first n) = take n (drop first current).
Proof.
  unfold at_indices. revert first. induction n as [|n IH]; intros first Hn; [done|].
  destruct (lookup_lt_is_Some_2 current first) as [b Hb]; [lia|].
  cbn [seq]. rewrite bind_cons, Hb, IH by lia. by rewrite (drop_S _ _ _ Hb).
Qed.

(** The blocks a section replacement rewrites, those of the span it keeps, and the report it makes. *)
Definition span_members (current : list ReportBlock) (first last : nat) (members : list nat) : list ReportBlock :=
  at_indices current (filter (λ i, i ∈ members) (range first last)).
Definition span_kept (current : list ReportBlock) (first last : nat) (members : list nat) : list ReportBlock :=
  at_indices current (filter (λ i, i ∉ members) (range first last)).
Definition section_others (current : list ReportBlock) (first last : nat) (members : list nat) : list ReportBlock :=
  take first current ++ span_kept current first last members ++ drop last current.
Definition section_result (current : list ReportBlock) (first last : nat) (members : list nat) (bs : list ReportBlock) : list ReportBlock :=
  take first current ++ bs ++ span_kept current first last members ++ drop last current.

Definition span_ok (current : list ReportBlock) (first last : nat) (members : list nat) : Prop :=
  (first ≤ last ∧ last ≤ length current) ∧ Forall (λ i, first ≤ i < last) members.

Lemma span_perm current first last members :
  first ≤ last ∧ last ≤ length current →
  current ≡ₚ span_members current first last members ++ section_others current first last members.
Proof.
  intros Hspan. unfold section_others, span_members, span_kept.
  assert (at_indices current (range first last) ≡ₚ at_indices current (filter (λ i, i ∈ members) (range first last))
            ++ at_indices current (filter (λ i, i ∉ members) (range first last))) as Hok.
  { unfold at_indices. rewrite <-bind_app. apply bind_Permutation. apply filter_split_perm. }
  unfold range in Hok |- *. rewrite at_indices_seq in Hok by lia.
  rewrite <-(take_drop first current) at 1.
  rewrite <-(take_drop (last - first) (drop first current)), drop_drop, Hok.
  replace (first + (last - first)) with last by lia.
  rewrite <-app_assoc, !app_assoc. f_equiv. f_equiv. apply Permutation_app_comm.
Qed.

Lemma section_result_perm current first last members bs :
  bs ++ section_others current first last members ≡ₚ section_result current first last members bs.
Proof. unfold section_others, section_result. rewrite !app_assoc. do 2 f_equiv. apply Permutation_app_comm. Qed.

Lemma section_run d root s current first last members slices hints :
  holds_report d root s current →
  if decide (span_ok current first last members)
  then match reassign_ids_with_hints_reserving (span_members current first last members) slices hints
               (list_to_set (rb_id <$> section_others current first last members)) with
       | None => refused (replace_section_members first last members slices hints) d
       | Some bs =>
           well_formed (section_result current first last members bs) →
           ∃ d', replace_section_members first last members slices hints d = (Ok bs, d') ∧
                 holds_report d' root s (section_result current first last members bs)
       end
  else refused (replace_section_members first last members slices hints) d.
Proof.
  intros Hh. assert (reading blocks_snapshot d = (Ok current, d)) as Hsnap by (by eapply reading_ok, snapshot_ok).
  case_decide as HP.
  2:{ eapply refused_bind; [done|done|].
      destruct (bool_decide_reflect (first ≤ last ∧ last ≤ length current)) as [Hspan|]; [|by eexists].
      destruct (forallb _ members) eqn:Hm; [|by eexists]. exfalso. apply HP. split; [done|].
      apply Is_true_eq_left in Hm. rewrite forallb_True in Hm. eapply Forall_impl; [done|]. intros i Hi.
      by apply bool_decide_unpack in Hi. }
  destruct HP as [Hspan Hmem].
  assert (forallb (λ index, bool_decide (first ≤ index ∧ index < last)) members = true) as Hall.
  { apply Is_true_eq_true, forallb_True. eapply Forall_impl; [done|]. intros i Hi. by apply bool_decide_pack. }
  destruct (reassign_ids_with_hints_reserving _ _ _ _) as [bs|] eqn:Hbs.
  - intros Hwf. destruct (apply_aligned_ok d root s current _ Hh Hwf) as (d' & Hd' & Hh').
    exists d'. split; [|done]. unfold replace_section_members. rewrite (bind_ok _ _ d current d Hsnap).
    rewrite bool_decide_eq_true_2 by done. cbn [negb]. rewrite Hall. cbn [negb]. rewrite (bind_ok _ _ d bs d).
    + rewrite (bind_ok _ _ d tt d') by exact Hd'. done.
    + unfold minted. replace (reassign_ids_with_hints_reserving _ _ _ _) with (Some bs); done.
  - unfold replace_section_members. eapply refused_bind; [done|done|].
    rewrite bool_decide_eq_true_2 by done. cbn [negb]. rewrite Hall. cbn [negb]. apply refused_here.
    unfold minted. replace (reassign_ids_with_hints_reserving _ _ _ _) with (@None (list ReportBlock)). by eexists.
Qed.

(** What a section replacement that succeeds did. *)
Lemma section_run_Ok d root s current first last members slices hints replaced d' :
  scalar_clean → holds_report d root s current → Forall readable slices →
  replace_section_members first last members slices hints d = (Ok replaced, d') →
  span_ok current first last members ∧ flat_text <$> replaced = canonical_text <$> slices ∧
  holds_report d' root s (section_result current first last members replaced).
Proof.
  intros Hsc Hh Hread Hrun. pose proof (section_run d root s current first last members slices hints Hh) as H.
  case_decide as HP; [|destruct H as [e He]; congruence]. destruct HP as [Hspan Hmem].
  destruct (reassign_ids_with_hints_reserving _ _ _ _) as [bs|] eqn:Hbs; [|destruct H as [e He]; congruence].
  destruct (reassign_beside_Some current _ _ slices hints bs Hsc (holds_wf _ _ _ _ Hh) (span_perm _ _ _ _ Hspan) Hread Hbs) as [Hwf Hflat].
  destruct H as (d1 & Hd1 & Hh1); [by eapply well_formed_perm; [apply section_result_perm|]|].
  rewrite Hd1 in Hrun. injection Hrun as <- <-. split_and!; [by split|done|done].
Qed.

(** Replacing the members of a section rewrites those blocks only: every block outside the span and
    every other block of the span stays in the report with its id, kind, payload and revision, and
    the span then reads as the new slices followed by the blocks it kept. An invalid span or member
    is refused. *)
Theorem section_replaced d root s current first last members slices hints :
  scalar_clean → holds_report d root s current → Forall readable slices →
  length current + length slices ≤ N.to_nat u16_modulus →
  if decide ((first ≤ last ∧ last ≤ length current) ∧ Forall (λ i, first ≤ i < last) members)
  then ∃ replaced d',
    let kept := at_indices current (filter (λ i, i ∉ members) (range first last)) in
    replace_section_members first last members slices hints d = (Ok replaced, d') ∧
    flat_text <$> replaced = canonical_text <$> slices ∧
    holds_report d' root s (take first current ++ replaced ++ kept ++ drop last current)
  else refused (replace_section_members first last members slices hints) d.
Proof.
  intros Hsc Hh Hread Hroom. pose proof (section_run d root s current first last members slices hints Hh) as H.
  unfold span_ok in H. case_decide as HP; [|done]. destruct HP as [Hspan Hmem].
  destruct (reassign_beside current _ _ slices hints Hsc (holds_wf _ _ _ _ Hh) (span_perm current first last members Hspan) Hread Hroom)
    as (bs & Hbs & Hwf & Hflat).
  rewrite Hbs in H. destruct H as (d' & Hd' & Hh'); [by eapply well_formed_perm; [apply section_result_perm|]|].
  by exists bs, d'.
Qed.

(** ** Keeping blocks in their places *)
Lemma bind_split_perm {A B} (f g : A → list B) (l : list A) : l ≫= (λ x, f x ++ g x) ≡ₚ (l ≫= f) ++ (l ≫= g).
Proof.
  induction l as [|x l IH]; [done|]. rewrite !bind_cons, IH, <-!app_assoc. f_equiv.
  rewrite !app_assoc. f_equiv. apply Permutation_app_comm.
Qed.

Lemma slots_at_perm {A} (slots : list (nat * A)) k n :
  Forall (λ e, k ≤ e.1 < k + n) slots → (seq k n ≫= λ slot, (filter (λ e, e.1 = slot) slots).*2) ≡ₚ slots.*2.
Proof.
  revert k slots. induction n as [|n IH]; intros k slots Hs.
  - destruct slots as [|e slots]; [done|]. apply Forall_cons in Hs as [He _]. lia.
  - cbn [seq]. rewrite bind_cons.
    assert ((seq (S k) n ≫= λ slot, (filter (λ e, e.1 = slot) slots).*2)
            = (seq (S k) n ≫= λ slot, (filter (λ e, e.1 = slot) (filter (λ e, ¬ e.1 = k) slots)).*2)) as ->.
    { assert (∀ l, Forall (λ slot, slot ≠ k) l → (l ≫= λ slot, (filter (λ e, e.1 = slot) slots).*2)
               = (l ≫= λ slot, (filter (λ e, e.1 = slot) (filter (λ e, ¬ e.1 = k) slots)).*2)) as H.
      { induction 1 as [|slot l Hne _ IHl]; [done|]. rewrite !bind_cons, IHl. do 2 f_equal.
        rewrite list_filter_filter. apply list_filter_iff. intros e. split; [intros ->; done|tauto]. }
      apply H, Forall_seq. lia. }
    rewrite IH.
    + rewrite <-fmap_app. apply fmap_Permutation. symmetry. apply filter_split_perm.
    + apply Forall_forall. intros e [Hne Hin]%list_elem_of_filter. rewrite Forall_forall in Hs. specialize (Hs e Hin). lia.
Qed.

Lemma options_seq {A} (l : list A) k : (seq k (S (length l) - k) ≫= λ slot, option_list (l !! slot)) = drop k l.
Proof.
  remember (S (length l) - k) as n eqn:Hn. revert k Hn. induction n as [|n IH]; intros k Hn.
  - by rewrite drop_ge by lia.
  - cbn [seq]. rewrite bind_cons, IH by lia. destruct (l !! k) as [x|] eqn:Hx; [by rewrite (drop_S _ _ _ Hx)|].
    apply lookup_ge_None in Hx. by rewrite !drop_ge by lia.
Qed.

Lemma weave_perm slots replaced :
  Forall (λ e, e.1 ≤ length replaced) slots → weave slots replaced ≡ₚ slots.*2 ++ replaced.
Proof.
  intros Hs. unfold weave, at_slot. rewrite bind_split_perm. f_equiv.
  - apply slots_at_perm. eapply Forall_impl; [done|]. intros e; cbv beta. lia.
  - pose proof (options_seq replaced 0) as H. rewrite Nat.sub_0_r, drop_0 in H. by rewrite H.
Qed.

(** The rewritten blocks stay in their order. *)
Lemma weave_sublist slots replaced : replaced `sublist_of` weave slots replaced.
Proof.
  pose proof (options_seq replaced 0) as H. rewrite Nat.sub_0_r, drop_0 in H. rewrite <-H at 1. unfold weave.
  generalize (seq 0 (S (length replaced))). intros l. induction l as [|i l IH]; [done|]. rewrite !bind_cons.
  apply sublist_app; [|exact IH]. unfold at_slot. apply sublist_inserts_l. done.
Qed.

Lemma index_of_bound (blocks : list ReportBlock) id i : index_of blocks !! id = Some i → i < length blocks.
Proof.
  unfold index_of. assert (∀ (l : list (nat * ReportBlock)) (m : gmap str nat), Forall (λ e, e.1 < length blocks) l →
    (∀ id i, m !! id = Some i → i < length blocks) →
    ∀ id i, foldl (λ m entry, <[rb_id entry.2 := entry.1]> m) m l !! id = Some i → i < length blocks) as H.
  { induction l as [|e l IH]; intros m Hl Hm; [done|]. apply Forall_cons in Hl as [He Hl]. cbn [foldl]. apply IH; [done|].
    intros x j. destruct (decide (x = rb_id e.2)) as [->|Hne]; [rewrite lookup_insert_eq; by intros [= <-]|].
    rewrite lookup_insert_ne by done. apply Hm. }
  eapply H; [|by intros ??]. apply Forall_lookup. intros k [j b] Hk. apply lookup_zip_Some in Hk as [[-> Hk]%lookup_seq _].
  simpl in *. lia.
Qed.

Lemma kept_slots_spec (rewritten : ReportBlock → bool) (position : gmap str nat) count anchor after blocks :
  (∀ id i, position !! id = Some i → i < count) → (∀ i, anchor = Some i → i < count) →
  let slots := kept_slots rewritten position count anchor after blocks in
  slots.*2 = filter (λ b, rewritten b = false) blocks ∧ Forall (λ e, e.1 ≤ count) slots.
Proof.
  intros Hpos. revert anchor after. induction blocks as [|b blocks IH]; intros anchor after Ha; [done|]. cbn [kept_slots].
  rewrite filter_cons. destruct (rewritten b); cbn zeta.
  - rewrite decide_False by done. apply IH. intros i. destruct (position !! rb_id b) eqn:Hp; [intros [= <-]; eauto|apply Ha].
  - rewrite decide_True by done. destruct (IH anchor after Ha) as [Hs Hb]. cbn zeta in *. rewrite fmap_cons, Hs. split; [done|].
    constructor; [|done]. cbn [fst]. destruct anchor as [i|]; [specialize (Ha i eq_refl); lia|]. destruct after; lia.
Qed.

(** The report a keeping rewrite makes of the new blocks. *)
Definition kept_result (current : list ReportBlock) (rewritten : ReportBlock → bool) (bs : list ReportBlock) : list ReportBlock :=
  weave (kept_slots rewritten (index_of bs) (length bs) None false current) bs.

Lemma kept_result_perm current rewritten bs :
  kept_result current rewritten bs ≡ₚ filter (λ b, rewritten b = false) current ++ bs.
Proof.
  destruct (kept_slots_spec rewritten (index_of bs) (length bs) None false current) as [Hs Hb];
    [apply index_of_bound|done|]. cbn zeta in Hs, Hb. unfold kept_result. by rewrite weave_perm, Hs.
Qed.

Lemma rewritten_perm (rewritten : ReportBlock → bool) (current : list ReportBlock) :
  current ≡ₚ filter (λ b, rewritten b = true) current ++ filter (λ b, rewritten b = false) current.
Proof.
  assert (filter (λ b, rewritten b = false) current = filter (λ b, ¬ rewritten b = true) current) as ->; [|apply filter_split_perm].
  apply list_filter_iff. intros b. by destruct (rewritten b).
Qed.

Lemma keeping_run d root s s' current slices hints (rewritten : ReportBlock → bool) :
  holds_report d root s current →
  match reassign_ids_with_hints_reserving (filter (λ b, rewritten b = true) current) slices hints
          (list_to_set (rb_id <$> filter (λ b, rewritten b = false) current)) with
  | None => ∃ e d', update_with_hints_keeping s' slices hints rewritten d = (Err e, d')
  | Some bs =>
      well_formed (kept_result current rewritten bs) →
      ∃ d', update_with_hints_keeping s' slices hints rewritten d = (Ok tt, d') ∧
            holds_report d' root s' (kept_result current rewritten bs)
  end.
Proof.
  intros Hh. destruct (set_summary_ok d root s s' current Hh) as (d1 & Hd1 & Hh1).
  assert (reading blocks_snapshot d1 = (Ok current, d1)) as Hsnap by (by eapply reading_ok, snapshot_ok).
  unfold update_with_hints_keeping. rewrite (bind_ok _ _ d tt d1), (bind_ok _ _ d1 current d1) by done. cbn zeta.
  destruct (reassign_ids_with_hints_reserving _ _ _ _) as [bs|] eqn:Hbs.
  - intros Hwf. destruct (apply_aligned_ok d1 root s' current _ Hh1 Hwf) as (d' & Hd' & Hh').
    exists d'. split; [|done]. by rewrite (bind_ok _ _ d1 bs d1).
  - eexists _, d1. reflexivity.
Qed.

Lemma reassign_Some_blocks (current : list ReportBlock) (slices : list str) (hints : list (option str)) (reserved : gset str) bs b :
  reassign_ids_with_hints_reserving current slices hints reserved = Some bs → b ∈ bs →
  ∃ slice id rev, slice ∈ slices ∧ b = block_of slice id rev.
Proof.
  intros (Hlen & _ & Hel)%reassign_Some [k Hb]%list_elem_of_lookup.
  destruct (lookup_lt_is_Some_2 slices k) as [slice Hs]; [rewrite <-Hlen; by eapply lookup_lt_Some|].
  exists slice. destruct (Hel k slice b Hs Hb) as [(old & _ & ->)|(id & -> & _)];
    eexists _, _; (split; [by eapply list_elem_of_lookup_2|reflexivity]).
Qed.

(** What a keeping rewrite that succeeds did. *)
Lemma keeping_run_Ok d root s s' current slices hints (rewritten : ReportBlock → bool) d' :
  scalar_clean → holds_report d root s current → Forall readable slices →
  update_with_hints_keeping s' slices hints rewritten d = (Ok tt, d') →
  ∃ replaced, flat_text <$> replaced = canonical_text <$> slices ∧
    holds_report d' root s' (kept_result current rewritten replaced) ∧
    ∀ b, b ∈ replaced → ∃ slice id rev, slice ∈ slices ∧ b = block_of slice id rev.
Proof.
  intros Hsc Hh Hread Hrun. pose proof (keeping_run d root s s' current slices hints rewritten Hh) as H.
  destruct (reassign_ids_with_hints_reserving _ _ _ _) as [bs|] eqn:Hbs; [|destruct H as (e & d1 & He); congruence].
  destruct (reassign_beside_Some current _ _ slices hints bs Hsc (holds_wf _ _ _ _ Hh) (rewritten_perm rewritten current) Hread Hbs)
    as [Hwf Hflat].
  destruct H as (d1 & Hd1 & Hh1); [eapply well_formed_perm; [|exact Hwf]; by rewrite kept_result_perm, Permutation_app_comm|].
  rewrite Hd1 in Hrun. injection Hrun as <-. exists bs. split_and!; [done..|].
  intros b Hb. by eapply reassign_Some_blocks.
Qed.

(** C19: a whole write that keeps some blocks rewrites the others only: every kept block is in the report
    afterwards exactly as it was, the new slices are its other blocks in their order, and nothing
    else is in it. *)
Theorem kept_blocks_survive d root s s' current slices hints (rewritten : ReportBlock → bool) :
  scalar_clean → holds_report d root s current → Forall readable slices →
  length current + length slices ≤ N.to_nat u16_modulus →
  ∃ replaced result d', update_with_hints_keeping s' slices hints rewritten d = (Ok tt, d') ∧
    holds_report d' root s' result ∧ flat_text <$> replaced = canonical_text <$> slices ∧
    replaced `sublist_of` result ∧ result ≡ₚ filter (λ b, rewritten b = false) current ++ replaced.
Proof.
  intros Hsc Hh Hread Hroom. pose proof (keeping_run d root s s' current slices hints rewritten Hh) as H.
  destruct (reassign_beside current _ _ slices hints Hsc (holds_wf _ _ _ _ Hh) (rewritten_perm rewritten current) Hread Hroom)
    as (bs & Hbs & Hwf & Hflat).
  rewrite Hbs in H. destruct H as (d' & Hd' & Hh'); [eapply well_formed_perm; [|exact Hwf]; by rewrite kept_result_perm, Permutation_app_comm|].
  exists bs, (kept_result current rewritten bs), d'. split_and!; [done..|apply weave_sublist|apply kept_result_perm].
Qed.

Lemma dropping_run_Ok d root s s' current body d' :
  scalar_clean → holds_report d root s current → Forall readable (split_body body) →
  replace_dropping_data_blocks s' body d = (Ok tt, d') → ∃ blocks, holds_report d' root s' blocks.
Proof.
  intros Hsc Hh Hread Hrun. destruct (set_summary_ok d root s s' current Hh) as (d1 & Hd1 & Hh1).
  assert (reading blocks_snapshot d1 = (Ok current, d1)) as Hsnap by (by eapply reading_ok, snapshot_ok).
  unfold replace_dropping_data_blocks in Hrun. rewrite (bind_ok _ _ d tt d1), (bind_ok _ _ d1 current d1) in Hrun by done.
  cbn zeta in Hrun. unfold bind, minted in Hrun.
  destruct (reassign_ids_with_hints_reserving _ _ _ _) as [bs|] eqn:Hbs; [|discriminate Hrun].
  destruct (reassign_beside_Some current _ _ _ _ bs Hsc (holds_wf _ _ _ _ Hh) (filter_split_perm (λ b, rb_kind b = KIND_PROSE) current) Hread Hbs)
    as [[Hn Hs Hr] _].
  rewrite fmap_app in Hn. apply NoDup_app in Hn as [Hn _]. apply Forall_app in Hs as [Hs _], Hr as [Hr _].
  destruct (apply_aligned_ok d1 root s' current bs Hh1) as (d2 & Hd2 & Hh2); [by split|].
  unfold ret in Hrun. rewrite Hd2 in Hrun. injection Hrun as <-. by exists bs.
Qed.

(** The rewrite that drops data blocks drops all of them and keeps the ids of prose it can: what is
    left is the new body, and no data block of the old report. *)
Theorem data_blocks_dropped d root s s' current body :
  scalar_clean → holds_report d root s current → Forall readable (split_body body) →
  length current + length (split_body body) ≤ N.to_nat u16_modulus →
  ∃ aligned d', replace_dropping_data_blocks s' body d = (Ok tt, d') ∧ holds_report d' root s' aligned ∧
    project d' = Ok (s', canonical_body body) ∧
    ∀ b, b ∈ aligned → ∀ old, old ∈ current → rb_kind old ≠ KIND_PROSE → rb_id b ≠ rb_id old.
Proof.
  intros Hsc Hh Hread Hroom. pose proof (holds_wf _ _ _ _ Hh) as Hwf.
  set (prose := filter (λ b, rb_kind b = KIND_PROSE) current). set (data := filter (λ b, rb_kind b ≠ KIND_PROSE) current).
  assert (current ≡ₚ prose ++ data) as Hp by apply filter_split_perm.
  destruct (reassign_beside current prose data (split_body body) []) as (bs & Hbs & Hwfb & Hflat); [done..|].
  assert (well_formed bs) as Hwfbs.
  { destruct Hwfb as [Hn Hs Hr]. rewrite fmap_app in Hn. apply NoDup_app in Hn as [Hn _].
    apply Forall_app in Hs as [Hs _], Hr as [Hr _]. by split. }
  destruct (write_parts d root s s' current bs Hh Hwfbs) as (d1 & d' & Hd1 & Hread1 & Hd' & Hh').
  exists bs, d'. split_and!; [|done| |].
  - unfold replace_dropping_data_blocks. rewrite (bind_ok _ _ d tt d1), (bind_ok _ _ d1 current d1) by done.
    cbn zeta. rewrite (bind_ok _ _ d1 bs d1); [done|].
    unfold minted. replace (reassign_ids_with_hints_reserving _ _ _ _) with (Some bs); done.
  - destruct Hh' as [_ (loc & Hrep)]. rewrite (project_ok _ _ _ _ _ Hrep Hwfbs), Hflat.
    do 2 f_equal. apply (append_lined []); [by left|]. apply lined_canonical, split_body_lined.
  - intros b Hb old Hold Hk Heq. destruct Hwfb as [Hn _ _]. rewrite fmap_app in Hn. apply NoDup_app in Hn as (_ & Hn & _).
    apply (Hn (rb_id b)); [by apply list_elem_of_fmap_2|]. rewrite Heq. apply list_elem_of_fmap_2.
    by apply list_elem_of_filter.
Qed.
End parts.
