(* ===== verification/DocSample.v ===== *)
(** * The report document on a concrete store

    An instance of the document store - a finite map of objects under numbered ids - that
    satisfies its laws, and one run of each report theorem on it. *)

From stdpp Require Import prelude strings list gmap fin_maps.
From S2P Require Import Prelude Text Slices Float64 Identity PluginSchema Blocks BlockRules MarkerRules FenceRules Align ReassignRules ReassignIds ReportSample DocStore ReportDoc ReportDocRules ReportRules ReportParts.

Local Open Scope calm_scope.
#[local] Existing Instance sample_serde.

(** ** The store *)
Definition Objects : Type := gmap N (Node N).

Definition on_map {A} (d : Objects) (o : N) (f : gmap str (AmValue N) → option A) : option A :=
  match d !! o with Some (NMap m) => f m | _ => None end.
Definition on_list {A} (d : Objects) (o : N) (f : list (AmValue N) → option A) : option A :=
  match d !! o with Some (NList l) => f l | _ => None end.

#[local] Instance sample_store : Automerge := {|
  AutoCommit := Objects;
  ObjId := N;
  ROOT := 0%N;
  am_new := {[0%N := NMap ∅]};
  am_get d o k := on_map d o (λ m, Some (m !! k));
  am_get_at d o i := on_list d o (λ l, Some (l !! i));
  am_length d o := default 0 (on_list d o (λ l, Some (length l)));
  am_keys d o := default [] (on_map d o (λ m, Some (map_to_list m).*1));
  am_text d o := match d !! o with Some (NText s) => Some s | _ => None end;
  am_put o k v d := on_map d o (λ m, Some (<[o := NMap (<[k := v]> m)]> d));
  am_put_object o k ty d := on_map d o (λ m,
    let o' := fresh (dom d) in
    Some (<[o' := empty_node ty]> (<[o := NMap (<[k := VObj ty o']> m)]> d), o'));
  am_delete o k d := on_map d o (λ m, Some (<[o := NMap (delete k m)]> d));
  am_delete_at o i d := on_list d o (λ l, Some (<[o := NList (delete i l)]> d));
  am_insert o i s d := on_list d o (λ l, Some (<[o := NList (take i l ++ VStr s :: drop i l)]> d));
  am_update_text o t d := match d !! o with Some (NText _) => Some (<[o := NText t]> d) | _ => None end;
|}.

#[local] Instance sample_laws : AutomergeLaws.
Proof.
  refine {| view := (λ d, d) : AutoCommit → gmap ObjId (Node ObjId) |}; cbn; unfold on_map, on_list, Objects.
  - done.
  - by intros d o m k ->.
  - by intros d o l i ->.
  - by intros d o l ->.
  - by intros d o m ->.
  - by intros d o s ->.
  - intros d o m k v ->. eauto.
  - intros d o m k ty ->. eexists _, _. split_and!; [done| |done]. apply not_elem_of_dom, is_fresh.
  - intros d o m k -> _. eauto.
  - intros d o l i -> _. eauto.
  - intros d o l i s -> _. eauto.
  - intros d o s t ->. eauto.
Defined.

Definition lines_a : str := text_a ++ text_b.

Lemma readable_lines : Forall readable (split_body lines_a).
Proof. vm_compute. by repeat constructor. Qed.

Lemma sample_well_formed : well_formed sample_blocks.
Proof.
  split.
  - by vm_compute; repeat constructor; set_solver.
  - constructor; [|constructor; [|constructor]].
    + left. split; [done|]. exists text_a. by vm_compute.
    + right. split; [done|apply task_writable].
  - by repeat constructor.
Qed.

(** A document with the sample blocks. *)
Lemma sample_document : ∃ d root, holds_report d root (lit "s") sample_blocks ∧ root_rev root = Some 0%N.
Proof. destruct (exact_blocks_ok (lit "s") sample_blocks sample_well_formed) as (d & root & _ & Hh). eauto. Qed.

Lemma room (k : nat) : Nat.leb k 100 = true → k ≤ N.to_nat u16_modulus.
Proof. apply room_for. Qed.

Lemma update_installs_witness :
  ∃ aligned d d', update (lit "t") lines_a d = (Ok tt, d') ∧ blocks_snapshot d' = Ok aligned ∧
                  project d' = Ok (lit "t", lines_a).
Proof.
  destruct sample_document as (d & root & Hh & _).
  destruct (update_installs d root (lit "s") sample_blocks (lit "t") lines_a sample_scalar_clean Hh readable_lines)
    as (aligned & d' & _ & Hd' & _ & Hs & Hp); [apply room; by vm_compute|].
  exists aligned, d, d'. split_and!; [exact Hd'|exact Hs|]. rewrite Hp. by vm_compute.
Defined.

Definition sample_ops : list BlockOp :=
  [OpMove id_a 1; OpUpsert (Some id_a) (mkReportBlock [] KIND_PROSE 0 (JObject [(lit "markdown", JString text_b)]));
   OpMove id_a 7; OpDelete id_b; OpDelete id_b].

Lemma block_session_refines_witness :
  ∃ d d', run_ops sample_ops d = ([Some None; Some (Some (id_a, 4%N)); None; Some None; None], d') ∧
          blocks_snapshot d' = Ok [mkReportBlock id_a KIND_PROSE 4 (JObject [(lit "markdown", JString text_b)])].
Proof.
  destruct sample_document as (d & root & Hh & _).
  destruct (block_session_refines sample_ops d root (lit "s") sample_blocks Hh) as (d' & Hd' & _ & Hs).
  { constructor; [done|]. constructor; [left; split; [done|by eexists]|]. by repeat constructor. }
  exists d, d'. split; [rewrite Hd'|rewrite Hs]; by vm_compute.
Defined.

Lemma doc_rev_bump_witness :
  ∃ d d', doc_rev d = Ok 0%N ∧ increment_doc_rev d = (Ok 1%N, d') ∧ doc_rev d' = Ok 1%N.
Proof.
  destruct sample_document as (d & root & Hh & Hr).
  destruct (doc_rev_bump d root (lit "s") sample_blocks 0 Hh Hr eq_refl) as [Hd H].
  rewrite decide_False in H by done. destruct H as (d' & Hd' & Hr' & _). by exists d, d'.
Defined.

Lemma exact_blocks_held_witness :
  ∃ d, from_blocks_exact (lit "s") sample_blocks am_new = (Ok tt, d) ∧ blocks_snapshot d = Ok sample_blocks.
Proof.
  pose proof (exact_blocks_held (lit "s") sample_blocks (wf_stored _ sample_well_formed) (wf_rev _ sample_well_formed)) as H.
  rewrite decide_True in H by apply (wf_ids _ sample_well_formed). destruct H as (d & root & Hd & _ & Hs). eauto.
Defined.

Lemma new_report_reads_back_witness :
  ∃ d, from_payload (lit "s") lines_a None am_new = (Ok tt, d) ∧ project d = Ok (lit "s", lines_a).
Proof.
  destruct (new_report_reads_back (lit "s") lines_a sample_scalar_clean readable_lines) as (bs & d & root & _ & Hd & _ & _ & Hp);
    [apply room; by vm_compute|].
  exists d. split; [exact Hd|]. rewrite Hp. by vm_compute.
Defined.

(** The section of both blocks, with the prose block as its one member. *)
Lemma section_replaced_witness :
  ∃ replaced d d', replace_section_members 0 2 [0] [text_b] [] d = (Ok replaced, d') ∧
                   blocks_snapshot d' = Ok (replaced ++ [block_t]).
Proof.
  destruct sample_document as (d & root & Hh & _).
  pose proof (section_replaced d root (lit "s") sample_blocks 0 2 [0] [text_b] [] sample_scalar_clean Hh) as H.
  rewrite decide_True in H by (split; [simpl; lia|by repeat constructor]).
  destruct H as (replaced & d' & Hd' & _ & Hh'); [by repeat constructor|apply room; by vm_compute|].
  exists replaced, d, d'. split; [exact Hd'|]. by rewrite (snapshot_ok _ _ _ _ Hh').
Defined.

Lemma kept_blocks_survive_witness :
  ∃ result d d', update_with_hints_keeping (lit "t") [text_b] [] (λ b, bool_decide (rb_kind b = KIND_PROSE)) d = (Ok tt, d') ∧
                 blocks_snapshot d' = Ok result ∧ block_t ∈ result.
Proof.
  destruct sample_document as (d & root & Hh & _).
  destruct (kept_blocks_survive d root (lit "s") (lit "t") sample_blocks [text_b] [] (λ b, bool_decide (rb_kind b = KIND_PROSE))
    sample_scalar_clean Hh) as (replaced & result & d' & Hd' & Hh' & _ & _ & Hp); [by repeat constructor|apply room; by vm_compute|].
  exists result, d, d'. split_and!; [exact Hd'|by eapply snapshot_ok|]. rewrite Hp. left.
Defined.

Lemma data_blocks_dropped_witness :
  ∃ d d', replace_dropping_data_blocks (lit "t") lines_a d = (Ok tt, d') ∧ project d' = Ok (lit "t", lines_a).
Proof.
  destruct sample_document as (d & root & Hh & _).
  destruct (data_blocks_dropped d root (lit "s") (lit "t") sample_blocks lines_a sample_scalar_clean Hh readable_lines)
    as (aligned & d' & Hd' & _ & Hp & _); [apply room; by vm_compute|].
  exists d, d'. split; [exact Hd'|]. rewrite Hp. by vm_compute.
Defined.
