(* ===== verification/TaskGuards.v ===== *)
(** * Who may change the task and objective blocks of a report

    [track_report/task_changes.rs], [track_report_edit_guard.rs], [track_report_gate_guard.rs]
    with its [shell.rs], [track_report_objective_guard.rs] and
    [track_report/compact_origination.rs]: the checks a report write passes after its
    operation produced a new list of blocks and before anything is stored. Each compares the
    blocks before and after; a refusal aborts the transaction. *)

From stdpp Require Import prelude strings list gmap.
From S2P Require Import Prelude Text Slices Float64 Identity PluginSchema Blocks HarnessQueue OperationPhase DocStore ReportDoc.

Local Open Scope calm_scope.

(** [for x in l { f(x)?; }] without state: the first refusal. *)
Fixpoint each_ok {A E} (f : A → result unit E) (l : list A) : result unit E :=
  match l with [] => Ok tt | x :: l => let? _ := f x in each_ok f l end.

Definition bad {A} (message : str) : result A CalmError := Err (Calm_BadRequest message).

(** A condition that refuses with a message. *)
Definition refuse_if (b : bool) (message : str) : result unit CalmError := if b then bad message else Ok tt.

Definition field (block : ReportBlock) (name : string) : option Json := json_get (rb_payload block) (lit name).
Definition string_field (block : ReportBlock) (name : string) : option str := field block name ≫= json_as_str.

Definition is_task (block : ReportBlock) : bool := bool_decide (rb_kind block = KIND_TASK).

Definition is_tombstone (block : ReportBlock) : bool :=
  match field block "tombstone" with Some v => negb (is_null v) | None => false end.

(** [task_block_is_live]. *)
Definition task_block_is_live (block : ReportBlock) : bool :=
  is_task block && match field block "tombstone" with None => true | Some v => is_null v end.

(** [Option<&Value> ==]. *)
Definition value_eqb (a b : option Json) : bool :=
  match a, b with Some a, Some b => json_eqb a b | None, None => true | _, _ => false end.

(** ** What a write changed ([task_changes.rs]) *)
Inductive TaskBlockChange :=
| Change_Added (block : ReportBlock)
| Change_Changed (block : ReportBlock)
| Change_Removed (block : ReportBlock).

Definition authored_live (change : TaskBlockChange) : option ReportBlock :=
  match change with
  | Change_Added block | Change_Changed block => if task_block_is_live block then Some block else None
  | Change_Removed _ => None
  end.

Definition written_change (before_tasks : gmap str ReportBlock) (block : ReportBlock) : option TaskBlockChange :=
  match before_tasks !! rb_id block with
  | None => Some (Change_Added block)
  | Some old => if negb (json_eqb (rb_payload old) (rb_payload block)) then Some (Change_Changed block) else None
  end.

Definition task_block_changes (before after : list ReportBlock) : list TaskBlockChange :=
  let before_tasks := by_id (filter (λ b, is_task b = true) before) in
  let after_tasks := by_id (filter (λ b, is_task b = true) after) in
  omap (written_change before_tasks) (filter (λ b, is_task b = true) after)
  ++ (Change_Removed <$> filter (λ b, is_task b = true ∧ after_tasks !! rb_id b = None) before).

(** ** Task declarations ([track_report_edit_guard.rs]) *)
Definition author_name (author : EditAuthor) : option str :=
  match author with
  | Author_Planner => Some (lit "spec")
  | Author_User => Some (lit "user")
  | Author_Kernel | Author_Plugin | Author_Assistant => None
  end.

(** [{author:?}]. *)
Definition author_debug (author : EditAuthor) : str :=
  lit (match author with
       | Author_Planner => "Planner" | Author_User => "User" | Author_Assistant => "Assistant"
       | Author_Kernel => "Kernel" | Author_Plugin => "Plugin"
       end)%string.

Definition is_user (author : EditAuthor) : bool := match author with Author_User => true | _ => false end.

Definition guard_assistant_leaves_task_blocks_alone (before after : list ReportBlock) : result unit CalmError :=
  match task_block_changes before after with
  | [] => Ok tt
  | Change_Added block :: _ =>
      bad (lit "an assistant may not create task block " ++ rb_id block
           ++ lit "; task declarations are the planner's and the user's to write")
  | Change_Changed block :: _ =>
      bad (lit "an assistant may not modify task block " ++ rb_id block
           ++ lit "; its declaration must survive the write byte-for-byte")
  | Change_Removed block :: _ =>
      bad (lit "an assistant may not delete task block " ++ rb_id block
           ++ lit "; only the declaring author may retire a task")
  end.

Definition some_or_bad {A} (message : str) (o : option A) : result A CalmError :=
  match o with Some a => Ok a | None => bad message end.

(** A task block that was no task block before. *)
Definition check_created (author : EditAuthor) (new : ReportBlock) : result unit CalmError :=
  let? expected := some_or_bad (author_debug author ++ lit " may not create task blocks") (author_name author) in
  let? _ := refuse_if
    (bool_decide (string_field new "declared_by" ≠ Some expected)
     || is_tombstone new && bool_decide (string_field new "tombstoned_by" ≠ Some expected))
    (lit "new task block " ++ rb_id new ++ lit " must attribute declared_by"
     ++ (if is_tombstone new then lit " and tombstoned_by" else []) ++ lit " to " ++ expected) in
  refuse_if
    (negb (is_user author)
     && match field new "released_by_user" with Some v => negb (json_eqb v (JBool false)) | None => false end)
    (lit "released_by_user may only be set by a user").

(** A task block that stays one. *)
Definition check_kept (author : EditAuthor) (old new : ReportBlock) : result unit CalmError :=
  let? _ := refuse_if (bool_decide (string_field old "declared_by" ≠ string_field new "declared_by"))
              (lit "task block " ++ rb_id new ++ lit " declared_by is immutable") in
  let? _ := refuse_if (bool_decide (string_field old "key" ≠ string_field new "key"))
              (lit "task block " ++ rb_id new ++ lit " key is immutable") in
  let? _ :=
    (if negb (is_tombstone old) && is_tombstone new then
       let? expected := some_or_bad (author_debug author ++ lit " may not tombstone task blocks") (author_name author) in
       refuse_if (bool_decide (string_field new "tombstoned_by" ≠ Some expected))
         (lit "task block " ++ rb_id new ++ lit " must attribute tombstoned_by to " ++ expected)
     else Ok tt) in
  if is_tombstone old then
    let? _ := refuse_if (negb (is_tombstone new))
                (lit "task tombstone " ++ rb_id new ++ lit " may not be restored in place") in
    refuse_if (bool_decide (string_field old "tombstoned_by" ≠ string_field new "tombstoned_by"))
      (lit "task block " ++ rb_id new ++ lit " tombstoned_by is immutable")
  else Ok tt.

Definition check_new (author : EditAuthor) (before_by_id : gmap str ReportBlock) (new : ReportBlock) : result unit CalmError :=
  match before_by_id !! rb_id new with
  | Some old => if is_task old then check_kept author old new else check_created author new
  | None => check_created author new
  end.

(** A fresh tombstone for the key, attributed to the writer. *)
Definition fresh_tombstone (before_by_id : gmap str ReportBlock) (key : option str) (writer : str) (block : ReportBlock) : bool :=
  let is_it (b : ReportBlock) :=
    is_task b && is_tombstone b && bool_decide (string_field b "key" = key)
    && bool_decide (string_field b "tombstoned_by" = Some writer) in
  is_it block && negb (match before_by_id !! rb_id block with Some b => is_it b | None => false end).

Definition check_old (author : EditAuthor) (before_by_id after_by_id : gmap str ReportBlock) (after : list ReportBlock)
    (deleted_by_id : list str) (old : ReportBlock) : result unit CalmError :=
  let next := after_by_id !! rb_id old in
  let? _ := refuse_if (match next with Some b => negb (is_task b) | None => false end)
              (lit "task block " ++ rb_id old ++ lit " may not change kind or drop declared_by") in
  let? _ := refuse_if
              (negb (is_user author)
               && negb (value_eqb (field old "released_by_user") (next ≫= λ b, field b "released_by_user")))
              (lit "released_by_user may only be changed by a user") in
  let user_owned := bool_decide (string_field old "declared_by" = Some (lit "user"))
                    || bool_decide (string_field old "tombstoned_by" = Some (lit "user")) in
  let? _ := refuse_if
              (negb (is_user author) && user_owned
               && negb (match next with Some b => block_eqb b old | None => false end))
              (lit "non-user author may not modify or delete user-controlled task block " ++ rb_id old) in
  if negb (is_tombstone old) && negb (match next with Some b => is_task b | None => false end)
     && bool_decide (rb_id old ∉ deleted_by_id)
  then
    refuse_if
      (negb (match author_name author with
             | Some writer => existsb (fresh_tombstone before_by_id (string_field old "key") writer) after
             | None => false
             end))
      (lit "deletion of task block " ++ rb_id old
       ++ lit " must name it by id: a commit `delete` op or the block-level DELETE endpoint")
  else Ok tt.

(** ** Gate commands ([track_report_gate_guard.rs], [shell.rs]) *)
Definition single_quote : N := 39.
Definition double_quote : N := 34.
Definition backslash : N := 92.

(** The locals of [first_literal_word]; [sh_word] and [sh_words] as read so far. *)
Record Shell := mkShell {
  sh_words : list str;
  sh_word : str;
  sh_started : bool;
  sh_plain : bool;
  sh_quote : option N;
  sh_redirect : bool;
}.

Definition finish_word (st : Shell) : Shell :=
  if sh_started st then
    mkShell (if sh_redirect st then sh_words st else sh_words st ++ [sh_word st]) [] false (sh_plain st) (sh_quote st) false
  else st.

Definition with_plain (st : Shell) : Shell :=
  mkShell (sh_words st) (sh_word st) (sh_started st) true (sh_quote st) (sh_redirect st).
Definition with_quote (st : Shell) (quote : option N) : Shell :=
  mkShell (sh_words st) (sh_word st) (sh_started st) (sh_plain st) quote (sh_redirect st).
Definition push_char (st : Shell) (c : N) : Shell :=
  mkShell (sh_words st) (sh_word st ++ [c]) (sh_started st) (sh_plain st) (sh_quote st) (sh_redirect st).
Definition start_char (st : Shell) (c : N) : Shell :=
  mkShell (sh_words st) (sh_word st ++ [c]) true (sh_plain st) (sh_quote st) (sh_redirect st).
Definition open_quote (st : Shell) (quote : option N) : Shell :=
  mkShell (sh_words st) (sh_word st) true false quote (sh_redirect st).

Definition in_double_quotes (st : Shell) : bool := bool_decide (sh_quote st = Some double_quote).

(** After a backslash. *)
Definition escape_char (st : Shell) (escaped : N) : Shell :=
  let word :=
    if in_double_quotes st && negb (bool_decide (escaped ∈ [36; 96; double_quote; backslash; newline]%N))
    then sh_word st ++ [backslash] else sh_word st in
  if (escaped =? newline)%N
  then mkShell (sh_words st) word (sh_started st) false (sh_quote st) (sh_redirect st)
  else mkShell (sh_words st) (word ++ [escaped]) true false (sh_quote st) (sh_redirect st).

(** A redirection: an unquoted number before it is a file descriptor, not a word. *)
Definition open_redirect (st : Shell) : Shell :=
  let st :=
    if sh_started st && sh_plain st && forallb is_ascii_digit (sh_word st)
    then mkShell (sh_words st) [] false (sh_plain st) (sh_quote st) (sh_redirect st) else st in
  let st := finish_word st in
  mkShell (sh_words st) (sh_word st) (sh_started st) true (sh_quote st) true.

(** The second character of [>>], [>|], [>&], [<>] and [<&]. *)
Definition redirect_second (ch next : N) : bool :=
  if (ch =? 62)%N then bool_decide (next ∈ [62; 124; 38]%N) else bool_decide (next ∈ [62; 38]%N).

Definition finish_scan (st : Shell) : option str :=
  match sh_quote st with
  | Some _ => None
  | None => let st := finish_word st in if sh_redirect st then None else head (sh_words st)
  end.

Fixpoint scan_words (chars : str) (st : Shell) : option str :=
  match chars with
  | [] => finish_scan st
  | ch :: rest =>
      match sh_words st with
      | first :: _ => Some first
      | [] =>
          if bool_decide (sh_quote st = Some single_quote) then
            if (ch =? single_quote)%N then scan_words rest (with_quote st None) else scan_words rest (push_char st ch)
          else if (ch =? backslash)%N then
            match rest with
            | [] => None
            | escaped :: rest => scan_words rest (escape_char st escaped)
            end
          else if (ch =? double_quote)%N then
            scan_words rest (open_quote st (if in_double_quotes st then None else Some double_quote))
          else if (ch =? single_quote)%N && bool_decide (sh_quote st = None) then
            scan_words rest (open_quote st (Some single_quote))
          else if bool_decide (ch ∈ [36; 96]%N) then None
          else if bool_decide (sh_quote st ≠ None) then scan_words rest (push_char st ch)
          else if bool_decide (ch ∈ [32; 9]%N) then scan_words rest (with_plain (finish_word st))
          else if (ch =? 35)%N && negb (sh_started st) then finish_scan st
          else if bool_decide (ch ∈ [124; 38; 59; newline]%N) then finish_scan st
          else if bool_decide (ch ∈ [62; 60]%N) then
            if sh_redirect st then None
            else
              match rest with
              | next :: rest' =>
                  if (ch =? 60)%N && (next =? 60)%N then None
                  else if redirect_second ch next then scan_words rest' (open_redirect st)
                  else scan_words rest (open_redirect st)
              | [] => scan_words rest (open_redirect st)
              end
          else if bool_decide (ch ∈ [40; 41; 123; 125; 42; 63; 91; 126]%N) then None
          else scan_words rest (start_char st ch)
      end
  end.

Definition first_literal_word (command : str) : option str := scan_words command (mkShell [] [] false true None false).

Definition direct_kernel_cli (command : str) : bool :=
  match first_literal_word command with
  | Some executable => bool_decide ((default ([], executable) (rsplit_once 47 executable)).2 = lit "neige")
  | None => false
  end.

Definition gate_step_error (block : ReportBlock) (index : nat) : str :=
  lit "task block " ++ rb_id block ++ lit ": gate.steps[" ++ show_N (N.of_nat index)
  ++ lit "].cmd invokes the Neige kernel CLI, but gates have no NEIGE_MCP_SOCKET or NEIGE_MCP_TOKEN. Verify files in the worker checkout (for example, python3 -m unittest discover); read plan output with neige from the Planner session instead".

Definition check_gate (block : ReportBlock) : result unit CalmError :=
  match (field block "gate" ≫= λ gate, json_get gate (lit "steps")) ≫= as_array with
  | None => Ok tt
  | Some steps =>
      each_ok (λ entry : nat * Json,
        refuse_if (match json_get entry.2 (lit "cmd") ≫= json_as_str with Some cmd => direct_kernel_cli cmd | None => false end)
          (gate_step_error block entry.1))
        (zip (seq 0 (length steps)) steps)
  end.

Definition check_changed_task_gates (before after : list ReportBlock) : result unit CalmError :=
  each_ok check_gate (omap authored_live (task_block_changes before after)).

(** [guard_task_declarations]; [deleted_by_id] are the ids the operation's delete steps named. *)
Definition guard_task_declarations (before after : list ReportBlock) (author : EditAuthor) (deleted_by_id : list str)
  : result unit CalmError :=
  let before_by_id := by_id before in
  let after_by_id := by_id after in
  let? _ := each_ok (check_new author before_by_id) (filter (λ b, is_task b = true) after) in
  let? _ := each_ok (check_old author before_by_id after_by_id after deleted_by_id) (filter (λ b, is_task b = true) before) in
  let? _ :=
    (match author with
     | Author_Assistant => guard_assistant_leaves_task_blocks_alone before after
     | _ => Ok tt
     end) in
  check_changed_task_gates before after.

(** ** Compact tasks ([compact_origination.rs]) *)
Definition is_compact (block : ReportBlock) : bool := bool_decide (string_field block "kind" = Some (lit "compact")).

Definition check_compact (before : list ReportBlock) (block : ReportBlock) : result unit CalmError :=
  if is_compact block
     && negb (existsb (λ old, bool_decide (rb_id old = rb_id block) && is_task old && task_block_is_live old && is_compact old) before)
  then Err (Calm_Forbidden (lit "Only the Planner may originate a compact task."))
  else Ok tt.

Definition guard_compact_origination (before after : list ReportBlock) (author : EditAuthor) : result unit CalmError :=
  match author with
  | Author_Planner => Ok tt
  | _ => each_ok (check_compact before) (omap authored_live (task_block_changes before after))
  end.

(** ** Objective blocks ([objectives.rs], [track_report_objective_guard.rs])

    The payload rules of a kind, and the definition's key of an objective payload. *)
Class PayloadRules := {
  validate_payload : str → Json → result unit str;
  parse_objective : Json → result str str;
}.

Section objectives.
Context `{Serde : SerdeText} `{Rules : PayloadRules}.

Definition is_objective (block : ReportBlock) : bool := bool_decide (rb_kind block = KIND_OBJECTIVE).

(** The keys met so far; the map of the code has the definitions under them. *)
Fixpoint objective_keys (seen : gset str) (blocks : list ReportBlock) : result (gset str) str :=
  match blocks with
  | [] => Ok seen
  | block :: blocks =>
      let? _ := validate_payload KIND_OBJECTIVE (rb_payload block) in
      let? key := parse_objective (rb_payload block) in
      if bool_decide (key ∈ seen) then Err (lit "duplicate objective key `" ++ key ++ lit "`")
      else objective_keys ({[key]} ∪ seen) blocks
  end.

Definition objective_blocks (blocks : list ReportBlock) : result (gset str) str :=
  objective_keys ∅ (filter (λ b, is_objective b = true) blocks).

Definition bad_request {A} (r : result A str) : result A CalmError :=
  match r with Ok a => Ok a | Err m => bad m end.

Definition check_objective_in_place (after : list ReportBlock) (old : ReportBlock) : result unit CalmError :=
  match snd <$> list_find (λ b, rb_id b = rb_id old) after with
  | Some new =>
      refuse_if (bool_decide (rb_kind new ≠ rb_kind old)
                 || negb (value_eqb (json_get (rb_payload new) (lit "key")) (json_get (rb_payload old) (lit "key"))))
        (lit "objective key and kind are immutable in place")
  | None => Ok tt
  end.

Definition check_no_conversion (before : list ReportBlock) (new : ReportBlock) : result unit CalmError :=
  refuse_if (existsb (λ old, bool_decide (rb_id old = rb_id new) && bool_decide (rb_kind old ≠ rb_kind new)) before)
    (lit "block kind cannot change to objective in place").

Definition unchanged_objective (a b : ReportBlock) : bool :=
  bool_decide (rb_id a = rb_id b) && bool_decide (rb_kind a = rb_kind b)
  && bool_decide (canonical_json (rb_payload a) = canonical_json (rb_payload b)).

Definition guard_objective_blocks (before after : list ReportBlock) (author : EditAuthor) : result unit CalmError :=
  let? _ := bad_request (objective_blocks after) in
  let old := filter (λ b, is_objective b = true) before in
  let new := filter (λ b, is_objective b = true) after in
  let? _ := each_ok (check_objective_in_place after) old in
  let? _ := each_ok (check_no_conversion before) new in
  match author with
  | Author_Planner | Author_User => Ok tt
  | _ =>
      refuse_if (bool_decide (length old ≠ length new)
                 || existsb (λ a, negb (existsb (unchanged_objective a) new)) old)
        (lit "only Planner and User may create, modify or delete objective blocks")
  end.
End objectives.
