(* ===== verification/TaskGuardRules.v ===== *)
(** * What the write guards promise

    Theorems about [TaskGuards]: a write that passes leaves the tasks and objectives it may
    not touch exactly as they were, a live task leaves a report only by name or under its
    writer's own tombstone, and a gate that would call the kernel is caught. *)

From Corelib Require Import SpecFloat.
From stdpp Require Import prelude strings list gmap.
From S2P Require Import Prelude Text Slices Float64 Identity PluginSchema Blocks HarnessQueue OperationPhase DocStore ReportDoc ReportDocRules TaskGuards.

Local Open Scope calm_scope.

(** ** Checks in sequence *)
Lemma each_ok_Ok {A E} (f : A → result unit E) (l : list A) : each_ok f l = Ok tt ↔ ∀ x, x ∈ l → f x = Ok tt.
Proof.
  induction l as [|x l IH]; cbn [each_ok].
  - split; [by intros _ x ?%elem_of_nil|done].
  - destruct (f x) as [[]|e] eqn:Hx; cbn [result_bind].
    + rewrite IH. split; [intros H y [->|Hy]%elem_of_cons; auto|intros H y Hy; apply H; by right].
    + split; [done|]. intros H. rewrite H in Hx by left. done.
Qed.

Lemma result_then_Ok {E} (r : result unit E) (k : unit → result unit E) : result_bind r k = Ok tt ↔ r = Ok tt ∧ k tt = Ok tt.
Proof. destruct r as [[]|e]; cbn; [tauto|]. split; [done|]. by intros []. Qed.

Lemma refuse_if_Ok b m : refuse_if b m = Ok tt ↔ b = false.
Proof. by destruct b. Qed.

Lemma is_task_kind b : is_task b = true ↔ rb_kind b = KIND_TASK.
Proof. apply bool_decide_eq_true. Qed.

Lemma json_eqb_refl_bool v : json_eqb (JBool v) (JBool v) = true.
Proof. by destruct v. Qed.

(** The live state of a task declaration. *)
Lemma live_iff b : task_block_is_live b = is_task b && negb (is_tombstone b).
Proof. unfold task_block_is_live, is_tombstone. f_equal. destruct (field b "tombstone"); [by rewrite negb_involutive|done]. Qed.

(** ** Payloads compared as the code compares them *)
Lemma f64_eqb_cases x y :
  f64_eqb x y = true → x = y ∨ (∃ s t, x = S754_zero s ∧ y = S754_zero t).
Proof.
  unfold f64_eqb, SFeqb, SFcompare. destruct x as [s|s| |s m e], y as [s'|s'| |s' m' e']; try done; [eauto|..].
  all: repeat match goal with b : bool |- _ => destruct b end; try done; try (intros _; by left).
  all: destruct (Z.compare_spec e e') as [->| |]; try done;
    destruct (Pos.compare_cont Eq m m') eqn:Hm; try done; apply Pos.compare_eq in Hm as ->; by left.
Qed.

Lemma f64_eqb_trans x y z : f64_eqb x y = true → f64_eqb y z = true → f64_eqb x z = true.
Proof.
  intros H1 H2. destruct (f64_eqb_cases _ _ H1) as [->|(s & t & -> & ->)]; [done|].
  destruct (f64_eqb_cases _ _ H2) as [<-|(s' & t' & ? & ->)]; done.
Qed.

Lemma json_eqb_trans u v w : json_eqb u v = true → json_eqb v w = true → json_eqb u w = true.
Proof.
  revert u v w. fix IH 1. intros u v w. destruct u as [|b|z|x|s|items|fields], v as [|b'|z'|x'|s'|items'|fields']; try done;
    destruct w as [|b''|z''|x''|s''|items''|fields'']; try done; cbn [json_eqb].
  - destruct b, b', b''; done.
  - rewrite !Z.eqb_eq. congruence.
  - apply f64_eqb_trans.
  - rewrite !bool_decide_eq_true. congruence.
  - revert items' items''. induction items as [|i items IHi]; intros [|i' items'] [|i'' items'']; try done.
    rewrite !andb_true_iff. intros [H1 H2] [H3 H4]. split; [by apply (IH i i')|by apply (IHi items')].
  - revert fields' fields''. induction fields as [|[k i] fields IHi]; intros [|[k' i'] fields'] [|[k'' i''] fields'']; try done.
    rewrite !andb_true_iff, !bool_decide_eq_true. intros [[-> H1] H2] [[-> H3] H4].
    split; [split; [done|by apply (IH i i')]|by apply (IHi fields')].
Qed.

Lemma block_eqb_spec a b :
  block_eqb a b = true ↔ rb_id a = rb_id b ∧ rb_kind a = rb_kind b ∧ rb_rev a = rb_rev b ∧ json_eqb (rb_payload a) (rb_payload b) = true.
Proof. unfold block_eqb. rewrite !andb_true_iff, !bool_decide_eq_true, N.eqb_eq. tauto. Qed.

Lemma block_eqb_trans a b c : block_eqb a b = true → block_eqb b c = true → block_eqb a c = true.
Proof.
  rewrite !block_eqb_spec. intros (-> & -> & -> & H1) (-> & -> & -> & H2). split_and!; [done..|by eapply json_eqb_trans].
Qed.

Lemma by_id_in (l : list ReportBlock) id b : by_id l !! id = Some b → b ∈ l ∧ rb_id b = id.
Proof.
  unfold by_id. assert (∀ m : gmap str ReportBlock,
    (∀ id b, m !! id = Some b → rb_id b = id) →
    foldl (λ m block, <[rb_id block := block]> m) m l !! id = Some b → (b ∈ l ∨ m !! id = Some b) ∧ rb_id b = id) as H.
  { clear. induction l as [|c l IH]; intros m Hm H; [split; [by right|eauto]|]. cbn [foldl] in H.
    apply IH in H as [[H|H] Hid].
    - split; [left; by right|done].
    - split; [|done]. destruct (decide (id = rb_id c)) as [->|Hne].
      + rewrite lookup_insert_eq in H. simplify_eq. left. left.
      + rewrite lookup_insert_ne in H by done. by right.
    - intros i x. destruct (decide (i = rb_id c)) as [->|Hne]; [rewrite lookup_insert_eq; by intros [= ->]|].
      rewrite lookup_insert_ne by done. apply Hm. }
  intros H'. apply H in H' as [[?|?] ?]; [done|done|by intros ??].
Qed.

Lemma by_id_block (l : list ReportBlock) b : NoDup (rb_id <$> l) → b ∈ l → by_id l !! rb_id b = Some b.
Proof. apply lookup_by_id. Qed.

Lemma by_id_absent (l : list ReportBlock) id : by_id l !! id = None → id ∉ rb_id <$> l.
Proof.
  intros H Hin. apply list_elem_of_fmap in Hin as (b & -> & Hin).
  assert (∃ c, by_id l !! rb_id b = Some c) as [c Hc]; [|congruence].
  revert Hin. unfold by_id. generalize (∅ : gmap str ReportBlock). clear. induction l as [|c l IH]; intros m; [by intros ?%elem_of_nil|].
  cbn [foldl]. intros [->|Hin]%elem_of_cons; [|by apply IH].
  assert (∀ (l : list ReportBlock) (m : gmap str ReportBlock) i, is_Some (m !! i) →
    is_Some (foldl (λ m block, <[rb_id block := block]> m) m l !! i)) as H.
  { clear. induction l as [|b l IH]; intros m i Hi; [done|]. cbn [foldl]. apply IH.
    destruct (decide (i = rb_id b)) as [->|Hne]; [by rewrite lookup_insert_eq|by rewrite lookup_insert_ne]. }
  apply H. by rewrite lookup_insert_eq.
Qed.


Section guards.
Context (before after : list ReportBlock) (author : EditAuthor) (deleted : list str)
  (Hb : NoDup (rb_id <$> before)) (Ha : NoDup (rb_id <$> after)).

Lemma guard_parts :
  guard_task_declarations before after author deleted = Ok tt →
  (∀ b, b ∈ after → is_task b = true → check_new author (by_id before) b = Ok tt) ∧
  (∀ b, b ∈ before → is_task b = true → check_old author (by_id before) (by_id after) after deleted b = Ok tt) ∧
  (author = Author_Assistant → task_block_changes before after = []) ∧
  check_changed_task_gates before after = Ok tt.
Proof.
  unfold guard_task_declarations. rewrite !result_then_Ok, !each_ok_Ok. intros (Hn & Ho & Hassist & Hg). split_and!.
  - intros b Hin Ht. apply Hn. by apply list_elem_of_filter.
  - intros b Hin Ht. apply Ho. by apply list_elem_of_filter.
  - intros ->. unfold guard_assistant_leaves_task_blocks_alone in Hassist.
    destruct (task_block_changes before after) as [|[]]; done.
  - done.
Qed.

(** A task the user declared or retired. *)
Definition user_owned (b : ReportBlock) : Prop :=
  string_field b "declared_by" = Some (lit "user") ∨ string_field b "tombstoned_by" = Some (lit "user").

Lemma author_not_user name : author ≠ Author_User → author_name author = Some name → name ≠ lit "user".
Proof. by destruct author; intros; simplify_eq/=. Qed.

Lemma user_task_kept old :
  guard_task_declarations before after author deleted = Ok tt → author ≠ Author_User →
  old ∈ before → is_task old = true → user_owned old →
  ∃ new, by_id after !! rb_id old = Some new ∧ block_eqb new old = true.
Proof.
  intros H Hau Hin Ht Hown. apply guard_parts in H as (_ & Ho & _). specialize (Ho old Hin Ht).
  unfold check_old in Ho. rewrite !result_then_Ok, !refuse_if_Ok in Ho. destruct Ho as (_ & _ & Hk & _).
  assert (is_user author = false) as Hu by (by destruct author). rewrite Hu in Hk.
  assert (bool_decide (string_field old "declared_by" = Some (lit "user"))
          || bool_decide (string_field old "tombstoned_by" = Some (lit "user")) = true) as Hd.
  { rewrite orb_true_iff, !bool_decide_eq_true. exact Hown. }
  rewrite Hd in Hk. destruct (by_id after !! rb_id old) as [new|]; [|done]. exists new. split; [done|]. by destruct (block_eqb new old).
Qed.

Lemma user_task_was_there new :
  guard_task_declarations before after author deleted = Ok tt → author ≠ Author_User →
  new ∈ after → is_task new = true → string_field new "declared_by" = Some (lit "user") →
  ∃ old, old ∈ before ∧ is_task old = true ∧ string_field old "declared_by" = Some (lit "user") ∧ block_eqb new old = true.
Proof.
  intros H Hau Hin Ht Hd. pose proof H as Hg. apply guard_parts in Hg as (Hn & _). specialize (Hn new Hin Ht).
  assert (check_created author new ≠ Ok tt) as Hc.
  { unfold check_created. destruct (author_name author) as [name|] eqn:Hname; [|done]. cbn [some_or_bad result_bind].
    rewrite result_then_Ok, refuse_if_Ok, orb_false_iff, bool_decide_eq_false. intros [[Hx _] _].
    apply dec_stable in Hx. apply (author_not_user name Hau Hname). congruence. }
  unfold check_new in Hn. destruct (by_id before !! rb_id new) as [old|] eqn:Hold; [|done].
  destruct (is_task old) eqn:Hot; [|done]. apply by_id_in in Hold as [Hob Hid].
  unfold check_kept in Hn. rewrite result_then_Ok, refuse_if_Ok, bool_decide_eq_false in Hn. destruct Hn as [Hx _].
  apply dec_stable in Hx. assert (string_field old "declared_by" = Some (lit "user")) as Hdo by congruence.
  exists old. split_and!; [done..|]. destruct (user_task_kept old H Hau Hob Hot) as (new' & Hnew' & He); [by left|].
  rewrite Hid, by_id_block in Hnew' by done. by simplify_eq.
Qed.

End guards.

(** ** Histories of writes *)

(** Reports reachable by writes of anyone but the user that passed the guard; the ids of a stored
    report are distinct. *)
Inductive guarded_writes (before : list ReportBlock) : list ReportBlock → Prop :=
| gw_start : NoDup (rb_id <$> before) → guarded_writes before before
| gw_write mid after author deleted :
    guarded_writes before mid → NoDup (rb_id <$> after) → author ≠ Author_User →
    guard_task_declarations mid after author deleted = Ok tt → guarded_writes before after.

Lemma guarded_writes_NoDup before after : guarded_writes before after → NoDup (rb_id <$> after).
Proof. by destruct 1. Qed.

Lemma block_eqb_user_owned a b : block_eqb a b = true → is_task a = is_task b ∧ (∀ f, string_field a f = string_field b f).
Proof.
  rewrite block_eqb_spec. intros (_ & Hk & _ & Hp). split; [unfold is_task; by rewrite Hk|]. intros f.
  unfold string_field, field. revert Hp. destruct (rb_payload a) as [| | | | | |fields], (rb_payload b) as [| | | | | |fields']; try done.
  cbn [json_eqb json_get]. revert fields'. induction fields as [|[k v] fields IH]; intros [|[k' v'] fields']; try done.
  rewrite !andb_true_iff, bool_decide_eq_true. intros [[-> Hv] Hf]. cbn [assoc]. case_bool_decide; [|by apply IH].
  cbn. destruct v, v'; try done. cbn [json_eqb] in Hv. by apply bool_decide_eq_true in Hv as ->.
Qed.

(** Equal, as the code compares blocks. *)
Definition same_block (a b : ReportBlock) : Prop := a = b ∨ block_eqb a b = true.

Lemma same_block_trans a b c : same_block a b → same_block b c → same_block a c.
Proof. intros [->|H1] [->|H2]; [by left|by right|by right|right; by eapply block_eqb_trans]. Qed.

Lemma same_block_task a b : same_block a b → is_task a = is_task b ∧ (∀ f, string_field a f = string_field b f).
Proof. intros [->|H]; [done|by apply block_eqb_user_owned]. Qed.

(** Through such a history the user's tasks stay, and none is added in the user's name. *)
Lemma guarded_writes_seal before after :
  guarded_writes before after →
  (∀ old, old ∈ before → is_task old = true → user_owned old → ∃ new, new ∈ after ∧ same_block new old) ∧
  (∀ new, new ∈ after → is_task new = true → string_field new "declared_by" = Some (lit "user") →
   ∃ old, old ∈ before ∧ same_block new old).
Proof.
  induction 1 as [Hnd|mid after author deleted Hw [IHold IHnew] Hnd Hau Hg].
  - split; [intros b Hin _ _|intros b Hin _ _]; exists b; (split; [done|by left]).
  - split.
    + intros old Hin Ht Hown. destruct (IHold old Hin Ht Hown) as (m & Hm & Hs).
      destruct (same_block_task _ _ Hs) as [Htm Hf].
      destruct (user_task_kept mid after author deleted m Hg Hau Hm) as (new & Hnew & He);
        [congruence|unfold user_owned in *; by rewrite !Hf|].
      apply by_id_in in Hnew as [Hnew _]. exists new. split; [done|]. eapply same_block_trans; [by right|done].
    + intros new Hin Ht Hd.
      destruct (user_task_was_there mid after author deleted Hnd new Hg Hau Hin Ht Hd) as (m & Hm & Htm & Hdm & He).
      destruct (IHnew m Hm Htm Hdm) as (old & Hold & Hs). exists old. split; [done|].
      eapply same_block_trans; [by right|done].
Qed.


(** ** Changes *)
Lemma task_block_changes_written before after b :
  b ∈ after → is_task b = true →
  (∃ old, by_id (filter (λ b, is_task b = true) before) !! rb_id b = Some old ∧ json_eqb (rb_payload old) (rb_payload b) = true) ∨
  Change_Added b ∈ task_block_changes before after ∨ Change_Changed b ∈ task_block_changes before after.
Proof.
  intros Hin Ht. unfold task_block_changes. rewrite !elem_of_app, !list_elem_of_omap.
  destruct (by_id (filter (λ b, is_task b = true) before) !! rb_id b) as [old|] eqn:Hold.
  - destruct (json_eqb (rb_payload old) (rb_payload b)) eqn:He; [left; eauto|].
    right. right. left. exists b. split; [by apply list_elem_of_filter|]. unfold written_change. by rewrite Hold, He.
  - right. left. left. exists b. split; [by apply list_elem_of_filter|]. unfold written_change. by rewrite Hold.
Qed.

(** An assistant's write leaves the task declarations as it found them: the same task blocks, live or
    retired, each with its payload. *)
Theorem assistant_leaves_tasks before after deleted :
  guard_task_declarations before after Author_Assistant deleted = Ok tt →
  (∀ new, new ∈ after → is_task new = true →
   ∃ old, old ∈ before ∧ is_task old = true ∧ rb_id old = rb_id new ∧ json_eqb (rb_payload old) (rb_payload new) = true) ∧
  (∀ old, old ∈ before → is_task old = true → ∃ new, new ∈ after ∧ is_task new = true ∧ rb_id new = rb_id old).
Proof.
  intros Hg. apply guard_parts in Hg as (_ & _ & Hc & _). specialize (Hc eq_refl). split.
  - intros new Hin Ht. destruct (task_block_changes_written before after new Hin Ht) as [(old & Hold & He)|Hch].
    + apply by_id_in in Hold as [[Hto Hob]%list_elem_of_filter Hid]. eauto 6.
    + rewrite Hc in Hch. by destruct Hch as [?%elem_of_nil|?%elem_of_nil].
  - intros old Hin Ht. unfold task_block_changes in Hc. apply app_eq_nil in Hc as [_ Hc]. apply fmap_nil_inv in Hc.
    destruct (by_id (filter (λ b, is_task b = true) after) !! rb_id old) as [new|] eqn:Hnew.
    + apply by_id_in in Hnew as [[Htn Hna]%list_elem_of_filter Hid]. eauto.
    + exfalso. assert (old ∈ filter (λ b, is_task b = true ∧ by_id (filter (λ b, is_task b = true) after) !! rb_id b = None) before) as Hx
        by (by apply list_elem_of_filter).
      rewrite Hc in Hx. by apply elem_of_nil in Hx.
Qed.

(** ** Gates *)
(** A character the shell scan takes as it is. *)
Definition plain_char (c : N) : bool :=
  negb (bool_decide (c ∈ [single_quote; backslash; double_quote; 36; 96; 32; 9; 35; 124; 38; 59; newline; 62; 60; 40; 41; 123; 125; 42; 63; 91; 126]%N)).

Lemma scan_plain c rest st :
  plain_char c = true → sh_words st = [] → sh_quote st = None → scan_words (c :: rest) st = scan_words rest (start_char st c).
Proof.
  unfold plain_char. rewrite negb_true_iff, bool_decide_eq_false. intros Hc Hw Hq. cbn [scan_words]. rewrite Hw, Hq.
  rewrite !not_elem_of_cons in Hc. destruct Hc as (H1 & H2 & H3 & Hc).
  rewrite bool_decide_eq_false_2 by done. rewrite !(proj2 (N.eqb_neq _ _)) by done. cbn [andb].
  repeat (rewrite bool_decide_eq_false_2 by (rewrite !not_elem_of_cons; split_and!; try apply not_elem_of_nil; tauto)).
  assert ((c =? 35)%N = false) as -> by (apply N.eqb_neq; tauto). cbn [andb].
  rewrite (bool_decide_eq_false_2 (None ≠ None)) by (intros H; by apply H).
  repeat (rewrite bool_decide_eq_false_2 by (rewrite !not_elem_of_cons; split_and!; try apply not_elem_of_nil; tauto)).
  done.
Qed.

Lemma scan_plain_word w rest st :
  forallb plain_char w = true → sh_words st = [] → sh_quote st = None →
  scan_words (w ++ rest) st =
  scan_words rest (mkShell [] (sh_word st ++ w) (negb (is_empty w) || sh_started st) (sh_plain st) None (sh_redirect st)).
Proof.
  revert st. induction w as [|c w IH]; intros st Hw Hs Hq.
  - cbn [app is_empty negb orb]. rewrite app_nil_r. destruct st; cbn in *. by subst.
  - cbn [forallb] in Hw. apply andb_true_iff in Hw as [Hc Hw]. cbn [app].
    rewrite scan_plain, IH by done. cbn. rewrite <-app_assoc. by destruct (is_empty w).
Qed.

Lemma literal_word_read w sep rest :
  w ≠ [] → forallb plain_char w = true → sep = 32%N ∨ sep = 9%N → first_literal_word (w ++ sep :: rest) = Some w.
Proof.
  intros Hne Hw Hsep. unfold first_literal_word. rewrite scan_plain_word by done. cbn [sh_word sh_started sh_plain sh_redirect app].
  assert (is_empty w = false) as -> by (by destruct w). cbn [negb orb].
  assert (∀ st, sh_words st = [w] → sh_quote st = None → sh_started st = false → sh_redirect st = false →
    scan_words rest st = Some w) as Hdone.
  { intros st Hs Hq Hst Hr. destruct rest as [|c rest]; cbn [scan_words]; [|by rewrite Hs].
    unfold finish_scan, finish_word. by rewrite Hq, Hst, Hr, Hs. }
  destruct Hsep as [-> | ->]; by apply Hdone.
Qed.

Lemma changed_gate_checked before after author deleted b :
  guard_task_declarations before after author deleted = Ok tt → b ∈ after → task_block_is_live b = true →
  (∃ old, old ∈ before ∧ is_task old = true ∧ rb_id old = rb_id b ∧ json_eqb (rb_payload old) (rb_payload b) = true) ∨
  check_gate b = Ok tt.
Proof.
  intros Hg Hin Hl. assert (is_task b = true) as Ht by (rewrite live_iff in Hl; by apply andb_true_iff in Hl as [? _]).
  apply guard_parts in Hg as (_ & _ & _ & Hc). unfold check_changed_task_gates in Hc. rewrite each_ok_Ok in Hc.
  destruct (task_block_changes_written before after b Hin Ht) as [(old & Hold & He)|Hch].
  - left. apply by_id_in in Hold as [[Hto Hob]%list_elem_of_filter Hid]. eauto 6.
  - right. apply Hc, list_elem_of_omap. destruct Hch as [Hch|Hch]; eexists; (split; [exact Hch|]); cbn; by rewrite Hl.
Qed.

(** No live task whose declaration a write adds or changes has a gate step that starts with the
    kernel's own command line, whatever directory it is called from and whatever follows. *)
Theorem gates_call_no_kernel before after author deleted b steps step dir sep rest :
  guard_task_declarations before after author deleted = Ok tt → b ∈ after → task_block_is_live b = true →
  (∀ old, old ∈ before → is_task old = true → rb_id old = rb_id b → json_eqb (rb_payload old) (rb_payload b) = false) →
  (field b "gate" ≫= λ gate, json_get gate (lit "steps")) ≫= as_array = Some steps → step ∈ steps →
  forallb plain_char dir = true → (dir = [] ∨ ∃ p, dir = p ++ [47%N]) → sep = 32%N ∨ sep = 9%N →
  json_get step (lit "cmd") ≠ Some (JString (dir ++ lit "neige" ++ sep :: rest)).
Proof.
  intros Hg Hin Hl Hchanged Hsteps Hstep Hdir Hslash Hsep Hcmd.
  destruct (changed_gate_checked _ _ _ _ b Hg Hin Hl) as [(old & Hob & Hto & Hid & He)|Hc].
  { by rewrite (Hchanged old Hob Hto Hid) in He. }
  unfold check_gate in Hc. rewrite Hsteps in Hc. rewrite each_ok_Ok in Hc. apply list_elem_of_lookup in Hstep as [i Hi].
  specialize (Hc (i, step)). rewrite refuse_if_Ok in Hc. cbn [fst snd] in Hc. rewrite Hcmd in Hc.
  cbn [mbind option_bind json_as_str] in Hc.
  assert (direct_kernel_cli (dir ++ lit "neige" ++ sep :: rest) = true) as Hk.
  { unfold direct_kernel_cli. rewrite app_assoc, literal_word_read; [| | |done].
    - destruct Hslash as [->|[p ->]]; [done|].
      rewrite <-app_assoc. cbn [app]. by rewrite rsplit_once_char by char_absent.
    - by destruct dir.
    - by rewrite forallb_app, Hdir. }
  rewrite Hk in Hc. apply (diff_true_false), Hc. apply list_elem_of_lookup. exists i.
  apply lookup_zip_Some. split; [|done]. apply lookup_seq. split; [done|]. by eapply lookup_lt_Some.
Qed.

(** ** Objectives *)
Section objectives.
Context `{Serde : SerdeText} `{Rules : PayloadRules}.

Definition objectives (l : list ReportBlock) : list ReportBlock := filter (λ b, is_objective b = true) l.

Lemma objective_keys_spec seen (l : list ReportBlock) keys :
  objective_keys seen l = Ok keys →
  ∃ ks, Forall2 (λ b k, validate_payload KIND_OBJECTIVE (rb_payload b) = Ok tt ∧ parse_objective (rb_payload b) = Ok k) l ks ∧
        NoDup ks ∧ (∀ k, k ∈ ks → k ∉ seen).
Proof.
  revert seen. induction l as [|b l IH]; intros seen H; cbn [objective_keys] in H.
  - exists []. split_and!; [constructor|constructor|by intros ? ?%elem_of_nil].
  - destruct (validate_payload _ _) as [[]|] eqn:Hv; [|done]. cbn [result_bind] in H.
    destruct (parse_objective _) as [k|] eqn:Hk; [|done]. cbn [result_bind] in H.
    case_bool_decide as Hs; [done|]. destruct (IH _ H) as (ks & Hks & Hnd & Hseen). exists (k :: ks). split_and!.
    + by constructor.
    + constructor; [|done]. intros Hin. apply (Hseen k Hin). set_solver.
    + intros x [->|Hx]%elem_of_cons; [done|]. specialize (Hseen x Hx). set_solver.
Qed.

Lemma guard_objective_parts before after author :
  guard_objective_blocks before after author = Ok tt →
  (∃ keys, objective_blocks after = Ok keys) ∧
  (∀ old, old ∈ objectives before → check_objective_in_place after old = Ok tt) ∧
  (author ≠ Author_Planner → author ≠ Author_User →
   length (objectives before) = length (objectives after) ∧
   ∀ a, a ∈ objectives before → ∃ b, b ∈ objectives after ∧ unchanged_objective a b = true).
Proof.
  unfold guard_objective_blocks. destruct (objective_blocks after) as [keys|e]; [|done]. cbn [bad_request result_bind].
  rewrite !result_then_Ok, !each_ok_Ok. intros (Hold & Hnew & Hau). split_and!; [eauto|exact Hold|]. intros Hp Hu.
  assert (refuse_if (bool_decide (length (objectives before) ≠ length (objectives after))
                 || existsb (λ a, negb (existsb (unchanged_objective a) (objectives after))) (objectives before))
        (lit "only Planner and User may create, modify or delete objective blocks") = Ok tt) as H by (by destruct author).
  rewrite refuse_if_Ok, orb_false_iff, bool_decide_eq_false in H. destruct H as [Hlen Hex].
  split; [by apply dec_stable|]. intros a Ha.
  destruct (existsb (unchanged_objective a) (objectives after)) eqn:He.
  - apply existsb_exists in He as (b & Hb & He). exists b. by rewrite list_elem_of_In.
  - exfalso. apply not_true_iff_false in Hex. apply Hex, existsb_exists. exists a. rewrite <-list_elem_of_In, He. done.
Qed.

(** C29: a stored report has at most one objective under each key and every one is a definition; an
    objective keeps its key and kind in place; and a write by anyone but the planner and the user
    leaves the objectives exactly as they were: the same ids, each with the same canonical payload. *)
Theorem objectives_guarded before after author :
  NoDup (rb_id <$> before) → NoDup (rb_id <$> after) → guard_objective_blocks before after author = Ok tt →
  (∃ keys, Forall2 (λ b k, validate_payload KIND_OBJECTIVE (rb_payload b) = Ok tt ∧ parse_objective (rb_payload b) = Ok k)
             (objectives after) keys ∧ NoDup keys) ∧
  (∀ old new, old ∈ objectives before → new ∈ after → rb_id new = rb_id old →
     is_objective new = true ∧ value_eqb (field new "key") (field old "key") = true) ∧
  (author ≠ Author_Planner → author ≠ Author_User →
   rb_id <$> objectives before ≡ₚ rb_id <$> objectives after ∧
   ∀ old new, old ∈ objectives before → new ∈ objectives after → rb_id new = rb_id old →
     canonical_json (rb_payload new) = canonical_json (rb_payload old)).
Proof.
  intros Hnb Hna H. apply guard_objective_parts in H as ((keys & Hk) & Hplace & Hau). split_and!.
  - apply objective_keys_spec in Hk as (ks & Hks & Hnd & _). eauto.
  - intros old new Hold Hnew Hid. specialize (Hplace old Hold). unfold check_objective_in_place in Hplace.
    destruct (list_find (λ b, rb_id b = rb_id old) after) as [[i b]|] eqn:Hf.
    + apply list_find_Some in Hf as (Hi & Hb & _). assert (b = new) as ->.
      { apply list_elem_of_lookup in Hnew as [j Hj]. assert (i = j) as ->; [|by simplify_eq].
        eapply (NoDup_lookup (rb_id <$> after)); [done|by rewrite list_lookup_fmap, Hi|]. rewrite list_lookup_fmap, Hj. simpl. congruence. }
      cbn [fmap option_fmap option_map snd] in Hplace. rewrite refuse_if_Ok, orb_false_iff, bool_decide_eq_false, negb_false_iff in Hplace.
      destruct Hplace as [Hkind Hkey]. apply dec_stable in Hkind. split; [|exact Hkey].
      apply list_elem_of_filter in Hold as [Ho _]. unfold is_objective in *. by rewrite Hkind.
    + apply list_find_None in Hf. rewrite Forall_forall in Hf. by destruct (Hf new Hnew).
  - intros Hp Hu. destruct (Hau Hp Hu) as [Hlen Hall].
    assert (∀ l, NoDup (rb_id <$> l) → NoDup (rb_id <$> objectives l)) as Hndf.
    { intros l Hl. eapply sublist_NoDup; [exact Hl|]. apply fmap_sublist, sublist_filter. }
    assert (∀ a, a ∈ objectives before → ∃ b, b ∈ objectives after ∧ rb_id a = rb_id b ∧ canonical_json (rb_payload a) = canonical_json (rb_payload b)) as Hu'.
    { intros a Ha. destruct (Hall a Ha) as (b & Hb & He). unfold unchanged_objective in He.
      rewrite !andb_true_iff, !bool_decide_eq_true in He. exists b. tauto. }
    split.
    + apply submseteq_length_Permutation; [|by rewrite !length_fmap, Hlen].
      apply NoDup_submseteq; [by apply Hndf|]. intros id (a & -> & Ha)%list_elem_of_fmap.
      destruct (Hu' a Ha) as (b & Hb & -> & _). by apply list_elem_of_fmap_2.
    + intros old new Hold Hnew Hid. destruct (Hu' old Hold) as (b & Hb & Hidb & ->). do 2 f_equal.
      apply list_elem_of_lookup in Hb as [i Hi]. apply list_elem_of_lookup in Hnew as [j Hj].
      assert (i = j) as ->; [|by simplify_eq].
      eapply (NoDup_lookup (rb_id <$> objectives after)); [by apply Hndf|by rewrite list_lookup_fmap, Hi|].
      rewrite list_lookup_fmap, Hj. simpl. congruence.
Qed.
End objectives.
