(* ===== verification/Sections.v ===== *)
(** * The H1 sections of a report, and its contract header

    [crates/calm-report/src/sections.rs]: a section is an H1 block with every block after it
    up to the next H1; task and objective blocks stand in no section.
    [crates/calm-types/src/report_contract.rs]: the header line a report may start with,
    rewritten to one canonical form. [serde_json] on a header is a parameter. *)

From stdpp Require Import prelude strings list gmap sorting.
From S2P Require Import Prelude Text Slices Identity Blocks Align DocStore ReportDoc.

Local Open Scope calm_scope.

(** The first line, and the rest from its newline on. *)
Definition split_first_line (body : str) : str * str :=
  match split_once [newline] body with
  | Some (first, rest) => (first, newline :: rest)
  | None => (body, [])
  end.

(** ** Sections *)
Definition h1_title (text : str) : option str :=
  trim_end <$> strip_prefix (lit "# ") (split_first_line text).1.

Definition block_h1_title (block : ReportBlock) : option str :=
  if bool_decide (rb_kind block ≠ KIND_PROSE) then None
  else (json_get (rb_payload block) (lit "markdown") ≫= json_as_str) ≫= h1_title.

(** [span] is [first..last]. *)
Record Section_ := mkSection { sec_title : str; sec_first : nat; sec_last : nat; sec_members : list nat }.

Definition member_blocks (blocks : list ReportBlock) (section : Section_) : list ReportBlock :=
  omap (λ index, blocks !! index) (sec_members section).

Definition h1_starts (blocks : list ReportBlock) : list (nat * str) :=
  omap (λ entry : nat * ReportBlock, pair entry.1 <$> block_h1_title entry.2) (zip (seq 0 (length blocks)) blocks).

Definition is_member (blocks : list ReportBlock) (index : nat) : bool :=
  match blocks !! index with Some block => in_sections (rb_kind block) | None => false end.

Definition sections (blocks : list ReportBlock) : list Section_ :=
  let starts := h1_starts blocks in
  imap (λ n start,
    let last := match starts !! S n with Some next => next.1 | None => length blocks end in
    mkSection start.2 start.1 last (filter (λ index, is_member blocks index = true) (range start.1 last))) starts.

Inductive SectionError := Section_Unknown (name : str) | Section_Duplicate (name : str) (ids : list str).

Definition find_section (blocks : list ReportBlock) (name : str) : result (option Section_) SectionError :=
  match filter (λ section, sec_title section = name) (sections blocks) with
  | [] => Ok None
  | [section] => Ok (Some section)
  | found =>
      Err (Section_Duplicate name (omap (λ section, rb_id <$> blocks !! sec_first section) found))
  end.

Fixpoint choose_sections (blocks : list ReportBlock) (chosen : list bool) (names : list str)
  : result (list bool) SectionError :=
  match names with
  | [] => Ok chosen
  | name :: names =>
      let? found := find_section blocks name in
      match found with
      | None => Err (Section_Unknown name)
      | Some section => choose_sections blocks (foldl (λ c index, <[index := true]> c) chosen (sec_members section)) names
      end
  end.

Definition section_block_ids (blocks : list ReportBlock) (names : list str) : result (list str) SectionError :=
  let? chosen := choose_sections blocks (replicate (length blocks) false) names in
  Ok (omap (λ e : ReportBlock * bool, if e.2 then Some (rb_id e.1) else None) (zip blocks chosen)).

Definition section_error_message (blocks : list ReportBlock) (error : SectionError) : str :=
  match error with
  | Section_Unknown name =>
      let listed := (λ section, lit "  # " ++ sec_title section) <$> sections blocks in
      if is_empty listed then lit "unknown section `" ++ name ++ lit "`; this report has no H1 sections"
      else lit "unknown section `" ++ name ++ lit "`; this report's sections are:" ++ [newline] ++ join [newline] listed
  | Section_Duplicate name ids =>
      lit "section `" ++ name ++ lit "` is ambiguous: " ++ show_N (N.of_nat (length ids))
      ++ lit " H1 blocks carry it (" ++ join (lit ", ") ids ++ lit "); address its blocks by id"
  end.

(** ** The contract header *)
Definition HEADER_OPEN : str := lit "<!-- neige:contract ".
Definition HEADER_CLOSE : str := lit " -->".

Record ContractSection := mkContractSection { cs_h1 : str; cs_omit_if_empty : bool }.
Record ContractHeader := mkContractHeader { ch_version : N; ch_sections : list ContractSection }.

#[export] Instance ContractSection_eq_dec : EqDecision ContractSection.
Proof. solve_decision. Defined.
#[export] Instance ContractHeader_eq_dec : EqDecision ContractHeader.
Proof. solve_decision. Defined.

Inductive HeaderError :=
| Header_Malformed (message : str)
| Header_Misplaced (line : nat)
| Header_Duplicate
| Header_ContractCommentUnclosed
| Header_Internal (message : str).

(** [serde_json::to_string] and [from_str] of a header. *)
Class HeaderSerde := {
  header_to_string : ContractHeader → str;
  header_from_str : str → result ContractHeader str;
}.

(** [rfind] of a text: what is before and after its last occurrence. *)
Fixpoint rsplit_text (p s : str) : option (str * str) :=
  match s with
  | [] => if is_empty p then Some ([], []) else None
  | c :: s' =>
      match rsplit_text p s' with
      | Some (before, after) => Some (c :: before, after)
      | None => match strip_prefix p s with Some after => Some ([], after) | None => None end
      end
  end.

(** The messages leave out the values the code quotes with [{:?}]. *)
Section contract.
Context `{HeaderJson : HeaderSerde}.

Definition canonical_line (header : ContractHeader) : str := HEADER_OPEN ++ header_to_string header ++ HEADER_CLOSE.

Definition malformed_header {A} (message : str) : result A HeaderError := Err (Header_Malformed message).

Fixpoint validate_sections (sections : list ContractSection) : result unit HeaderError :=
  match sections with
  | [] => Ok tt
  | section :: sections =>
      let h1 := cs_h1 section in
      if is_empty h1 then malformed_header (lit "a section `h1` is empty")
      else if contains_char (λ c, (c =? 10) || (c =? 13))%N h1 then malformed_header (lit "section `h1` spans more than one line")
      else if starts_with (lit "#") h1 then malformed_header (lit "section `h1` must be the heading text, not the `# ` line")
      else if contains (lit "-->") h1 || contains (lit "<!--") h1 then
        malformed_header (lit "section `h1` contains an HTML comment delimiter")
      else validate_sections sections
  end.

Definition validate_decoded (header : ContractHeader) : result unit HeaderError :=
  if negb (ch_version header =? 1)%N then
    malformed_header (lit "unsupported contract version " ++ show_N (ch_version header) ++ lit " (this kernel speaks version 1)")
  else if is_empty (ch_sections header) then malformed_header (lit "`sections` must name at least one section")
  else validate_sections (ch_sections header).

Definition parse_rest_once (rest : str) : result ContractHeader HeaderError :=
  match rsplit_text HEADER_CLOSE rest with
  | None => malformed_header (lit "missing the closing ` -->`")
  | Some (json, tail) =>
      if negb (is_blank tail) then malformed_header (lit "trailing text after the closing `-->`")
      else if contains (lit "-->") json then
        malformed_header (lit "the header JSON contains `-->`, which would close the HTML comment early")
      else
        let? header := match header_from_str json with Ok h => Ok h | Err m => malformed_header m end in
        let? _ := validate_decoded header in
        Ok header
  end.

(** A header that does not come back from its canonical form is refused. *)
Definition parse_rest (rest : str) : result ContractHeader HeaderError :=
  let? header := parse_rest_once rest in
  match parse_rest_once <$> strip_prefix HEADER_OPEN (canonical_line header) with
  | Some (Ok same) =>
      if bool_decide (same = header) then Ok header
      else malformed_header (lit "the header does not survive canonicalisation")
  | _ => malformed_header (lit "the header does not survive canonicalisation")
  end.

Definition parse_line (line : str) : option (result ContractHeader HeaderError) :=
  parse_rest <$> strip_prefix HEADER_OPEN line.

Definition normalize_header (body : str) : result str HeaderError :=
  let '(first, rest) := split_first_line body in
  match parse_line first with
  | None => Ok body
  | Some (Err error) => Err error
  | Some (Ok header) =>
      let canonical := canonical_line header in
      if bool_decide (first = canonical) then Ok body else Ok (canonical ++ rest)
  end.

(** ** The check of a stored body *)

(** [body.split('\n')]. *)
Fixpoint split_lines (s : str) : list str :=
  match s with
  | [] => [[]]
  | c :: s =>
      if (c =? newline)%N then [] :: split_lines s
      else match split_lines s with [] => [[c]] | l :: ls => (c :: l) :: ls end
  end.

Definition comment_line (is_open : bool) (line : str) : bool :=
  if is_open then negb (contains (lit "-->") line)
  else match strip_prefix (lit "<!--") (skip_while (λ c, (c =? 32) || (c =? 9))%N line) with
       | Some after_open => negb (contains (lit "-->") after_open)
       | None => false
       end.

Definition block0_ends_inside_a_comment (block0 : str) : bool := foldl comment_line false (split_lines block0).

Definition check_document `{Serde : SerdeText} (body : str) : result (option ContractHeader) HeaderError :=
  match filter (λ e : nat * str, starts_with HEADER_OPEN e.2 = true) (zip (seq 0 (length (split_lines body))) (split_lines body)) with
  | [] => Ok None
  | [(index, first)] =>
      if negb (index =? 0) then Err (Header_Misplaced (S index))
      else
        let? header := default (Err (Header_Internal (lit "a line that starts with HEADER_OPEN was not recognised as a header")))
                         (parse_line first) in
        if bool_decide (first ≠ canonical_line header) then
          Err (Header_Internal (lit "non-canonical header reached the funnel"))
        else if block0_ends_inside_a_comment (default [] (head (split_body body))) then Err Header_ContractCommentUnclosed
        else Ok (Some header)
  | _ => Err Header_Duplicate
  end.
End contract.

(** ** Sections partition a report, and headers have one form *)

(** ** Spans *)
Lemma StronglySorted_lookup_lt {A} (R : A → A → Prop) (l : list A) i j x y :
  StronglySorted R l → l !! i = Some x → l !! j = Some y → i < j → R x y.
Proof.
  intros Hs. revert i j. induction Hs as [|z l Hs IH Hz]; intros i j Hi Hj Hlt; [done|].
  destruct j as [|j]; [lia|]. cbn in Hj. destruct i as [|i]; cbn in Hi.
  - simplify_eq. rewrite Forall_forall in Hz. apply Hz. by eapply list_elem_of_lookup_2.
  - apply (IH i j); [done|done|lia].
Qed.

Lemma elem_of_h1_starts (blocks : list ReportBlock) i t :
  (i, t) ∈ h1_starts blocks ↔ ∃ b, blocks !! i = Some b ∧ block_h1_title b = Some t.
Proof.
  unfold h1_starts. rewrite list_elem_of_omap. split.
  - intros ([j b] & Hin & Ht). cbn [fst snd] in Ht. destruct (block_h1_title b) as [u|] eqn:Hb; [|done]. simplify_eq/=.
    apply list_elem_of_lookup in Hin as [k Hk]. apply lookup_zip_Some in Hk as [[-> Hlt]%lookup_seq Hb']. eauto.
  - intros (b & Hi & Hb). exists (i, b). split; [|cbn; by rewrite Hb]. apply list_elem_of_lookup. exists i.
    apply lookup_zip_Some. split; [|done]. apply lookup_seq. split; [done|]. by eapply lookup_lt_Some.
Qed.

Lemma omap_zip_sorted (f : nat * ReportBlock → option (nat * str)) k (l : list ReportBlock) :
  (∀ e x, f e = Some x → x.1 = e.1) →
  StronglySorted (λ p q : nat * str, p.1 < q.1) (omap f (zip (seq k (length l)) l)) ∧
  Forall (λ p, k ≤ p.1) (omap f (zip (seq k (length l)) l)).
Proof.
  intros Hf. revert k. induction l as [|b l IH]; intros k; [split; constructor|].
  cbn [length seq zip zip_with omap list_omap]. destruct (IH (S k)) as [Hs Hk].
  assert (Forall (λ p, k ≤ p.1) (omap f (zip (seq (S k) (length l)) l))) as Hk'.
  { eapply Forall_impl; [exact Hk|]. intros p; cbv beta. lia. }
  destruct (f (k, b)) as [x|] eqn:Hx; [|by split]. apply Hf in Hx. cbn in Hx. split; constructor; try done.
  - eapply Forall_impl; [exact Hk|]. intros p; cbv beta. lia.
  - lia.
Qed.

Lemma h1_starts_sorted blocks : StronglySorted (λ p q : nat * str, p.1 < q.1) (h1_starts blocks).
Proof.
  apply (omap_zip_sorted _ 0). intros [i b] x. cbn. destruct (block_h1_title b); [|done]. by intros [= <-].
Qed.

(** A section as its start makes it. *)
Definition section_at (blocks : list ReportBlock) (starts : list (nat * str)) (n : nat) (start : nat * str) : Section_ :=
  let last := match starts !! S n with Some next => next.1 | None => length blocks end in
  mkSection start.2 start.1 last (filter (λ index, is_member blocks index = true) (range start.1 last)).

Lemma spans_contiguous (blocks : list ReportBlock) starts :
  StronglySorted (λ p q : nat * str, p.1 < q.1) starts → Forall (λ p, p.1 < length blocks) starts →
  concat ((λ s, range (sec_first s) (sec_last s)) <$> imap (section_at blocks starts) starts)
  = range (default (length blocks) (fst <$> head starts)) (length blocks).
Proof.
  induction starts as [|p starts IH]; intros Hs Hl.
  - cbn. unfold range. by rewrite Nat.sub_diag.
  - apply StronglySorted_inv in Hs as [Hs Hp]. apply Forall_cons in Hl as [Hpl Hl].
    cbn [imap]. rewrite fmap_cons. cbn [concat].
    assert (imap (section_at blocks (p :: starts) ∘ S) starts = imap (section_at blocks starts) starts) as ->.
    { apply imap_ext. intros i x Hi. done. }
    rewrite IH by done. cbn [section_at sec_first sec_last head fmap option_fmap option_map default from_option].
    destruct starts as [|q starts]; cbn [lookup list_lookup head].
    + unfold range. cbn. rewrite Nat.sub_diag. cbn. apply app_nil_r.
    + apply Forall_cons in Hp as [Hpq _]. apply Forall_cons in Hl as [Hql _]. unfold range. cbn.
      replace (length blocks - p.1) with ((q.1 - p.1) + (length blocks - q.1)) by lia. rewrite seq_app.
      do 2 f_equal. lia.
Qed.

Lemma sections_alt blocks : sections blocks = imap (section_at blocks (h1_starts blocks)) (h1_starts blocks).
Proof. done. Qed.

Lemma h1_starts_bound blocks : Forall (λ p, p.1 < length blocks) (h1_starts blocks).
Proof.
  apply Forall_forall. intros [i t] (b & Hi & _)%elem_of_h1_starts. by eapply lookup_lt_Some.
Qed.

(** The sections cut a report at its H1 blocks and lose nothing: their spans follow each other without
    a gap or an overlap from the first H1 block to the end, each starts at a block titled as it is and
    holds no other H1 block, and its members are its blocks outside tasks and objectives, in order. *)
Theorem sections_partition blocks :
  concat ((λ s, range (sec_first s) (sec_last s)) <$> sections blocks)
    = range (default (length blocks) (fst <$> head (h1_starts blocks))) (length blocks) ∧
  ∀ s, s ∈ sections blocks →
    (∃ b, blocks !! sec_first s = Some b ∧ block_h1_title b = Some (sec_title s)) ∧
    (∀ i b, sec_first s < i < sec_last s → blocks !! i = Some b → block_h1_title b = None) ∧
    sec_members s = filter (λ i, is_member blocks i = true) (range (sec_first s) (sec_last s)) ∧
    sec_first s < sec_last s ≤ length blocks.
Proof.
  rewrite sections_alt. split; [apply spans_contiguous; [apply h1_starts_sorted|apply h1_starts_bound]|].
  intros s [n Hn]%list_elem_of_lookup. rewrite list_lookup_imap in Hn.
  destruct (h1_starts blocks !! n) as [[i t]|] eqn:Hst; [|done]. cbn [fmap option_fmap option_map] in Hn. injection Hn as <-.
  cbn [section_at sec_title sec_first sec_last sec_members fst snd].
  assert (∃ b, blocks !! i = Some b ∧ block_h1_title b = Some t) as (b & Hi & Hb)
    by (apply elem_of_h1_starts; by eapply list_elem_of_lookup_2).
  pose proof (h1_starts_sorted blocks) as Hsort. pose proof (h1_starts_bound blocks) as Hbound.
  assert (∀ m j u, n < m → h1_starts blocks !! m = Some (j, u) → i < j) as Hlater.
  { intros m j u Hm Hj. pose proof (StronglySorted_lookup_lt _ _ n m (i, t) (j, u) Hsort Hst Hj Hm). done. }
  split_and!; [eauto| |done| |].
  - intros k c Hk Hc. destruct (block_h1_title c) as [u|] eqn:Hu; [|done]. exfalso.
    assert ((k, u) ∈ h1_starts blocks) as [m Hm]%list_elem_of_lookup by (apply elem_of_h1_starts; eauto).
    destruct (decide (n < m)) as [Hnm|Hnm].
    + destruct (h1_starts blocks !! S n) as [[j v]|] eqn:Hnext.
      * cbn in Hk. destruct (decide (S n = m)) as [<-|Hne]; [rewrite Hnext in Hm; simplify_eq; lia|].
        assert (S n < m) as Hlt by lia.
        pose proof (StronglySorted_lookup_lt _ _ (S n) m (j, v) (k, u) Hsort Hnext Hm Hlt) as H. cbn in H. lia.
      * apply lookup_ge_None in Hnext. apply lookup_lt_Some in Hm. lia.
    + destruct (decide (m = n)) as [->|Hne]; [rewrite Hst in Hm; simplify_eq; lia|].
      assert (m < n) as Hlt by lia.
      pose proof (StronglySorted_lookup_lt _ _ m n (k, u) (i, t) Hsort Hm Hst Hlt) as H. cbn in H. lia.
  - destruct (h1_starts blocks !! S n) as [[j v]|] eqn:Hnext; [apply (Hlater (S n) j v); [lia|done]|by eapply lookup_lt_Some].
  - destruct (h1_starts blocks !! S n) as [[j v]|] eqn:Hnext; [|done]. cbn.
    rewrite Forall_forall in Hbound. assert (j < length blocks) by (apply (Hbound (j, v)); by eapply list_elem_of_lookup_2). lia.
Qed.

(** ** Headers *)
Section contract.
Context `{HeaderJson : HeaderSerde}.

(** Compact JSON escapes control characters. *)
Definition header_text_clean : Prop := ∀ h, newline ∉ header_to_string h.

Lemma canonical_line_clean h : header_text_clean → newline ∉ canonical_line h.
Proof.
  intros Hc. unfold canonical_line. rewrite !not_elem_of_app. split_and!; [by char_absent|apply Hc|by char_absent].
Qed.

Lemma split_first_line_spec body :
  body = (split_first_line body).1 ++ (split_first_line body).2 ∧
  ((split_first_line body).2 = [] ∨ ∃ r, (split_first_line body).2 = newline :: r).
Proof.
  unfold split_first_line. destruct (split_once [newline] body) as [[first rest]|] eqn:Hs.
  - split; [|right; by exists rest]. cbn. revert first rest Hs. induction body as [|c body IH]; intros first rest Hs; [done|].
    cbn [split_once] in Hs. cbn [strip_prefix] in Hs. destruct (N.eqb_spec newline c) as [<-|Hc].
    + by simplify_eq/=.
    + destruct (split_once [newline] body) as [[f r]|]; [|done]. simplify_eq. cbn. f_equal. by apply IH.
  - cbn. rewrite app_nil_r. auto.
Qed.

Lemma split_first_line_app first rest :
  newline ∉ first → rest = [] ∨ (∃ r, rest = newline :: r) → split_first_line (first ++ rest) = (first, rest).
Proof.
  intros Hn [->|[r ->]]; unfold split_first_line.
  - rewrite app_nil_r. destruct (split_once [newline] first) as [[f r]|] eqn:Hs; [|done]. exfalso. apply Hn.
    revert f r Hs. clear. induction first as [|c first IH]; intros f r Hs; [done|]. cbn [split_once strip_prefix] in Hs.
    destruct (N.eqb_spec newline c) as [<-|Hc]; [left|]. right.
    destruct (split_once [newline] first) as [[f' r']|]; [|done]. by eapply IH.
  - by rewrite split_once_char.
Qed.

Lemma parse_line_Some line rest : strip_prefix HEADER_OPEN line = Some rest → parse_line line = Some (parse_rest rest).
Proof. unfold parse_line. by intros ->. Qed.

Lemma parse_rest_same rest h crest :
  parse_rest_once rest = Ok h → strip_prefix HEADER_OPEN (canonical_line h) = Some crest →
  parse_rest rest = Ok h ↔ parse_rest_once crest = Ok h.
Proof.
  intros Ho Hc. unfold parse_rest. rewrite Ho. cbn [result_bind]. rewrite Hc. unfold fmap, option_fmap, option_map.
  destruct (parse_rest_once crest) as [same|e]; [|done]. case_bool_decide as He; [by subst|]. split; [done|]. intros [= ?]. done.
Qed.

Lemma canonical_rest h : ∃ crest, strip_prefix HEADER_OPEN (canonical_line h) = Some crest.
Proof. eexists. unfold canonical_line. apply strip_prefix_app. Qed.

Lemma parse_line_canonical line h : parse_line line = Some (Ok h) → parse_line (canonical_line h) = Some (Ok h).
Proof.
  destruct (strip_prefix HEADER_OPEN line) as [rest|] eqn:Hl; [|unfold parse_line; by rewrite Hl].
  rewrite (parse_line_Some _ _ Hl). intros [= Hr].
  destruct (parse_rest_once rest) as [h'|e] eqn:Ho; [|unfold parse_rest in Hr; by rewrite Ho in Hr].
  assert (h' = h) as ->.
  { unfold parse_rest in Hr. rewrite Ho in Hr. cbn [result_bind] in Hr.
    destruct (parse_rest_once <$> _) as [[same|]|]; [|done..]. case_bool_decide; by simplify_eq. }
  destruct (canonical_rest h) as [crest Hc]. rewrite (parse_line_Some _ _ Hc). f_equal.
  assert (parse_rest_once crest = Ok h) as Hcr by (by apply (parse_rest_same rest h crest)).
  by apply (parse_rest_same crest h crest).
Qed.

(** Rewriting the header line is done once: the rewritten body has the same header in its one canonical
    form, the same text after the first line, and is left alone by a second rewrite; a body without
    a header is left alone at once. *)
Theorem header_normal_form body body' :
  header_text_clean → normalize_header body = Ok body' →
  normalize_header body' = Ok body' ∧ (split_first_line body').2 = (split_first_line body).2 ∧
  match parse_line (split_first_line body).1 with
  | Some r => ∃ h, r = Ok h ∧ (split_first_line body').1 = canonical_line h ∧ parse_line (canonical_line h) = Some (Ok h)
  | None => body' = body
  end.
Proof.
  intros Hclean Hn. unfold normalize_header in Hn. pose proof (split_first_line_spec body) as [Hbody Hrest].
  destruct (split_first_line body) as [first rest] eqn:Hs. cbn [fst snd] in *.
  destruct (parse_line first) as [[h|e]|] eqn:Hp; [|done|].
  - pose proof (parse_line_canonical first h Hp) as Hpc.
    assert (body' = canonical_line h ++ rest) as ->.
    { case_bool_decide as Heq; injection Hn as <-; [by rewrite <-Heq|done]. }
    assert (split_first_line (canonical_line h ++ rest) = (canonical_line h, rest)) as Hs'
      by (apply split_first_line_app; [by apply canonical_line_clean|done]).
    split_and!; [|by rewrite Hs'|exists h; by rewrite Hs'].
    unfold normalize_header. rewrite Hs', Hpc. by rewrite bool_decide_eq_true_2.
  - injection Hn as <-. split_and!; [|by rewrite Hs|done]. unfold normalize_header. by rewrite Hs, Hp.
Qed.
End contract.
