(* ===== verification/GuardSample.v ===== *)
(** * The write guards and the header on concrete reports

    One run of each theorem of [TaskGuardRules] and [Sections] that has hypotheses. *)

From stdpp Require Import prelude strings list gmap.
From S2P Require Import Prelude Text Slices Identity PluginSchema Blocks ReportSample HarnessQueue OperationPhase DocStore ReportDoc TaskGuards TaskGuardRules Sections.

Local Open Scope calm_scope.
#[local] Existing Instance sample_serde.

Definition task_fields (key declared : str) (more : list (str * Json)) : Json :=
  JObject ([(lit "declared_by", JString declared); (lit "key", JString key)] ++ more).
Definition task_block (id key declared : str) (more : list (str * Json)) : ReportBlock :=
  mkReportBlock id KIND_TASK 1 (task_fields key declared more).

Definition spec_task : ReportBlock := task_block (lit "b-s") (lit "plan") (lit "spec") [].
Definition gate_of (cmd : str) : Json := JObject [(lit "steps", JArray [JObject [(lit "cmd", JString cmd)]])].
Definition gated_task (cmd : str) : ReportBlock := task_block (lit "b-g") (lit "test") (lit "spec") [(lit "gate", gate_of cmd)].
Definition note : ReportBlock := mkReportBlock (lit "b-n") KIND_PROSE 0 (JObject [(lit "markdown", JString (lit "hi"))]).


Lemma assistant_leaves_tasks_witness :
  ∃ old, old ∈ [spec_task] ∧ is_task old = true ∧ rb_id old = lit "b-s" ∧
         json_eqb (rb_payload old) (rb_payload spec_task) = true.
Proof.
  refine (proj1 (assistant_leaves_tasks [spec_task] [note; spec_task] [] _) spec_task _ eq_refl); [by vm_compute|].
  right. left.
Defined.

Lemma gates_call_no_kernel_witness :
  json_get (JObject [(lit "cmd", JString (lit "cargo test"))]) (lit "cmd")
  ≠ Some (JString (lit "/bin/" ++ lit "neige" ++ 32%N :: lit "plan")).
Proof.
  apply (gates_call_no_kernel [] [gated_task (lit "cargo test")] Author_Planner [] (gated_task (lit "cargo test"))
           [JObject [(lit "cmd", JString (lit "cargo test"))]]); [by vm_compute|left|done| |by vm_compute|left|by vm_compute| |by left].
  - by intros old ?%elem_of_nil.
  - right. by exists (lit "/bin").
Defined.

(** ** Objectives *)
#[local] Instance sample_rules : PayloadRules := {|
  validate_payload kind payload :=
    match json_get payload (lit "key") with Some (JString _) => Ok tt | _ => Err (lit "key: required") end;
  parse_objective payload :=
    match json_get payload (lit "key") with Some (JString key) => Ok key | _ => Err (lit "key: required") end;
|}.

Definition objective_block (id key : str) : ReportBlock :=
  mkReportBlock id KIND_OBJECTIVE 1 (JObject [(lit "key", JString key)]).

Lemma objectives_guarded_witness :
  rb_id <$> objectives [objective_block (lit "b-1") (lit "a"); note]
  ≡ₚ rb_id <$> objectives [spec_task; objective_block (lit "b-1") (lit "a")].
Proof.
  refine (proj1 (proj2 (proj2 (objectives_guarded [objective_block (lit "b-1") (lit "a"); note]
            [spec_task; objective_block (lit "b-1") (lit "a")] Author_Kernel _ _ _)) _ _)); [| |by vm_compute|done|done].
  all: by vm_compute; repeat constructor; set_solver.
Defined.

(** ** The header *)
Definition sample_header : ContractHeader := mkContractHeader 1 [mkContractSection (lit "Plan") true].

#[local] Instance sample_header_json : HeaderSerde := {|
  header_to_string h := if bool_decide (h = sample_header) then lit "{plan}" else lit "{}";
  header_from_str s := if bool_decide (trim s = lit "{plan}") then Ok sample_header else Err (lit "expected value");
|}.

Lemma header_normal_form_witness :
  normalize_header (canonical_line sample_header ++ newline :: lit "# Plan")
  = Ok (canonical_line sample_header ++ newline :: lit "# Plan").
Proof.
  refine (proj1 (header_normal_form (lit "<!-- neige:contract  {plan} --> " ++ newline :: lit "# Plan") _ _ _)); [|by vm_compute].
  intros h. unfold header_to_string, sample_header_json. case_bool_decide; by char_absent.
Defined.
