(* ===== verification/ReadLedger.v ===== *)
(** * What a session has read of a report

    [crates/calm-server/src/report_read_ledger.rs] over the record of
    [crates/calm-types/src/report_knowledge.rs]: the blocks and sections a session has seen or
    written itself, each at a revision, and whether it has seen the whole report as it stands.
    [track_report/receipt.rs]: what one write changed. *)

From stdpp Require Import prelude strings list gmap sorting.
From S2P Require Import Prelude Text Identity PluginSchema Blocks DocStore ReportDoc Sections.

Local Open Scope calm_scope.

Inductive HistoryRef := History_Commit (commit : str) | History_NotLocated.

Record ReadBlock := mkReadBlock { rk_rev : N; rk_history : HistoryRef }.

Record LastRead := mkLastRead {
  lr_doc_rev : N;
  lr_whole : bool;
  lr_blocks : gmap str ReadBlock;
  lr_sections : gmap str (list (str * N));
}.

#[export] Instance HistoryRef_eq_dec : EqDecision HistoryRef.
Proof. solve_decision. Defined.
#[export] Instance ReadBlock_eq_dec : EqDecision ReadBlock.
Proof. solve_decision. Defined.

(** The blocks a read renders unless it names them ([track_report_read.rs]). *)
Definition listed_blocks (blocks : list ReportBlock) : list ReportBlock :=
  filter (λ b, in_sections (rb_kind b) = true) blocks.

Definition has_id (ids : list str) (b : ReportBlock) : bool := bool_decide (rb_id b ∈ ids).

Definition id_revs (blocks : list ReportBlock) : list (str * N) := (λ b, (rb_id b, rb_rev b)) <$> blocks.

(** A unique title, and evidence for every member. *)
Definition certified (all : list Section_) (blocks : list ReportBlock) (witnessed : ReportBlock → bool) (section : Section_) : bool :=
  bool_decide (length (filter (λ other, sec_title other = sec_title section) all) = 1)
  && forallb witnessed (member_blocks blocks section).

Definition certified_sections (blocks : list ReportBlock) (witnessed : ReportBlock → bool) : gmap str (list (str * N)) :=
  let all := sections blocks in
  foldl (λ m section, <[sec_title section := id_revs (member_blocks blocks section)]> m) ∅
    (filter (λ section, certified all blocks witnessed section = true) all).

(** [blocks.insert] of each block, in order. *)
Definition know_blocks (known : gmap str ReadBlock) (blocks : list ReportBlock) : gmap str ReadBlock :=
  foldl (λ m b, <[rb_id b := mkReadBlock (rb_rev b) History_NotLocated]> m) known blocks.

(** A known block a full read keeps: one that stands in no section, still at the known revision. *)
Definition retained (blocks : list ReportBlock) (id : str) (known : ReadBlock) : bool :=
  existsb (λ b, bool_decide (rb_id b = id) && (rb_rev b =? rk_rev known)%N && negb (in_sections (rb_kind b))) blocks.

Definition record_read (old : option LastRead) (doc_rev : N) (blocks : list ReportBlock) (rendered : list str) : LastRead :=
  let read := default (mkLastRead doc_rev false ∅ ∅) old in
  let seen := has_id rendered in
  let all_seen := forallb seen (listed_blocks blocks) in
  let known := if all_seen then filter (λ e, retained blocks e.1 e.2 = true) (lr_blocks read) else lr_blocks read in
  let old_sections := if all_seen then ∅ else lr_sections read in
  mkLastRead doc_rev (all_seen || lr_whole read && (lr_doc_rev read =? doc_rev)%N)
    (know_blocks known (filter (λ b, seen b = true) blocks))
    (certified_sections blocks seen ∪ old_sections).

(** The report tools show a session its anchor. *)
Definition anchor (read : option LastRead) (current_rev : N) : Json :=
  match read with
  | None => JNull
  | Some r =>
      JObject [(lit "doc_rev", JInt (Z.of_N (lr_doc_rev r)));
               (lit "known_blocks", JInt (Z.of_nat (size (lr_blocks r))));
               (lit "whole", JBool (lr_whole r && (lr_doc_rev r =? current_rev)%N))]
  end.

(** Whether the place of a block in its section is witnessed by the operation or by the old knowledge. *)
Definition placed (old : LastRead) (anchored : bool) (before : list ReportBlock) (written section_output_ids : list str)
    (block : ReportBlock) : bool :=
  let sources := sections before in
  let valid_sources := certified_sections before (λ _, true) in
  has_id section_output_ids block
  || match list_find (λ source, rb_id block ∈ rb_id <$> member_blocks before source) sources with
     | Some (_, source) =>
         match valid_sources !! sec_title source with
         | Some members => bool_decide (lr_sections old !! sec_title source = Some members)
         | None => false
         end
     | None =>
         if bool_decide (rb_id block ∈ rb_id <$> before) then lr_whole old && anchored else has_id written block
     end.

Definition known_at (known : gmap str ReadBlock) (block : ReportBlock) : bool :=
  bool_decide (rk_rev <$> known !! rb_id block = Some (rb_rev block)).

Definition project_commit (old : LastRead) (before_rev : N) (before : list ReportBlock) (after_rev : N) (after : list ReportBlock)
    (written section_output_ids : list str) : LastRead :=
  let anchored := (lr_doc_rev old =? before_rev)%N in
  let remaining :=
    foldl (λ m b, delete (rb_id b) m) (lr_blocks old) (filter (λ b, rb_id b ∉ rb_id <$> after) before) in
  let known := know_blocks remaining (filter (λ b, has_id written b = true) after) in
  let valid_sources := certified_sections before (λ _, true) in
  let certified_now :=
    certified_sections after (λ b, known_at known b && placed old anchored before written section_output_ids b) in
  mkLastRead (if anchored then after_rev else lr_doc_rev old) (lr_whole old && anchored) known
    (certified_now ∪ filter (λ e, valid_sources !! e.1 ≠ Some e.2) (lr_sections old)).

(** ** Evidence of a refusal *)
Record ChangedRevision := mkChangedRevision { ch_id : str; ch_known : option N; ch_current : option N }.

(** The revisions that differ, in document order; then the known blocks that are gone, by id. *)
Fixpoint changed_revisions (known : gmap str N) (current : list ReportBlock) : list ChangedRevision :=
  match current with
  | [] => (λ e, mkChangedRevision e.1 (Some e.2) None) <$> btree_iter known
  | block :: current =>
      let old := known !! rb_id block in
      (if bool_decide (old = Some (rb_rev block)) then []
       else [mkChangedRevision (rb_id block) old (Some (rb_rev block))])
      ++ changed_revisions (delete (rb_id block) known) current
  end.

(** ** The receipt of a write *)
Record BlockChange := mkBlockChange {
  bc_id : str;
  bc_kind : str;
  bc_previous_rev : option N;
  bc_rev : option N;
  bc_position : option nat;
  bc_moved : bool;
}.

Definition changed_block (old : gmap str ReportBlock) (written moved : list str) (position : nat) (block : ReportBlock)
  : option BlockChange :=
  let previous := old !! rb_id block in
  let same := match previous with Some b => block_eqb b block | None => false end in
  if negb same || has_id written block || has_id moved block
  then Some (mkBlockChange (rb_id block) (rb_kind block) (rb_rev <$> previous) (Some (rb_rev block)) (Some position) (has_id moved block))
  else None.

Definition changes (before after : list ReportBlock) (written moved : list str) : list BlockChange :=
  omap (λ e : nat * ReportBlock, changed_block (by_id before) written moved e.1 e.2) (zip (seq 0 (length after)) after)
  ++ ((λ b, mkBlockChange (rb_id b) (rb_kind b) (Some (rb_rev b)) None None false)
      <$> filter (λ b, rb_id b ∉ rb_id <$> after) before).

(** ** The read ledger tells the truth

    A session's [whole] flag at the current document revision means that the session knows
    every listed block at the revision it has; reads establish it, and projecting a commit
    keeps it as long as the commit wrote every block it changed. *)

(** Every block that was not written is an old block, as it was. *)
Definition untouched (before after : list ReportBlock) (written : list str) : Prop :=
  ∀ b, b ∈ after → rb_id b ∉ written → b ∈ before.

Lemma untouched_refl before written : untouched before before written.
Proof. by intros b Hb _. Qed.

Lemma untouched_trans before mid after w1 w2 :
  untouched before mid w1 → untouched mid after w2 → untouched before after (w1 ++ w2).
Proof. intros H1 H2 b Hb Hw. rewrite not_elem_of_app in Hw. apply H1; [apply H2; [done|tauto]|tauto]. Qed.

(** Only the blocks of these ids are gone or changed, and only blocks of these ids were written. *)
Definition rewrites (before after : list ReportBlock) (ids written : list str) : Prop :=
  untouched before after written ∧ ∀ b, b ∈ before → rb_id b ∉ ids → b ∈ after ∧ rb_id b ∉ written.

Lemma rewrites_refl before ids written :
  (∀ id, id ∈ written → id ∈ ids) → rewrites before before ids written.
Proof. intros Hsub. split; [by intros b Hb _|]. intros b Hb Hid. split; [done|]. intros Hw. by apply Hid, Hsub. Qed.

Lemma rewrites_trans before mid after i1 i2 w1 w2 :
  rewrites before mid i1 w1 → rewrites mid after i2 w2 → rewrites before after (i1 ++ i2) (w1 ++ w2).
Proof.
  intros [Hu1 Hs1] [Hu2 Hs2]. split; [by eapply untouched_trans|]. intros b Hb. rewrite !not_elem_of_app. intros [H1 H2].
  destruct (Hs1 b Hb H1) as [Hm Hw1]. destruct (Hs2 b Hm H2) as [Ha Hw2]. done.
Qed.

(** The session has this block at its revision, by itself or as a member of a section. *)
Definition seen (read : LastRead) (b : ReportBlock) : Prop :=
  known_at (lr_blocks read) b = true ∨ ∃ title members, lr_sections read !! title = Some members ∧ (rb_id b, rb_rev b) ∈ members.

(** The session knows every listed block, if it says so. *)
Definition whole_known (read : LastRead) (blocks : list ReportBlock) (rev : N) : Prop :=
  lr_whole read = true → lr_doc_rev read = rev → ∀ b, b ∈ listed_blocks blocks → known_at (lr_blocks read) b = true.

Lemma known_at_iff known b : known_at known b = true ↔ rk_rev <$> known !! rb_id b = Some (rb_rev b).
Proof. apply bool_decide_eq_true. Qed.

Lemma know_blocks_out (known : gmap str ReadBlock) (bs : list ReportBlock) id :
  id ∉ rb_id <$> bs → know_blocks known bs !! id = known !! id.
Proof.
  unfold know_blocks. revert known. induction bs as [|b bs IH]; intros known Hid; [done|].
  rewrite fmap_cons in Hid. apply not_elem_of_cons in Hid as [Hne Hid]. cbn [foldl]. rewrite IH by done.
  by rewrite lookup_insert_ne.
Qed.

Lemma know_blocks_in (known : gmap str ReadBlock) (bs : list ReportBlock) b :
  NoDup (rb_id <$> bs) → b ∈ bs → know_blocks known bs !! rb_id b = Some (mkReadBlock (rb_rev b) History_NotLocated).
Proof.
  unfold know_blocks. revert known. induction bs as [|c bs IH]; intros known Hnd Hb; [by apply elem_of_nil in Hb|].
  rewrite fmap_cons in Hnd. apply NoDup_cons in Hnd as [Hc Hnd]. cbn [foldl].
  apply elem_of_cons in Hb as [->|Hb]; [|by apply IH].
  pose proof (know_blocks_out (<[rb_id c:=mkReadBlock (rb_rev c) History_NotLocated]> known) bs (rb_id c) Hc) as H.
  unfold know_blocks in H. by rewrite H, lookup_insert_eq.
Qed.

Lemma filter_ids_NoDup (P : ReportBlock → Prop) `{∀ b, Decision (P b)} (bs : list ReportBlock) :
  NoDup (rb_id <$> bs) → NoDup (rb_id <$> filter P bs).
Proof. intros Hnd. eapply sublist_NoDup; [exact Hnd|]. apply fmap_sublist, sublist_filter. Qed.

Lemma same_id_same_block (bs : list ReportBlock) b c : NoDup (rb_id <$> bs) → b ∈ bs → c ∈ bs → rb_id b = rb_id c → b = c.
Proof.
  intros Hnd [i Hi]%list_elem_of_lookup [j Hj]%list_elem_of_lookup Hid.
  assert (i = j) as ->; [|by simplify_eq].
  eapply (NoDup_lookup (rb_id <$> bs)); [done|by rewrite list_lookup_fmap, Hi|]. rewrite list_lookup_fmap, Hj. simpl. congruence.
Qed.

(** Knowing some blocks of a list more. *)
Lemma know_more known (bs : list ReportBlock) (P : ReportBlock → Prop) `{∀ b, Decision (P b)} b :
  NoDup (rb_id <$> bs) → b ∈ bs → P b ∨ known_at known b = true → known_at (know_blocks known (filter P bs)) b = true.
Proof.
  intros Hnd Hb Hk. apply known_at_iff. destruct (decide (P b)) as [HP|HP].
  - rewrite know_blocks_in; [done|by apply filter_ids_NoDup|by apply list_elem_of_filter].
  - destruct Hk as [?|Hk]; [done|]. rewrite know_blocks_out; [by apply known_at_iff|].
    intros (c & Hid & [HPc Hc]%list_elem_of_filter)%list_elem_of_fmap.
    by rewrite (same_id_same_block bs b c Hnd Hb Hc Hid) in HP.
Qed.

(** A read tells the truth about the report it read. *)
Lemma read_whole_known old rev blocks rendered :
  NoDup (rb_id <$> blocks) → (∀ read, old = Some read → whole_known read blocks rev) →
  whole_known (record_read old rev blocks rendered) blocks rev.
Proof.
  intros Hnd Hold Hw _ b Hb. cbn [record_read lr_blocks lr_whole] in *.
  pose proof Hb as [_ Hin]%list_elem_of_filter. apply know_more; [done|done|].
  destruct (forallb (has_id rendered) (listed_blocks blocks)) eqn:Hall.
  - left. apply Is_true_eq_left in Hall. rewrite forallb_True, Forall_forall in Hall. by apply Is_true_eq_true, Hall.
  - right. cbn [orb] in Hw. apply andb_true_iff in Hw as [Hw Hr%N.eqb_eq].
    destruct old as [read|]; [|done]. by apply (Hold read eq_refl).
Qed.

Lemma foldl_delete_out (known : gmap str ReadBlock) (gone : list ReportBlock) id :
  id ∉ rb_id <$> gone → foldl (λ m b, delete (rb_id b) m) known gone !! id = known !! id.
Proof.
  revert known. induction gone as [|b gone IH]; intros known Hid; [done|].
  rewrite fmap_cons in Hid. apply not_elem_of_cons in Hid as [Hne Hid]. cbn [foldl]. rewrite IH by done.
  by rewrite lookup_delete_ne.
Qed.

(** A commit that wrote what it changed keeps the flag true. *)
Lemma commit_whole_known old before after rev written outputs :
  NoDup (rb_id <$> after) → untouched before after written → whole_known old before rev →
  whole_known (project_commit old rev before rev after written outputs) after rev.
Proof.
  intros Hnd Hun Hold Hw Hr b Hb. cbn [project_commit lr_blocks lr_whole lr_doc_rev] in *.
  apply andb_true_iff in Hw as [Hw Ha]. pose proof Ha as Ha'%N.eqb_eq.
  apply list_elem_of_filter in Hb as [Hl Hb].
  apply know_more; [done|done|]. destruct (has_id written b) eqn:Hwr; [by left|right].
  apply bool_decide_eq_false in Hwr. specialize (Hun b Hb Hwr).
  apply known_at_iff. rewrite foldl_delete_out.
  - apply known_at_iff, (Hold Hw Ha'). by apply list_elem_of_filter.
  - intros (c & Hid & [Hc _]%list_elem_of_filter)%list_elem_of_fmap. apply Hc. rewrite <-Hid. by apply list_elem_of_fmap_2.
Qed.

Lemma commit_doc_rev old before after rev written outputs :
  lr_doc_rev (project_commit old rev before rev after written outputs) = lr_doc_rev old.
Proof. cbn. by destruct (N.eqb_spec (lr_doc_rev old) rev). Qed.

(** ** A commit shows the session nothing it did not write *)
Lemma certified_member blocks witnessed title members id rev :
  certified_sections blocks witnessed !! title = Some members → (id, rev) ∈ members →
  ∃ b, witnessed b = true ∧ rb_id b = id ∧ rb_rev b = rev.
Proof.
  unfold certified_sections. set (good := filter _ _). intros H Hin.
  assert (∀ l (m : gmap str (list (str * N))), (∀ s, s ∈ l → certified (sections blocks) blocks witnessed s = true) →
    foldl (λ m section, <[sec_title section := id_revs (member_blocks blocks section)]> m) m l !! title = Some members →
    m !! title = Some members ∨ ∃ s, certified (sections blocks) blocks witnessed s = true ∧ members = id_revs (member_blocks blocks s)) as Hfold.
  { clear. intros l. induction l as [|s l IH]; intros m Hl H; [by left|]. cbn [foldl] in H.
    apply IH in H as [H|H]; [|by right|intros x Hx; apply Hl; by right]. destruct (decide (sec_title s = title)) as [<-|Hne].
    - rewrite lookup_insert_eq in H. injection H as <-. right. exists s. split; [apply Hl; left|done].
    - rewrite lookup_insert_ne in H by done. by left. }
  destruct (Hfold good ∅) as [Hn|(s & Hs & ->)]; [by intros s [Hs _]%list_elem_of_filter|done|by rewrite lookup_empty in Hn|].
  apply andb_true_iff in Hs as [_ Hs]. apply Is_true_eq_left in Hs. rewrite forallb_True, Forall_forall in Hs.
  apply list_elem_of_fmap in Hin as (b & [= -> ->] & Hb). exists b. split_and!; [by apply Is_true_eq_true, Hs|done|done].
Qed.

Lemma commit_unseen old before after rev written outputs b :
  rb_id b ∉ written → ¬ seen old b → ¬ seen (project_commit old rev before rev after written outputs) b.
Proof.
  intros Hw Hn. set (known := lr_blocks (project_commit old rev before rev after written outputs)).
  assert (known_at known b ≠ true) as Hk.
  { rewrite known_at_iff. unfold known, project_commit. cbn [lr_blocks]. rewrite know_blocks_out.
    2:{ intros (c & Hid & [Hc _]%list_elem_of_filter)%list_elem_of_fmap. apply bool_decide_eq_true in Hc. by rewrite <-Hid in Hc. }
    assert (∀ gone (m : gmap str ReadBlock), (lr_blocks old !! rb_id b = m !! rb_id b ∨ m !! rb_id b = None) →
      foldl (λ m b, delete (rb_id b) m) m gone !! rb_id b = lr_blocks old !! rb_id b ∨
      foldl (λ m b, delete (rb_id b) m) m gone !! rb_id b = None) as Hfold.
    { clear. intros gone. induction gone as [|c gone IH]; intros m Hm; [destruct Hm; auto|]. cbn [foldl]. apply IH.
      destruct (decide (rb_id c = rb_id b)) as [->|Hne]; [right; apply lookup_delete_eq|by rewrite lookup_delete_ne]. }
    destruct (Hfold (filter (λ b, rb_id b ∉ rb_id <$> after) before) (lr_blocks old) (or_introl eq_refl)) as [->| ->]; [|done].
    intros H. apply Hn. left. by apply known_at_iff. }
  intros [H|(title & members & H & Hin)]; [done|]. cbn [project_commit lr_sections] in H.
  apply lookup_union_Some_raw in H as [H|[_ H]].
  - destruct (certified_member _ _ _ _ _ _ H Hin) as (c & [Hc _]%andb_true_iff & Hid & Hrev).
    apply Hk. rewrite known_at_iff in Hc |- *. by rewrite <-Hid, <-Hrev.
  - apply map_lookup_filter_Some in H as [H _]. apply Hn. right. eauto.
Qed.
