(* ===== verification/ReportError.v ===== *)
(** * Refused report writes

    [crates/calm-server/src/track_report/rejection.rs]: a refusal keeps its plain error and,
    when an anchor failed, what the caller should read again, frozen from the document the
    guard looked at; and the operations a write consists of ([track_report.rs],
    [track_report/intent.rs]). *)

From stdpp Require Import prelude strings list gmap.
From S2P Require Import Prelude Text Identity Blocks OperationPhase DocStore ReportDoc Sections ReadLedger.

Local Open Scope calm_scope.

(** ** Operations *)
Inductive DocAnchor := Anchor_LastRead (doc_rev : N) | Anchor_Unread.
Inductive SectionRead := Section_Seen (members : list (str * N)) | Section_Unseen.

Inductive BatchBlockOp :=
| Batch_Upsert (id : option str) (kind content : str) (if_rev : option N) (position : option nat)
| Batch_Move (id : str) (to_index : nat)
| Batch_Delete (id : str) (if_rev : N)
| Batch_ReplaceSection (section markdown : str) (read : SectionRead)
| Batch_DeleteSection (section : str) (read : SectionRead).

Inductive BlockIntent :=
| Intent_Upsert (id : option str) (kind content : str) (position : option nat)
| Intent_Move (id : str) (to_index : nat)
| Intent_Delete (id : str)
| Intent_ReplaceSection (section markdown : str)
| Intent_DeleteSection (section : str).

Inductive ReportDocOp :=
| Op_AgentBatch (summary : option str) (ops : list BlockIntent)
| Op_AgentWrite (summary : option str) (body : str)
| Op_Replace (summary body : str) (if_doc_rev : N)
| Op_WriteMarkdown (summary : option str) (body : str) (if_doc_rev : N)
| Op_UpsertBlock (id : option str) (kind content : str) (if_rev if_doc_rev : option N) (position : option nat)
| Op_MoveBlock (id : str) (to_index : nat) (if_doc_rev : N)
| Op_DeleteBlock (id : str) (if_rev : N)
| Op_ResetToInitial (if_doc_rev : N)
| Op_Batch (doc_anchor : DocAnchor) (summary : option str) (ops : list BatchBlockOp).

(** ** Refusals *)
Inductive Reason := Reason_NeverRead | Reason_ChangedSince | Reason_WholeRequired | Reason_SupersededSession.
Inductive Scope := Scope_Document | Scope_Whole | Scope_Block (id : str) | Scope_Section (name : str).

Record NextStep := mkNextStep { ns_action : str; ns_blocks : list str; ns_sections : list str; ns_mode : option str }.

Record Witness := mkWitness {
  wt_block_ids : list str;
  wt_sections : list str;
  wt_next_step : NextStep;
  wt_changed : list ChangedRevision;
  wt_doc_rev : N;
}.

Record Evidence := mkEvidence {
  ev_reason_code : Reason;
  ev_report_card_id : str;
  ev_block_ids : list str;
  ev_sections : list str;
  ev_next_step : NextStep;
  ev_changed : list ChangedRevision;
  ev_doc_rev : N;
}.

Inductive ReportError :=
| Report_Other (source : CalmError)
| Report_Anchor (source : CalmError) (reason : Reason) (scope : Scope) (evidence : option Witness)
| Report_Rejected (source : CalmError) (evidence : Evidence)
| Report_Superseded (source : CalmError).

Definition error_source (e : ReportError) : CalmError :=
  match e with
  | Report_Other source | Report_Superseded source | Report_Anchor source _ _ _ | Report_Rejected source _ => source
  end.

Definition anchor_error (source : CalmError) (reason : Reason) (scope : Scope) : ReportError :=
  Report_Anchor source reason scope None.

Definition prefix_step (e : CalmError) (index : nat) : CalmError :=
  let at_index m := lit "ops[" ++ show_N (N.of_nat index) ++ lit "]: " ++ m in
  match e with
  | Calm_Conflict m => Calm_Conflict (at_index m)
  | Calm_BadRequest m => Calm_BadRequest (at_index m)
  | other => other
  end.

Definition at_step (e : ReportError) (index : nat) : ReportError :=
  match e with
  | Report_Other source => Report_Other (prefix_step source index)
  | Report_Anchor source reason scope evidence => Report_Anchor (prefix_step source index) reason scope evidence
  | other => other
  end.

Definition block_op_internal (e : str) : CalmError := Calm_Internal (lit "track_report: block op: " ++ e).

Section freeze.
Context `{Store : Automerge} `{Serde : SerdeText}.

Definition known_block (known : option LastRead) (id : str) : option ReadBlock := known ≫= λ k, lr_blocks k !! id.

Definition read_action : str := lit "read".
Definition revise_action : str := lit "index/revise_target".
Definition full_mode : str := lit "full".

(** The revisions the session has for these ids. *)
Definition known_revs (known : option LastRead) (ids : list str) : gmap str N :=
  foldl (λ m id, match known_block known id with Some b => <[id := rk_rev b]> m | None => m end) ∅ ids.

Definition block_witness (blocks : list ReportBlock) (doc_rev : N) (known : option LastRead) (id : str) : Witness :=
  let current := filter (λ b, rb_id b = id) blocks in
  mkWitness [id] []
    (if is_empty current then mkNextStep revise_action [] [] None else mkNextStep read_action [id] [] None)
    (changed_revisions (known_revs known [id]) current) doc_rev.

Definition section_witness (blocks : list ReportBlock) (doc_rev : N) (known : option LastRead) (name : str) : Witness :=
  let seen := known ≫= λ k, lr_sections k !! name in
  let seen_ids := (default [] seen).*1 in
  let found := find_section blocks name in
  let member_ids := match found with Ok (Some section) => rb_id <$> member_blocks blocks section | _ => [] end in
  let next :=
    match found, seen with
    | Ok (Some _), _ => mkNextStep read_action [] [name] None
    | Ok None, Some _ => mkNextStep read_action [] [] (Some full_mode)
    | _, _ => mkNextStep revise_action [] [] None
    end in
  mkWitness [] [name] next
    (changed_revisions (known_revs known (seen_ids ++ member_ids))
       (filter (λ b, rb_id b ∈ seen_ids ++ member_ids) blocks)) doc_rev.

(** What the session knows, without the blocks of the document that stand in no section. *)
Definition listed_knowledge (blocks : list ReportBlock) (known : option LastRead) : gmap str N :=
  match known with
  | None => ∅
  | Some k =>
      rk_rev <$> filter (λ e : str * ReadBlock,
        match snd <$> list_find (λ b, rb_id b = e.1) blocks with
        | Some b => in_sections (rb_kind b)
        | None => true
        end = true) (lr_blocks k)
  end.

Definition document_witness (blocks : list ReportBlock) (doc_rev : N) (known : option LastRead) (whole : bool) : Witness :=
  let current := listed_blocks blocks in
  let next :=
    if whole then mkNextStep read_action [] [] (Some full_mode)
    else match current with
         | b :: _ => mkNextStep read_action [rb_id b] [] None
         | [] => mkNextStep read_action [] [] (Some full_mode)
         end in
  mkWitness [] [] next (changed_revisions (listed_knowledge blocks known) current) doc_rev.

Definition build_witness (d : AutoCommit) (known : option LastRead) (scope : Scope) : result Witness CalmError :=
  match blocks_snapshot d with
  | Err e => Err (block_op_internal e)
  | Ok blocks =>
      match doc_rev d with
      | Err e => Err (block_op_internal e)
      | Ok rev =>
          Ok (match scope with
              | Scope_Block id => block_witness blocks rev known id
              | Scope_Section name => section_witness blocks rev known name
              | Scope_Document => document_witness blocks rev known false
              | Scope_Whole => document_witness blocks rev known true
              end)
      end
  end.

(** A block the session does not know was never read, whatever the guard said. *)
Definition frozen_reason (known : option LastRead) (reason : Reason) (scope : Scope) : Reason :=
  match scope with
  | Scope_Block id => match known_block known id with Some _ => reason | None => Reason_NeverRead end
  | _ => reason
  end.

Definition freeze (d : AutoCommit) (known : option LastRead) (e : ReportError) : ReportError :=
  match e with
  | Report_Anchor source reason scope None =>
      match build_witness d known scope with
      | Ok evidence => Report_Anchor source (frozen_reason known reason scope) scope (Some evidence)
      | Err e => Report_Other e
      end
  | other => other
  end.

(** ** The identified report *)
Definition push_new (l : list str) (x : str) : list str := if bool_decide (x ∈ l) then l else l ++ [x].

(** The targets of a document-wide refusal are those of the intents. *)
Definition intent_target (acc : list str * list str) (op : BlockIntent) : list str * list str :=
  match op with
  | Intent_Upsert (Some id) _ _ _ | Intent_Move id _ | Intent_Delete id => (push_new acc.1 id, acc.2)
  | Intent_ReplaceSection section _ | Intent_DeleteSection section => (acc.1, push_new acc.2 section)
  | Intent_Upsert None _ _ _ => acc
  end.

Fixpoint revise_missing (d : AutoCommit) (next : NextStep) (ids : list str) : result NextStep str :=
  match ids with
  | [] => Ok next
  | id :: ids =>
      let? rev := block_rev d id in
      revise_missing d (match rev with None => mkNextStep revise_action [] [] None | Some _ => next end) ids
  end.

Definition for_report (e : ReportError) (report : str) (op : ReportDocOp) (d : AutoCommit) : ReportError :=
  match e with
  | Report_Anchor source reason scope (Some w) =>
      let rejected ids sections next :=
        Report_Rejected source (mkEvidence reason report ids sections next (wt_changed w) (wt_doc_rev w)) in
      match scope with
      | Scope_Document =>
          let '(ids, sections) :=
            match op with
            | Op_AgentBatch _ ops => foldl intent_target (wt_block_ids w, wt_sections w) ops
            | _ => (wt_block_ids w, wt_sections w)
            end in
          match revise_missing d (wt_next_step w) ids with
          | Ok next => rejected ids sections next
          | Err e => Report_Other (block_op_internal e)
          end
      | _ => rejected (wt_block_ids w) (wt_sections w) (wt_next_step w)
      end
  | other => other
  end.
End freeze.
