(* ===== verification/ReportWrite.v ===== *)
(** * Writing a report

    [crates/calm-server/src/track_report.rs], [track_report/ops.rs], [sections.rs],
    [intent.rs] and [track_report_guard.rs]: one write of a report, from the operation a caller
    sent to the guarded document with its revision advanced. Agents send intents without
    revisions; each is bound here against what the session last read. An error aborts the
    transaction around the write, so the document it leaves is never stored. *)

From stdpp Require Import prelude strings list gmap.
From S2P Require Import Prelude Text Slices Identity PluginSchema Blocks Align HarnessQueue OperationPhase DocStore ReportDoc TaskGuards Sections ReadLedger ReportError.

Local Open Scope calm_scope.

(** [default.md], the body of a report nobody has written. *)
Class ReportDefaults := { initial_body : str }.

(** ** The effect of a write step *)
Section effect.
Context `{Store : Automerge}.

Definition rep_op (A : Type) : Type := AutoCommit → result A ReportError * AutoCommit.

Definition op_ret {A} (a : A) : rep_op A := λ d, (Ok a, d).
Definition op_fail {A} (e : ReportError) : rep_op A := λ d, (Err e, d).
Definition op_bind {A B} (m : rep_op A) (k : A → rep_op B) : rep_op B :=
  λ d, match m d with (Ok a, d) => k a d | (Err e, d) => (Err e, d) end.

(** A document operation, its error wrapped. *)
Definition of_doc {A} (wrap : str → CalmError) (m : doc_op A) : rep_op A :=
  λ d, match m d with (Ok a, d) => (Ok a, d) | (Err e, d) => (Err (Report_Other (wrap e)), d) end.

Definition of_calm {A} (r : result A CalmError) : rep_op A :=
  λ d, match r with Ok a => (Ok a, d) | Err e => (Err (Report_Other e), d) end.

(** [map_err] with the document as it is at the error. *)
Definition on_error {A} (m : rep_op A) (f : AutoCommit → ReportError → ReportError) : rep_op A :=
  λ d, match m d with (Ok a, d) => (Ok a, d) | (Err e, d) => (Err (f d e), d) end.
End effect.

Notation "'let!' x ':=' m 'in' k" := (op_bind m (λ x, k))
  (at level 10, x name, m at level 100, k at level 200) : calm_scope.

Definition report_internal (what e : str) : CalmError := Calm_Internal (lit "track_report: " ++ what ++ lit ": " ++ e).

(** ** Content rules ([track_report_guard.rs]) *)
Definition header_error_text (e : HeaderError) : str :=
  match e with
  | Header_Malformed m => lit "malformed contract header: " ++ m
  | Header_Misplaced line =>
      lit "contract header must be the first line of the document, found on line " ++ show_N (N.of_nat line)
  | Header_Duplicate => lit "a document carries at most one contract header"
  | Header_ContractCommentUnclosed => lit "an HTML comment in the contract block is never closed"
  | Header_Internal m => lit "internal: " ++ m
  end.

Definition header_bad_request {A} (r : result A HeaderError) : result A CalmError :=
  match r with Ok a => Ok a | Err e => bad (lit "report contract header: " ++ header_error_text e) end.

Section content.
Context `{Serde : SerdeText} `{Rules : PayloadRules} `{HeaderJson : HeaderSerde}.

Definition normalize_prose_content (kind content : str) : result str CalmError :=
  if bool_decide (kind = KIND_PROSE) then header_bad_request (normalize_header content) else Ok content.

Definition check_fence_payload (fence : NonProseFence) : result unit CalmError :=
  match validate_payload (npf_kind fence) (npf_payload fence) with
  | Ok _ => Ok tt
  | Err errors =>
      bad (lit "invalid `" ++ npf_kind fence ++ lit "` block payload: " ++ errors ++ lit " (see neige_report_describe)")
  end.

Definition check_slice_payload (slice : str) : result unit CalmError :=
  match parse_fence slice with Some fence => check_fence_payload fence | None => Ok tt end.

Definition validate_body_fences (body : str) : result unit CalmError :=
  match invalid_neige_fences body with
  | first :: _ =>
      bad (first ++ lit " " ++ dash ++ lit " fix the fence or remove it (see neige_report_describe for payload schemas)")
  | [] => each_ok check_slice_payload (split_body body)
  end.

Definition check_marked_slice (slice : str) : result unit CalmError :=
  match parse_fence slice with
  | Some fence => check_fence_payload fence
  | None => bad_request (check_prose_markdown slice)
  end.

Definition validate_marked_slices (cleaned : str) (slices : list str) : result unit CalmError :=
  let? _ := validate_body_fences cleaned in
  each_ok check_marked_slice slices.

Definition validate_block_content (kind content : str) : result unit CalmError :=
  if bool_decide (kind = KIND_PROSE) then bad_request (check_prose_markdown content)
  else check_slice_payload content.

Definition keeps_block (aligned : list ReportBlock) (old : ReportBlock) : bool :=
  existsb (λ new, bool_decide (rb_id new = rb_id old) && bool_decide (rb_kind new = rb_kind old)
                  && bool_decide (flat_text new = flat_text old)) aligned.

Definition check_keeps (aligned : list ReportBlock) (old : ReportBlock) : result unit CalmError :=
  if keeps_block aligned old then Ok tt
  else bad (lit "this write would modify or delete non-prose block " ++ rb_id old ++ lit " (kind " ++ rb_kind old
            ++ lit ") " ++ dash ++ lit " the prose write/edit path may not touch data blocks; use the block-level endpoints (task deletion must use the block-level DELETE path), and keep unrelated ```neige-block fences byte-identical").

(** [reassign_ids] panics where it finds no id. *)
Definition guard_non_prose_stomp `{Store : Automerge} (body : str) : rep_op unit :=
  let! current := of_doc (report_internal (lit "snapshot for stomp guard")) (reading blocks_snapshot) in
  let current := filter (λ b, rb_kind b ≠ KIND_OBJECTIVE) current in
  if forallb (λ b, bool_decide (rb_kind b = KIND_PROSE)) current then op_ret tt
  else
    match reassign_ids current (split_body body) with
    | None => op_fail (Report_Other (Calm_Internal mint_failure))
    | Some aligned => of_calm (each_ok (check_keeps aligned) (filter (λ b, rb_kind b ≠ KIND_PROSE) current))
    end.

Definition refuse_unsectioned_fences (slices : list str) (what : str) : result unit CalmError :=
  match filter (λ kind, in_sections kind = false) (omap (λ slice, npf_kind <$> parse_fence slice) slices) with
  | kind :: _ =>
      bad (what ++ lit " may not hold a `" ++ kind ++ lit "` block: it belongs to no section " ++ dash
           ++ lit " read it by id, create or change it with an `upsert` op (no position), withdraw it with `{op: " ++ [double_quote]
           ++ lit "delete" ++ [double_quote] ++ lit ", id}`")
  | [] => Ok tt
  end.
End content.

(** ** Binding intents ([intent.rs]) *)
Definition unread_block (id : str) : ReportError :=
  anchor_error (Calm_BadRequest (lit "block `" ++ id ++ lit "` has not been read by this session " ++ dash
    ++ lit " read it first (neige_report_read { blocks: [" ++ [double_quote] ++ id ++ [double_quote] ++ lit "] })"))
    Reason_NeverRead (Scope_Block id).

Definition known_rev (read : option LastRead) (id : str) : result N ReportError :=
  match known_block read id with Some b => Ok (rk_rev b) | None => Err (unread_block id) end.

Definition section_read (read : option LastRead) (section : str) : SectionRead :=
  match read ≫= λ r, lr_sections r !! section with Some members => Section_Seen members | None => Section_Unseen end.

Definition bind_intent (read : option LastRead) (intent : BlockIntent) : result BatchBlockOp ReportError :=
  match intent with
  | Intent_Upsert None kind content position => Ok (Batch_Upsert None kind content None position)
  | Intent_Upsert (Some id) kind content position =>
      let? rev := known_rev read id in
      Ok (Batch_Upsert (Some id) kind content (Some rev) position)
  | Intent_Move id to_index => Ok (Batch_Move id to_index)
  | Intent_Delete id => let? rev := known_rev read id in Ok (Batch_Delete id rev)
  | Intent_ReplaceSection section markdown => Ok (Batch_ReplaceSection section markdown (section_read read section))
  | Intent_DeleteSection section => Ok (Batch_DeleteSection section (section_read read section))
  end.

Definition whole_required : ReportError :=
  anchor_error (Calm_BadRequest (lit "this session has not read the whole report " ++ dash
    ++ lit " read it with a full neige_report_read, then retry")) Reason_WholeRequired Scope_Whole.

Definition bind_header (op : ReportDocOp) (read : option LastRead) : result ReportDocOp ReportError :=
  match op with
  | Op_AgentBatch summary _ =>
      Ok (Op_Batch (match read with Some r => Anchor_LastRead (lr_doc_rev r) | None => Anchor_Unread end) summary [])
  | Op_AgentWrite summary body =>
      match read with
      | Some r => if lr_whole r then Ok (Op_WriteMarkdown summary body (lr_doc_rev r)) else Err whole_required
      | None => Err whole_required
      end
  | other => Ok other
  end.

(** ** Block operations ([track_report.rs]) *)
Section write.
Context `{Store : Automerge} `{Serde : SerdeText} `{Rules : PayloadRules} `{HeaderJson : HeaderSerde} `{Defaults : ReportDefaults}.

Definition block_not_found (id : str) : CalmError := Calm_BadRequest (lit "block " ++ id ++ lit " not found").

Definition read_doc_rev : rep_op N := of_doc (report_internal (lit "doc rev")) (reading doc_rev).

(** The current revision of a block the operation names. *)
Definition current_rev (id : str) : rep_op N :=
  let! rev := of_doc (report_internal (lit "block rev")) (reading (λ d, block_rev d id)) in
  match rev with
  | Some rev => op_ret rev
  | None => op_fail (anchor_error (block_not_found id) Reason_ChangedSince (Scope_Block id))
  end.

Definition check_rev (id : str) (expected : N) : rep_op N :=
  let! current := current_rev id in
  if (current =? expected)%N then op_ret current
  else
    let! rev := read_doc_rev in
    op_fail (anchor_error (Calm_Conflict (lit "rev conflict on block " ++ id ++ lit ": current rev is " ++ show_N current
               ++ lit ", expected if_rev " ++ show_N expected ++ lit "; current doc_rev is " ++ show_N rev ++ lit " " ++ dash
               ++ lit " re-read the affected report text and retry")) Reason_ChangedSince (Scope_Block id)).

Definition block_op {A} (m : doc_op A) : rep_op A := of_doc block_op_internal m.

Definition validate_if (validate : bool) (kind content : str) : result unit CalmError :=
  if validate then validate_block_content kind content else Ok tt.

Definition apply_upsert_existing (id kind content : str) (expected_rev : N) (validate_caller_content : bool) : rep_op (str * N) :=
  let! _ := check_rev id expected_rev in
  let! content := of_calm (normalize_prose_content kind content) in
  let! _ := of_calm (validate_if validate_caller_content kind content) in
  block_op (upsert_block (Some id) kind content).

Definition block_count : rep_op nat :=
  let! index := block_op (reading block_index) in op_ret (length index).

Definition apply_upsert_new (kind content : str) (position : option nat) (validate_caller_content : bool) : rep_op (str * N) :=
  let! content := of_calm (normalize_prose_content kind content) in
  let! _ := of_calm (validate_if validate_caller_content kind content) in
  let! len := block_count in
  let! _ := of_calm (match position with
                     | Some position =>
                         refuse_if (len <? position)
                           (lit "position " ++ show_N (N.of_nat position) ++ lit " out of range (report has "
                            ++ show_N (N.of_nat len) ++ lit " blocks)")
                     | None => Ok tt
                     end) in
  let! created := block_op (upsert_block None kind content) in
  let! _ := (match position with
             | Some position => if position <? len then block_op (move_block created.1 position) else op_ret tt
             | None => op_ret tt
             end) in
  op_ret created.

Definition apply_move (id : str) (to_index : nat) : rep_op (str * N) :=
  let! current := current_rev id in
  let! len := block_count in
  let! _ := of_calm (refuse_if (len <=? to_index)
                       (lit "to_index " ++ show_N (N.of_nat to_index) ++ lit " out of range (report has "
                        ++ show_N (N.of_nat len) ++ lit " blocks)")) in
  let! _ := block_op (move_block id to_index) in
  op_ret (id, current).

Definition apply_delete (id : str) (if_rev : N) : rep_op unit :=
  let! _ := check_rev id if_rev in block_op (delete_block id).

(** Whether the author knew the whole document, where the anchor must be checked or happens to hold. *)
Definition check_doc_anchor (doc_anchor : DocAnchor) (needed : bool) : rep_op bool :=
  match doc_anchor with
  | Anchor_LastRead read =>
      let! current := read_doc_rev in
      if needed && negb (current =? read)%N then
        op_fail (anchor_error (Calm_Conflict (lit "document revision conflict: current doc_rev is " ++ show_N current
                   ++ lit ", this session last read doc_rev " ++ show_N read ++ lit " " ++ dash ++ lit " re-read the report and retry"))
                   Reason_ChangedSince Scope_Document)
      else op_ret (current =? read)%N
  | Anchor_Unread =>
      if needed then
        op_fail (anchor_error (Calm_BadRequest (lit "this session has not read the report's doc_rev: a summary, a created or moved block and a created section need it "
                   ++ dash ++ lit " read the report with neige_report_read and retry")) Reason_NeverRead Scope_Document)
      else op_ret false
  end.

Definition check_doc_rev (expected : N) : rep_op unit :=
  let! current := read_doc_rev in
  if (current =? expected)%N then op_ret tt
  else op_fail (Report_Other (Calm_Conflict (lit "document revision conflict: current doc_rev is " ++ show_N current
                  ++ lit ", expected if_doc_rev " ++ show_N expected ++ lit " " ++ dash
                  ++ lit " re-read the report text, merge your changes, and retry"))).

(** ** Section operations ([sections.rs]) *)
Definition section_snapshot : rep_op (list ReportBlock) :=
  of_doc (report_internal (lit "section snapshot")) (reading blocks_snapshot).

Definition section_anchor {A} (source : CalmError) (reason : Reason) (name : str) : result A ReportError :=
  Err (anchor_error source reason (Scope_Section name)).

Definition check_section_read (name : str) (current : list ReportBlock) (read : SectionRead) : result unit ReportError :=
  match read with
  | Section_Unseen =>
      section_anchor (Calm_BadRequest (lit "section `" ++ name ++ lit "` has not been read by this session " ++ dash
        ++ lit " read it first (neige_report_read { sections: [" ++ [double_quote] ++ name ++ [double_quote] ++ lit "] }), then retry"))
        Reason_NeverRead name
  | Section_Seen seen =>
      if bool_decide (seen = id_revs current) then Ok tt
      else section_anchor (Calm_Conflict (lit "section `" ++ name ++ lit "` changed since this session read it " ++ dash
             ++ lit " re-read it (sections: [" ++ [double_quote] ++ name ++ [double_quote] ++ lit "]), merge, and retry"))
             Reason_ChangedSince name
  end.

(** A section the session read that is gone is a conflict; one it never read is [None]. *)
Definition locate_read (blocks : list ReportBlock) (name : str) (read : SectionRead) : result (option Section_) ReportError :=
  match find_section blocks name with
  | Err error =>
      section_anchor (Calm_BadRequest (section_error_message blocks error))
        (match read with Section_Seen _ => Reason_ChangedSince | Section_Unseen => Reason_NeverRead end) name
  | Ok (Some section) =>
      let? _ := check_section_read name (member_blocks blocks section) read in
      Ok (Some section)
  | Ok None =>
      match read with
      | Section_Seen _ =>
          section_anchor (Calm_Conflict (lit "section `" ++ name ++ lit "` was removed since this session read it " ++ dash
            ++ lit " re-read the report and retry")) Reason_ChangedSince name
      | Section_Unseen => Ok None
      end
  end.

Definition of_report {A} (r : result A ReportError) : rep_op A := λ d, (r, d).

(** Where an absent declared section goes: before the first later declared section that is there. *)
Definition declared_sections (blocks : list ReportBlock) : list str :=
  match head blocks with
  | None => []
  | Some b =>
      match parse_line (split_first_line (flat_text b)).1 with
      | Some (Ok header) => cs_h1 <$> ch_sections header
      | _ => []
      end
  end.

Definition section_position (blocks : list ReportBlock) (later : str) : option nat :=
  fst <$> list_find (λ b, block_h1_title b = Some later) blocks.

Definition declared_position (blocks : list ReportBlock) (name : str) : result nat CalmError :=
  let declared := declared_sections blocks in
  match list_find (λ h1, h1 = name) declared with
  | None =>
      bad (lit "section `" ++ name ++ lit "` does not exist and cannot be created: "
           ++ (if is_empty declared then lit "this report's contract declares no sections"
               else lit "its contract declares:" ++ [newline] ++ join [newline] ((λ h1, lit "  # " ++ h1) <$> declared)))
  | Some (index, _) => Ok (default (length blocks) (head (omap (M:=list) (section_position blocks) (drop (S index) declared))))
  end.

Record SectionTarget := mkSectionTarget { st_members : list ReportBlock; st_first : nat; st_last : nat; st_indices : list nat }.

(** The section to replace, or the place of the one to create. *)
Definition section_target (current : list ReportBlock) (name : str) (read : SectionRead) (doc_anchor : DocAnchor)
  : rep_op (SectionTarget * bool) :=
  let! found := of_report (locate_read current name read) in
  match found with
  | Some section =>
      op_ret (mkSectionTarget (member_blocks current section) (sec_first section) (sec_last section) (sec_members section), false)
  | None =>
      let! at_ := of_report (match declared_position current name with
                             | Ok at_ => Ok at_
                             | Err source => section_anchor source Reason_NeverRead name
                             end) in
      let! checked := check_doc_anchor doc_anchor true in
      op_ret (mkSectionTarget [] at_ at_ [], checked)
  end.

Definition opens_section (slices : list str) (name : str) : bool :=
  match head slices with Some slice => bool_decide (h1_title slice = Some name) | None => false end.

Definition check_section_markdown (marked : MarkedBody) (name : str) : result unit CalmError :=
  refuse_if (negb (opens_section (mb_slices marked) name)
             || existsb (λ slice, bool_decide (is_Some (h1_title slice))) (drop 1 (mb_slices marked)))
    (lit "the markdown of a section replace must start with the line `# " ++ name ++ lit "` and hold no other H1 line").

Definition check_section_hints (marked : MarkedBody) (section : list ReportBlock) (name : str) : result unit CalmError :=
  match filter (λ id, id ∉ rb_id <$> section) (omap id (mb_hints marked)) with
  | outside :: _ =>
      bad (lit "marker `<!-- neige:" ++ outside ++ lit " -->` names a block outside section `" ++ name
           ++ lit "`; a section replace may pin only that section's own blocks")
  | [] => Ok tt
  end.

(** The blocks now in the section, the ids it had, and whether the document anchor was checked. *)
Definition apply_replace_section (name markdown : str) (read : SectionRead) (doc_anchor : DocAnchor)
  : rep_op (list ReportBlock * list str * bool) :=
  let! current := section_snapshot in
  let! target := section_target current name read doc_anchor in
  let marked := strip_markers_and_split markdown in
  let section := st_members target.1 in
  let! _ := of_calm (check_section_markdown marked name) in
  let! _ := of_calm (refuse_unsectioned_fences (mb_slices marked) (lit "the markdown of a section replace")) in
  let! _ := of_calm (check_section_hints marked section name) in
  let! _ := of_calm (validate_marked_slices (mb_cleaned marked) (mb_slices marked)) in
  let! replaced := block_op (replace_section_members (st_first target.1) (st_last target.1) (st_indices target.1)
                               (mb_slices marked) (mb_hints marked)) in
  op_ret (replaced, rb_id <$> section, target.2).

Definition apply_delete_section (name : str) (read : SectionRead) : rep_op (list str) :=
  let! current := section_snapshot in
  let! found := of_report (locate_read current name read) in
  match found with
  | None =>
      op_fail (anchor_error (Calm_BadRequest (section_error_message current (Section_Unknown name))) Reason_NeverRead (Scope_Section name))
  | Some section =>
      let deleted := rb_id <$> member_blocks current section in
      let! _ := block_op (each delete_block deleted) in
      op_ret deleted
  end.

(** ** Rewriting a user's deletion ([track_report_edit_guard.rs]) *)
Definition tombstone_payload (key declared_by : str) : Json :=
  JObject [(lit "declared_by", JString declared_by); (lit "key", JString key);
           (lit "tombstone", JObject [(lit "reason", JNull)]); (lit "tombstoned_by", JString (lit "user"))].

Definition retire_block (id : str) (if_rev : N) (block : ReportBlock) : result ReportDocOp CalmError :=
  let? key := some_or_bad (lit "task block " ++ id ++ lit " is missing key") (string_field block "key") in
  let? declared_by := some_or_bad (lit "task block " ++ id ++ lit " is missing declared_by") (string_field block "declared_by") in
  Ok (Op_UpsertBlock (Some id) KIND_TASK (render_fence KIND_TASK (tombstone_payload key declared_by)) (Some if_rev) None None).

(** A user's deletion of a live task becomes a tombstone in its place. *)
Definition normalize_report_op (op : ReportDocOp) (author : EditAuthor) : rep_op ReportDocOp :=
  match op with
  | Op_DeleteBlock id if_rev =>
      if is_user author then
        let! blocks := of_doc (report_internal (lit "snapshot for task delete rewrite")) (reading blocks_snapshot) in
        match snd <$> list_find (λ b, rb_id b = id) blocks with
        | Some block => if negb (is_task block) || is_tombstone block then op_ret op else of_calm (retire_block id if_rev block)
        | None => op_ret op
        end
      else op_ret op
  | _ => op_ret op
  end.

(** ** One operation ([ops.rs]) *)
Definition MAX_BATCH_OPS : nat := 64.

Inductive Written := Written_None | Written_Ids (ids : list str) | Written_AllProse.

(** What an arm leaves in the locals: its outcome, the ids it wrote and produced, the steps it ran. *)
Record OpEffect := mkEffect {
  fx_block : option (str * N);
  fx_written : Written;
  fx_written_block_ids : list str;
  fx_section_output_ids : list str;
  fx_bound_steps : list BatchBlockOp;
  fx_knowledge : option LastRead;
}.

Record ReportOpTrace := mkTrace {
  tr_changes : list BlockChange;
  tr_block : option (str * N);
  tr_written_prose_block_ids : list str;
  tr_written_block_ids : list str;
  tr_section_output_ids : list str;
  tr_knowledge : option LastRead;
}.

Definition is_objective_fence (slice : str) : bool :=
  match parse_fence slice with Some fence => bool_decide (npf_kind fence = KIND_OBJECTIVE) | None => false end.

Definition apply_replace (known : option LastRead) (summary body : str) (if_doc_rev : N) : rep_op OpEffect :=
  let! _ := check_doc_rev if_doc_rev in
  let! body := of_calm (header_bad_request (normalize_header body)) in
  let! _ := of_calm (validate_body_fences body) in
  let slices := split_body body in
  let! _ := of_calm (refuse_if (existsb is_objective_fence slices)
                       (lit "a whole write may not carry objective fences; use an upsert by id")) in
  let! _ := guard_non_prose_stomp body in
  let! _ := block_op (update_with_hints_keeping summary slices (replicate (length slices) None)
                        (λ block, bool_decide (rb_kind block ≠ KIND_OBJECTIVE))) in
  op_ret (mkEffect None Written_AllProse [] [] [] known).

(** [None] keeps the summary the document has. *)
Definition tx_summary (summary : option str) : rep_op str :=
  match summary with
  | Some summary => op_ret summary
  | None =>
      let! current := of_doc (report_internal (lit "read current summary")) (reading project) in op_ret current.1
  end.

Definition widen_anchor (e : ReportError) : ReportError :=
  match e with Report_Anchor source reason _ _ => anchor_error source reason Scope_Whole | other => other end.

(** The header is line 1 of the first slice once the markers are out. *)
Definition normalize_marked (marked : MarkedBody) : result MarkedBody CalmError :=
  match mb_slices marked with
  | [] => Ok marked
  | first :: rest =>
      let? normalized := header_bad_request (normalize_header first) in
      if bool_decide (normalized = first) then Ok marked
      else Ok (mkMarkedBody (flatten (normalized :: rest)) (normalized :: rest) (mb_hints marked))
  end.

Definition pinned_unsectioned (current : list ReportBlock) (id : str) : option (str * str) :=
  (λ e, (id, rb_kind e.2)) <$> list_find (λ b, rb_id b = id ∧ in_sections (rb_kind b) = false) current.

Definition check_write_hints (current : list ReportBlock) (hints : list (option str)) : result unit CalmError :=
  match head (omap (M:=list) (pinned_unsectioned current) (omap id hints)) with
  | Some (id, kind) =>
      bad (lit "marker `<!-- neige:" ++ id ++ lit " -->` names a " ++ kind ++ lit " block; a whole write keeps every "
           ++ kind ++ lit " block as it is " ++ dash ++ lit " change one with an `upsert` op after reading it by id")
  | None => Ok tt
  end.

Definition apply_write_markdown (known : option LastRead) (summary : option str) (body : str) (if_doc_rev : N) : rep_op OpEffect :=
  let! _ := on_error (check_doc_anchor (Anchor_LastRead if_doc_rev) true) (λ d e, freeze d known (widen_anchor e)) in
  let! summary := tx_summary summary in
  let! marked := of_calm (normalize_marked (strip_markers_and_split body)) in
  let slices := mb_slices marked in
  let! _ := of_calm (refuse_unsectioned_fences slices (lit "the markdown of a whole write")) in
  let! current := block_op (reading blocks_snapshot) in
  let! _ := of_calm (check_write_hints current (mb_hints marked)) in
  let! _ := of_calm (validate_marked_slices (mb_cleaned marked) slices) in
  let! _ := block_op (update_with_hints_keeping summary slices (mb_hints marked) (λ block, in_sections (rb_kind block))) in
  op_ret (mkEffect None Written_AllProse [] [] [] known).

Definition required (message : str) (rev : option N) : result N CalmError := some_or_bad message rev.

Definition apply_upsert (known : option LastRead) (id : option str) (kind content : str) (if_rev if_doc_rev : option N)
    (position : option nat) (validate : bool) : rep_op OpEffect :=
  let! outcome :=
    (match id with
     | Some id =>
         let! expected := of_calm (required (lit "if_rev is required when replacing an existing block") if_rev) in
         apply_upsert_existing id kind content expected validate
     | None =>
         let! expected := of_calm (required (lit "if_doc_rev is required when creating a block") if_doc_rev) in
         let! _ := check_doc_rev expected in
         apply_upsert_new kind content position validate
     end) in
  op_ret (mkEffect (Some outcome) (if bool_decide (kind = KIND_PROSE) then Written_Ids [outcome.1] else Written_None)
            [outcome.1] [] [] known).

Definition apply_reset (known : option LastRead) (author : EditAuthor) (if_doc_rev : N) : rep_op OpEffect :=
  if negb (is_user author) then
    op_fail (Report_Other (Calm_Internal (lit "track_report: ResetToInitial is the user's reset; " ++ author_debug author
      ++ lit " may not apply it")))
  else
    let! _ := check_doc_rev if_doc_rev in
    let! _ := block_op (replace_dropping_data_blocks [] initial_body) in
    op_ret (mkEffect None Written_AllProse [] [] [] known).

(** ** A batch *)
Inductive BatchItem := Item_Intent (intent : BlockIntent) | Item_Op (op : BatchBlockOp).

Definition bind_item (known : option LastRead) (item : BatchItem) : result BatchBlockOp ReportError :=
  match item with Item_Intent intent => bind_intent known intent | Item_Op op => Ok op end.

(** The prose ids, the written ids and the section output ids of one step. *)
Definition step_output (kind : str) (id : str) : list str * list str * list str :=
  (if bool_decide (kind = KIND_PROSE) then [id] else [], [id], []).

Definition run_batch_op (doc_anchor : DocAnchor) (op : BatchBlockOp) : rep_op (list str * list str * list str) :=
  match op with
  | Batch_Upsert (Some id) kind content if_rev _ =>
      let! expected := of_calm (required (lit "if_rev is required when replacing an existing block") if_rev) in
      let! outcome := apply_upsert_existing id kind content expected true in
      op_ret (step_output kind outcome.1)
  | Batch_Upsert None kind content _ position =>
      let! outcome := apply_upsert_new kind content position true in
      op_ret (step_output kind outcome.1)
  | Batch_Move id to_index => let! _ := apply_move id to_index in op_ret ([], [], [])
  | Batch_Delete id if_rev => let! _ := apply_delete id if_rev in op_ret ([], [], [])
  | Batch_ReplaceSection section markdown read =>
      let! replaced := apply_replace_section section markdown read doc_anchor in
      let ids := rb_id <$> replaced.1.1 in
      op_ret (rb_id <$> filter (λ b, rb_kind b = KIND_PROSE) replaced.1.1, ids, ids)
  | Batch_DeleteSection section read => let! _ := apply_delete_section section read in op_ret ([], [], [])
  end.

Record BatchState := mkBatch {
  ba_written_ids : list str;
  ba_written_block_ids : list str;
  ba_section_output_ids : list str;
  ba_bound_steps : list BatchBlockOp;
  ba_knowledge : option LastRead;
}.

(** The knowledge after a step is that before it, projected over what the step did. *)
Definition step_knowledge (known : option LastRead) (before : list ReportBlock) (written outputs : list str) : rep_op (option LastRead) :=
  match known with
  | None => op_ret None
  | Some old =>
      let! rev := block_op (reading doc_rev) in
      let! now := block_op (reading blocks_snapshot) in
      op_ret (Some (project_commit old rev before rev now written outputs))
  end.

Definition run_step (doc_anchor : DocAnchor) (index : nat) (item : BatchItem) (st : BatchState) : rep_op BatchState :=
  let known := ba_knowledge st in
  let! before := block_op (reading blocks_snapshot) in
  let! bound :=
    on_error (let! op := of_report (bind_item known item) in
              let! out := run_batch_op doc_anchor op in
              op_ret (op, out))
      (λ d e, at_step (freeze d known e) index) in
  let '(op, (prose, written, outputs)) := bound in
  let! knowledge := step_knowledge known before written outputs in
  op_ret (mkBatch (ba_written_ids st ++ prose) (ba_written_block_ids st ++ written) (ba_section_output_ids st ++ outputs)
            (ba_bound_steps st ++ [op]) knowledge).

Fixpoint run_steps (doc_anchor : DocAnchor) (index : nat) (items : list BatchItem) (st : BatchState) : rep_op BatchState :=
  match items with
  | [] => op_ret st
  | item :: items =>
      let! st := run_step doc_anchor index item st in run_steps doc_anchor (S index) items st
  end.

Definition places_block (item : BatchItem) : bool :=
  match item with
  | Item_Intent (Intent_Upsert None _ _ _) | Item_Intent (Intent_Move _ _)
  | Item_Op (Batch_Upsert None _ _ _ _) | Item_Op (Batch_Move _ _) => true
  | _ => false
  end.

Definition is_some_bool {A} (o : option A) : bool := match o with Some _ => true | None => false end.

(** [raw] are the intents of an agent's batch, whose [ops] are empty. *)
Definition apply_batch (known : option LastRead) (raw : option (list BlockIntent)) (doc_anchor : DocAnchor)
    (summary : option str) (ops : list BatchBlockOp) : rep_op OpEffect :=
  let items := match raw with Some intents => Item_Intent <$> intents | None => Item_Op <$> ops end in
  let needed := is_some_bool summary || existsb places_block (Item_Op <$> ops) || existsb places_block items in
  let! _ := on_error (check_doc_anchor doc_anchor needed) (λ d e, freeze d known e) in
  let! _ := of_calm (refuse_if (MAX_BATCH_OPS <? length items)
                       (lit "batch carries " ++ show_N (N.of_nat (length ops)) ++ lit " ops; at most 64 per commit")) in
  let! st := run_steps doc_anchor 0 items (mkBatch [] [] [] [] known) in
  let! _ := (match summary with Some summary => block_op (set_summary summary) | None => op_ret tt end) in
  op_ret (mkEffect None (if is_empty (ba_written_ids st) then Written_None else Written_Ids (ba_written_ids st))
            (ba_written_block_ids st) (ba_section_output_ids st) (ba_bound_steps st) (ba_knowledge st)).

Definition caller_content (op : ReportDocOp) : bool := match op with Op_UpsertBlock _ _ _ _ _ _ => true | _ => false end.

(** [op] is bound and normalized, so it is no agent operation; [validate] is whether a caller sent its content. *)
Definition apply_arm (known : option LastRead) (raw : option (list BlockIntent)) (author : EditAuthor) (validate : bool)
    (op : ReportDocOp) : rep_op OpEffect :=
  match op with
  | Op_AgentBatch _ _ | Op_AgentWrite _ _ => op_fail (Report_Other (Calm_Internal (lit "intent header bound")))
  | Op_Replace summary body if_doc_rev => apply_replace known summary body if_doc_rev
  | Op_WriteMarkdown summary body if_doc_rev => apply_write_markdown known summary body if_doc_rev
  | Op_UpsertBlock id kind content if_rev if_doc_rev position => apply_upsert known id kind content if_rev if_doc_rev position validate
  | Op_MoveBlock id to_index if_doc_rev =>
      let! _ := check_doc_rev if_doc_rev in
      let! outcome := apply_move id to_index in
      op_ret (mkEffect (Some outcome) Written_None [] [] [] known)
  | Op_DeleteBlock id if_rev =>
      let! _ := apply_delete id if_rev in op_ret (mkEffect None Written_None [] [] [] known)
  | Op_ResetToInitial if_doc_rev => apply_reset known author if_doc_rev
  | Op_Batch doc_anchor summary ops => apply_batch known raw doc_anchor summary ops
  end.

(** ** The whole write *)
Definition batch_deleted (op : BatchBlockOp) : option str := match op with Batch_Delete id _ => Some id | _ => None end.
Definition batch_moved (op : BatchBlockOp) : option str := match op with Batch_Move id _ => Some id | _ => None end.

(** The blocks the operation names for deletion, and those it moves. *)
Definition deleted_by_id (op : ReportDocOp) (before : list ReportBlock) (steps : list BatchBlockOp) : list str :=
  match op with
  | Op_DeleteBlock id _ => [id]
  | Op_ResetToInitial _ => rb_id <$> filter (λ b, rb_kind b ≠ KIND_PROSE) before
  | Op_Batch _ _ _ => omap batch_deleted steps
  | _ => []
  end.

Definition moved_ids (op : ReportDocOp) (steps : list BatchBlockOp) : list str :=
  match op with
  | Op_MoveBlock id _ _ => [id]
  | Op_Batch _ _ _ => omap batch_moved steps
  | _ => []
  end.

Definition prose_written (written : Written) (after : list ReportBlock) : list str :=
  match written with
  | Written_None => []
  | Written_Ids ids => ids
  | Written_AllProse => rb_id <$> filter (λ b, rb_kind b = KIND_PROSE) after
  end.

(** A whole write of Markdown wrote every listed block. *)
Definition rewritten_ids (op : ReportDocOp) (after : list ReportBlock) : list str :=
  match op with Op_WriteMarkdown _ _ _ => rb_id <$> listed_blocks after | _ => [] end.

Definition run_guards (before after : list ReportBlock) (author : EditAuthor) (deleted : list str) : result unit CalmError :=
  let? _ := guard_compact_origination before after author in
  let? _ := guard_task_declarations before after author deleted in
  guard_objective_blocks before after author.

(** An agent's batch has projected its knowledge step by step; any other operation projects it here. *)
Definition commit_knowledge (known : option LastRead) (agent : bool) (before after : list ReportBlock) (written outputs : list str)
  : rep_op (option LastRead) :=
  match known with
  | None => op_ret None
  | Some old =>
      let! rev := of_doc (λ _, Calm_Internal (lit "revision already checked")) (reading doc_rev) in
      op_ret (Some (if agent then old else project_commit old rev before rev after written outputs))
  end.

Definition raw_intents (op : ReportDocOp) : option (list BlockIntent) :=
  match op with Op_AgentBatch _ ops => Some ops | _ => None end.

Definition apply_with_knowledge (op : ReportDocOp) (author : EditAuthor) (known : option LastRead) : rep_op ReportOpTrace :=
  let raw := raw_intents op in
  let! bound := on_error (of_report (bind_header op known)) (λ d e, freeze d known e) in
  let! norm := normalize_report_op bound author in
  let! before := of_doc (report_internal (lit "snapshot before task guard")) (reading blocks_snapshot) in
  let! effect := apply_arm known raw author (caller_content bound) norm in
  let! after := of_doc (report_internal (lit "snapshot after task guard")) (reading blocks_snapshot) in
  let written := fx_written_block_ids effect ++ rewritten_ids norm after in
  let outputs := fx_section_output_ids effect ++ rewritten_ids norm after in
  let! _ := of_calm (run_guards before after author (deleted_by_id norm before (fx_bound_steps effect))) in
  let! knowledge := commit_knowledge (fx_knowledge effect) (is_some_bool raw) before after written outputs in
  op_ret (mkTrace (changes before after written (moved_ids norm (fx_bound_steps effect))) (fx_block effect)
            (prose_written (fx_written effect) after) written outputs knowledge).

(** Every operation that succeeds advances the document revision once. *)
Definition settle_knowledge (before_rev rev : N) (read : LastRead) : LastRead :=
  mkLastRead (if (lr_doc_rev read =? before_rev)%N then rev else lr_doc_rev read)
    (lr_whole read && (lr_doc_rev read =? before_rev)%N) (lr_blocks read) (lr_sections read).

Definition with_knowledge (trace : ReportOpTrace) (read : option LastRead) : ReportOpTrace :=
  mkTrace (tr_changes trace) (tr_block trace) (tr_written_prose_block_ids trace) (tr_written_block_ids trace)
    (tr_section_output_ids trace) read.

Definition apply_persisted_with_knowledge (op : ReportDocOp) (author : EditAuthor) (known : option LastRead)
  : rep_op (ReportOpTrace * N) :=
  let! before_rev := block_op (reading doc_rev) in
  let! trace := apply_with_knowledge op author known in
  let! rev := of_doc (report_internal (lit "increment document revision")) increment_doc_rev in
  op_ret (with_knowledge trace (settle_knowledge before_rev rev <$> tr_knowledge trace), rev).
End write.
