(* ===== verification/ReportWriteRules.v ===== *)
(** * A report write keeps the document a report

    What the operations of [ReportWrite] do to the list of blocks: a write that succeeds leaves
    a document that holds a report, every block it did not write is an old block as it was,
    and the guards passed on exactly the blocks before and after. *)

From stdpp Require Import prelude strings list gmap.
From S2P Require Import Prelude Text Slices Identity PluginSchema Blocks BlockRules MarkerRules FenceRules Align ReassignRules ReassignIds HarnessQueue OperationPhase DocStore ReportDoc ReportDocRules ReportRules ReportParts TaskGuards TaskGuardRules Sections ReadLedger ReportError ReportWrite.

Local Open Scope calm_scope.
#[local] Opaque mint_id.

(** ** Steps that succeed *)
Section effect.
Context `{Store : Automerge}.

Lemma op_bind_Ok {A B} (m : rep_op A) (k : A → rep_op B) d b d' :
  op_bind m k d = (Ok b, d') → ∃ a d1, m d = (Ok a, d1) ∧ k a d1 = (Ok b, d').
Proof. unfold op_bind. destruct (m d) as [[a|e] d1]; [by exists a, d1|done]. Qed.

Lemma op_ret_Ok {A} (a b : A) d d' : op_ret a d = (Ok b, d') → b = a ∧ d' = d.
Proof. unfold op_ret. by intros [= <- <-]. Qed.

Lemma of_doc_Ok {A} wrap (m : doc_op A) d a d' : of_doc wrap m d = (Ok a, d') → m d = (Ok a, d').
Proof. unfold of_doc. destruct (m d) as [[x|e] d1]; by intros [= <- <-]. Qed.

Lemma of_calm_Ok {A} (r : result A CalmError) d a d' : of_calm r d = (Ok a, d') → r = Ok a ∧ d' = d.
Proof. unfold of_calm. destruct r; [by intros [= <- <-]|done]. Qed.

Lemma of_report_Ok {A} (r : result A ReportError) (d : AutoCommit) a d' : of_report r d = (Ok a, d') → r = Ok a ∧ d' = d.
Proof. unfold of_report. by intros [= -> <-]. Qed.

Lemma on_error_Ok {A} (m : rep_op A) f d a d' : on_error m f d = (Ok a, d') → m d = (Ok a, d').
Proof. unfold on_error. destruct (m d) as [[x|e] d1]; by intros [= <- <-]. Qed.

Lemma reading_Ok {A} (f : AutoCommit → result A str) d a d' : reading f d = (Ok a, d') → f d = Ok a ∧ d' = d.
Proof. unfold reading. by intros [= -> <-]. Qed.
End effect.

(** Takes the first step off a run that succeeded; a step that only reads or checks leaves the document. *)
Ltac step_simpl H :=
  lazymatch type of H with
  | of_doc _ (reading _) _ = _ => apply of_doc_Ok, reading_Ok in H; destruct H as [H ->]
  | of_doc _ _ _ = _ => apply of_doc_Ok in H
  | of_calm _ _ = _ => apply of_calm_Ok in H; destruct H as [H ->]
  | of_report _ _ = _ => apply of_report_Ok in H; destruct H as [H ->]
  | on_error _ _ _ = _ => apply on_error_Ok in H; step_simpl H
  | _ => idtac
  end.
Tactic Notation "step" hyp(H) "as" ident(a) ident(Ha) :=
  let d := fresh "d" in apply op_bind_Ok in H; destruct H as (a & d & Ha & H); step_simpl Ha.
Tactic Notation "step_unit" hyp(H) "as" ident(Ha) :=
  let d := fresh "d" in apply op_bind_Ok in H; destruct H as ([] & d & Ha & H); step_simpl Ha.
Ltac step_done H :=
  apply op_ret_Ok in H; destruct H as [H ->];
  lazymatch type of H with
  | tt = tt => clear H
  | ?x = _ => first [is_var x; subst x | idtac]
  end.

(** ** Content *)

(** What [serde_json] and the payload rules of the kinds promise. *)
Class WriteLaws `{Serde : SerdeText} `{Rules : PayloadRules} : Prop := {
  wl_scalar : scalar_clean;
  wl_reads_back : ∀ text v, json_from_str text = Some v → json_from_str (canonical_json v) = Some v;
  wl_data_kind : ∀ kind payload, validate_payload kind payload = Ok tt → kind ≠ KIND_PROSE;
}.

Section content.
Context `{Laws : WriteLaws} `{HeaderJson : HeaderSerde}.

Lemma parse_fence_reads slice f : parse_fence slice = Some f → ∃ text, json_from_str text = Some (npf_payload f).
Proof.
  unfold parse_fence. destruct (split_once _ _) as [[first rest]|]; [|done].
  destruct (neige_open_kind first) as [kind|]; [|done]. destruct (default _ _) as [interior close].
  case_bool_decide; [|done]. destruct (json_from_str interior) as [payload|] eqn:Hj; [|done].
  destruct (json_is_object payload); [|done]. intros [= <-]. eauto.
Qed.

Lemma payload_checked fence : check_fence_payload fence = Ok tt → validate_payload (npf_kind fence) (npf_payload fence) = Ok tt.
Proof. unfold check_fence_payload. by destruct (validate_payload _ _) as [[]|]. Qed.

Lemma checked_readable slice : check_slice_payload slice = Ok tt → readable slice.
Proof.
  unfold check_slice_payload, readable. destruct (parse_fence slice) as [f|] eqn:Hf; [|done]. intros Hv%payload_checked.
  split; [by eapply wl_data_kind|]. apply parse_fence_reads in Hf as [text Ht]. by eapply wl_reads_back.
Qed.

Lemma marked_readable slice : check_marked_slice slice = Ok tt → readable slice.
Proof.
  unfold check_marked_slice. intros H. apply checked_readable. unfold check_slice_payload.
  by destruct (parse_fence slice).
Qed.

Lemma body_readable body : validate_body_fences body = Ok tt → Forall readable (split_body body).
Proof.
  unfold validate_body_fences. destruct (invalid_neige_fences body); [|done]. rewrite each_ok_Ok.
  intros H. apply Forall_forall. intros slice Hs. by apply checked_readable, H.
Qed.

Lemma marked_slices_readable cleaned slices : validate_marked_slices cleaned slices = Ok tt → Forall readable slices.
Proof.
  unfold validate_marked_slices. rewrite result_then_Ok, each_ok_Ok. intros [_ H].
  apply Forall_forall. intros slice Hs. by apply marked_readable, H.
Qed.

(** Content a block can be stored with: Markdown that is no fence, or a canonical fence. *)
Definition content_ok (kind content : str) : Prop := ∃ b, stored b ∧ rb_kind b = kind ∧ flat_text b = content.

Lemma prose_content_ok text : parse_fence text = None → content_ok KIND_PROSE text.
Proof.
  intros Ht. exists (mkReportBlock [] KIND_PROSE 0 (JObject [(lit "markdown", JString text)])).
  split_and!; [|done|done]. left. eauto.
Qed.

Lemma content_no_fence text : content_ok KIND_PROSE text → parse_fence text = None.
Proof.
  intros (b & [(_ & t & Hp & Ht)|[Hk _]] & Hkind & <-); [|done]. unfold flat_text. rewrite Hp, Hkind.
  by rewrite bool_decide_eq_true_2.
Qed.

(** A header line opens no fence. *)
Lemma header_no_fence text : parse_fence (HEADER_OPEN ++ text) = None.
Proof.
  unfold HEADER_OPEN. cbn [app]. unfold parse_fence. cbn [split_once strip_prefix]. cbn.
  destruct (split_once _ _) as [[a b]|]; done.
Qed.

Lemma normalized_content kind content content' :
  content_ok kind content → normalize_prose_content kind content = Ok content' → content_ok kind content'.
Proof.
  unfold normalize_prose_content. case_bool_decide as Hk; [subst|by intros ? [= <-]].
  intros Hc. unfold header_bad_request, normalize_header. destruct (split_first_line content) as [first rest].
  destruct (parse_line first) as [[h|]|]; [|done|by intros [= <-]].
  case_bool_decide; intros [= <-]; [done|]. apply prose_content_ok. unfold canonical_line.
  rewrite <-!app_assoc. apply header_no_fence.
Qed.
End content.

(** ** Block operations *)

Section write.
Context `{Laws : AutomergeLaws} `{Serde : SerdeText} `{Rules : PayloadRules} {WL : WriteLaws} `{HeaderJson : HeaderSerde} `{Defaults : ReportDefaults}.
Implicit Types (d : AutoCommit) (root : gmap str (AmValue ObjId)).

(** [run_op] succeeds as the list operation does. *)
Lemma run_op_Ok d root s blocks op r d' :
  holds_report d root s blocks → op_ok op → run_op op d = (Ok r, d') →
  ∃ blocks', spec_op blocks op = Some (blocks', r) ∧ holds_report d' root s blocks'.
Proof.
  intros Hh Hok Hrun. pose proof (block_op_step d root s blocks op Hh Hok) as H.
  destruct (spec_op blocks op) as [[blocks' r']|]; [|destruct H as [e He]; congruence].
  destruct H as (d1 & Hd1 & Hh1). rewrite Hd1 in Hrun. injection Hrun as <- <-. eauto.
Qed.

Lemma block_rev_ok d root s blocks id :
  holds_report d root s blocks → block_rev d id = Ok (rb_rev ∘ snd <$> list_find (λ b, rb_id b = id) blocks).
Proof.
  intros [Hwf (loc & Hrep)]. unfold block_rev. rewrite (live_blocks_rep d loc _ Hrep). cbn [result_bind].
  rewrite (entry_at_rep d loc _ Hrep). cbn [rp_blocks report_of].
  destruct (list_find (λ b, rb_id b = id) blocks) as [[i b]|] eqn:Hf.
  - pose proof (find_entry blocks Hwf id i b Hf) as He. rewrite He. cbn [fmap option_fmap option_map result_bind some_or].
    rewrite !(entry_get d loc _ Hrep _ (entry_of b)) by done. rewrite entry_map_rev.
    cbn [some_or result_bind]. unfold rev_of. cbn [mbind option_bind value_u64 some_or result_bind be_rev entry_of].
    destruct (find_id_Some _ _ _ _ Hf) as (Hi & _ & _).
    by rewrite (proj2 (N.ltb_lt _ _) (Forall_lookup_1 _ _ _ _ (wf_rev _ Hwf) Hi)).
  - by rewrite lookup_entries_None by (by apply find_id_None).
Qed.

Lemma current_rev_Ok d root s blocks id rev d' :
  holds_report d root s blocks → current_rev id d = (Ok rev, d') →
  d' = d ∧ ∃ b, b ∈ blocks ∧ rb_id b = id ∧ rb_rev b = rev.
Proof.
  intros Hh H. unfold current_rev in H. step H as found Hf. rewrite (block_rev_ok _ _ _ _ _ Hh) in Hf. injection Hf as <-.
  destruct (list_find _ blocks) as [[i b]|] eqn:Hf; cbn [fmap option_fmap option_map compose snd] in H; [|discriminate].
  step_done H. split; [done|]. apply list_find_Some in Hf as (Hi & Hid & _).
  exists b. split_and!; [by eapply list_elem_of_lookup_2|done|done].
Qed.

Lemma check_rev_Ok d root s blocks id expected rev d' :
  holds_report d root s blocks → check_rev id expected d = (Ok rev, d') →
  d' = d ∧ rev = expected ∧ ∃ b, b ∈ blocks ∧ rb_id b = id ∧ rb_rev b = expected.
Proof.
  intros Hh H. unfold check_rev in H. step H as current Hc. eapply current_rev_Ok in Hc as (-> & b & Hb & Hid & Hrev); [|done].
  destruct (N.eqb_spec current expected) as [He|Hne].
  - step_done H. split_and!; [done..|]. exists b. split_and!; [done..|congruence].
  - step H as r Hr. discriminate H.
Qed.

Lemma upsert_Ok d root s blocks id kind content r d' :
  holds_report d root s blocks → content_ok kind content → upsert_block id kind content d = (Ok r, d') →
  ∃ blocks' block, stored block ∧ rb_kind block = kind ∧
    spec_op blocks (OpUpsert id block) = Some (blocks', Some r) ∧ holds_report d' root s blocks'.
Proof.
  intros Hh (block & Hst & <- & <-) Hrun.
  destruct (run_op_Ok d root s blocks (OpUpsert id block) (Some r) d' Hh Hst) as (blocks' & Hs & Hh').
  { cbn [run_op]. by rewrite (bind_ok _ _ d r d'). }
  exists blocks', block. by split_and!.
Qed.

Lemma insert_rewrites (blocks : list ReportBlock) i old new :
  blocks !! i = Some old → rb_id new = rb_id old → rewrites blocks (<[i := new]> blocks) [rb_id old] [rb_id old].
Proof.
  intros Hi Hid. assert (i < length blocks) as Hlt by (by eapply lookup_lt_Some). split.
  - intros b [j Hj]%list_elem_of_lookup Hne. destruct (decide (i = j)) as [<-|Hij].
    + rewrite list_lookup_insert_eq in Hj by done. simplify_eq. exfalso. apply Hne. rewrite Hid. left.
    + rewrite list_lookup_insert_ne in Hj by done. by eapply list_elem_of_lookup_2.
  - intros b [j Hj]%list_elem_of_lookup Hne. split; [|done]. destruct (decide (i = j)) as [<-|Hij].
    + simplify_eq. exfalso. apply Hne. left.
    + apply (list_elem_of_lookup_2 _ j). by rewrite list_lookup_insert_ne.
Qed.

Lemma perm_rewrites (blocks blocks' : list ReportBlock) : blocks' ≡ₚ blocks → rewrites blocks blocks' [] [].
Proof.
  intros Hp. split; [by intros b Hb _; rewrite <-Hp|]. intros b Hb _. rewrite Hp. split; [done|apply not_elem_of_nil].
Qed.

(** Replacing a block rewrites that block, found at the revision it was expected at. *)
Lemma apply_upsert_existing_Ok d root s blocks id kind content rev validate r d' :
  holds_report d root s blocks → content_ok kind content → apply_upsert_existing id kind content rev validate d = (Ok r, d') →
  r.1 = id ∧ (∃ b, b ∈ blocks ∧ rb_id b = id ∧ rb_rev b = rev) ∧
  ∃ blocks', holds_report d' root s blocks' ∧ rewrites blocks blocks' [id] [id].
Proof.
  intros Hh Hc H. unfold apply_upsert_existing, block_op in H. step H as r0 Hrev. step H as content' Hn. step_unit H as Hv.
  eapply check_rev_Ok in Hrev as (-> & -> & Hb); [|done]. eapply normalized_content in Hn; [|done].
  apply of_doc_Ok in H. destruct (upsert_Ok _ _ _ _ _ _ _ _ _ Hh Hn H) as (blocks' & block & Hst & Hk & Hs & Hh').
  cbn [spec_op] in Hs. destruct (list_find (λ b, rb_id b = id) blocks) as [[i old]|] eqn:Hf; [|discriminate].
  cbn [mbind option_bind] in Hs. destruct (find_id_Some _ _ _ _ Hf) as (Hi & Hid & _).
  assert (r.1 = id) as Hr by (case_bool_decide; by simplify_eq/=).
  split_and!; [done|done|]. exists blocks'. split; [done|].
  case_bool_decide; simplify_eq/=; [by apply rewrites_refl|]. by eapply insert_rewrites.
Qed.

Lemma move_Ok d root s blocks id to_index d' :
  holds_report d root s blocks → move_block id to_index d = (Ok tt, d') →
  ∃ blocks', holds_report d' root s blocks' ∧ blocks' ≡ₚ blocks.
Proof.
  intros Hh Hrun. destruct (run_op_Ok d root s blocks (OpMove id to_index) None d' Hh I) as (blocks' & Hs & Hh').
  { cbn [run_op]. by rewrite (bind_ok _ _ d tt d'). }
  exists blocks'. split; [done|]. cbn [spec_op] in Hs.
  destruct (list_find _ blocks) as [[i b]|] eqn:Hf; [|discriminate]. cbn [mbind option_bind] in Hs.
  destruct (find_id_Some _ _ _ _ Hf) as (Hi & _ & _). case_bool_decide; [|discriminate]. injection Hs as <-.
  rewrite <-Permutation_middle, take_drop. by rewrite <-delete_Permutation.
Qed.

Lemma delete_Ok d root s blocks id d' :
  holds_report d root s blocks → delete_block id d = (Ok tt, d') →
  ∃ blocks', holds_report d' root s blocks' ∧ rewrites blocks blocks' [id] [].
Proof.
  intros Hh Hrun. destruct (run_op_Ok d root s blocks (OpDelete id) None d' Hh I) as (blocks' & Hs & Hh').
  { cbn [run_op]. by rewrite (bind_ok _ _ d tt d'). }
  exists blocks'. split; [done|]. cbn [spec_op] in Hs.
  destruct (list_find _ blocks) as [[i b]|] eqn:Hf; [|discriminate]. cbn [mbind option_bind] in Hs.
  injection Hs as <-. destruct (find_id_Some _ _ _ _ Hf) as (Hi & Hid & _). split.
  - intros c Hc _. eapply elem_of_sublist; [exact Hc|apply sublist_delete].
  - intros c Hc Hne. split; [|apply not_elem_of_nil]. rewrite (delete_Permutation _ _ _ Hi) in Hc.
    apply elem_of_cons in Hc as [->|Hc]; [|done]. exfalso. apply Hne. rewrite Hid. left.
Qed.

Lemma apply_upsert_new_Ok d root s blocks kind content position validate r d' :
  holds_report d root s blocks → content_ok kind content → apply_upsert_new kind content position validate d = (Ok r, d') →
  ∃ blocks', holds_report d' root s blocks' ∧ rewrites blocks blocks' [] [r.1].
Proof.
  intros Hh Hc H. unfold apply_upsert_new, block_count, block_op in H.
  step H as content' Hn. step_unit H as Hv. step H as len Hlen. step_unit H as Hpos. step H as created Hcr. step_unit H as Hmv. step_done H.
  step Hlen as index Hi. step_done Hlen. eapply normalized_content in Hn; [|done].
  destruct (upsert_Ok _ _ _ _ _ _ _ _ _ Hh Hn Hcr) as (mid & block & Hst & Hk & Hs & Hmid).
  assert (rewrites blocks mid [] [created.1]) as Hu.
  { cbn [spec_op] in Hs. destruct (mint_id _ _ _) as [[id used]|] eqn:Hmint; [|discriminate]. cbn [mbind option_bind] in Hs.
    injection Hs as <- <-. apply mint_id_Some in Hmint as (Hmint & _ & _). split.
    - intros b [Hb| ->%list_elem_of_singleton]%elem_of_app Hne; [done|]. exfalso. apply Hne. left.
    - intros b Hb _. split; [apply elem_of_app; by left|]. intros Hid%list_elem_of_singleton. cbn in Hid. apply Hmint.
      rewrite <-Hid. apply elem_of_list_to_set. by apply list_elem_of_fmap_2. }
  destruct position as [position|]; [|step_done Hmv; eauto]. destruct (position <? length index); [|step_done Hmv; eauto].
  apply of_doc_Ok in Hmv. destruct (move_Ok _ _ _ _ _ _ _ Hmid Hmv) as (blocks' & Hh' & Hp). exists blocks'. split; [done|].
  exact (rewrites_trans _ _ _ _ _ _ _ Hu (perm_rewrites _ _ Hp)).
Qed.

Lemma apply_move_Ok d root s blocks id to_index r d' :
  holds_report d root s blocks → apply_move id to_index d = (Ok r, d') →
  ∃ blocks', holds_report d' root s blocks' ∧ rewrites blocks blocks' [] [].
Proof.
  intros Hh H. unfold apply_move, block_count, block_op in H.
  step H as rev Hrev. step H as len Hlen. step_unit H as Hidx. step_unit H as Hmv. step_done H.
  step Hlen as index Hi. step_done Hlen. eapply current_rev_Ok in Hrev as [-> _]; [|done].
  destruct (move_Ok _ _ _ _ _ _ _ Hh Hmv) as (blocks' & Hh' & Hp).
  exists blocks'. split; [done|]. by apply perm_rewrites.
Qed.

Lemma apply_delete_Ok d root s blocks id rev d' :
  holds_report d root s blocks → apply_delete id rev d = (Ok tt, d') →
  (∃ b, b ∈ blocks ∧ rb_id b = id ∧ rb_rev b = rev) ∧ ∃ blocks', holds_report d' root s blocks' ∧ rewrites blocks blocks' [id] [].
Proof.
  intros Hh H. unfold apply_delete, block_op in H. step H as r Hrev. eapply check_rev_Ok in Hrev as (-> & -> & Hb); [|done].
  apply of_doc_Ok in H. split; [done|]. by eapply delete_Ok.
Qed.

(** ** Anchors *)
Lemma read_doc_rev_Ok d root s blocks rev r d' :
  holds_report d root s blocks → root_rev root = Some rev → read_doc_rev d = (Ok r, d') → r = rev ∧ d' = d.
Proof.
  intros [_ (loc & Hrep)] Hrev H. unfold read_doc_rev in H. step_simpl H.
  rewrite (doc_rev_rep _ _ _ _ _ _ Hrep Hrev) in H. by injection H as <-.
Qed.

Lemma check_doc_anchor_Ok d root s blocks rev doc_anchor needed r d' :
  holds_report d root s blocks → root_rev root = Some rev → check_doc_anchor doc_anchor needed d = (Ok r, d') →
  d' = d ∧ (needed = true → doc_anchor = Anchor_LastRead rev).
Proof.
  intros Hh Hrev H. unfold check_doc_anchor in H. destruct doc_anchor as [read|].
  - step H as current Hc. destruct (read_doc_rev_Ok _ _ _ _ _ _ _ Hh Hrev Hc) as [-> ->].
    destruct needed; cbn [andb] in H; [|by step_done H].
    destruct (N.eqb_spec rev read) as [->|Hne]; [by step_done H|discriminate H].
  - destruct needed; [discriminate H|by step_done H].
Qed.

Lemma check_doc_rev_Ok d root s blocks rev expected d' :
  holds_report d root s blocks → root_rev root = Some rev → check_doc_rev expected d = (Ok tt, d') → d' = d ∧ expected = rev.
Proof.
  intros Hh Hrev H. unfold check_doc_rev in H. step H as current Hc. destruct (read_doc_rev_Ok _ _ _ _ _ _ _ Hh Hrev Hc) as [-> ->].
  destruct (N.eqb_spec rev expected) as [->|Hne]; [by step_done H|discriminate H].
Qed.

(** ** Sections *)
(** The ids a section operation may touch: those of the section's members now. *)
Definition section_ids (blocks : list ReportBlock) (name : str) : list str :=
  match find_section blocks name with Ok (Some section) => rb_id <$> member_blocks blocks section | _ => [] end.

(** What an operation on a section that is there must have been told. *)
Definition section_read_now (blocks : list ReportBlock) (name : str) (read : SectionRead) : Prop :=
  ∀ section, find_section blocks name = Ok (Some section) → read = Section_Seen (id_revs (member_blocks blocks section)).

Lemma locate_read_Ok blocks name read found :
  locate_read blocks name read = Ok found → find_section blocks name = Ok found ∧ section_read_now blocks name read.
Proof.
  unfold locate_read, section_read_now. destruct (find_section blocks name) as [[section|]|e]; [| |discriminate].
  - unfold check_section_read. destruct read as [members|]; [|discriminate]. case_bool_decide as Hm; [|discriminate].
    intros [= <-]. split; [done|]. by intros ? [= <-]; rewrite Hm.
  - destruct read; [discriminate|]. by intros [= <-].
Qed.

Lemma at_indices_in (current : list ReportBlock) indices b :
  b ∈ at_indices current indices ↔ ∃ i, i ∈ indices ∧ current !! i = Some b.
Proof.
  unfold at_indices. rewrite list_elem_of_bind. split.
  - intros (i & Hb & Hi). exists i. destruct (current !! i) as [c|]; [|by apply elem_of_nil in Hb].
    by apply list_elem_of_singleton in Hb as ->.
  - intros (i & Hi & Hb). exists i. rewrite Hb. split; [left|done].
Qed.

(** Replacing a section touches its members only, and gives no other block's id away. *)
Lemma section_rewrites current first last members bs :
  first ≤ last ∧ last ≤ length current → NoDup (rb_id <$> section_result current first last members bs) →
  rewrites current (section_result current first last members bs) (rb_id <$> span_members current first last members) (rb_id <$> bs).
Proof.
  intros Hspan Hnd. pose proof (section_result_perm current first last members bs) as Hr. rewrite <-Hr in Hnd.
  rewrite fmap_app, NoDup_app in Hnd. destruct Hnd as (_ & Hap & _). split.
  - intros b Hb Hne. rewrite <-Hr in Hb. apply elem_of_app in Hb as [Hb|Hb]; [by destruct Hne; apply list_elem_of_fmap_2|].
    rewrite (span_perm current first last members Hspan). apply elem_of_app. by right.
  - intros b Hb Hne. rewrite (span_perm current first last members Hspan) in Hb.
    apply elem_of_app in Hb as [Hb|Hb]; [by destruct Hne; apply list_elem_of_fmap_2|]. split.
    + rewrite <-Hr. apply elem_of_app. by right.
    + intros Hw. eapply Hap; [exact Hw|]. by apply list_elem_of_fmap_2.
Qed.

Lemma section_target_Ok d root s blocks rev name read doc_anchor r d' :
  holds_report d root s blocks → root_rev root = Some rev → section_target blocks name read doc_anchor d = (Ok r, d') →
  d' = d ∧ section_read_now blocks name read ∧
  ∀ id, id ∈ rb_id <$> span_members blocks (st_first r.1) (st_last r.1) (st_indices r.1) → id ∈ section_ids blocks name.
Proof.
  intros Hh Hrev H. unfold section_target in H. step H as found Hf. apply locate_read_Ok in Hf as [Hf Hread].
  unfold section_ids. rewrite Hf. destruct found as [section|].
  - step_done H. split_and!; [done..|]. intros id (b & -> & (i & [Hi _]%list_elem_of_filter & Hb)%at_indices_in)%list_elem_of_fmap.
    cbn in Hi. apply list_elem_of_fmap_2. unfold member_blocks. apply list_elem_of_omap. by exists i.
  - step H as at_ Hat. step H as checked Hc. destruct (check_doc_anchor_Ok _ _ _ _ _ _ _ _ _ Hh Hrev Hc) as [-> _]. step_done H.
    split_and!; [done..|]. intros id (b & -> & (i & [Hi _]%list_elem_of_filter & Hb)%at_indices_in)%list_elem_of_fmap.
    by apply elem_of_nil in Hi.
Qed.

Lemma rewrites_more before after ids ids' written :
  rewrites before after ids written → (∀ id, id ∈ ids → id ∈ ids') → rewrites before after ids' written.
Proof. intros [Hu Hs] Hsub. split; [done|]. intros b Hb Hne. apply Hs; [done|]. intros Hid. by apply Hne, Hsub. Qed.

Lemma apply_replace_section_Ok d root s blocks rev name markdown read doc_anchor r d' :
  holds_report d root s blocks → root_rev root = Some rev → apply_replace_section name markdown read doc_anchor d = (Ok r, d') →
  section_read_now blocks name read ∧
  ∃ blocks', holds_report d' root s blocks' ∧ rewrites blocks blocks' (section_ids blocks name) (rb_id <$> r.1.1).
Proof.
  intros Hh Hrev H. unfold apply_replace_section, section_snapshot, block_op in H.
  step H as current Hcur. rewrite (snapshot_ok _ _ _ _ Hh) in Hcur. injection Hcur as <-.
  step H as target Ht. destruct (section_target_Ok _ _ _ _ _ _ _ _ _ _ Hh Hrev Ht) as (-> & Hread & Hids).
  step_unit H as Hmd. step_unit H as Hun. step_unit H as Hhints. step_unit H as Hv. step H as replaced Hrep. step_done H.
  destruct (section_run_Ok _ _ _ _ _ _ _ _ _ _ _ wl_scalar Hh (marked_slices_readable _ _ Hv) Hrep) as ([Hspan _] & _ & Hh').
  split; [done|]. eexists. split; [exact Hh'|]. eapply rewrites_more; [|exact Hids].
  apply section_rewrites; [done|]. apply (wf_ids _ (holds_wf _ _ _ _ Hh')).
Qed.

Lemma each_delete_Ok ids d root s blocks d' :
  holds_report d root s blocks → each delete_block ids d = (Ok tt, d') →
  ∃ blocks', holds_report d' root s blocks' ∧ rewrites blocks blocks' ids [].
Proof.
  revert d blocks. induction ids as [|id ids IH]; intros d blocks Hh H; cbn [each] in H.
  - injection H as <-. exists blocks. split; [done|]. by apply rewrites_refl.
  - unfold bind in H. destruct (delete_block id d) as [[[]|e] d1] eqn:Hd; [|discriminate].
    destruct (delete_Ok _ _ _ _ _ _ Hh Hd) as (mid & Hmid & Hsub). destruct (IH d1 mid Hmid H) as (blocks' & Hh' & Hsub').
    exists blocks'. split; [done|]. exact (rewrites_trans _ _ _ _ _ _ _ Hsub Hsub').
Qed.

Lemma apply_delete_section_Ok d root s blocks name read r d' :
  holds_report d root s blocks → apply_delete_section name read d = (Ok r, d') →
  section_read_now blocks name read ∧ ∃ blocks', holds_report d' root s blocks' ∧ rewrites blocks blocks' (section_ids blocks name) [].
Proof.
  intros Hh H. unfold apply_delete_section, section_snapshot, block_op in H. step H as current Hcur.
  rewrite (snapshot_ok _ _ _ _ Hh) in Hcur. injection Hcur as <-.
  step H as found Hf. apply locate_read_Ok in Hf as [Hf Hread].
  destruct found as [section|]; [|discriminate H]. step_unit H as Hdel. step_done H.
  split; [done|]. unfold section_ids. rewrite Hf. by eapply each_delete_Ok.
Qed.

(** ** Whole writes *)
Lemma flat_block_kind slice id rev :
  (∀ f, parse_fence slice = Some f → in_sections (npf_kind f) = true) → in_sections (rb_kind (block_of slice id rev)) = true.
Proof. unfold block_of. destruct (parse_fence slice) as [f|]; [intros H; by apply H|done]. Qed.

Lemma refuse_unsectioned_Ok slices what :
  refuse_unsectioned_fences slices what = Ok tt → ∀ slice f, slice ∈ slices → parse_fence slice = Some f → in_sections (npf_kind f) = true.
Proof.
  unfold refuse_unsectioned_fences. destruct (filter _ _) as [|k ks] eqn:Hf; [|discriminate]. intros _ slice f Hs Hp.
  apply not_false_is_true. intros Hin. assert (npf_kind f ∈ filter (λ kind, in_sections kind = false)
    (omap (λ slice, npf_kind <$> parse_fence slice) slices)) as Hx; [|rewrite Hf in Hx; by apply elem_of_nil in Hx].
  apply list_elem_of_filter. split; [done|]. apply list_elem_of_omap. exists slice. split; [done|]. by rewrite Hp.
Qed.

Lemma normalize_marked_Ok marked marked' :
  normalize_marked marked = Ok marked' → mb_hints marked' = mb_hints marked.
Proof.
  unfold normalize_marked. destruct (mb_slices marked) as [|first rest]; [by intros [= <-]|].
  destruct (header_bad_request _) as [normalized|]; [|discriminate]. cbn [result_bind].
  by case_bool_decide; intros [= <-].
Qed.

Lemma tx_summary_Ok summary d r d' : tx_summary summary d = (Ok r, d') → d' = d.
Proof.
  destruct summary as [summary|]; intros H; cbn [tx_summary] in H; [by step_done H|]. step H as current Hc. by step_done H.
Qed.

Lemma kept_untouched current (rewritten : ReportBlock → bool) bs :
  untouched current (kept_result current rewritten bs) (rb_id <$> bs).
Proof.
  intros b Hb Hne. rewrite kept_result_perm in Hb. apply elem_of_app in Hb as [[_ Hb]%list_elem_of_filter|Hb]; [done|].
  exfalso. apply Hne. by apply list_elem_of_fmap_2.
Qed.

(** A whole write leaves the blocks that stand in no section, and passes only at its revision. *)
Lemma apply_write_markdown_Ok d root s blocks rev known summary body if_doc_rev fx d' :
  holds_report d root s blocks → root_rev root = Some rev → apply_write_markdown known summary body if_doc_rev d = (Ok fx, d') →
  if_doc_rev = rev ∧ fx = mkEffect None Written_AllProse [] [] [] known ∧
  ∃ s' blocks', holds_report d' root s' blocks' ∧ untouched blocks blocks' (rb_id <$> listed_blocks blocks') ∧
    (∀ b, b ∈ blocks → in_sections (rb_kind b) = false → b ∈ blocks').
Proof.
  intros Hh Hrev H. unfold apply_write_markdown, block_op in H. step H as r Hanchor.
  destruct (check_doc_anchor_Ok _ _ _ _ _ _ _ _ _ Hh Hrev Hanchor) as [-> Hr].
  step H as summary' Hsum. rewrite (tx_summary_Ok _ _ _ _ Hsum) in H. step H as marked Hm. step_unit H as Hun.
  step H as current Hcur. step_unit H as Hhints. step_unit H as Hv. step_unit H as Hup. step_done H.
  destruct (keeping_run_Ok _ _ _ _ _ _ _ _ _ wl_scalar Hh (marked_slices_readable _ _ Hv) Hup) as (bs & _ & Hh' & Hbs).
  split_and!; [by injection (Hr eq_refl)|done|]. eexists summary', _. split_and!; [exact Hh'| |].
  2:{ intros b Hb Hk. rewrite kept_result_perm. apply elem_of_app. left. by apply list_elem_of_filter. }
  intros b Hb Hne. apply (kept_untouched _ _ _ b Hb). intros Hin. apply Hne.
  apply list_elem_of_fmap in Hin as (c & Hid & Hc). rewrite Hid. apply list_elem_of_fmap_2, list_elem_of_filter. split.
  - destruct (Hbs c Hc) as (slice & id & r' & Hs & ->). apply flat_block_kind. intros f Hf. by eapply refuse_unsectioned_Ok.
  - rewrite kept_result_perm. apply elem_of_app. by right.
Qed.

Lemma guard_stomp_Ok body d d' : guard_non_prose_stomp body d = (Ok tt, d') → d' = d.
Proof.
  intros H. unfold guard_non_prose_stomp in H. step H as current Hc. destruct (forallb _ _); [by step_done H|].
  destruct (reassign_ids _ _); [|discriminate H]. by apply of_calm_Ok in H as [_ ->].
Qed.

Lemma apply_replace_Ok d root s blocks rev known summary body if_doc_rev fx d' :
  holds_report d root s blocks → root_rev root = Some rev → apply_replace known summary body if_doc_rev d = (Ok fx, d') →
  if_doc_rev = rev ∧ ∃ blocks', holds_report d' root summary blocks'.
Proof.
  intros Hh Hrev H. unfold apply_replace, block_op in H. step_unit H as Hr.
  destruct (check_doc_rev_Ok _ _ _ _ _ _ _ Hh Hrev Hr) as [-> ->].
  step H as body' Hb. step_unit H as Hv. step_unit H as Ho. step_unit H as Hst. rewrite (guard_stomp_Ok _ _ _ Hst) in H.
  step_unit H as Hup. step_done H.
  destruct (keeping_run_Ok _ _ _ _ _ _ _ _ _ wl_scalar Hh (body_readable _ Hv) Hup) as (bs & _ & Hh' & _). eauto.
Qed.

(** ** Batches *)
Definition batch_content_ok (op : BatchBlockOp) : Prop :=
  match op with Batch_Upsert _ kind content _ _ => content_ok kind content | _ => True end.
Definition intent_content_ok (intent : BlockIntent) : Prop :=
  match intent with Intent_Upsert _ kind content _ => content_ok kind content | _ => True end.
Definition item_content_ok (item : BatchItem) : Prop :=
  match item with Item_Intent intent => intent_content_ok intent | Item_Op op => batch_content_ok op end.

(** The tombstone a deletion of this block is rewritten to reads back. *)
Definition retires_readably (b : ReportBlock) : Prop :=
  ∀ key declared_by, string_field b "key" = Some key → string_field b "declared_by" = Some declared_by →
    json_from_str (canonical_json (tombstone_payload key declared_by)) = Some (tombstone_payload key declared_by).

(** What the callers make of their input: data content is a canonical fence, prose is no fence. *)
Definition op_content_ok (before : list ReportBlock) (op : ReportDocOp) : Prop :=
  match op with
  | Op_AgentBatch _ intents => Forall intent_content_ok intents
  | Op_UpsertBlock _ kind content _ _ _ => content_ok kind content
  | Op_Batch _ _ ops => Forall batch_content_ok ops
  | Op_DeleteBlock id _ => Forall (λ b, rb_id b = id → retires_readably b) before
  | Op_ResetToInitial _ => Forall readable (split_body initial_body)
  | _ => True
  end.

Lemma bind_item_content known item op : item_content_ok item → bind_item known item = Ok op → batch_content_ok op.
Proof.
  destruct item as [intent|op']; cbn [item_content_ok bind_item]; [|by intros ? [= <-]].
  destruct intent as [[id|] kind content position|id to_index|id|section markdown|section]; cbn [bind_intent intent_content_ok].
  - intros Hc. destruct (known_rev known id); [|discriminate]. by intros [= <-].
  - by intros Hc [= <-].
  - by intros _ [= <-].
  - destruct (known_rev known id); [|discriminate]. by intros _ [= <-].
  - by intros _ [= <-].
  - by intros _ [= <-].
Qed.

(** The blocks an operation may touch, and what it must have been told of them. *)
Definition op_targets (blocks : list ReportBlock) (op : BatchBlockOp) : list str :=
  match op with
  | Batch_Upsert (Some id) _ _ _ _ | Batch_Delete id _ => [id]
  | Batch_ReplaceSection name _ _ | Batch_DeleteSection name _ => section_ids blocks name
  | _ => []
  end.

Definition op_told (blocks : list ReportBlock) (op : BatchBlockOp) : Prop :=
  match op with
  | Batch_Upsert (Some id) _ _ if_rev _ => ∃ b, b ∈ blocks ∧ rb_id b = id ∧ if_rev = Some (rb_rev b)
  | Batch_Delete id if_rev => ∃ b, b ∈ blocks ∧ rb_id b = id ∧ if_rev = rb_rev b
  | Batch_ReplaceSection name _ read | Batch_DeleteSection name read => section_read_now blocks name read
  | _ => True
  end.

Lemma run_batch_op_Ok d root s blocks rev doc_anchor op out d' :
  holds_report d root s blocks → root_rev root = Some rev → batch_content_ok op → run_batch_op doc_anchor op d = (Ok out, d') →
  op_told blocks op ∧ ∃ blocks', holds_report d' root s blocks' ∧ rewrites blocks blocks' (op_targets blocks op) out.1.2.
Proof.
  intros Hh Hrev Hc H. destruct op as [[id|] kind content if_rev position|id to_index|id if_rev|section markdown read|section read];
    cbn [run_batch_op batch_content_ok op_told op_targets] in *.
  - step H as expected He. step H as r Hr. step_done H.
    destruct (apply_upsert_existing_Ok _ _ _ _ _ _ _ _ _ _ _ Hh Hc Hr) as (Hid & (b & Hb & Hbid & Hbrev) & Hs). cbn.
    rewrite Hid. split; [|done]. exists b. split_and!; [done..|]. destruct if_rev; [|discriminate]. cbn in He. congruence.
  - step H as r Hr. step_done H. split; [done|]. exact (apply_upsert_new_Ok _ _ _ _ _ _ _ _ _ _ Hh Hc Hr).
  - step H as r Hr. step_done H. split; [done|]. exact (apply_move_Ok _ _ _ _ _ _ _ _ Hh Hr).
  - step_unit H as Hr. step_done H. destruct (apply_delete_Ok _ _ _ _ _ _ _ Hh Hr) as [(b & Hb & Hid & Hrv) Hs]. split; [by exists b|done].
  - step H as r Hr. step_done H. exact (apply_replace_section_Ok _ _ _ _ _ _ _ _ _ _ _ Hh Hrev Hr).
  - step H as r Hr. step_done H. exact (apply_delete_section_Ok _ _ _ _ _ _ _ _ Hh Hr).
Qed.

(** The session tells the truth about these blocks at this revision. *)
Definition truthful (known : option LastRead) (blocks : list ReportBlock) (rev : N) : Prop :=
  ∀ read, known = Some read → whole_known read blocks rev.

Lemma block_op_reading_Ok {A} (f : AutoCommit → result A str) d a d' : block_op (reading f) d = (Ok a, d') → f d = Ok a ∧ d' = d.
Proof. intros H. unfold block_op in H. step_simpl H. by subst. Qed.

Lemma step_knowledge_Ok d root s blocks after rev known written outputs known' d' :
  holds_report d root s after → root_rev root = Some rev → step_knowledge known blocks written outputs d = (Ok known', d') →
  d' = d ∧ known' = (λ old, project_commit old rev blocks rev after written outputs) <$> known.
Proof.
  intros Hh Hrev H. unfold step_knowledge in H. destruct known as [old|]; [|by step_done H].
  step H as r Hr. apply block_op_reading_Ok in Hr as [Hr ->]. step H as now Hnow. apply block_op_reading_Ok in Hnow as [Hnow ->]. step_done H.
  destruct Hh as [Hwf (loc & Hrep)]. rewrite (doc_rev_rep _ _ _ _ _ _ Hrep Hrev) in Hr. injection Hr as <-.
  rewrite (blocks_snapshot_ok _ _ _ _ _ Hrep Hwf) in Hnow. by injection Hnow as <-.
Qed.

(** One step: the operation it bound, and the report and the knowledge it leaves. *)
Lemma run_step_Ok d root s blocks rev doc_anchor index item st st' d' :
  holds_report d root s blocks → root_rev root = Some rev → item_content_ok item →
  run_step doc_anchor index item st d = (Ok st', d') →
  ∃ op blocks' (out : list str * list str * list str),
    bind_item (ba_knowledge st) item = Ok op ∧ op_told blocks op ∧
    holds_report d' root s blocks' ∧ rewrites blocks blocks' (op_targets blocks op) out.1.2 ∧
    ba_knowledge st' = (λ old, project_commit old rev blocks rev blocks' out.1.2 out.2) <$> ba_knowledge st.
Proof.
  intros Hh Hrev Hc H. unfold run_step in H. step H as before Hb. apply block_op_reading_Ok in Hb as [Hb ->].
  rewrite (snapshot_ok _ _ _ _ Hh) in Hb. injection Hb as <-.
  step H as bound Hbound. step Hbound as op Hop. step Hbound as out Hout. step_done Hbound.
  pose proof (bind_item_content _ _ _ Hc Hop) as Hco.
  destruct (run_batch_op_Ok _ _ _ _ _ _ _ _ _ Hh Hrev Hco Hout) as (Htold & blocks' & Hh' & Hu).
  destruct out as [[prose written] outputs]. step H as knowledge Hk.
  destruct (step_knowledge_Ok _ _ _ _ _ _ _ _ _ _ _ Hh' Hrev Hk) as [-> ->]. step_done H.
  by exists op, blocks', (prose, written, outputs).
Qed.

Lemma truthful_step known blocks blocks' rev written outputs :
  NoDup (rb_id <$> blocks') → untouched blocks blocks' written → truthful known blocks rev →
  truthful ((λ old, project_commit old rev blocks rev blocks' written outputs) <$> known) blocks' rev.
Proof.
  intros Hnd Hu Ht read Hread. destruct known as [old|]; [|discriminate]. injection Hread as <-.
  apply commit_whole_known; [done|done|]. by apply Ht.
Qed.

Lemma holds_NoDup d root s blocks : holds_report d root s blocks → NoDup (rb_id <$> blocks).
Proof. intros Hh. apply (wf_ids _ (holds_wf _ _ _ _ Hh)). Qed.

(** An agent's operation is told what the session has seen, so it touches nothing the session has not. *)
Lemma targets_seen known intent op blocks b :
  NoDup (rb_id <$> blocks) → bind_item known (Item_Intent intent) = Ok op → op_told blocks op →
  b ∈ blocks → rb_id b ∈ op_targets blocks op → ∃ read, known = Some read ∧ seen read b.
Proof.
  intros Hnd Hop Htold Hb Hid.
  assert (∀ id rev, known_rev known id = Ok rev → rb_id b = id → rb_rev b = rev → ∃ read, known = Some read ∧ seen read b) as Hblock.
  { unfold known_rev, known_block. intros id rev Hk <- <-. destruct known as [read|]; [|discriminate]. exists read. split; [done|].
    left. apply known_at_iff. cbn [mbind option_bind] in Hk. destruct (lr_blocks read !! rb_id b) as [k|]; [|discriminate]. injection Hk as Hk. cbn. by f_equal. }
  assert (∀ name, section_read_now blocks name (section_read known name) → rb_id b ∈ section_ids blocks name →
    ∃ read, known = Some read ∧ seen read b) as Hsection.
  { unfold section_ids, section_read_now, section_read. intros name Hnow Hin.
    destruct (find_section blocks name) as [[section|]|]; [|by apply elem_of_nil in Hin..].
    destruct known as [read|]; [|discriminate (Hnow section eq_refl)]. exists read. split; [done|]. right.
    cbn [mbind option_bind] in Hnow. destruct (lr_sections read !! name) as [members|] eqn:Hm; [|discriminate (Hnow section eq_refl)].
    specialize (Hnow section eq_refl). injection Hnow as ->. exists name, (id_revs (member_blocks blocks section)). split; [done|].
    apply list_elem_of_fmap in Hin as (c & Hbc & Hc). assert (c ∈ blocks) as Hcb.
    { unfold member_blocks in Hc. apply list_elem_of_omap in Hc as (i & _ & Hi). by eapply list_elem_of_lookup_2. }
    rewrite (same_id_same_block blocks b c Hnd Hb Hcb Hbc). unfold id_revs. apply list_elem_of_fmap. by exists c. }
  destruct intent as [[id|] kind content position|id to_index|id|section markdown|section]; cbn [bind_item bind_intent] in Hop.
  - destruct (known_rev known id) as [rev|] eqn:Hk; [|discriminate]. injection Hop as <-. destruct Htold as (c & Hc & Hci & [= Hcr]).
    apply list_elem_of_singleton in Hid. apply (Hblock id rev); [done..|]. rewrite Hcr. f_equal. eapply same_id_same_block; [done..|congruence].
  - injection Hop as <-. by apply elem_of_nil in Hid.
  - injection Hop as <-. by apply elem_of_nil in Hid.
  - destruct (known_rev known id) as [rev|] eqn:Hk; [|discriminate]. injection Hop as <-. destruct Htold as (c & Hc & Hci & Hcr).
    apply list_elem_of_singleton in Hid. apply (Hblock id rev); [done..|]. rewrite Hcr. f_equal. eapply same_id_same_block; [done..|congruence].
  - injection Hop as <-. by apply (Hsection section).
  - injection Hop as <-. by apply (Hsection section).
Qed.

Definition unseen (known : option LastRead) (b : ReportBlock) : Prop := ∀ read, known = Some read → ¬ seen read b.

Lemma step_spares known intent op blocks blocks' rev written outputs b :
  NoDup (rb_id <$> blocks) → bind_item known (Item_Intent intent) = Ok op → op_told blocks op →
  rewrites blocks blocks' (op_targets blocks op) written → b ∈ blocks → unseen known b →
  b ∈ blocks' ∧ unseen ((λ old, project_commit old rev blocks rev blocks' written outputs) <$> known) b.
Proof.
  intros Hnd Hop Htold [_ Hs] Hb Hn. destruct (Hs b Hb) as [Hb' Hw].
  { intros Hid. destruct (targets_seen _ _ _ _ _ Hnd Hop Htold Hb Hid) as (read & Hk & Hseen). by apply (Hn read). }
  split; [done|]. intros read Hread. destruct known as [old|]; [|discriminate]. injection Hread as <-.
  apply commit_unseen; [done|by apply Hn].
Qed.

Lemma run_steps_Ok items d root s blocks rev doc_anchor index st st' d' :
  holds_report d root s blocks → root_rev root = Some rev → Forall item_content_ok items →
  run_steps doc_anchor index items st d = (Ok st', d') →
  ∃ blocks', holds_report d' root s blocks' ∧
    (truthful (ba_knowledge st) blocks rev → truthful (ba_knowledge st') blocks' rev) ∧
    lr_doc_rev <$> ba_knowledge st' = lr_doc_rev <$> ba_knowledge st ∧
    (∀ intents b, items = Item_Intent <$> intents → b ∈ blocks → unseen (ba_knowledge st) b → b ∈ blocks').
Proof.
  revert d blocks index st. induction items as [|item items IH]; intros d blocks index st Hh Hrev Hc H; cbn [run_steps] in H.
  - step_done H. by exists blocks.
  - apply Forall_cons in Hc as [Hci Hc]. step H as mid Hmid.
    destruct (run_step_Ok _ _ _ _ _ _ _ _ _ _ _ Hh Hrev Hci Hmid) as (op & bs & out & Hop & Htold & Hh1 & Hu & Hk).
    destruct (IH _ _ _ _ Hh1 Hrev Hc H) as (blocks' & Hh' & Ht & Hr & Hn). exists blocks'. split_and!; [done| | |].
    + intros Hold. apply Ht. rewrite Hk. apply truthful_step; [by eapply holds_NoDup|apply Hu|done].
    + rewrite Hr, Hk. destruct (ba_knowledge st); [|done]. cbn [fmap option_fmap option_map]. f_equal. apply commit_doc_rev.
    + intros [|intent intents] b Heq Hb Hun; [discriminate|]. injection Heq as -> ->.
      destruct (step_spares _ _ _ _ _ rev _ out.2 _ (holds_NoDup _ _ _ _ Hh) Hop Htold Hu Hb Hun) as [Hb' Hun'].
      apply (Hn intents); [done..|]. by rewrite Hk.
Qed.

Lemma apply_batch_Ok d root s blocks rev known raw doc_anchor summary ops fx d' :
  holds_report d root s blocks → root_rev root = Some rev →
  Forall item_content_ok (match raw with Some intents => Item_Intent <$> intents | None => Item_Op <$> ops end) →
  apply_batch known raw doc_anchor summary ops d = (Ok fx, d') →
  ∃ s' blocks', holds_report d' root s' blocks' ∧
    (truthful known blocks rev → truthful (fx_knowledge fx) blocks' rev) ∧
    lr_doc_rev <$> fx_knowledge fx = lr_doc_rev <$> known ∧
    (is_Some raw → ∀ b, b ∈ blocks → unseen known b → b ∈ blocks').
Proof.
  intros Hh Hrev Hc H. unfold apply_batch, block_op in H. step H as r Hanchor.
  destruct (check_doc_anchor_Ok _ _ _ _ _ _ _ _ _ Hh Hrev Hanchor) as [-> _].
  step_unit H as Hmax. step H as st Hst. step_unit H as Hsum. step_done H.
  destruct (run_steps_Ok _ _ _ _ _ _ _ _ _ _ _ Hh Hrev Hc Hst) as (blocks' & Hh' & Ht & Hr & Hn). cbn [ba_knowledge] in *.
  assert (is_Some raw → ∀ b, b ∈ blocks → unseen known b → b ∈ blocks') as Hsp.
  { intros [intents ->] b Hb Hun. by apply (Hn intents). }
  destruct summary as [summary|]; [|step_done Hsum; by exists s, blocks'].
  apply of_doc_Ok in Hsum. destruct (set_summary_ok _ _ _ summary _ Hh') as (d2 & Hd2 & Hh2).
  rewrite Hd2 in Hsum. injection Hsum as <-. by exists summary, blocks'.
Qed.

(** The bound form of an operation is as storable as the operation, and an agent's write needs its anchor. *)
Lemma bind_header_Ok before op known bound :
  op_content_ok before op → bind_header op known = Ok bound →
  op_content_ok before bound ∧
  match op with
  | Op_AgentBatch summary intents =>
      bound = Op_Batch (match known with Some r => Anchor_LastRead (lr_doc_rev r) | None => Anchor_Unread end) summary []
  | Op_AgentWrite summary body =>
      ∃ read, known = Some read ∧ lr_whole read = true ∧ bound = Op_WriteMarkdown summary body (lr_doc_rev read)
  | _ => bound = op
  end.
Proof.
  intros Hc. destruct op; cbn [bind_header]; try (by intros [= <-]).
  - intros [= <-]. split; [constructor|done].
  - destruct known as [read|]; [|discriminate]. destruct (lr_whole read) eqn:Hw; [|discriminate]. intros [= <-]. eauto.
Qed.

Lemma valid_kind_task : valid_kind KIND_TASK.
Proof. split; [done|by vm_compute]. Qed.

Lemma tombstone_content b key declared_by :
  retires_readably b → string_field b "key" = Some key → string_field b "declared_by" = Some declared_by →
  content_ok KIND_TASK (render_fence KIND_TASK (tombstone_payload key declared_by)).
Proof.
  intros Hb Hk Hd. exists (mkReportBlock [] KIND_TASK 0 (tombstone_payload key declared_by)). split_and!; [|done|].
  - right. split; [done|]. split; [apply wl_scalar|apply valid_kind_task|done|by apply Hb].
  - unfold flat_text. by rewrite bool_decide_eq_false_2.
Qed.

(** Only a user's deletion is rewritten, into a tombstone in place of the block. *)
Lemma normalize_Ok d root s blocks op author norm d' :
  holds_report d root s blocks → op_content_ok blocks op → normalize_report_op op author d = (Ok norm, d') →
  d' = d ∧ op_content_ok blocks norm ∧
  (norm = op ∨ author = Author_User ∧ ∃ id if_rev, op = Op_DeleteBlock id if_rev).
Proof.
  intros Hh Hc H. destruct op as [?|?|? ? ?|? ? ?|? ? ? ? ? ?|? ? ?|id r|?|? ? ?]; cbn [normalize_report_op] in H;
    try (by step_done H; auto).
  destruct (is_user author) eqn:Hu; [|by step_done H; auto]. assert (author = Author_User) as Hau by (by destruct author).
  step H as bs Hbs. rewrite (snapshot_ok _ _ _ _ Hh) in Hbs. injection Hbs as <-.
  destruct (list_find (λ b, rb_id b = id) blocks) as [[i b]|] eqn:Hf; cbn [fmap option_fmap option_map snd] in H; [|by step_done H; auto].
  destruct (negb (is_task b) || is_tombstone b); [by step_done H; auto|]. apply of_calm_Ok in H as [Hr ->].
  unfold retire_block in Hr. destruct (string_field b "key") as [key|] eqn:Hk; [|discriminate].
  destruct (string_field b "declared_by") as [by_|] eqn:Hd; [|discriminate]. injection Hr as <-. split_and!; [done| |eauto 6].
  apply list_find_Some in Hf as (Hi & Hid & _). cbn [op_content_ok] in *. rewrite Forall_forall in Hc.
  eapply tombstone_content; [|done..]. apply Hc; [by eapply list_elem_of_lookup_2|done].
Qed.

(** Every arm leaves a report. *)
Lemma apply_arm_Ok d root s blocks rev known raw author validate op fx d' :
  holds_report d root s blocks → root_rev root = Some rev → op_content_ok blocks op →
  (∀ intents, raw = Some intents → Forall intent_content_ok intents) →
  apply_arm known raw author validate op d = (Ok fx, d') →
  ∃ s' blocks', holds_report d' root s' blocks'.
Proof.
  intros Hh Hrev Hc Hraw H. destruct op as [?|?|summary body r|summary body r|id kind content ir dr pos|id to_index r|id r|r|anchor summary ops];
    cbn [apply_arm op_content_ok] in *.
  - discriminate H.
  - discriminate H.
  - destruct (apply_replace_Ok _ _ _ _ _ _ _ _ _ _ _ Hh Hrev H) as (_ & blocks' & Hh'). eauto.
  - destruct (apply_write_markdown_Ok _ _ _ _ _ _ _ _ _ _ _ Hh Hrev H) as (_ & _ & s' & blocks' & Hh' & _). eauto.
  - unfold apply_upsert in H. step H as outcome Ho. step_done H. destruct id as [id|].
    + step Ho as expected He. destruct (apply_upsert_existing_Ok _ _ _ _ _ _ _ _ _ _ _ Hh Hc Ho) as (_ & _ & blocks' & Hh' & _). eauto.
    + step Ho as expected He. step_unit Ho as Hr. destruct (check_doc_rev_Ok _ _ _ _ _ _ _ Hh Hrev Hr) as [-> _].
      destruct (apply_upsert_new_Ok _ _ _ _ _ _ _ _ _ _ Hh Hc Ho) as (blocks' & Hh' & _). eauto.
  - step_unit H as Hr. destruct (check_doc_rev_Ok _ _ _ _ _ _ _ Hh Hrev Hr) as [-> _]. step H as outcome Ho. step_done H.
    destruct (apply_move_Ok _ _ _ _ _ _ _ _ Hh Ho) as (blocks' & Hh' & _). eauto.
  - step_unit H as Ho. step_done H. destruct (apply_delete_Ok _ _ _ _ _ _ _ Hh Ho) as (_ & blocks' & Hh' & _). eauto.
  - unfold apply_reset, block_op in H. destruct (negb (is_user author)); [discriminate H|]. step_unit H as Hr.
    destruct (check_doc_rev_Ok _ _ _ _ _ _ _ Hh Hrev Hr) as [-> _]. step_unit H as Hd. step_done H.
    destruct (dropping_run_Ok _ _ _ _ _ _ _ wl_scalar Hh Hc Hd) as (blocks' & Hh'). eauto.
  - assert (Forall item_content_ok (match raw with Some intents => Item_Intent <$> intents | None => Item_Op <$> ops end)) as Hi.
    { destruct raw as [intents|]; [specialize (Hraw intents eq_refl)|]; by rewrite Forall_fmap. }
    destruct (apply_batch_Ok _ _ _ _ _ _ _ _ _ _ _ _ Hh Hrev Hi H) as (s' & blocks' & Hh' & _). eauto.
Qed.

(** ** The whole write *)
Lemma doc_read_Ok {A} wrap (f : AutoCommit → result A str) d a d' : of_doc wrap (reading f) d = (Ok a, d') → f d = Ok a ∧ d' = d.
Proof. by intros [? ?]%of_doc_Ok%reading_Ok. Qed.

Lemma commit_knowledge_Ok d root s after before rev known agent written outputs known' d' :
  holds_report d root s after → root_rev root = Some rev → commit_knowledge known agent before after written outputs d = (Ok known', d') →
  d' = d ∧ known' = if agent then known else (λ old, project_commit old rev before rev after written outputs) <$> known.
Proof.
  intros [_ (loc & Hrep)] Hrev H. unfold commit_knowledge in H. destruct known as [old|]; [|step_done H; by destruct agent].
  step H as r Hr. rewrite (doc_rev_rep _ _ _ _ _ _ Hrep Hrev) in Hr. injection Hr as <-. step_done H. split; [done|]. by destruct agent.
Qed.

Definition is_agent_op (op : ReportDocOp) : bool :=
  match op with Op_AgentBatch _ _ | Op_AgentWrite _ _ => true | _ => false end.

(** What an accepted operation did: the guards passed on the blocks before and after it. *)
Record accepted (before after : list ReportBlock) (author : EditAuthor) (op : ReportDocOp) (known known' : option LastRead) (rev : N) : Prop := {
  ac_guards : ∃ deleted, run_guards before after author deleted = Ok tt;
  ac_knowledge : is_agent_op op = true → lr_doc_rev <$> known' = lr_doc_rev <$> known ∧
                 (truthful known before rev → truthful known' after rev);
  ac_whole : ∀ summary body, op = Op_AgentWrite summary body →
             (∃ read, known = Some read ∧ lr_whole read = true ∧ lr_doc_rev read = rev) ∧
             ∀ b, b ∈ before → in_sections (rb_kind b) = false → b ∈ after;
  ac_unseen : is_agent_op op = true → truthful known before rev → ∀ b, b ∈ before → unseen known b → b ∈ after;
}.

Lemma guards_accept before after author op known rev deleted :
  is_agent_op op = false → run_guards before after author deleted = Ok tt → ∀ known', accepted before after author op known known' rev.
Proof. intros Ha Hg known'. split; [eauto|by rewrite Ha|by intros ?? ->|by rewrite Ha]. Qed.

Lemma apply_with_knowledge_Ok d root s before rev op author known trace d' :
  holds_report d root s before → root_rev root = Some rev → op_content_ok before op →
  apply_with_knowledge op author known d = (Ok trace, d') →
  ∃ s' after, holds_report d' root s' after ∧ accepted before after author op known (tr_knowledge trace) rev.
Proof.
  intros Hh Hrev Hc H. unfold apply_with_knowledge in H.
  step H as bound Hb. destruct (bind_header_Ok _ _ _ _ Hc Hb) as [Hcb Hbound].
  step H as norm Hn. destruct (normalize_Ok _ _ _ _ _ _ _ _ Hh Hcb Hn) as (-> & Hcn & Hnorm).
  step H as before' Hbs. rewrite (snapshot_ok _ _ _ _ Hh) in Hbs. injection Hbs as <-.
  step H as fx Hfx. step H as after' Has. step_unit H as Hg. step H as known' Hk. step_done H. cbn [tr_knowledge].
  assert (∀ intents, raw_intents op = Some intents → Forall intent_content_ok intents) as Hraw by (destruct op; by intros ? [= <-]).
  destruct (apply_arm_Ok _ _ _ _ _ _ _ _ _ _ _ _ Hh Hrev Hcn Hraw Hfx) as (s' & after & Hh').
  rewrite (snapshot_ok _ _ _ _ Hh') in Has. injection Has as <-.
  destruct (commit_knowledge_Ok _ _ _ _ _ _ _ _ _ _ _ _ Hh' Hrev Hk) as [-> ->].
  destruct (is_agent_op op) eqn:Ha.
  2:{ exists s', after. split; [done|]. by eapply guards_accept. }
  destruct op as [summary intents|summary body|? ? ?|? ? ?|? ? ? ? ? ?|? ? ?|? ?|?|? ? ?]; try discriminate Ha.
  - subst bound. destruct Hnorm as [->|(_ & ? & ? & ?)]; [|done]. cbn [apply_arm raw_intents is_some_bool] in *.
    assert (Forall item_content_ok (Item_Intent <$> intents)) as Hi by (by rewrite Forall_fmap).
    destruct (apply_batch_Ok _ _ _ _ _ _ (Some intents) _ _ _ _ _ Hh Hrev Hi Hfx) as (s2 & after2 & Hh2 & Ht & Hr & Hkeep).
    assert (after2 = after) as ->.
    { pose proof (snapshot_ok _ _ _ _ Hh2) as H2. rewrite (snapshot_ok _ _ _ _ Hh') in H2. by injection H2. }
    exists s', after. split; [done|]. split; [eauto|done|discriminate|]. intros _ _. by apply Hkeep.
  - destruct Hbound as (read & -> & Hw & ->). destruct Hnorm as [->|(_ & ? & ? & ?)]; [|done].
    cbn [apply_arm raw_intents is_some_bool rewritten_ids] in *.
    destruct (apply_write_markdown_Ok _ _ _ _ _ _ _ _ _ _ _ Hh Hrev Hfx) as (Hr & -> & s2 & after2 & Hh2 & Hu & Hkept).
    assert (after2 = after) as ->.
    { pose proof (snapshot_ok _ _ _ _ Hh2) as H2. rewrite (snapshot_ok _ _ _ _ Hh') in H2. by injection H2. }
    cbn [fx_knowledge fx_written_block_ids fx_section_output_ids app] in *.
    exists s', after. split; [done|]. split; [eauto| | |].
    + intros _. split; [cbn [fmap option_fmap option_map]; f_equal; apply commit_doc_rev|].
      apply truthful_step; [by eapply holds_NoDup|done].
    + intros ? ? _. split; [eauto|done].
    + intros _ Htr b Hbin Hun. destruct (in_sections (rb_kind b)) eqn:Hin; [|by apply Hkept]. exfalso.
      apply (Hun read eq_refl). left. apply (Htr read eq_refl Hw Hr). by apply list_elem_of_filter.
Qed.

Lemma settled_knowledge known blocks rev :
  truthful known blocks rev → (∀ read, known = Some read → (lr_doc_rev read ≤ rev)%N) →
  truthful (settle_knowledge rev (rev + 1) <$> known) blocks (rev + 1) ∧
  ∀ read, settle_knowledge rev (rev + 1) <$> known = Some read → (lr_doc_rev read ≤ rev + 1)%N.
Proof.
  intros Ht Hle. destruct known as [old|]; [|done]. specialize (Hle old eq_refl). split; intros read [= <-].
  - intros Hw _ b Hb. cbn [settle_knowledge lr_whole lr_blocks] in *. apply andb_true_iff in Hw as [Hw Hr%N.eqb_eq].
    by apply (Ht old eq_refl).
  - cbn. destruct (lr_doc_rev old =? rev)%N; lia.
Qed.

(** An accepted write advances the document revision by one. *)
Lemma persisted_Ok d root s before rev op author known trace rev' d' :
  holds_report d root s before → root_rev root = Some rev → (rev < u64_modulus)%N → op_content_ok before op →
  apply_persisted_with_knowledge op author known d = (Ok (trace, rev'), d') →
  ∃ s' after known', rev' = (rev + 1)%N ∧ (rev + 1 < u64_modulus)%N ∧
    holds_report d' (<[FIELD_DOC_REV := VUint (rev + 1)]> root) s' after ∧
    accepted before after author op known known' rev ∧ tr_knowledge trace = settle_knowledge rev (rev + 1) <$> known'.
Proof.
  intros Hh Hrev Hlt Hc H. unfold apply_persisted_with_knowledge in H. step H as before_rev Hbr. apply block_op_reading_Ok in Hbr as [Hbr ->].
  destruct (doc_rev_step _ _ _ _ _ Hh Hrev Hlt) as [Hdr _]. rewrite Hdr in Hbr. injection Hbr as <-.
  step H as tr Htr. step H as r Hr.
  destruct (apply_with_knowledge_Ok _ _ _ _ _ _ _ _ _ _ Hh Hrev Hc Htr) as (s' & after & Hh' & Hac).
  destruct (doc_rev_step _ _ _ _ _ Hh' Hrev Hlt) as [_ Hinc]. case_decide as Hmax; [destruct Hinc as [e He]; congruence|].
  destruct Hinc as (d2 & Hd2 & _ & Hh2). rewrite Hd2 in Hr. injection Hr as <- <-.
  apply op_ret_Ok in H as [[= -> ->] ->]. exists s', after, (tr_knowledge tr). split_and!; [done|lia|done..].
Qed.

Lemma bumped_rev (root : gmap str (AmValue ObjId)) (rev : N) : root_rev (<[FIELD_DOC_REV := VUint rev]> root) = Some rev.
Proof. unfold root_rev. by rewrite lookup_insert_eq. Qed.
End write.
