(* ===== verification/ReportSession.v ===== *)
(** * Report writes in sequence

    The theorems about whole writes: what an accepted write promises, what histories of
    writes by planners, assistants, plugins and the kernel leave of the user's tasks, and
    what a session that writes a report must have read of it. *)

From stdpp Require Import prelude strings list gmap.
From S2P Require Import Prelude Text Slices Identity Blocks HarnessQueue OperationPhase DocStore ReportDoc ReportDocRules ReportRules ReportParts TaskGuards TaskGuardRules Sections ReadLedger ReportError ReportWrite ReportWriteRules.

Local Open Scope calm_scope.

Section session.
Context `{Laws : AutomergeLaws} `{Serde : SerdeText} `{Rules : PayloadRules} {WL : WriteLaws} `{HeaderJson : HeaderSerde} `{Defaults : ReportDefaults}.
Implicit Types (d : AutoCommit) (root : gmap str (AmValue ObjId)).

(** A document that holds a report of these blocks at a 64-bit revision. *)
Definition report_at d (blocks : list ReportBlock) (rev : N) : Prop :=
  ∃ root s, holds_report d root s blocks ∧ root_rev root = Some rev ∧ (rev < u64_modulus)%N.

Lemma report_at_reads d blocks rev :
  report_at d blocks rev → blocks_snapshot d = Ok blocks ∧ doc_rev d = Ok rev ∧ NoDup (rb_id <$> blocks).
Proof.
  intros (root & s & Hh & Hrev & Hlt). split_and!; [by eapply snapshot_ok| |by eapply holds_NoDup].
  apply (doc_rev_step _ _ _ _ _ Hh Hrev Hlt).
Qed.

Lemma write_at d before rev op author known trace rev' d' :
  report_at d before rev → op_content_ok before op →
  apply_persisted_with_knowledge op author known d = (Ok (trace, rev'), d') →
  ∃ after known', rev' = (rev + 1)%N ∧ report_at d' after (rev + 1) ∧
    accepted before after author op known known' rev ∧ tr_knowledge trace = settle_knowledge rev (rev + 1) <$> known'.
Proof.
  intros (root & s & Hh & Hrev & Hlt) Hc H.
  destruct (persisted_Ok _ _ _ _ _ _ _ _ _ _ _ Hh Hrev Hlt Hc H) as (s' & after & known' & -> & Hlt' & Hh' & Hac & Hk).
  exists after, known'. split_and!; [done| |done|done]. eexists _, s'. split_and!; [exact Hh'|apply bumped_rev|done].
Qed.

(** C9: a report write that is accepted, whoever made it and whatever it was - a replacement, a rewrite
    from Markdown, a block operation, a reset or a batch - leaves a well-formed report at the next
    document revision, and the compact, task and objective guards all passed on exactly the blocks
    the document held before and holds after. *)
Theorem accepted_write_guarded d before rev op author known trace rev' d' :
  report_at d before rev → op_content_ok before op →
  apply_persisted_with_knowledge op author known d = (Ok (trace, rev'), d') →
  rev' = (rev + 1)%N ∧ doc_rev d' = Ok rev' ∧
  ∃ after deleted, report_at d' after rev' ∧ blocks_snapshot d' = Ok after ∧
    guard_compact_origination before after author = Ok tt ∧
    guard_task_declarations before after author deleted = Ok tt ∧
    guard_objective_blocks before after author = Ok tt.
Proof.
  intros Hd Hc H. destruct (write_at _ _ _ _ _ _ _ _ _ Hd Hc H) as (after & known' & -> & Hd' & [[deleted Hg] _ _ _] & _).
  destruct (report_at_reads _ _ _ Hd') as (Hs & Hr & _). unfold run_guards in Hg. rewrite !result_then_Ok in Hg.
  destruct Hg as (Hg1 & Hg2 & Hg3). split_and!; [done..|]. exists after, deleted. by split_and!.
Qed.

(** ** Histories of writes *)

(** Accepted writes of anyone but the user, one after the other; a refused write stores nothing. *)
Inductive others_write d0 : AutoCommit → Prop :=
| ow_start : others_write d0 d0
| ow_write d blocks op author known trace rev d' :
    others_write d0 d → author ≠ Author_User → blocks_snapshot d = Ok blocks → op_content_ok blocks op →
    apply_persisted_with_knowledge op author known d = (Ok (trace, rev), d') → others_write d0 d'.

Lemma others_write_guarded d0 before rev d :
  report_at d0 before rev → others_write d0 d → ∃ after rev', report_at d after rev' ∧ guarded_writes before after.
Proof.
  intros Hd0. induction 1 as [|d blocks op author known trace r d' _ (mid & rmid & Hmid & Hg) Hau Hs Hc H].
  - exists before, rev. split; [done|]. apply gw_start. apply (report_at_reads _ _ _ Hd0).
  - destruct (report_at_reads _ _ _ Hmid) as (Hsm & _ & _). rewrite Hsm in Hs. injection Hs as <-.
    destruct (write_at _ _ _ _ _ _ _ _ _ Hmid Hc H) as (after & known' & -> & Hd' & [[deleted Hgs] _ _ _] & _).
    exists after, (rmid + 1)%N. split; [done|]. unfold run_guards in Hgs. rewrite !result_then_Ok in Hgs.
    eapply gw_write; [done| |done|apply Hgs]. apply (report_at_reads _ _ _ Hd').
Qed.

(** C3: whatever planners, assistants, plugins and the kernel write to a report - whole rewrites, section
    replacements, batches, moves and deletions, in any order and number - the user's tasks are the
    user's: each task the user declared or retired is still in the report with its id, revision and
    payload, and no other writer has added one in the user's name. *)
Theorem user_tasks_outlive_writes d0 before rev d :
  report_at d0 before rev → others_write d0 d →
  ∃ after, blocks_snapshot d = Ok after ∧
  (∀ old, old ∈ before → is_task old = true → user_owned old → ∃ new, new ∈ after ∧ same_block new old) ∧
  (∀ new, new ∈ after → is_task new = true → string_field new "declared_by" = Some (lit "user") →
   ∃ old, old ∈ before ∧ same_block new old).
Proof.
  intros Hd0 Hw. destruct (others_write_guarded _ _ _ _ Hd0 Hw) as (after & rev' & Hd & Hg).
  exists after. split; [apply (report_at_reads _ _ _ Hd)|]. by apply guarded_writes_seal.
Qed.

(** ** What a session knows *)

(** A session reads and writes a report that others write as well. *)
Inductive session_history : AutoCommit → option LastRead → Prop :=
| sh_start d blocks rev : report_at d blocks rev → session_history d None
| sh_read d known blocks rev rendered :
    session_history d known → blocks_snapshot d = Ok blocks → doc_rev d = Ok rev →
    session_history d (Some (record_read known rev blocks rendered))
| sh_write d known blocks op author trace rev d' :
    session_history d known → is_agent_op op = true → blocks_snapshot d = Ok blocks → op_content_ok blocks op →
    apply_persisted_with_knowledge op author known d = (Ok (trace, rev), d') → session_history d' (tr_knowledge trace)
| sh_other d known blocks op author other trace rev d' :
    session_history d known → blocks_snapshot d = Ok blocks → op_content_ok blocks op →
    apply_persisted_with_knowledge op author other d = (Ok (trace, rev), d') → session_history d' known.

Lemma session_truthful d known :
  session_history d known →
  ∃ blocks rev, report_at d blocks rev ∧ truthful known blocks rev ∧ (∀ read, known = Some read → (lr_doc_rev read ≤ rev)%N).
Proof.
  induction 1 as [d blocks rev Hd|d known bs r rendered _ (blocks & rev & Hd & Ht & Hle) Hs Hr
    |d known bs op author trace r d' _ (blocks & rev & Hd & Ht & Hle) Hag Hs Hc H
    |d known bs op author other trace r d' _ (blocks & rev & Hd & Ht & Hle) Hs Hc H].
  - exists blocks, rev. split_and!; [done|by intros ??|by intros ??].
  - destruct (report_at_reads _ _ _ Hd) as (Hs' & Hr' & Hnd). rewrite Hs' in Hs. rewrite Hr' in Hr. simplify_eq.
    exists bs, r. split_and!; [done| |by intros read [= <-]]. intros read [= <-]. by apply read_whole_known.
  - destruct (report_at_reads _ _ _ Hd) as (Hs' & _ & _). rewrite Hs' in Hs. simplify_eq.
    destruct (write_at _ _ _ _ _ _ _ _ _ Hd Hc H) as (after & known' & -> & Hd' & [_ Hk _ _] & Htr).
    destruct (Hk Hag) as [Hrev Ht']. rewrite Htr.
    destruct (settled_knowledge known' after rev) as [Hs1 Hs2]; [by apply Ht'| |by exists after, (rev + 1)%N].
    intros read ->. destruct known as [old|]; [|discriminate Hrev]. injection Hrev as ->. by apply Hle.
  - destruct (report_at_reads _ _ _ Hd) as (Hs' & _ & _). rewrite Hs' in Hs. simplify_eq.
    destruct (write_at _ _ _ _ _ _ _ _ _ Hd Hc H) as (after & known' & -> & Hd' & _ & _).
    exists after, (rev + 1)%N. split_and!; [done| |intros read Hread; specialize (Hle read Hread); lia].
    intros read Hread _ Hr. specialize (Hle read Hread). lia.
Qed.

(** C13: an agent overwrites a whole report only when it has seen it: in whatever way a session came to its
    knowledge - reads of any part, its own writes, and others writing in between - its whole write is
    accepted only if it knows every listed block at the very revision the document holds, and the
    tasks and objectives, which a whole read does not show, stay in the report as they were. *)
Theorem whole_write_informed d known summary body author trace rev d' :
  session_history d known → apply_persisted_with_knowledge (Op_AgentWrite summary body) author known d = (Ok (trace, rev), d') →
  ∃ read blocks after, known = Some read ∧ blocks_snapshot d = Ok blocks ∧ blocks_snapshot d' = Ok after ∧
    (∀ b, b ∈ blocks → in_sections (rb_kind b) = true → rk_rev <$> lr_blocks read !! rb_id b = Some (rb_rev b)) ∧
    (∀ b, b ∈ blocks → in_sections (rb_kind b) = false → b ∈ after).
Proof.
  intros (blocks & r & Hd & Ht & _)%session_truthful H.
  assert (op_content_ok blocks (Op_AgentWrite summary body)) as Hc by done.
  destruct (write_at _ _ _ _ _ _ _ _ _ Hd Hc H) as (after & known' & -> & Hd' & [_ _ Hw _] & _).
  destruct (Hw _ _ eq_refl) as [(read & -> & Hwhole & Hrev) Hkept]. exists read, blocks, after.
  split_and!; [done|apply (report_at_reads _ _ _ Hd)|apply (report_at_reads _ _ _ Hd')| |done].
  intros b Hb Hin. apply known_at_iff. apply (Ht read eq_refl Hwhole Hrev). by apply list_elem_of_filter.
Qed.

(** C7: no agent destroys what it has not seen: however its session came to its knowledge - reads of any
    part, its own writes, others writing in between - an accepted batch or whole write of an agent
    keeps every block that the session does not have, by itself or as a member of a section, at the
    very revision it stands at. *)
Theorem unseen_blocks_survive d known op author trace rev d' blocks :
  session_history d known → blocks_snapshot d = Ok blocks → is_agent_op op = true → op_content_ok blocks op →
  apply_persisted_with_knowledge op author known d = (Ok (trace, rev), d') →
  ∃ after, blocks_snapshot d' = Ok after ∧ ∀ b, b ∈ blocks → unseen known b → b ∈ after.
Proof.
  intros (blocks' & r & Hd & Ht & _)%session_truthful Hs Ha Hc H.
  destruct (report_at_reads _ _ _ Hd) as (Hs' & _ & _). rewrite Hs' in Hs. injection Hs as ->.
  destruct (write_at _ _ _ _ _ _ _ _ _ Hd Hc H) as (after & known' & -> & Hd' & [_ _ _ Hn] & _).
  exists after. split; [apply (report_at_reads _ _ _ Hd')|]. by apply Hn.
Qed.
End session.
