(* ===== verification/WriteSample.v ===== *)
(** * Report writes on a concrete document

    A report of two notes and a task of the user, the session that reads it, and one run of
    each theorem of [ReportSession]. *)

From stdpp Require Import prelude strings list gmap.
From S2P Require Import Prelude Text Slices Float64 Identity PluginSchema Blocks BlockRules MarkerRules FenceRules Align ReassignIds ReportSample HarnessQueue OperationPhase DocStore ReportDoc ReportDocRules ReportRules ReportParts DocSample TaskGuards TaskGuardRules Sections GuardSample ReadLedger ReportError ReportWrite ReportWriteRules ReportSession.

Local Open Scope calm_scope.
#[local] Existing Instance sample_store.
#[local] Existing Instance sample_laws.
#[local] Existing Instance sample_header_json.

(** ** The document *)
Definition ship_payload : Json :=
  JObject [(lit "declared_by", JString (lit "user")); (lit "goal", JString (lit "ship")); (lit "key", JString (lit "k"))].

(** Reads back the text of the one payload the document holds. *)
#[local] Instance write_serde : SerdeText := {|
  json_from_str := λ s, if bool_decide (s = @canonical_json mute_serde ship_payload) then Some ship_payload else None;
  json_scalar := sample_scalar;
|}.

#[local] Instance write_rules : PayloadRules := {|
  validate_payload kind payload :=
    if bool_decide (kind = KIND_TASK) then
      match json_get payload (lit "key") with Some (JString _) => Ok tt | _ => Err (lit "key: required") end
    else Err (lit "unknown kind");
  parse_objective payload :=
    match json_get payload (lit "key") with Some (JString key) => Ok key | _ => Err (lit "key: required") end;
|}.

#[local] Instance write_defaults : ReportDefaults := {| initial_body := lines_a |}.

#[local] Instance write_laws : WriteLaws.
Proof.
  split.
  - exact sample_scalar_clean.
  - intros text v. cbn [json_from_str write_serde]. case_bool_decide as Ht; [|done]. intros [= <-]. by vm_compute.
  - intros kind payload. cbn. case_bool_decide as Hk; [by subst|done].
Defined.

Definition id_t : str := lit "b_0abc".
Definition note_a : ReportBlock := mkReportBlock id_a KIND_PROSE 3 (JObject [(lit "markdown", JString text_a)]).
Definition note_b : ReportBlock := mkReportBlock id_b KIND_PROSE 1 (JObject [(lit "markdown", JString text_b)]).
Definition ship_task : ReportBlock := mkReportBlock id_t KIND_TASK 2 ship_payload.
Definition start_blocks : list ReportBlock := [note_a; note_b; ship_task].

Lemma start_well_formed : well_formed start_blocks.
Proof.
  split.
  - by vm_compute; repeat constructor; set_solver.
  - constructor; [|constructor; [|constructor; [|constructor]]].
    + left. split; [done|]. exists text_a. by vm_compute.
    + left. split; [done|]. exists text_b. by vm_compute.
    + right. split; [done|]. split; [apply wl_scalar|split; [done|by vm_compute]|done|by vm_compute].
  - by repeat constructor.
Qed.

Definition start_doc : AutoCommit := (from_blocks_exact (lit "s") start_blocks am_new).2.

Lemma start_report : report_at start_doc start_blocks 0.
Proof.
  destruct (exact_blocks_ok (lit "s") start_blocks start_well_formed) as (d & root & Hd & Hh & Hr).
  assert (start_doc = d) as -> by (unfold start_doc; by rewrite Hd). exists root, (lit "s"). by split_and!.
Qed.

Lemma start_snapshot : blocks_snapshot start_doc = Ok start_blocks.
Proof. apply (report_at_reads _ _ _ start_report). Qed.

Lemma start_rev : doc_rev start_doc = Ok 0%N.
Proof. apply (report_at_reads _ _ _ start_report). Qed.

Definition fresh_text : str := lit "fresh" ++ [newline].

(** ** The writes *)
Definition written_doc (op : ReportDocOp) (author : EditAuthor) (known : option LastRead) (d : AutoCommit) : AutoCommit :=
  (apply_persisted_with_knowledge op author known d).2.

Definition is_ok {A E} (r : result A E) : bool := match r with Ok _ => true | Err _ => false end.

Lemma written_Ok op author known d :
  is_ok (apply_persisted_with_knowledge op author known d).1 = true →
  ∃ trace rev, apply_persisted_with_knowledge op author known d = (Ok (trace, rev), written_doc op author known d).
Proof.
  unfold written_doc. destruct (apply_persisted_with_knowledge op author known d) as [[[trace rev]|e] d']; [eauto|done].
Qed.

Definition add_note : ReportDocOp := Op_UpsertBlock None KIND_PROSE fresh_text None (Some 0%N) (Some 1).

Lemma accepted_write_guarded_witness :
  ∃ after d', blocks_snapshot d' = Ok after ∧ doc_rev d' = Ok 1%N ∧
              guard_compact_origination start_blocks after Author_Planner = Ok tt.
Proof.
  destruct (written_Ok add_note Author_Planner None start_doc) as (trace & rev & H); [by vm_compute|].
  destruct (accepted_write_guarded start_doc start_blocks 0 add_note Author_Planner None trace rev
    (written_doc add_note Author_Planner None start_doc) start_report)
    as (-> & Hr & after & deleted & _ & Hs & Hg & _); [by apply prose_content_ok|exact H|].
  exists after, (written_doc add_note Author_Planner None start_doc). by split_and!.
Defined.

Lemma user_tasks_outlive_writes_witness :
  ∃ after d', blocks_snapshot d' = Ok after ∧ ∃ new, new ∈ after ∧ same_block new ship_task.
Proof.
  destruct (written_Ok add_note Author_Planner None start_doc) as (trace & rev & H); [by vm_compute|].
  destruct (user_tasks_outlive_writes start_doc start_blocks 0 (written_doc add_note Author_Planner None start_doc) start_report)
    as (after & Hs & Hkept & _).
  - apply (ow_write start_doc start_doc start_blocks add_note Author_Planner None trace rev
             (written_doc add_note Author_Planner None start_doc) (ow_start start_doc)); [discriminate|apply start_snapshot| |exact H].
    apply prose_content_ok. by vm_compute.
  - exists after, (written_doc add_note Author_Planner None start_doc). split; [exact Hs|].
    apply Hkept; [right; right; left|reflexivity|]. left. reflexivity.
Defined.

(** ** Sessions *)
Definition whole_read : LastRead := record_read None 0 start_blocks [id_a; id_b].
Definition part_read : LastRead := record_read None 0 start_blocks [id_a].

Lemma read_session rendered : session_history start_doc (Some (record_read None 0 start_blocks rendered)).
Proof. eapply sh_read; [by eapply sh_start, start_report|apply start_snapshot|apply start_rev]. Qed.

Definition rewrite_all : ReportDocOp := Op_AgentWrite None fresh_text.

Lemma whole_write_informed_witness :
  ∃ after, blocks_snapshot (written_doc rewrite_all Author_Planner (Some whole_read) start_doc) = Ok after ∧ ship_task ∈ after.
Proof.
  destruct (written_Ok rewrite_all Author_Planner (Some whole_read) start_doc) as (trace & rev & H); [by vm_compute|].
  destruct (whole_write_informed start_doc (Some whole_read) None fresh_text Author_Planner trace rev
    (written_doc rewrite_all Author_Planner (Some whole_read) start_doc) (read_session [id_a; id_b]) H)
    as (read & blocks & after & _ & Hs & Hs' & _ & Hkept).
  exists after. split; [exact Hs'|]. rewrite start_snapshot in Hs. injection Hs as <-. apply Hkept; [right; right; left|done].
Defined.

(** The session read the first note only, and replaces it. *)
Definition revise_note : ReportDocOp := Op_AgentBatch None [Intent_Upsert (Some id_a) KIND_PROSE fresh_text None].

Lemma unseen_blocks_survive_witness :
  ∃ after, blocks_snapshot (written_doc revise_note Author_Planner (Some part_read) start_doc) = Ok after ∧
           note_b ∈ after ∧ ship_task ∈ after.
Proof.
  destruct (written_Ok revise_note Author_Planner (Some part_read) start_doc) as (trace & rev & H); [by vm_compute|].
  destruct (unseen_blocks_survive start_doc (Some part_read) revise_note Author_Planner trace rev
    (written_doc revise_note Author_Planner (Some part_read) start_doc) start_blocks
    (read_session [id_a]) start_snapshot eq_refl) as (after & Hs & Hkept); [repeat constructor; by apply prose_content_ok|exact H|].
  assert (∀ b, rb_id b ≠ id_a → unseen (Some part_read) b) as Hun.
  { intros b Hb read [= <-] [Hk|(title & members & Hl & Hin)].
    - apply known_at_iff in Hk. replace (lr_blocks part_read) with ({[id_a := mkReadBlock 3 History_NotLocated]} : gmap str ReadBlock) in Hk
        by (by vm_compute). rewrite lookup_singleton_ne in Hk by done. discriminate.
    - replace (lr_sections part_read) with (∅ : gmap str (list (str * N))) in Hl by (by vm_compute). by rewrite lookup_empty in Hl. }
  exists after. split_and!; [exact Hs|apply Hkept; [right; left|by apply Hun]|apply Hkept; [right; right; left|by apply Hun]].
Defined.
