(* ===== verification/TaskGraph.v ===== *)
(** * Dependencies between tasks

    [crates/calm-types/src/report_blocks/tasks.rs]: the depth-first search for a cycle, the
    components of the dependency graph that hold one, and what they promise. *)

From stdpp Require Import prelude strings list gmap relations.
From S2P Require Import Prelude.

Local Open Scope calm_scope.

(** A key and the keys it depends on. *)
Abbreviation graph := (gmap str (list str)).

Definition graph_keys (g : graph) : list str := (btree_iter g).*1.

(** ** The search *)

(** A key without a colour is white. *)
Inductive Color := Gray | Black.

#[export] Instance Color_eq_dec : EqDecision Color.
Proof. solve_decision. Defined.

Record Dfs := mkDfs { dfs_color : gmap str Color; dfs_path : list str }.

(** What a visit finds, and the state it leaves; [None] is out of fuel. *)
Abbreviation search := (option (option (list str) * Dfs)).

(** The path from the first occurrence of the key on it, closed by the key. *)
Definition close_cycle (path : list str) (key : str) : list str :=
  drop (default 0 (fst <$> list_find (λ k, k = key) path)) path ++ [key].

Section visit.
Variable visit : str → Dfs → search.
Variable g : graph.

Fixpoint visit_deps (deps : list str) (s : Dfs) : search :=
  match deps with
  | [] => Some (None, s)
  | dependency :: deps =>
      match g !! dependency with
      | None => visit_deps deps s
      | Some _ =>
          match dfs_color s !! dependency with
          | Some Gray => Some (Some (close_cycle (dfs_path s) dependency), s)
          | Some Black => visit_deps deps s
          | None =>
              match visit dependency s with
              | Some (None, s) => visit_deps deps s
              | found => found
              end
          end
      end
  end.
End visit.

Fixpoint visit (fuel : nat) (g : graph) (node : str) (s : Dfs) : search :=
  match fuel with
  | O => None
  | S fuel =>
      let s := mkDfs (<[node := Gray]> (dfs_color s)) (dfs_path s ++ [node]) in
      match visit_deps (visit fuel g) g (default [] (g !! node)) s with
      | Some (None, s) => Some (None, mkDfs (<[node := Black]> (dfs_color s)) (removelast (dfs_path s)))
      | found => found
      end
  end.

Fixpoint visit_roots (fuel : nat) (g : graph) (roots : list str) (s : Dfs) : search :=
  match roots with
  | [] => Some (None, s)
  | node :: roots =>
      match dfs_color s !! node with
      | Some _ => visit_roots fuel g roots s
      | None =>
          match visit fuel g node s with
          | Some (None, s) => visit_roots fuel g roots s
          | found => found
          end
      end
  end.

(** Each level of the recursion colours another key of the graph. *)
Definition run_find_cycle (g : graph) : search := visit_roots (S (size g)) g (graph_keys g) (mkDfs ∅ []).
Definition find_cycle (g : graph) : option (list str) := run_find_cycle g ≫= fst.

(** ** Reachability and components *)

(** [pending] is the stack, its top first; [None] is out of fuel. *)
Fixpoint reachable_from (fuel : nat) (g : graph) (target : str) (pending : list str) (seen : gset str) : option bool :=
  match fuel with
  | O => None
  | S fuel =>
      match pending with
      | [] => Some false
      | node :: pending =>
          if decide (node ∈ seen) then reachable_from fuel g target pending seen
          else
            let deps := default [] (g !! node) in
            if decide (target ∈ deps) then Some true
            else reachable_from fuel g target (reverse (filter (λ d, is_Some (g !! d)) deps) ++ pending) ({[node]} ∪ seen)
      end
  end.

(** Every key is expanded once, and pushes no more than its dependencies. *)
Definition edge_count (g : graph) : nat := sum_list (length ∘ snd <$> map_to_list g).
Definition reachable (g : graph) (from target : str) : bool :=
  default false (reachable_from (S (S (edge_count g))) g target [from] ∅).

Definition component (g : graph) (node : str) : list str :=
  filter (λ candidate, reachable g node candidate && reachable g candidate node = true) (graph_keys g).

Definition self_dependent (g : graph) (node : str) : bool :=
  match g !! node with Some deps => bool_decide (node ∈ deps) | None => false end.

(** The members' own graph. *)
Definition component_graph (g : graph) (members : list str) : graph :=
  list_to_map ((λ key, (key, filter (λ d, d ∈ members) (default [] (g !! key)))) <$> members).

(** [None] is the panic of [expect]. *)
Fixpoint components_from (g : graph) (nodes : list str) (assigned : gset str) : option (list (list str * list str)) :=
  match nodes with
  | [] => Some []
  | node :: nodes =>
      if decide (node ∈ assigned) then components_from g nodes assigned
      else
        let members := component g node in
        if (1 <? length members) || self_dependent g node then
          cycle ← find_cycle (component_graph g members);
          rest ← components_from g nodes (list_to_set members ∪ assigned);
          Some ((members, cycle) :: rest)
        else components_from g nodes assigned
  end.

Definition cyclic_components (g : graph) : option (list (list str * list str)) := components_from g (graph_keys g) ∅.
Definition find_cycles (g : graph) : option (list (list str)) := (λ cs, cs.*2) <$> cyclic_components g.

(** ** What the search finds *)

(** A dependency on a key of the graph. *)
Definition edge (g : graph) (a b : str) : Prop := b ∈ default [] (g !! a) ∧ is_Some (g !! b).

Lemma edge_source g a b : edge g a b → is_Some (g !! a).
Proof. intros [Hb _]. destruct (g !! a); [eauto|by apply elem_of_nil in Hb]. Qed.

(** Each key depends on the next. *)
Fixpoint linked (g : graph) (path : list str) : Prop :=
  match path with
  | a :: (b :: _) as rest => edge g a b ∧ linked g rest
  | _ => True
  end.

(** A cycle of the graph: linked, closed, and with distinct keys. *)
Definition is_cycle (g : graph) (cycle : list str) : Prop :=
  ∃ key path, cycle = key :: path ++ [key] ∧ linked g cycle ∧ NoDup (key :: path).

Lemma linked_app g p q : linked g (p ++ q) → linked g p ∧ linked g q.
Proof.
  induction p as [|a [|b p] IH]; intros H; [done| |].
  - split; [done|]. destruct q as [|c q]; [done|]. apply H.
  - destruct H as [Hab H]. apply IH in H as [Hp Hq]. by split_and!.
Qed.

Lemma linked_snoc g p a b : linked g (p ++ [a]) → edge g a b → linked g (p ++ [a] ++ [b]).
Proof.
  intros H Hab. induction p as [|x [|y p] IH]; [by split|destruct H as [H _]; by split_and!|].
  destruct H as [Hxy H]. split; [done|]. by apply IH.
Qed.

Lemma linked_rtc g p a b : linked g (a :: p ++ [b]) → tc (edge g) a b.
Proof.
  revert a. induction p as [|c p IH]; intros a; cbn.
  - intros [H _]. by apply tc_once.
  - intros [H Hl]. eapply tc_l; [exact H|]. by apply IH.
Qed.

Lemma cycle_tc g cycle : is_cycle g cycle → ∃ key, tc (edge g) key key.
Proof. intros (key & path & -> & Hl & _). exists key. by apply (linked_rtc g path). Qed.

Lemma close_cycle_ok g path node dep :
  linked g (path ++ [node]) → NoDup (path ++ [node]) → edge g node dep → dep ∈ path ++ [node] →
  is_cycle g (close_cycle (path ++ [node]) dep).
Proof.
  intros Hl Hnd Hed Hin. unfold close_cycle. set (p := path ++ [node]) in *.
  destruct (list_find (λ k, k = dep) p) as [[i k]|] eqn:Hf.
  2:{ apply list_find_None in Hf. rewrite Forall_forall in Hf. by destruct (Hf dep Hin). }
  apply list_find_Some in Hf as (Hi & -> & _). cbn [fmap option_fmap option_map fst default from_option id].
  pose proof (take_drop_middle p i dep Hi) as Hp. rewrite (drop_S p dep i Hi).
  exists dep, (drop (S i) p). split; [done|]. rewrite <-Hp in Hnd, Hl. apply linked_app in Hl as [_ Hl].
  split; [|by apply NoDup_app in Hnd as (_ & _ & Hnd)].
  assert (∃ q, dep :: drop (S i) p = q ++ [node]) as [q Hq].
  { rewrite <-(drop_S p dep i Hi). unfold p. rewrite drop_app_le; [by eexists|].
    apply lookup_lt_Some in Hi. unfold p in Hi. rewrite length_app in Hi. cbn in Hi. lia. }
  cbn [app]. rewrite app_comm_cons, Hq. rewrite Hq in Hl. rewrite <-app_assoc. by apply linked_snoc.
Qed.

(** The search's invariant: the path is gray and linked, what is black leads to black only. *)
Record dfs_ok (g : graph) (s : Dfs) : Prop := {
  do_linked : linked g (dfs_path s);
  do_NoDup : NoDup (dfs_path s);
  do_gray : ∀ k, dfs_color s !! k = Some Gray ↔ k ∈ dfs_path s;
  do_closed : ∀ a b, dfs_color s !! a = Some Black → edge g a b → dfs_color s !! b = Some Black;
  do_acyclic : ∀ a, dfs_color s !! a = Some Black → ¬ tc (edge g) a a;
}.

(** Black keys stay black, gray keys stay gray, and no key loses its colour. *)
Definition darker (s s' : Dfs) : Prop :=
  dfs_path s' = dfs_path s ∧ (∀ k c, dfs_color s !! k = Some c → dfs_color s' !! k = Some c).

Lemma darker_refl s : darker s s.
Proof. done. Qed.
Lemma darker_trans s1 s2 s3 : darker s1 s2 → darker s2 s3 → darker s1 s3.
Proof. intros [H1 H2] [H3 H4]. split; [congruence|auto]. Qed.

(** The keys that are still white. *)
Definition whites (g : graph) (s : Dfs) : gset str := dom g ∖ dom (dfs_color s).

Lemma darker_whites g s s' : darker s s' → size (whites g s') ≤ size (whites g s).
Proof.
  intros [_ H]. apply subseteq_size. unfold whites. intros k [Hk Hc]%elem_of_difference.
  apply elem_of_difference. split; [done|]. intros [c Hs]%elem_of_dom. apply Hc, elem_of_dom. eauto.
Qed.

Lemma paint_whites g s node path :
  is_Some (g !! node) → dfs_color s !! node = None →
  size (whites g (mkDfs (<[node := Gray]> (dfs_color s)) path)) < size (whites g s).
Proof.
  intros Hg Hc. apply subset_size. unfold whites. cbn. rewrite dom_insert_L. apply elem_of_dom in Hg. apply not_elem_of_dom in Hc.
  set_solver.
Qed.

Definition found_cycle (g : graph) (r : search) (ok : Dfs → Prop) : Prop :=
  match r with
  | None => False
  | Some (Some cycle, _) => is_cycle g cycle
  | Some (None, s) => ok s
  end.

Section deps.
Context (g : graph) (fuel : nat) (node : str) (path : list str).
Hypothesis Hvisit : ∀ child s,
  dfs_ok g s → is_Some (g !! child) → dfs_color s !! child = None →
  (∀ p x, dfs_path s = p ++ [x] → edge g x child) → size (whites g s) < fuel →
  found_cycle g (visit fuel g child s) (λ s', dfs_ok g s' ∧ darker s s' ∧ dfs_color s' !! child = Some Black).

Lemma visit_deps_ok deps s :
  dfs_ok g s → dfs_path s = path ++ [node] → (∀ d, d ∈ deps → d ∈ default [] (g !! node)) → size (whites g s) < fuel →
  found_cycle g (visit_deps (visit fuel g) g deps s)
    (λ s', dfs_ok g s' ∧ darker s s' ∧ ∀ d, d ∈ deps → is_Some (g !! d) → dfs_color s' !! d = Some Black).
Proof.
  revert s. induction deps as [|dep deps IH]; intros s Hok Hp Hd Hw; cbn [visit_deps].
  - split_and!; [done|apply darker_refl|]. intros d Hd'. by apply elem_of_nil in Hd'.
  - assert (∀ s', dfs_ok g s' → darker s s' → (is_Some (g !! dep) → dfs_color s' !! dep = Some Black) →
      found_cycle g (visit_deps (visit fuel g) g deps s')
        (λ s', dfs_ok g s' ∧ darker s s' ∧ ∀ d, d ∈ dep :: deps → is_Some (g !! d) → dfs_color s' !! d = Some Black)) as Hrest.
    { intros s' Hok' Hdk Hdep. specialize (IH s' Hok'). destruct (visit_deps _ g deps s') as [[[c|] s2]|]; cbn in IH |- *.
      - apply IH; [by rewrite (proj1 Hdk)| |by pose proof (darker_whites g _ _ Hdk); lia]. intros d Hin. apply Hd. by right.
      - destruct IH as (Hok2 & Hdk2 & Hb); [by rewrite (proj1 Hdk)| |by pose proof (darker_whites g _ _ Hdk); lia|].
        { intros d Hin. apply Hd. by right. }
        split_and!; [done|by eapply darker_trans|]. intros d [->|Hin]%elem_of_cons Hg; [apply (proj2 Hdk2), Hdep; done|by apply Hb].
      - apply IH; [by rewrite (proj1 Hdk)| |by pose proof (darker_whites g _ _ Hdk); lia]. intros d Hin. apply Hd. by right. }
    destruct (g !! dep) as [ds|] eqn:Hg.
    2:{ apply Hrest; [done|apply darker_refl|by intros [??]]. }
    assert (edge g node dep) as Hed by (split; [apply Hd; left|by rewrite Hg]).
    destruct (dfs_color s !! dep) as [[]|] eqn:Hc.
    + cbn. rewrite Hp. apply close_cycle_ok; [rewrite <-Hp; apply Hok|rewrite <-Hp; apply Hok|done|].
      rewrite <-Hp. by apply (do_gray g s Hok).
    + apply Hrest; [done|apply darker_refl|by intros _].
    + pose proof (Hvisit dep s Hok ltac:(by rewrite Hg) Hc ltac:(intros p x Hpx; rewrite Hp in Hpx; apply app_inj_tail in Hpx as [_ <-]; done) Hw) as Hv.
      destruct (visit fuel g dep s) as [[[c|] s2]|]; cbn in Hv; [done| |done].
      destruct Hv as (Hok2 & Hdk2 & Hb). by apply Hrest.
Qed.
End deps.

Lemma linked_extend g path node : linked g path → (∀ p x, path = p ++ [x] → edge g x node) → linked g (path ++ [node]).
Proof.
  destruct path as [|x p _] using rev_ind; [done|]. intros Hl He. rewrite <-app_assoc. apply linked_snoc; [done|]. by eapply He.
Qed.

Lemma closed_rtc g s a b :
  (∀ a b, dfs_color s !! a = Some Black → edge g a b → dfs_color s !! b = Some Black) →
  dfs_color s !! a = Some Black → rtc (edge g) a b → dfs_color s !! b = Some Black.
Proof. intros Hcl Ha H. induction H as [|x y z Hxy _ IH]; [done|]. apply IH. by eapply Hcl. Qed.

Lemma visit_ok g fuel child s :
  dfs_ok g s → is_Some (g !! child) → dfs_color s !! child = None →
  (∀ p x, dfs_path s = p ++ [x] → edge g x child) → size (whites g s) < fuel →
  found_cycle g (visit fuel g child s) (λ s', dfs_ok g s' ∧ darker s s' ∧ dfs_color s' !! child = Some Black).
Proof.
  revert child s. induction fuel as [|fuel IH]; intros child s Hok Hg Hc He Hw; [lia|]. cbn [visit].
  set (s1 := mkDfs (<[child := Gray]> (dfs_color s)) (dfs_path s ++ [child])).
  assert (child ∉ dfs_path s) as Hout by (intros Hin; apply (do_gray g s Hok) in Hin; congruence).
  assert (dfs_ok g s1) as Hok1.
  { split; cbn.
    - by apply linked_extend; [apply Hok|].
    - apply NoDup_app. split_and!; [apply Hok| |apply NoDup_singleton]. by intros x Hx ->%list_elem_of_singleton.
    - intros k. rewrite elem_of_app, list_elem_of_singleton, <-(do_gray g s Hok). destruct (decide (k = child)) as [->|Hne].
      + rewrite lookup_insert_eq. naive_solver.
      + rewrite lookup_insert_ne by done. naive_solver.
    - intros a b Ha Hab. rewrite lookup_insert_Some in Ha. destruct Ha as [[_ ?]|[Hne Ha]]; [done|].
      pose proof (do_closed g s Hok a b Ha Hab) as Hb. rewrite lookup_insert_ne; [done|]. congruence.
    - intros a Ha. rewrite lookup_insert_Some in Ha. destruct Ha as [[_ ?]|[_ Ha]]; [done|]. by apply (do_acyclic g s Hok). }
  assert (size (whites g s1) < fuel) as Hw1 by (pose proof (paint_whites g s child (dfs_path s ++ [child]) Hg Hc); unfold s1; lia).
  pose proof (visit_deps_ok g fuel child (dfs_path s) IH (default [] (g !! child)) s1 Hok1 eq_refl (λ d H, H) Hw1) as Hd.
  destruct (visit_deps _ g _ s1) as [[[c|] s2]|]; cbn in Hd; [done| |done].
  destruct Hd as (Hok2 & [Hp2 Hdk2] & Hblack). cbn in Hp2.
  assert (dfs_color s2 !! child = Some Gray) as Hgray by (apply Hdk2; apply lookup_insert_eq).
  assert (∀ b, edge g child b → dfs_color s2 !! b = Some Black) as Hout2 by (intros b [Hb Hgb]; by apply Hblack).
  cbn. rewrite Hp2, removelast_last. split_and!.
  - split; cbn.
    + apply Hok.
    + apply Hok.
    + intros k. pose proof (do_gray g s2 Hok2 k) as Hk. rewrite Hp2, elem_of_app, list_elem_of_singleton in Hk.
      destruct (decide (k = child)) as [->|Hne]; [rewrite lookup_insert_eq; naive_solver|].
      rewrite lookup_insert_ne by done. rewrite Hk. naive_solver.
    + intros a b Ha Hab. destruct (decide (b = child)) as [->|Hne]; [apply lookup_insert_eq|]. rewrite lookup_insert_ne by done.
      rewrite lookup_insert_Some in Ha. destruct Ha as [[<- _]|[_ Ha]]; [by apply Hout2|by eapply (do_closed g s2 Hok2)].
    + intros a Ha Hcyc. rewrite lookup_insert_Some in Ha. destruct Ha as [[<- _]|[_ Ha]]; [|by apply (do_acyclic g s2 Hok2 a)].
      assert (∃ b, edge g child b ∧ rtc (edge g) b child) as (b & Hb & Hback).
      { inversion Hcyc as [x y Hxy|x y z Hxy Hyz]; subst; [by exists child|]. exists y. split; [done|]. by apply tc_rtc. }
      pose proof (closed_rtc g s2 b child (do_closed g s2 Hok2) (Hout2 b Hb) Hback). congruence.
  - split; [done|]. intros k c Hk. cbn. assert (k ≠ child) as Hne by congruence. rewrite lookup_insert_ne by done.
    apply Hdk2. cbn. by rewrite lookup_insert_ne.
  - apply lookup_insert_eq.
Qed.

Lemma elem_of_graph_keys g k : k ∈ graph_keys g ↔ is_Some (g !! k).
Proof.
  unfold graph_keys. rewrite list_elem_of_fmap. split.
  - intros ([k' ds] & -> & Hin%elem_of_btree_iter). by exists ds.
  - intros [ds Hds]. exists (k, ds). by rewrite elem_of_btree_iter.
Qed.

Lemma visit_roots_ok g roots s :
  dfs_ok g s → dfs_path s = [] → (∀ k, k ∈ roots → is_Some (g !! k)) →
  found_cycle g (visit_roots (S (size g)) g roots s)
    (λ s', dfs_ok g s' ∧ darker s s' ∧ ∀ k, k ∈ roots → dfs_color s' !! k = Some Black).
Proof.
  revert s. induction roots as [|node roots IH]; intros s Hok Hp Hr; cbn [visit_roots].
  - split_and!; [done|apply darker_refl|]. intros k Hk. by apply elem_of_nil in Hk.
  - assert (∀ s', dfs_ok g s' → darker s s' → dfs_color s' !! node = Some Black →
      found_cycle g (visit_roots (S (size g)) g roots s')
        (λ s', dfs_ok g s' ∧ darker s s' ∧ ∀ k, k ∈ node :: roots → dfs_color s' !! k = Some Black)) as Hrest.
    { intros s' Hok' Hdk Hb. specialize (IH s' Hok'). destruct (visit_roots _ g roots s') as [[[c|] s2]|]; cbn in IH |- *.
      - apply IH; [by rewrite (proj1 Hdk)|]. intros k Hk. apply Hr. by right.
      - destruct IH as (Hok2 & Hdk2 & Hb2); [by rewrite (proj1 Hdk)|intros k Hk; apply Hr; by right|].
        split_and!; [done|by eapply darker_trans|]. intros k [->|Hk]%elem_of_cons; [by apply (proj2 Hdk2)|by apply Hb2].
      - apply IH; [by rewrite (proj1 Hdk)|]. intros k Hk. apply Hr. by right. }
    destruct (dfs_color s !! node) as [c|] eqn:Hc.
    + apply Hrest; [done|apply darker_refl|]. destruct c; [|done]. apply (do_gray g s Hok) in Hc. rewrite Hp in Hc. by apply elem_of_nil in Hc.
    + assert (size (whites g s) < S (size g)) as Hw.
      { apply Nat.lt_succ_r. rewrite <-size_dom. apply subseteq_size. unfold whites. set_solver. }
      pose proof (visit_ok g _ node s Hok ltac:(apply Hr; left) Hc ltac:(intros p x Hx; rewrite Hp in Hx; by destruct p) Hw) as Hv.
      destruct (visit _ g node s) as [[[c|] s2]|]; cbn in Hv; [done| |done]. destruct Hv as (Hok2 & Hdk2 & Hb). by apply Hrest.
Qed.

Lemma start_dfs_ok g : dfs_ok g (mkDfs ∅ []).
Proof.
  split; cbn; [done|apply NoDup_nil_2|intros k; rewrite lookup_empty; split; [done|by intros ?%elem_of_nil]
    |intros a b; by rewrite lookup_empty|intros a; by rewrite lookup_empty].
Qed.

(** The search ends, and finds a cycle exactly when there is one. *)
Lemma run_find_cycle_ok g :
  found_cycle g (run_find_cycle g) (λ _, ∀ k, ¬ tc (edge g) k k).
Proof.
  pose proof (visit_roots_ok g (graph_keys g) (mkDfs ∅ []) (start_dfs_ok g) eq_refl (λ k H, proj1 (elem_of_graph_keys g k) H)) as H.
  unfold run_find_cycle. destruct (visit_roots _ g _ _) as [[[c|] s]|]; cbn in H |- *; [done| |done].
  destruct H as (Hok & _ & Hb). intros k Hk. apply (do_acyclic g s Hok k); [|done]. apply Hb, elem_of_graph_keys.
  by inversion Hk as [x y Hxy|x y z Hxy _]; subst; eapply edge_source.
Qed.

Lemma find_cycle_ok g :
  match find_cycle g with Some cycle => is_cycle g cycle | None => ∀ k, ¬ tc (edge g) k k end.
Proof.
  pose proof (run_find_cycle_ok g) as H. unfold find_cycle. by destruct (run_find_cycle g) as [[[c|] s]|].
Qed.

(** The search for a dependency cycle always ends within its fuel, one level of recursion per key; it
    answers nothing exactly when no task depends on itself, however indirectly, and what it answers
    is a cycle: distinct tasks, each depending on the next and the last on the first. *)
Theorem find_cycle_exact g :
  is_Some (run_find_cycle g) ∧
  (find_cycle g = None ↔ ∀ k, ¬ tc (edge g) k k) ∧
  ∀ cycle, find_cycle g = Some cycle → is_cycle g cycle.
Proof.
  pose proof (run_find_cycle_ok g) as Hrun. pose proof (find_cycle_ok g) as Hfind. split_and!.
  - destruct (run_find_cycle g) as [[[c|] s]|]; [eauto|eauto|done].
  - destruct (find_cycle g) as [c|]; [|done]. apply cycle_tc in Hfind as [k Hk]. split; [done|]. intros H. by destruct (H k).
  - intros cycle Hc. by rewrite Hc in Hfind.
Qed.

(** ** What reachability decides *)

(** Expanding a key pays for what it pushes. *)
Definition unseen_edges (g : graph) (seen : gset str) : nat :=
  sum_list (length ∘ snd <$> map_to_list (filter (λ e, e.1 ∉ seen) g)).

Lemma sum_list_perm (l l' : list nat) : l ≡ₚ l' → sum_list l = sum_list l'.
Proof. induction 1; cbn; lia. Qed.

Lemma unseen_edges_insert g seen k ds :
  g !! k = Some ds → k ∉ seen → unseen_edges g seen = length ds + unseen_edges g ({[k]} ∪ seen).
Proof.
  intros Hk Hs. unfold unseen_edges.
  assert (filter (λ e, e.1 ∉ seen) g = <[k := ds]> (filter (λ e, e.1 ∉ {[k]} ∪ seen) g)) as ->.
  { apply map_eq. intros i. destruct (decide (i = k)) as [->|Hne].
    - rewrite lookup_insert_eq. by apply map_lookup_filter_Some.
    - rewrite lookup_insert_ne by done. apply option_eq. intros x. rewrite !map_lookup_filter_Some. cbn. set_solver. }
  assert (filter (λ e, e.1 ∉ {[k]} ∪ seen) g !! k = None) as Hnone by (apply map_lookup_filter_None; right; intros x _; cbn; set_solver).
  rewrite (sum_list_perm _ _ (fmap_Permutation (length ∘ snd) _ _ (map_to_list_insert _ k ds Hnone))).
  done.
Qed.

Lemma unseen_edges_absent g seen k : g !! k = None → unseen_edges g ({[k]} ∪ seen) = unseen_edges g seen.
Proof.
  intros Hk. unfold unseen_edges. do 2 f_equal. f_equal. apply map_filter_ext. intros i x Hi. cbn. split; [set_solver|].
  intros Hs. assert (i ≠ k) by congruence. set_solver.
Qed.

(** What the search has still to find: the target lies behind a pending key, unless it has none. *)
Definition closed_seen (g : graph) (target : str) (pending : list str) (seen : gset str) : Prop :=
  ∀ k, k ∈ seen → ¬ edge g k target ∧ ∀ d, edge g k d → d ∈ seen ∨ d ∈ pending.

Lemma rtc_leaves_seen g target pending seen k :
  closed_seen g target pending seen → k ∈ seen → rtc (edge g) k target → target ∈ seen ∨ ∃ p, p ∈ pending ∧ rtc (edge g) p target.
Proof.
  intros Hcl Hk H. induction H as [|x y z Hxy Hyz IH]; [by left|].
  destruct (proj2 (Hcl x Hk) y Hxy) as [Hy|Hy]; [by apply IH|]. right. by exists y.
Qed.

Lemma tc_split g a b : tc (edge g) a b ↔ edge g a b ∨ ∃ c, edge g a c ∧ tc (edge g) c b.
Proof.
  split.
  - inversion 1 as [x y Hxy|x y z Hxy Hyz]; subst; eauto.
  - intros [H|(c & H1 & H2)]; [by apply tc_once|by eapply tc_l].
Qed.

Lemma tc_leaves_seen g target pending seen k :
  closed_seen g target pending seen → k ∈ seen → tc (edge g) k target → ∃ p, p ∈ pending ∧ tc (edge g) p target.
Proof.
  intros Hcl Hk H. revert Hk. induction H as [x y Hxy|x y z Hxy Hyz IH]; intros Hk.
  - by destruct (proj1 (Hcl x Hk)).
  - destruct (proj2 (Hcl x Hk) y Hxy) as [Hy|Hy]; [by apply IH|]. by exists y.
Qed.

Lemma reachable_from_ok fuel g target pending seen :
  is_Some (g !! target) → closed_seen g target pending seen → length pending + unseen_edges g seen < fuel →
  ∃ found, reachable_from fuel g target pending seen = Some found ∧
    (found = true ↔ ∃ p, p ∈ pending ∧ tc (edge g) p target).
Proof.
  intros Ht. revert pending seen. induction fuel as [|fuel IH]; intros pending seen Hcl Hf; [lia|]. cbn [reachable_from].
  destruct pending as [|node pending].
  { exists false. split; [done|]. split; [done|]. intros (p & Hp & _). by apply elem_of_nil in Hp. }
  case_decide as Hseen.
  { destruct (IH pending seen) as (found & Hr & Hiff); [|cbn in Hf; lia|].
    - intros k Hk. destruct (Hcl k Hk) as [H1 H2]. split; [done|]. intros d Hd. destruct (H2 d Hd) as [Hin|[->|Hin]%elem_of_cons]; auto.
    - exists found. split; [done|]. rewrite Hiff. split; [intros (p & Hp & Hpt); exists p; split; [by right|done]|].
      intros (p & [->|Hp]%elem_of_cons & Hpt); [|eauto].
      assert (closed_seen g target pending seen) as Hcl'.
      { intros k Hk. destruct (Hcl k Hk) as [H1 H2]. split; [done|]. intros d Hd. destruct (H2 d Hd) as [Hin|[->|Hin]%elem_of_cons]; auto. }
      by eapply tc_leaves_seen. }
  case_decide as Hdep.
  { exists true. split; [done|]. split; [|done]. intros _. exists node. split; [left|]. by apply tc_once. }
  set (next := filter (λ d, is_Some (g !! d)) (default [] (g !! node))).
  assert (∀ d, d ∈ reverse next ↔ edge g node d) as Hnext.
  { intros d. unfold next. rewrite elem_of_reverse, list_elem_of_filter. unfold edge. tauto. }
  destruct (IH (reverse next ++ pending) ({[node]} ∪ seen)) as (found & Hr & Hiff).
  - intros k [->%elem_of_singleton|Hk]%elem_of_union.
    + split; [by intros [? _]|]. intros d Hd. right. apply elem_of_app. left. by apply Hnext.
    + destruct (Hcl k Hk) as [H1 H2]. split; [done|]. intros d Hd. destruct (H2 d Hd) as [Hin|[->|Hin]%elem_of_cons]; [set_solver..|].
      right. apply elem_of_app. by right.
  - rewrite length_app, length_reverse. cbn in Hf. unfold next. destruct (g !! node) as [ds|] eqn:Hg; cbn.
    + rewrite (unseen_edges_insert g seen node ds Hg Hseen) in Hf. pose proof (length_filter (λ d, is_Some (g !! d)) ds). lia.
    + rewrite unseen_edges_absent by done. lia.
  - exists found. split; [done|]. rewrite Hiff. split.
    + intros (p & [Hp|Hp]%elem_of_app & Hpt).
      * exists node. split; [left|]. eapply tc_l; [by apply Hnext|done].
      * exists p. split; [by right|done].
    + intros (p & [->|Hp]%elem_of_cons & Hpt); [|exists p; split; [apply elem_of_app; by right|done]].
      apply tc_split in Hpt as [[? _]|(c & Hc & Hct)]; [done|]. exists c. split; [apply elem_of_app; left; by apply Hnext|done].
Qed.

Lemma reachable_iff g from target : is_Some (g !! target) → reachable g from target = true ↔ tc (edge g) from target.
Proof.
  intros Ht. unfold reachable. destruct (reachable_from_ok (S (S (edge_count g))) g target [from] ∅ Ht) as (found & -> & Hiff).
  - intros k Hk. set_solver.
  - cbn. unfold unseen_edges, edge_count. rewrite map_filter_id by set_solver. lia.
  - cbn. rewrite Hiff. split; [intros (p & ->%list_elem_of_singleton & H); done|]. intros H. exists from. split; [left|done].
Qed.

(** ** Components *)
Lemma tc_source g a b : tc (edge g) a b → is_Some (g !! a).
Proof. inversion 1 as [x y Hxy|x y z Hxy _]; subst; by eapply edge_source. Qed.

Lemma graph_keys_NoDup g : NoDup (graph_keys g).
Proof. apply btree_iter_NoDup. Qed.

Lemma elem_of_component g node k :
  is_Some (g !! node) → k ∈ component g node ↔ tc (edge g) node k ∧ tc (edge g) k node.
Proof.
  intros Hn. unfold component. rewrite list_elem_of_filter, andb_true_iff, elem_of_graph_keys. split.
  - intros [[H1 H2] Hk]. rewrite !reachable_iff in * by done. done.
  - intros [H1 H2]. pose proof (tc_source _ _ _ H2) as Hk. rewrite !reachable_iff by done. done.
Qed.

Lemma component_NoDup g node : NoDup (component g node).
Proof. apply NoDup_filter, graph_keys_NoDup. Qed.

Lemma component_graph_lookup g members k :
  NoDup members → component_graph g members !! k =
    if decide (k ∈ members) then Some (filter (λ d, d ∈ members) (default [] (g !! k))) else None.
Proof.
  intros Hnd. unfold component_graph. case_decide as Hk.
  - apply elem_of_list_to_map; [by rewrite <-list_fmap_compose, list_fmap_id|]. apply list_elem_of_fmap. eauto.
  - apply not_elem_of_list_to_map. by rewrite <-list_fmap_compose, list_fmap_id.
Qed.

Lemma component_edge g members a b :
  NoDup members → (∀ k, k ∈ members → is_Some (g !! k)) →
  edge (component_graph g members) a b ↔ a ∈ members ∧ b ∈ members ∧ edge g a b.
Proof.
  intros Hnd Hm. unfold edge. rewrite !component_graph_lookup by done. split.
  - intros [Ha Hb]. case_decide as Hbm; [|by destruct Hb]. case_decide as Ham; [|by apply elem_of_nil in Ha].
    cbn in Ha. apply list_elem_of_filter in Ha as [_ Ha]. eauto.
  - intros (Ha & Hb & Hab & _). rewrite !decide_True by done. cbn. split; [|done]. by apply list_elem_of_filter.
Qed.

(** A path between members of a component runs inside it. *)
Lemma component_tc g node a b :
  is_Some (g !! node) → tc (edge g) a b → a ∈ component g node → b ∈ component g node →
  tc (edge (component_graph g (component g node))) a b.
Proof.
  intros Hn H. assert (∀ k, k ∈ component g node → is_Some (g !! k)) as Hm by (intros k Hk; by apply elem_of_component in Hk as [_ ?%tc_source]).
  induction H as [x y Hxy|x y z Hxy Hyz IH]; intros Ha Hb.
  - apply tc_once. apply component_edge; [apply component_NoDup|done|done].
  - assert (y ∈ component g node) as Hy.
    { apply elem_of_component; [done|]. apply elem_of_component in Ha as [Ha _]; [|done]. apply elem_of_component in Hb as [_ Hb]; [|done].
      split; [by eapply tc_r|by eapply tc_trans]. }
    eapply tc_l; [|by apply IH]. apply component_edge; [apply component_NoDup|done|done].
Qed.

Lemma linked_component g members path :
  NoDup members → (∀ k, k ∈ members → is_Some (g !! k)) → linked (component_graph g members) path →
  linked g path ∧ (2 ≤ length path → ∀ k, k ∈ path → k ∈ members).
Proof.
  intros Hnd Hm. induction path as [|a [|b path] IH]; [by intros; split; [done|cbn; lia]..|].
  intros [Hab Hl]. apply component_edge in Hab as (Ha & Hb & Hab); [|done..]. destruct (IH Hl) as [Hlg Hin]. split; [by split|].
  intros _ k [->|Hk]%elem_of_cons; [done|]. destruct path as [|c path]; [by apply list_elem_of_singleton in Hk as ->|].
  apply Hin; [cbn; lia|done].
Qed.

(** The members of a component are the keys that depend on each other; the cycle lies among them. *)
Definition component_ok (g : graph) (c : list str * list str) : Prop :=
  is_cycle g c.2 ∧ (∀ k, k ∈ c.2 → k ∈ c.1) ∧ ∀ a, a ∈ c.1 → ∀ b, b ∈ c.1 ↔ tc (edge g) a b ∧ tc (edge g) b a.

Lemma component_has_cycle g node :
  tc (edge g) node node → ∃ cycle, find_cycle (component_graph g (component g node)) = Some cycle ∧ component_ok g (component g node, cycle).
Proof.
  intros Hn. pose proof (tc_source _ _ _ Hn) as Hg.
  assert (∀ k, k ∈ component g node → is_Some (g !! k)) as Hm by (intros k Hk; by apply elem_of_component in Hk as [_ ?%tc_source]).
  pose proof (find_cycle_ok (component_graph g (component g node))) as H.
  destruct (find_cycle _) as [cycle|].
  2:{ destruct (H node). by apply component_tc; [..|apply elem_of_component|apply elem_of_component]. }
  exists cycle. split; [done|]. destruct H as (key & path & -> & Hl & Hnd).
  apply linked_component in Hl as [Hl Hin]; [|apply component_NoDup|done]. split_and!.
  - by exists key, path.
  - apply Hin. cbn. rewrite length_app. cbn. lia.
  - cbn. intros a Ha b. apply elem_of_component in Ha as [Hna Han]; [|done]. rewrite elem_of_component by done. split.
    + intros [Hnb Hbn]. split; by eapply tc_trans.
    + intros [Hab Hba]. split; by eapply tc_trans.
Qed.

Lemma component_cyclic g node :
  is_Some (g !! node) → (1 <? length (component g node)) || self_dependent g node = true ↔ tc (edge g) node node.
Proof.
  intros Hn. rewrite orb_true_iff, Nat.ltb_lt. split.
  - intros [Hlen|Hself].
    + destruct (component g node) as [|k ks] eqn:Hc; [cbn in Hlen; lia|]. assert (k ∈ component g node) as Hk by (rewrite Hc; left).
      apply elem_of_component in Hk as [H1 H2]; [|done]. by eapply tc_trans.
    + apply tc_once. unfold self_dependent in Hself. split; [|done]. destruct (g !! node) as [ds|] eqn:Hg; [|done].
      by apply bool_decide_eq_true in Hself.
  - intros Ht. assert (node ∈ component g node) as Hin by (by apply elem_of_component).
    destruct (component g node) as [|k [|k' ks]] eqn:Hc; [by apply elem_of_nil in Hin| |left; cbn; lia]. right.
    apply list_elem_of_singleton in Hin as <-. unfold self_dependent.
    apply tc_split in Ht as [[He _]|(c & Hc1 & Hc2)].
    + destruct (g !! node); [by apply bool_decide_eq_true|by apply elem_of_nil in He].
    + assert (c ∈ component g node) as Hcc.
      { apply elem_of_component; [done|]. split; [by apply tc_once|done]. }
      rewrite Hc in Hcc. apply list_elem_of_singleton in Hcc as ->. destruct Hc1 as [He _].
      destruct (g !! node); [by apply bool_decide_eq_true|by apply elem_of_nil in He].
Qed.

Lemma components_from_ok g nodes assigned :
  (∀ k, k ∈ nodes → is_Some (g !! k)) → (∀ a b, a ∈ assigned → tc (edge g) a b → tc (edge g) b a → b ∈ assigned) →
  ∃ cs, components_from g nodes assigned = Some cs ∧ Forall (component_ok g) cs ∧
    (∀ k, k ∈ assigned → k ∉ cs ≫= fst) ∧ NoDup (cs ≫= fst) ∧
    (∀ k, k ∈ nodes → tc (edge g) k k → k ∈ assigned ∨ k ∈ cs ≫= fst).
Proof.
  revert assigned. induction nodes as [|node nodes IH]; intros assigned Hn Hcl; cbn [components_from].
  - exists []. split_and!; [done|constructor|intros k _; apply not_elem_of_nil|constructor|]. intros k Hk. by apply elem_of_nil in Hk.
  - assert (∀ k, k ∈ nodes → is_Some (g !! k)) as Hn' by (intros k Hk; apply Hn; by right).
    assert (is_Some (g !! node)) as Hg by (apply Hn; left).
    case_decide as Has.
    { destruct (IH assigned Hn' Hcl) as (cs & Hcs & Hok & Hdis & Hnd & Hall). exists cs. split_and!; [done..|].
      intros k [->|Hk]%elem_of_cons Ht; [by left|by apply Hall]. }
    destruct ((1 <? length (component g node)) || self_dependent g node) eqn:Hcyc.
    2:{ destruct (IH assigned Hn' Hcl) as (cs & Hcs & Hok & Hdis & Hnd & Hall). exists cs. split_and!; [done..|].
        intros k [->|Hk]%elem_of_cons Ht; [|by apply Hall]. apply component_cyclic in Ht; [congruence|done]. }
    apply component_cyclic in Hcyc; [|done]. destruct (component_has_cycle g node Hcyc) as (cycle & -> & Hok1). cbn [mbind option_bind].
    destruct (IH (list_to_set (component g node) ∪ assigned) Hn') as (cs & -> & Hok & Hdis & Hnd & Hall).
    { intros a b. rewrite !elem_of_union, !elem_of_list_to_set. intros [Ha|Ha] Hab Hba; [|by right; eapply Hcl]. left.
      by apply (proj2 (proj2 Hok1) a Ha b). }
    cbn [mbind option_bind]. exists ((component g node, cycle) :: cs). split_and!; [done|by constructor| | |]; cbn [fst]; rewrite ?bind_cons; cbn [fst].
    + intros k Hk. rewrite not_elem_of_app. split; [|apply Hdis; set_solver]. intros Hc. apply elem_of_component in Hc as [H1 H2]; [|done].
      apply Has. by apply (Hcl k node).
    + apply NoDup_app. split_and!; [apply component_NoDup| |done]. intros k Hk. apply Hdis. set_solver.
    + intros k Hk Ht. rewrite elem_of_app. apply elem_of_cons in Hk as [->|Hk]; [right; left; by apply elem_of_component|].
      destruct (Hall k Hk Ht) as [Hin|Hin]; set_solver.
Qed.

(** The components, their members and their cycles. *)
Lemma cyclic_components_ok g :
  ∃ cs, cyclic_components g = Some cs ∧ Forall (component_ok g) cs ∧ NoDup (cs ≫= fst) ∧ ∀ k, k ∈ cs ≫= fst ↔ tc (edge g) k k.
Proof.
  destruct (components_from_ok g (graph_keys g) ∅) as (cs & Hcs & Hok & _ & Hnd & Hall).
  { intros k. by rewrite elem_of_graph_keys. }
  { intros a b Ha. set_solver. }
  exists cs. split_and!; [exact Hcs|done..|]. rewrite Forall_forall in Hok. intros k. split.
  - intros ([members cycle] & Hk & Hin)%list_elem_of_bind. by apply (proj2 (proj2 (Hok _ Hin)) k Hk k).
  - intros Ht. destruct (Hall k) as [H|H]; [by apply elem_of_graph_keys, (tc_source _ _ _ Ht)|done|set_solver|done].
Qed.

(** C15: the cyclic components are exact and their computation never panics: every task that depends on
    itself, however indirectly, is in exactly one component and no other task is in any; the members
    of a component are the tasks that depend on each other, and its path is a cycle among them. *)
Theorem cyclic_components_exact g :
  ∃ cs, cyclic_components g = Some cs ∧ NoDup (cs ≫= fst) ∧ (∀ k, k ∈ cs ≫= fst ↔ tc (edge g) k k) ∧
    ∀ members cycle, (members, cycle) ∈ cs →
      is_cycle g cycle ∧ (∀ k, k ∈ cycle → k ∈ members) ∧
      ∀ a, a ∈ members → ∀ b, b ∈ members ↔ tc (edge g) a b ∧ tc (edge g) b a.
Proof.
  destruct (cyclic_components_ok g) as (cs & Hcs & Hok & Hnd & Hall). rewrite Forall_forall in Hok.
  exists cs. split_and!; [done..|]. intros members cycle Hin. apply (Hok _ Hin).
Qed.
