(* ===== verification/TaskTree.v ===== *)
(** * Budgets of a track tree

    [crates/calm-truth/src/db/sqlite/track_tree.rs]: how the tree's task budget is shared out
    among its tracks. The rows a query answers are arguments. *)

From stdpp Require Import prelude strings list gmap.
From S2P Require Import Prelude.

Local Open Scope Z_scope.

(** ** Limits and shares *)
Definition MAX_TRACK_TREE_DEPTH : Z := 3.
Definition DEFAULT_TREE_TASK_BUDGET : Z := 32.
Definition MAX_TREE_TASK_BUDGET : Z := 64.
Definition DEFAULT_PLANNER_TASK_CEILING : Z := 32.

Definition effective_limit (value : option Z) (default_ : Z) : Z := Z.max (default default_ value) 0.

Definition deterministic_share (budget members index : Z) : Z :=
  if members <=? 0 then 0
  else
    let budget := Z.max budget 0 in
    budget `quot` members + (if index <? budget `rem` members then 1 else 0).

(** [i64::saturating_add] of one. *)
Definition saturating_succ (z : Z) : Z := Z.min (z + 1) (2 ^ 63 - 1).

Definition can_add_tree_member (budget members : Z) : bool := saturating_succ members <=? Z.max budget 0.

Record TreeShare := mkTreeShare {
  ts_root_id : str;
  ts_budget : Z;
  ts_members : Z;
  ts_member_index : Z;
  ts_share : Z;
  ts_admission_frozen : bool;
  ts_minimum_budget_to_unfreeze : option Z;
}.

Inductive TrackTreeTerm := Tree_RootUnresolved | Tree_Share (share : TreeShare).

(** A member of the tree: its id, its depth, and the planner tasks it has in flight. *)
Record TreeMember := mkTreeMember { tm_id : str; tm_depth : Z; tm_fixed_live : Z }.

Definition tree_share_from_members_with_freeze (root_id track_id : str) (budget : Z) (members : list TreeMember)
    (admission_frozen : bool) (minimum_budget_to_unfreeze : option Z) : TrackTreeTerm :=
  let over_deep := existsb (λ m, MAX_TRACK_TREE_DEPTH <? tm_depth m) members in
  match list_find (λ m, tm_id m = track_id) members with
  | Some (index, _) =>
      if over_deep then Tree_RootUnresolved
      else
        let count := Z.of_nat (length members) in
        Tree_Share (mkTreeShare root_id budget count (Z.of_nat index) (deterministic_share budget count (Z.of_nat index))
          admission_frozen minimum_budget_to_unfreeze)
  | None => Tree_RootUnresolved
  end.

(** Each member's occupancy with its position. *)
Definition occupancies (members : list TreeMember) : list (nat * Z) := zip (seq 0 (length members)) (tm_fixed_live <$> members).

Definition over_share (budget count : Z) (e : nat * Z) : bool := deterministic_share budget count (Z.of_nat e.1) <? e.2.

(** [(from..=to).find(p)]. *)
Definition find_in_range (from to : Z) (p : Z → bool) : option Z :=
  snd <$> list_find (λ z, p z = true) ((λ i, from + Z.of_nat i) <$> seq 0 (Z.to_nat (to - from + 1))).

Definition tree_share_from_member_inventory (root_id track_id : str) (budget : Z) (members : list TreeMember) : TrackTreeTerm :=
  let count := Z.of_nat (length members) in
  let admission_frozen := existsb (over_share budget count) (occupancies members) in
  let minimum :=
    if admission_frozen then
      find_in_range (saturating_succ budget) MAX_TREE_TASK_BUDGET
        (λ candidate, forallb (λ e, negb (over_share candidate count e)) (occupancies members))
    else None in
  tree_share_from_members_with_freeze root_id track_id budget members admission_frozen minimum.

(** [roots] are the rows of the ancestor query: a root and the depth it is found at. *)
Definition track_tree_term (roots : list (str * Z)) (track_id : str) (members_of : str → list TreeMember) (budget_of : str → option Z)
  : TrackTreeTerm :=
  match roots with
  | [(root_id, depth)] =>
      if MAX_TRACK_TREE_DEPTH <? depth then Tree_RootUnresolved
      else
        tree_share_from_member_inventory root_id track_id (effective_limit (budget_of root_id) DEFAULT_TREE_TASK_BUDGET)
          (members_of root_id)
  | _ => Tree_RootUnresolved
  end.

(** ** The shares of a tree *)
Definition share_of (budget count : Z) (index : nat) : Z := deterministic_share budget count (Z.of_nat index).

Lemma share_sum (budget : Z) (n m : nat) :
  0 ≤ budget → (0 < n)%nat → (m ≤ n)%nat →
  foldr Z.add 0 (share_of budget (Z.of_nat n) <$> seq 0 m)
  = Z.of_nat m * (budget `div` Z.of_nat n) + Z.min (Z.of_nat m) (budget `mod` Z.of_nat n).
Proof.
  intros Hb Hn. induction m as [|m IH]; intros Hm; [cbn; pose proof (Z.mod_pos_bound budget (Z.of_nat n)); lia|].
  rewrite seq_S, fmap_app, foldr_app. cbn [fmap list_fmap foldr].
  assert (∀ l a, foldr Z.add a l = foldr Z.add 0 l + a) as Hf by (intros l a; induction l; cbn; lia).
  rewrite Hf, IH by lia. unfold share_of, deterministic_share. rewrite (proj2 (Z.leb_gt _ _)) by lia.
  rewrite Z.max_l, Z.quot_div_nonneg, Z.rem_mod_nonneg by lia.
  destruct (Z.ltb_spec (Z.of_nat (0 + m)) (budget `mod` Z.of_nat n)); lia.
Qed.

Lemma shares_sum budget (n : nat) :
  (0 < n)%nat → foldr Z.add 0 (share_of budget (Z.of_nat n) <$> seq 0 n) = Z.max budget 0.
Proof.
  intros Hn. destruct (Z.le_ge_cases 0 budget) as [Hb|Hb].
  - rewrite share_sum by lia. pose proof (Z.mod_pos_bound budget (Z.of_nat n)). pose proof (Z.div_mod budget (Z.of_nat n)). lia.
  - rewrite Z.max_r by lia. assert (∀ i, share_of budget (Z.of_nat n) i = share_of 0 (Z.of_nat n) i) as Heq.
    { intros i. unfold share_of, deterministic_share. by rewrite (Z.max_r budget), (Z.max_r 0) by lia. }
    rewrite (list_fmap_ext _ (share_of 0 (Z.of_nat n))) by (intros; apply Heq). rewrite share_sum by lia.
    rewrite Z.div_0_l, Z.mod_0_l by lia. lia.
Qed.

Lemma share_nonneg budget count index : 0 ≤ deterministic_share budget count index.
Proof.
  unfold deterministic_share. destruct (Z.leb_spec count 0); [lia|]. pose proof (Z.quot_pos (Z.max budget 0) count). case_match; lia.
Qed.

Lemma share_mono a b count index : a ≤ b → deterministic_share a count index ≤ deterministic_share b count index.
Proof.
  intros Hab. unfold deterministic_share. destruct (Z.leb_spec count 0); [lia|].
  rewrite !Z.quot_div_nonneg, !Z.rem_mod_nonneg by lia. set (x := Z.max a 0). set (y := Z.max b 0). assert (0 ≤ x ≤ y) as Hxy by lia.
  pose proof (Z.div_mod x count ltac:(lia)) as Hx. pose proof (Z.div_mod y count ltac:(lia)) as Hy.
  pose proof (Z.mod_pos_bound x count). pose proof (Z.mod_pos_bound y count).
  destruct (Z.lt_trichotomy (x `div` count) (y `div` count)) as [Hlt|[Heq|Hgt]]; [destruct (Z.ltb_spec index (x `mod` count)), (Z.ltb_spec index (y `mod` count)); lia| |nia].
  destruct (Z.ltb_spec index (x `mod` count)), (Z.ltb_spec index (y `mod` count)); lia.
Qed.
