(* ===== verification/ReportLinks.v ===== *)
(** * Report links

    [crates/calm-types/src/report_links.rs]: the destinations that name a track or one of its
    blocks, how one is read and written, and how a copied report's links follow it. The
    Markdown parser is a parameter: what it finds is the list of link destinations. *)

From stdpp Require Import prelude strings list gmap.
From S2P Require Import Prelude Text Slices Identity Blocks.

(** The destinations of a text's Markdown links, in document order ([pulldown_cmark]). *)
Class MarkdownLinks := { markdown_links : str → list str }.

Definition TRACK_LINK_PREFIX : str := lit "neige://wave/".
Definition hash_sign : N := 35.
Definition slash : N := 47.

Definition is_block_id (id : str) : bool :=
  (utf8_len id =? 6)%N
  && match strip_prefix (lit "b_") id with Some digits => forallb is_hex_byte digits | None => false end.

Definition parse_destination (destination : str) : option (str * option str) :=
  path ← strip_prefix TRACK_LINK_PREFIX destination;
  let '(track_id, fragment) :=
    match split_once [hash_sign] path with
    | Some (track_id, fragment) => (track_id, Some fragment)
    | None => (path, None)
    end in
  if is_empty track_id || contains [slash] track_id then None
  else Some (track_id, match fragment with Some id => if is_block_id id then Some id else None | None => None end).

Definition format_track_destination (track_id : str) (block_id : option str) : str :=
  TRACK_LINK_PREFIX ++ track_id ++ match block_id with Some id => hash_sign :: id | None => [] end.

Definition targets_copied_block (destination source_track_id : str) (copied_block_ids : list str) : bool :=
  match strip_prefix TRACK_LINK_PREFIX destination with
  | None => false
  | Some path =>
      match split_once [hash_sign] path with
      | None => false
      | Some (track_id, block_id) => bool_decide (track_id = source_track_id) && bool_decide (block_id ∈ copied_block_ids)
      end
  end.

(** [replace_range] of the track id. *)
Definition rewrite_track_destination (destination source_track_id target_track_id : str) (copied_block_ids : list str) : str :=
  if targets_copied_block destination source_track_id copied_block_ids
  then take (length TRACK_LINK_PREFIX) destination ++ target_track_id
       ++ drop (length TRACK_LINK_PREFIX + length source_track_id) destination
  else destination.

(** The links of a text, as [scan_links] lists them: those that name a track. *)
Definition scan_links `{MarkdownLinks} (text : str) : list (str * option str) := omap parse_destination (markdown_links text).

(** ** What they promise *)

Lemma split_once_none c s : c ∉ s → split_once [c] s = None.
Proof.
  induction s as [|x s IH]; intros Hc; [done|]. cbn [split_once strip_prefix].
  apply not_elem_of_cons in Hc as [Hx Hs]. destruct (N.eqb_spec c x) as [->|_]; [done|]. by rewrite IH.
Qed.

(** A track id that fits in a destination. *)
Definition plain_track_id (track_id : str) : Prop := track_id ≠ [] ∧ hash_sign ∉ track_id ∧ slash ∉ track_id.

Lemma contains_char_none c s : c ∉ s → contains [c] s = false.
Proof. intros Hc. apply contains_false. by apply split_once_none. Qed.

(** A written destination reads back: for every track id and every block id of the block-id form, the
    parser answers exactly the track and the block the destination was made from. *)
Theorem destination_roundtrip track_id block_id :
  plain_track_id track_id → (∀ id, block_id = Some id → is_block_id id = true) →
  parse_destination (format_track_destination track_id block_id) = Some (track_id, block_id).
Proof.
  intros (Hne & Hh & Hs) Hb. unfold parse_destination, format_track_destination. rewrite strip_prefix_app. cbn [mbind option_bind].
  destruct block_id as [id|].
  - rewrite split_once_char by done. rewrite contains_char_none by done. destruct track_id; [done|]. cbn. by rewrite (Hb id).
  - rewrite app_nil_r, split_once_none by done. rewrite contains_char_none by done. by destruct track_id.
Qed.

(** A rewritten link names the same block in the other track. *)
Lemma rewritten_destination destination source target copied :
  plain_track_id source → plain_track_id target → targets_copied_block destination source copied = true →
  ∃ id, id ∈ copied ∧ destination = TRACK_LINK_PREFIX ++ source ++ hash_sign :: id ∧
    rewrite_track_destination destination source target copied = TRACK_LINK_PREFIX ++ target ++ hash_sign :: id.
Proof.
  intros Hsrc Htgt Ht. unfold rewrite_track_destination. rewrite Ht. unfold targets_copied_block in Ht.
  destruct (strip_prefix TRACK_LINK_PREFIX destination) as [path|] eqn:Hp; [|done].
  destruct (split_once [hash_sign] path) as [[track id]|] eqn:Hs; [|done].
  apply andb_true_iff in Ht as [->%bool_decide_eq_true Hin%bool_decide_eq_true].
  apply strip_prefix_Some in Hp. apply split_once_Some in Hs as ->. subst destination.
  exists id. split_and!; [done|done|]. rewrite take_app_length. f_equal. f_equal.
  rewrite <-drop_drop, drop_app_length, drop_app_length. done.
Qed.
