(* ===== verification/TaskPayload.v ===== *)
(** * The payload of a task block

    [crates/calm-types/src/report_blocks/kinds.rs] (the field checks), [kinds/task.rs],
    [task_execution.rs], [task_result.rs] (the contract's name) and the gate of [tasks.rs]:
    what a task declaration may say. A check answers the violations it pushes, in order. What
    [serde] derives is written out - a struct may come as an object or, by position, as an
    array; the words of its errors are the parameter [SerdeErrors]. *)

From stdpp Require Import prelude strings list gmap.
From S2P Require Import Prelude Text Slices Identity PluginSchema Blocks OperationPhase PluginManifest TaskGuards ReportLinks.

Local Open Scope calm_scope.

(** The messages of [serde_json] for a value that does not decode. *)
Class SerdeErrors := {
  gate_shape_error : Json → str;
  child_track_shape_error : Json → str;
}.

Definition MAX_STRING_CHARS : nat := 2048.
Definition GATE_TIMEOUT_DEFAULT_SECS : Z := 1800.
Definition GATE_TIMEOUT_MAX_SECS : Z := 7200.
Definition PLANNER_DECLARATION_AUTHOR : str := lit "spec".
Definition TASK_IN_TRACK_ROUTE : str := lit "in-wave".
Definition TASK_CHILD_TRACK_ROUTE : str := lit "sub-track".

Definition quoted_word (w : str) : str := [double_quote] ++ w ++ [double_quote].

(** A field of an object, by its name in the source. *)
Definition get (map : Fields) (field : string) : option Json := assoc (lit field) map.
Definition get_str (map : Fields) (field : string) : option str := get map field ≫= json_as_str.

(** ** Field checks ([kinds.rs]) *)
Definition reject_unknown (map : Fields) (allowed : list str) : list str :=
  (λ key, key ++ lit ": unknown field") <$> filter (λ key, key ∉ allowed) map.*1.

Definition check_string_cap (path value : str) : list str :=
  if MAX_STRING_CHARS <? length value
  then [path ++ lit ": string too long (" ++ show_N (N.of_nat (length value)) ++ lit " chars), limit is 2048"]
  else [].

Definition required_non_empty_string (map : Fields) (field : string) : list str :=
  match get map field with
  | Some (JString value) => if is_blank value then [lit field ++ lit ": required non-empty string"] else check_string_cap (lit field) value
  | _ => [lit field ++ lit ": required non-empty string"]
  end.

Definition optional_non_empty_string (map : Fields) (field : string) : list str :=
  match get map field with Some _ => required_non_empty_string map field | None => [] end.

Definition optional_abs_path (map : Fields) (field : string) : list str :=
  let refused := [lit field ++ lit ": must be an absolute path without ASCII control characters"] in
  match get map field with
  | None => []
  | Some value =>
      match json_as_str value with
      | Some path => if starts_with (lit "/") (trim path) && negb (contains_char is_ascii_control path)
                     then check_string_cap (lit field) path else refused
      | None => refused
      end
  end.

Definition indexed (path : str) (index : nat) : str := path ++ lit "[" ++ show_N (N.of_nat index) ++ lit "]".

Fixpoint check_nested_string_caps (path : str) (value : Json) : list str :=
  match value with
  | JString value => check_string_cap path value
  | JArray values =>
      (fix go (index : nat) (values : list Json) : list str :=
         match values with
         | [] => []
         | value :: values => check_nested_string_caps (indexed path index) value ++ go (S index) values
         end) 0 values
  | JObject fields =>
      (fix go (fields : list (str * Json)) : list str :=
         match fields with
         | [] => []
         | (key, value) :: fields =>
             check_string_cap (path ++ lit "." ++ key) key ++ check_nested_string_caps (path ++ lit "." ++ key) value ++ go fields
         end) fields
  | _ => []
  end.

Definition check_array_item (field : string) (index : nat) (value : Json) : list str :=
  match json_as_str value with
  | Some value => check_string_cap (indexed (lit field) index) value
  | None => [indexed (lit field) index ++ lit ": must be a string"]
  end.

Definition optional_string_array (map : Fields) (field : string) (non_empty : bool) : list str :=
  match get map field with
  | None => []
  | Some value =>
      match as_array value with
      | Some values =>
          if negb non_empty || negb (is_empty values) then concat (imap (check_array_item field) values)
          else [lit field ++ lit ": must be non-empty"]
      | None => [lit field ++ lit ": must be an array"]
      end
  end.

Definition validate_declared_by (map : Fields) : list str :=
  if bool_decide (get_str map "declared_by" = Some (lit "spec")) || bool_decide (get_str map "declared_by" = Some (lit "user")) then []
  else [lit "declared_by: required; must be one of " ++ quoted_word (lit "spec") ++ lit " | " ++ quoted_word (lit "user")].

Definition required_enum (map : Fields) (field : string) (allowed : list str) : list str :=
  match get_str map field with
  | Some value => if bool_decide (value ∈ allowed) then []
                  else [lit field ++ lit ": required; must be one of " ++ join (lit " | ") (quoted_word <$> allowed)]
  | None => [lit field ++ lit ": required; must be one of " ++ join (lit " | ") (quoted_word <$> allowed)]
  end.

(** ** Gates ([tasks.rs]) *)
Record GateStepInput := mkGateStep { gs_name : str; gs_cmd : str }.
Record GateInput := mkGate { gate_cwd : option str; gate_timeout_secs : option Z; gate_steps : list GateStepInput }.

#[export] Instance GateStepInput_eq_dec : EqDecision GateStepInput.
Proof. solve_decision. Defined.
#[export] Instance GateInput_eq_dec : EqDecision GateInput.
Proof. solve_decision. Defined.

Definition known_fields (map : Fields) (allowed : list str) : bool := forallb (λ key, bool_decide (key ∈ allowed)) map.*1.

(** An [Option] field: absent and null are [None]. *)
Definition decode_option {A} (decode : Json → option A) (value : option Json) : option (option A) :=
  match value with
  | None | Some JNull => Some None
  | Some value => Some <$> decode value
  end.

Definition gate_step_of (value : Json) : option GateStepInput :=
  match value with
  | JObject map =>
      if known_fields map (lit <$> ["name"; "cmd"]%string) then
        name ← get_str map "name"; cmd ← get_str map "cmd"; Some (mkGateStep name cmd)
      else None
  | JArray [JString name; JString cmd] => Some (mkGateStep name cmd)
  | _ => None
  end.

Definition gate_steps_of (value : Json) : option (list GateStepInput) := as_array value ≫= mapM gate_step_of.

Definition gate_of_parts (cwd timeout : option Json) (steps : Json) : option GateInput :=
  cwd ← decode_option json_as_str cwd;
  timeout ← decode_option json_as_i64 timeout;
  steps ← gate_steps_of steps;
  Some (mkGate cwd timeout steps).

(** [serde_json::from_value::<GateInput>]. *)
Definition gate_of_json (value : Json) : option GateInput :=
  match value with
  | JObject map =>
      if known_fields map (lit <$> ["cwd"; "timeout_secs"; "steps"]%string) then
        steps ← get map "steps"; gate_of_parts (get map "cwd") (get map "timeout_secs") steps
      else None
  | JArray [cwd; timeout; steps] => gate_of_parts (Some cwd) (Some timeout) steps
  | _ => None
  end.

Definition gate_task (key message : str) : str := lit "task " ++ key ++ lit ": " ++ message.

Definition step_refusal (key : str) (index : nat) (step : GateStepInput) : option str :=
  let at_step := indexed (lit "gate.steps") index in
  if is_blank (gs_name step) then Some (gate_task key (at_step ++ lit ".name must be non-empty"))
  else if is_blank (gs_cmd step) then Some (gate_task key (at_step ++ lit ".cmd must be non-empty"))
  else if contains_char is_ascii_control (gs_name step) || contains_char is_ascii_control (gs_cmd step)
  then Some (gate_task key (at_step ++ lit " must not contain ASCII control characters"))
  else None.

Definition cwd_refusal (key cwd : str) : option str :=
  if contains_char is_ascii_control cwd then Some (gate_task key (lit "gate.cwd must not contain ASCII control characters"))
  else if is_empty (trim cwd) then Some (gate_task key (lit "gate.cwd must be non-empty when present"))
  else if negb (starts_with (lit "/") (trim cwd))
  then Some (gate_task key (lit "gate.cwd must be an absolute path (got `" ++ trim cwd ++ lit "`)"))
  else None.

(** Decimal rendering of an [i64]. *)
Definition show_Z (z : Z) : str := if (z <? 0)%Z then lit "-" ++ show_N (Z.to_N (- z)) else show_N (Z.to_N z).

Definition validate_gate_shape (key : str) (gate : GateInput) : result unit str :=
  if is_empty (gate_steps gate) then Err (gate_task key (lit "gate.steps must be non-empty"))
  else
    match head (omap (M:=list) id (imap (step_refusal key) (gate_steps gate))), gate_cwd gate ≫= cwd_refusal key with
    | Some refusal, _ | None, Some refusal => Err refusal
    | None, None =>
        let timeout := default GATE_TIMEOUT_DEFAULT_SECS (gate_timeout_secs gate) in
        if (1 <=? timeout)%Z && (timeout <=? GATE_TIMEOUT_MAX_SECS)%Z then Ok tt
        else Err (gate_task key (lit "gate.timeout_secs must be in 1..=7200 (default 1800), got " ++ show_Z timeout))
    end.

Definition check_step_strings (index : nat) (step : GateStepInput) : list str :=
  check_string_cap (indexed (lit "gate.steps") index ++ lit ".name") (gs_name step)
  ++ check_string_cap (indexed (lit "gate.steps") index ++ lit ".cmd") (gs_cmd step).

Definition check_gate_strings (gate : GateInput) : list str :=
  match gate_cwd gate with Some cwd => check_string_cap (lit "gate.cwd") cwd | None => [] end
  ++ concat (imap check_step_strings (gate_steps gate)).

(** ** Execution fields ([task_execution.rs], [task_result.rs]) *)
Inductive TaskAccess := Access_ReadOnly | Access_ReadWrite.
Inductive TaskStart := Start_Checkout | Start_Upstream.

#[export] Instance TaskAccess_eq_dec : EqDecision TaskAccess.
Proof. solve_decision. Defined.
#[export] Instance TaskStart_eq_dec : EqDecision TaskStart.
Proof. solve_decision. Defined.

Definition access_as_str (access : TaskAccess) : str :=
  match access with Access_ReadOnly => lit "read_only" | Access_ReadWrite => lit "read_write" end.
Definition start_as_str (start : TaskStart) : str :=
  match start with Start_Checkout => lit "checkout" | Start_Upstream => lit "upstream" end.

(** [TryFrom<String>], without the words of its error. *)
Definition access_of_str (value : str) : option TaskAccess :=
  if bool_decide (value = lit "read_only") then Some Access_ReadOnly
  else if bool_decide (value = lit "read_write") then Some Access_ReadWrite else None.
Definition start_of_str (value : str) : option TaskStart :=
  if bool_decide (value = lit "checkout") then Some Start_Checkout
  else if bool_decide (value = lit "upstream") then Some Start_Upstream else None.

Definition agent_kind (kind : option str) : bool := bool_decide (kind = Some (lit "codex")) || bool_decide (kind = Some (lit "claude")).

Definition runs_in_track_checkout (kind spawn : str) : bool :=
  bool_decide (kind ∈ lit <$> ["codex"; "claude"; "terminal"]%string) && bool_decide (spawn ≠ TASK_CHILD_TRACK_ROUTE).

Definition on_child_route (map : Fields) : bool := bool_decide (get_str map "spawn" = Some TASK_CHILD_TRACK_ROUTE).

(** A condition that pushes one violation. *)
Definition push_if (b : bool) (message : str) : list str := if b then [message] else [].

Definition requires_spawn (what : str) : str :=
  what ++ lit "; it requires spawn " ++ quoted_word TASK_IN_TRACK_ROUTE ++ lit ", not " ++ quoted_word TASK_CHILD_TRACK_ROUTE.

Definition validate_task_access (map : Fields) : list str :=
  match get map "access" with
  | None | Some JNull => []
  | Some value =>
      match json_as_str value ≫= access_of_str with
      | Some Access_ReadWrite => []
      | Some Access_ReadOnly =>
          push_if (negb (agent_kind (get_str map "kind")))
            (lit "access: " ++ quoted_word (lit "read_only") ++ lit " requires kind " ++ quoted_word (lit "codex") ++ lit " or "
             ++ quoted_word (lit "claude") ++ lit "; a terminal task takes " ++ quoted_word (lit "read_write"))
          ++ push_if (on_child_route map)
               (requires_spawn (lit "access: " ++ quoted_word (lit "read_only") ++ lit " runs in the track's checkout"))
          ++ push_if (match get map "gate" with Some gate => negb (is_null gate) | None => false end)
               (lit "access: " ++ quoted_word (lit "read_only") ++ lit " takes no gate; drop the gate, or declare "
                ++ quoted_word (lit "read_write") ++ lit " for a task that changes the checkout")
      | None => [lit "access: must be one of " ++ quoted_word (lit "read_only") ++ lit " | " ++ quoted_word (lit "read_write")]
      end
  end.

Definition validate_task_start (map : Fields) : list str :=
  match get map "start" with
  | None | Some JNull => []
  | Some value =>
      match json_as_str value ≫= start_of_str with
      | Some Start_Checkout => []
      | Some Start_Upstream =>
          push_if (negb (agent_kind (get_str map "kind")))
            (lit "start: " ++ quoted_word (lit "upstream") ++ lit " requires kind " ++ quoted_word (lit "codex") ++ lit " or "
             ++ quoted_word (lit "claude") ++ lit "; a terminal task takes " ++ quoted_word (lit "checkout"))
          ++ push_if (bool_decide (get_str map "access" = Some (access_as_str Access_ReadOnly)))
               (lit "start: " ++ quoted_word (lit "upstream") ++ lit " changes the checkout; it requires access "
                ++ quoted_word (lit "read_write") ++ lit ", not " ++ quoted_word (lit "read_only"))
          ++ push_if (on_child_route map)
               (requires_spawn (lit "start: " ++ quoted_word (lit "upstream") ++ lit " runs in the track's checkout"))
      | None => [lit "start: must be one of " ++ quoted_word (lit "checkout") ++ lit " | " ++ quoted_word (lit "upstream")]
      end
  end.

Definition is_full_commit_id (value : str) : bool := (utf8_len value =? 40)%N && forallb is_hex_byte value.

Definition validate_reader_commit (map : Fields) (field : string) : list str :=
  let read_only := bool_decide (get_str map "access" = Some (access_as_str Access_ReadOnly)) in
  let not_reader :=
    push_if (negb read_only)
      (lit field ++ lit ": applies only to a codex or claude task with access: " ++ quoted_word (lit "read_only")) in
  match get map field with
  | None | Some JNull => []
  | Some value =>
      push_if (match value with JString id => negb (is_full_commit_id id) | _ => true end)
        (lit field ++ lit ": must be a full commit id (40 lowercase hex digits)")
      ++ not_reader
  end.

Definition validate_reader_commits (map : Fields) : list str := validate_reader_commit map "head" ++ validate_reader_commit map "base".

Definition RESULT_CONTRACTS : list str := [lit "review-v1"; lit "evaluation-v1"].

Definition validate_task_result_contract (map : Fields) : list str :=
  match get map "result_contract" with
  | None => []
  | Some name =>
      push_if (match json_as_str name with Some name => bool_decide (name ∉ RESULT_CONTRACTS) | None => true end)
        (lit "result_contract: must be one of " ++ join (lit " | ") (quoted_word <$> RESULT_CONTRACTS))
      ++ push_if (negb (agent_kind (get_str map "kind")))
           (lit "result_contract: requires kind " ++ quoted_word (lit "codex") ++ lit " or " ++ quoted_word (lit "claude")
            ++ lit "; only a worker reports a result through neige_task_done")
      ++ push_if (on_child_route map)
           (lit "result_contract: a " ++ quoted_word TASK_CHILD_TRACK_ROUTE
            ++ lit " task completes through its child track; it requires spawn " ++ quoted_word TASK_IN_TRACK_ROUTE)
  end.

(** ** Child tracks ([tasks.rs]) *)
Record ChildTrackConfig := mkChildTrack {
  ct_continue : option str;
  ct_provider : option str;
  ct_model : option str;
  ct_reasoning_effort : option str;
}.

#[export] Instance ChildTrackConfig_eq_dec : EqDecision ChildTrackConfig.
Proof. solve_decision. Defined.

Definition child_track_of_parts (parts : list (option Json)) : option ChildTrackConfig :=
  let part i := decode_option json_as_str (mjoin (parts !! i)) in
  continue ← part 0; provider ← part 1; model ← part 2; effort ← part 3;
  Some (mkChildTrack continue provider model effort).

(** [serde_json::from_value::<ChildTrackConfig>]; every field has a default. *)
Definition child_track_of_json (value : Json) : option ChildTrackConfig :=
  match value with
  | JObject map =>
      if known_fields map (lit <$> ["continue"; "provider"; "model"; "reasoning_effort"]%string) then
        child_track_of_parts (get map <$> ["continue"; "provider"; "model"; "reasoning_effort"]%string)
      else None
  | JArray parts => if length parts <=? 4 then child_track_of_parts (Some <$> parts) else None
  | _ => None
  end.

Definition validate_child_track_config (config : ChildTrackConfig) : result unit str :=
  match ct_continue config with
  | None => Ok tt
  | Some child =>
      if is_blank child then Err (lit "child_track.continue: must be non-empty")
      else
        match ct_provider config, ct_model config, ct_reasoning_effort config with
        | None, None, None => Ok tt
        | _, _, _ => Err (lit "child_track.continue: exclusive with provider, model and reasoning_effort")
        end
  end.

Definition check_child_string (name : string) (value : option str) : list str :=
  match value with
  | None => []
  | Some value =>
      push_if (is_blank value) (lit "child_track." ++ lit name ++ lit ": must be non-empty")
      ++ check_string_cap (lit "child_track." ++ lit name) value
  end.

Definition error_list {A} (r : result A str) : list str := match r with Ok _ => [] | Err e => [e] end.

(** ** The task itself ([kinds/task.rs]) *)
Definition TASK_FIELDS : list str :=
  lit <$> ["key"; "kind"; "goal"; "command"; "acceptance"; "gate"; "no_gate_reason"; "depends_on"; "priority"; "cwd";
           "context"; "refs"; "ready"; "declared_by"; "released_by_user"; "spawn"; "access"; "head"; "base"; "start";
           "result_contract"; "child_track"; "tombstone"; "tombstoned_by"]%string.

Definition TOMBSTONE_FIELDS : list str := lit <$> ["key"; "tombstone"; "declared_by"; "tombstoned_by"]%string.
Definition COMPACT_FIELDS : list str := lit <$> ["key"; "kind"; "ready"; "released_by_user"; "declared_by"; "context"]%string.

Definition check_key (map : Fields) : list str :=
  match get map "key" with
  | Some (JString key) =>
      if key_is_valid key then check_string_cap (lit "key") key
      else [lit "key: must match ^[a-z0-9][a-z0-9._-]{0,63}$"]
  | _ => [lit "key: required string matching ^[a-z0-9][a-z0-9._-]{0,63}$"]
  end.

Definition valid_key (map : Fields) : option str :=
  match get map "key" with Some (JString key) => if key_is_valid key then Some key else None | _ => None end.

Definition check_tombstone (value : Json) : list str :=
  match value with
  | JObject value =>
      reject_unknown value [lit "reason"]
      ++ match get value "reason" with
         | None | Some JNull => []
         | Some (JString reason) => check_string_cap (lit "tombstone.reason") reason
         | Some _ => [lit "tombstone.reason: must be a string or null"]
         end
  | _ => [lit "tombstone: must be an object"]
  end.

Definition validate_tombstone (map : Fields) (value : Json) : list str :=
  ((λ field, field ++ lit ": must be absent from a tombstone task")
     <$> filter (λ field, (field ∉ TOMBSTONE_FIELDS) ∧ (contains_key field map = true)) TASK_FIELDS)
  ++ validate_declared_by map
  ++ required_enum map "tombstoned_by" [lit "spec"; lit "user"]
  ++ check_tombstone value.

Definition task_kind (map : Fields) : option str :=
  kind ← get_str map "kind";
  if bool_decide (kind ∈ lit <$> ["codex"; "claude"; "terminal"; "compact"]%string) then Some kind else None.

Definition check_ready (map : Fields) : list str :=
  match get map "ready" with Some (JBool _) => [] | _ => [lit "ready: required boolean"] end.

Definition check_released (map : Fields) : list str :=
  match get map "released_by_user" with
  | None | Some (JBool _) => []
  | Some _ => [lit "released_by_user: must be a boolean"]
  end.

Definition validate_compact (map : Fields) : list str :=
  required_non_empty_string map "context"
  ++ reject_unknown map COMPACT_FIELDS
  ++ required_enum map "declared_by" [PLANNER_DECLARATION_AUTHOR]
  ++ check_ready map
  ++ check_released map.

Definition check_work (map : Fields) (kind : option str) : list str :=
  if bool_decide (kind = Some (lit "terminal")) then
    required_non_empty_string map "command"
    ++ push_if (contains_key (lit "goal") map) (lit "goal: must be absent when kind is " ++ quoted_word (lit "terminal"))
  else if agent_kind kind then
    required_non_empty_string map "goal"
    ++ push_if (contains_key (lit "command") map)
         (lit "command: must be absent when kind is " ++ quoted_word (lit "codex") ++ lit " or " ++ quoted_word (lit "claude"))
  else [].

Definition check_gate_field `{SerdeErrors} (map : Fields) : list str :=
  match get map "gate" with
  | None => []
  | Some value =>
      match gate_of_json value with
      | Some gate =>
          let key := default (lit "<invalid>") (valid_key map) in
          match validate_gate_shape key gate with
          | Err error => [default error (strip_prefix (lit "task " ++ key ++ lit ": ") error)]
          | Ok _ => []
          end ++ check_gate_strings gate
      | None => [lit "gate: invalid shape: " ++ gate_shape_error value]
      end
  end.

Definition check_ref (index : nat) (reference : Json) : list str :=
  match json_as_str reference with
  | Some reference =>
      check_string_cap (indexed (lit "refs") index) reference
      ++ match parse_destination reference with
         | Some (_, Some _) => []
         | _ => [indexed (lit "refs") index ++ lit ": must be a neige://wave/<track>#b_xxxx block reference"]
         end
  | None => [indexed (lit "refs") index ++ lit ": must be a string"]
  end.

Definition check_refs (map : Fields) : list str :=
  match get map "refs" with
  | None => []
  | Some (JArray refs) => concat (imap check_ref refs)
  | Some _ => [lit "refs: must be an array"]
  end.

Definition check_spawn (map : Fields) : list str :=
  match get map "spawn" with
  | None | Some JNull => []
  | Some value =>
      push_if (bool_decide (json_as_str value ∉ Some <$> [TASK_IN_TRACK_ROUTE; TASK_CHILD_TRACK_ROUTE]))
        (lit "spawn: must be one of " ++ quoted_word TASK_IN_TRACK_ROUTE ++ lit " | " ++ quoted_word TASK_CHILD_TRACK_ROUTE)
  end
  ++ push_if (on_child_route map && negb (bool_decide (get_str map "kind" = Some (lit "codex"))))
       (lit "spawn: " ++ quoted_word TASK_CHILD_TRACK_ROUTE ++ lit " requires kind " ++ quoted_word (lit "codex")).

Definition check_child_member (member : str * Json) : list str :=
  push_if (match member.2 with JString _ => false | _ => true end) (lit "child_track." ++ member.1 ++ lit ": must be a string").

Definition check_child_track `{SerdeErrors} (map : Fields) : list str :=
  match get map "child_track" with
  | None => []
  | Some value =>
      push_if (negb (on_child_route map)) (lit "child_track: requires spawn " ++ quoted_word TASK_CHILD_TRACK_ROUTE)
      ++ match child_track_of_json value with
         | Some config =>
             error_list (validate_child_track_config config)
             ++ concat (check_child_member <$> default [] (as_object value))
             ++ check_child_string "continue" (ct_continue config)
             ++ check_child_string "provider" (ct_provider config)
             ++ check_child_string "model" (ct_model config)
             ++ check_child_string "reasoning_effort" (ct_reasoning_effort config)
             ++ push_if (match value with JObject _ => false | _ => true end) (lit "child_track: must be an object")
         | None => [lit "child_track: invalid shape: " ++ child_track_shape_error value]
         end
  end.

(** [{}] of [i64::MIN] and [i64::MAX]. *)
Definition check_priority (map : Fields) : list str :=
  match get map "priority" with
  | None => []
  | Some priority =>
      push_if (bool_decide (json_as_i64 priority = None))
        (lit "priority: must be an integer between " ++ show_Z (- 2 ^ 63) ++ lit " and " ++ show_Z (2 ^ 63 - 1))
  end.

Definition validate_execution `{SerdeErrors} (map : Fields) : list str :=
  check_work map (task_kind map)
  ++ optional_non_empty_string map "acceptance"
  ++ optional_non_empty_string map "no_gate_reason"
  ++ optional_abs_path map "cwd"
  ++ check_gate_field map
  ++ optional_string_array map "depends_on" false
  ++ check_priority map
  ++ match get map "context" with Some context => check_nested_string_caps (lit "context") context | None => [] end
  ++ check_refs map
  ++ check_ready map
  ++ validate_declared_by map
  ++ check_released map
  ++ check_spawn map
  ++ check_child_track map
  ++ validate_task_access map
  ++ validate_reader_commits map
  ++ validate_task_start map
  ++ validate_task_result_contract map.

Definition validate_task `{SerdeErrors} (map : Fields) : list str :=
  reject_unknown map TASK_FIELDS
  ++ check_key map
  ++ match get map "tombstone" with
     | None | Some JNull =>
         push_if (contains_key (lit "tombstoned_by") map) (lit "tombstoned_by: must be absent from a non-tombstone task")
         ++ push_if (bool_decide (task_kind map = None))
              (lit "kind: required; must be one of "
               ++ join (lit " | ") (quoted_word <$> (lit <$> ["codex"; "claude"; "terminal"; "compact"]%string)))
         ++ if bool_decide (task_kind map = Some (lit "compact")) then validate_compact map else validate_execution map
     | Some value => validate_tombstone map value
     end.

(** ** [validate_payload] of a task block ([kinds.rs]) *)
Definition MAX_CANONICAL_BYTES : N := 256 * 1024.

Definition type_name (value : Json) : str :=
  lit (match value with
       | JNull => "null" | JBool _ => "boolean" | JInt _ | JFloat _ => "number" | JString _ => "string"
       | JArray _ => "array" | JObject _ => "object"
       end)%string.

Definition check_size `{SerdeText} (payload : Json) : list str :=
  let canonical_len := utf8_len (canonical_json payload) in
  push_if (MAX_CANONICAL_BYTES <? canonical_len)%N
    (lit "payload too large: canonical JSON is " ++ show_N canonical_len ++ lit " bytes, limit is 262144 bytes (256KB) per block").

Definition validate_task_payload `{SerdeText} `{SerdeErrors} (payload : Json) : result unit str :=
  match as_object payload with
  | None => Err (lit "payload must be a JSON object, got " ++ type_name payload)
  | Some map =>
      match (match validate_task map with [] => check_size payload | errors => errors end) with
      | [] => Ok tt
      | errors => Err (join (lit "; ") errors)
      end
  end.
