(* ===== verification/TaskDecl.v ===== *)
(** * Task declarations

    [crates/calm-types/src/report_blocks/tasks.rs]: what a report's task blocks declare, and the
    diagnostics a document carries without the database - payloads that do not validate,
    duplicate keys, tombstones, cycles - with [task_recovery.rs]'s hash preimage and
    [subtrack_route.rs]'s legacy spellings. [None] is a panic of the code. *)

From stdpp Require Import prelude strings list gmap.
From S2P Require Import Prelude Text Slices Identity PluginSchema Blocks OperationPhase TaskGuards ReportLinks TaskTree TaskPayload TaskGraph.

Local Open Scope calm_scope.

(** ** The vocabulary of diagnostics *)

(** [TASK_DIAGNOSTIC_CODE_PATHS]: each registered code, and the path its producer must name. *)
Definition TASK_DIAGNOSTIC_CODE_PATHS : list (str * str) :=
  (λ p : string * string, (lit p.1, lit p.2)) <$>
  [("invalid_declaration", "payload"); ("duplicate_key", "key"); ("dependency_cycle", "depends_on");
   ("tombstone_blocks_redeclaration", "key"); ("unknown_dependency", "depends_on"); ("gate_required", "gate");
   ("gate_cwd_on_agent_task", "gate"); ("neige_execution_retired", "payload"); ("reference_needs_block", "refs");
   ("reference_missing", "refs"); ("reference_cross_area", "refs"); ("declare_and_wait", "released_by_user");
   ("declaration_changed_in_flight", "key"); ("task_key_completed", "key"); ("context_stale_declaration", "key");
   ("context_stale_reference", "refs"); ("reference_chain_too_large", "refs"); ("planner_task_ceiling", "key");
   ("tree_budget_exhausted", "key"); ("tree_root_unresolved", "key")]%string.

Definition TASK_DIAGNOSTIC_CODES : list str :=
  lit <$> ["invalid_declaration"; "duplicate_key"; "dependency_cycle"; "tombstone_blocks_redeclaration"; "unknown_dependency";
           "gate_required"; "gate_cwd_on_agent_task"; "neige_execution_retired"; "reference_needs_block"; "reference_missing";
           "reference_cross_area"; "declare_and_wait"; "declaration_changed_in_flight"; "task_key_completed";
           "context_stale_declaration"; "context_stale_reference"; "reference_chain_too_large"; "planner_task_ceiling";
           "tree_budget_exhausted"; "tree_root_unresolved"]%string.

Definition TASK_BLOCKING_DIAGNOSTIC_PATHS : list str := lit <$> ["depends_on"; "gate"; "key"; "payload"; "refs"]%string.

(** [None] is the panic on an unclassified code. *)
Definition task_diagnostic_is_actionable (code : str) : option bool :=
  if bool_decide (code = lit "task_key_completed") then Some false
  else if bool_decide (code ∈ TASK_DIAGNOSTIC_CODES) then Some true else None.

Inductive TaskDiagnosticOnAgentWrite := Write_Refuse | Write_Show.

Definition REFUSING_CODES : list str :=
  lit <$> ["invalid_declaration"; "duplicate_key"; "dependency_cycle"; "tombstone_blocks_redeclaration"; "gate_required";
           "gate_cwd_on_agent_task"; "neige_execution_retired"; "reference_needs_block"; "reference_missing";
           "reference_cross_area"]%string.

Definition SHOWN_CODES : list str :=
  lit <$> ["unknown_dependency"; "declare_and_wait"; "declaration_changed_in_flight"; "task_key_completed";
           "context_stale_declaration"; "context_stale_reference"; "reference_chain_too_large"; "planner_task_ceiling";
           "tree_budget_exhausted"; "tree_root_unresolved"]%string.

Definition task_diagnostic_on_agent_write (code : str) : option TaskDiagnosticOnAgentWrite :=
  if bool_decide (code ∈ REFUSING_CODES) then Some Write_Refuse
  else if bool_decide (code ∈ SHOWN_CODES) then Some Write_Show else None.

Inductive TaskPendingReasonKind := DependencyWaiting | DependencyFailedOrCanceled | TrackBusy | NotAdmitted.

(** [any] stops at the first actionable code. *)
Fixpoint any_actionable (codes : list str) : option bool :=
  match codes with
  | [] => Some false
  | code :: codes => actionable ← task_diagnostic_is_actionable code; if actionable : bool then Some true else any_actionable codes
  end.

Definition task_pending_reason_is_actionable (kind : TaskPendingReasonKind) (diagnostic_codes : list str) : option bool :=
  match kind with
  | DependencyFailedOrCanceled => Some true
  | DependencyWaiting | TrackBusy => Some false
  | NotAdmitted => any_actionable diagnostic_codes
  end.

Definition task_diagnostic_action (code : str) : option str :=
  if bool_decide (code = lit "planner_task_ceiling") then Some (lit "raise_planner_task_ceiling")
  else if bool_decide (code = lit "tree_budget_exhausted") then Some (lit "raise_tree_task_budget")
  else None.

(** ** Diagnostics *)
Abbreviation MessageArgs := (list (str * Json)).

Record Diagnostic := mkDiagnostic {
  dg_code : str;
  dg_message_args : MessageArgs;
  dg_related_block_ids : list str;
  dg_related_track_id : option str;
  dg_action : option str;
  dg_path : str;
  dg_message : str;
}.

Definition arg (args : MessageArgs) (key : string) : str := default [] (assoc (lit key) args ≫= json_as_str).
Definition arg_i64 (args : MessageArgs) (key : string) : option Z := assoc (lit key) args ≫= json_as_i64.
Definition arg_bool (args : MessageArgs) (key : string) : bool :=
  match assoc (lit key) args with Some (JBool b) => b | _ => false end.

(** The em dash of the messages, with its spaces. *)
Definition spaced_dash : str := [32; 8212; 32]%N.

Definition backticked (s : str) : str := lit "`" ++ s ++ lit "`".

Definition ceiling_message (args : MessageArgs) : str :=
  let ceiling := default 0%Z (arg_i64 args "ceiling") in
  let minimum := show_Z (default (saturating_succ ceiling) (arg_i64 args "minimum_planner_task_ceiling")) in
  let root := backticked (arg args "root_wave_id") in
  if arg_bool args "admission_frozen" && arg_bool args "capacity_raise_unavailable" then
    lit "the track tree rooted at " ++ root
    ++ lit " is frozen and this track's planner task ceiling has no free slot, but the tree budget has no higher legal target in the current configuration; raising the local ceiling alone cannot admit another task" ++ spaced_dash ++ lit "wait for in-flight work to finish or reduce the number of tree members"
  else if arg_bool args "admission_frozen" then
    lit "the track tree rooted at " ++ root
    ++ lit " is frozen and this track's planner task ceiling has no free slot" ++ spaced_dash ++ lit "raise this track's planner_task_ceiling to at least "
    ++ minimum ++ lit " and follow the tree-budget recovery action"
  else if arg_bool args "bounds_tied" && arg_bool args "capacity_raise_unavailable" then
    lit "planner task ceiling of " ++ show_Z ceiling
    ++ lit " and this track's tree share are both reached, but the tree budget has no higher legal target in the current configuration; wait for in-flight work to finish or reduce the number of tree members"
  else if arg_bool args "bounds_tied" then
    lit "planner task ceiling of " ++ show_Z ceiling
    ++ lit " and this track's tree share are both reached" ++ spaced_dash ++ lit "raise this track's planner_task_ceiling to at least " ++ minimum
    ++ lit " and also raise tree_task_budget on root track " ++ root
  else
    lit "planner task ceiling of " ++ show_Z ceiling ++ lit " is reached" ++ spaced_dash ++ lit "raise planner_task_ceiling to at least " ++ minimum.

Definition budget_message (args : MessageArgs) : str :=
  let root := lit "the track tree rooted at " ++ backticked (arg args "root_wave_id") in
  let whole := lit "the whole track tree rooted at " ++ backticked (arg args "root_wave_id") in
  let budget := show_Z (default 0%Z (arg_i64 args "tree_task_budget")) in
  let tracks := show_Z (default 0%Z (arg_i64 args "tree_waves")) in
  let share := default 0%Z (arg_i64 args "share") in
  match arg_i64 args "minimum_tree_task_budget" with
  | None =>
      root ++ lit " cannot admit another planner task, and the current configuration cannot be released by raising tree_task_budget within its allowed range" ++ spaced_dash ++ lit "let in-flight work finish or reduce the number of tree members"
  | Some minimum =>
      if arg_bool args "admission_frozen" then
        root ++ lit " is frozen because at least one member's immutable in-flight occupancy exceeds its assigned share; no member may admit a new planner task" ++ spaced_dash ++ lit "raise tree_task_budget to at least "
        ++ show_Z minimum ++ lit " so every member's existing work fits with room for another task, or let the tree's excess in-flight work finish"
      else if arg_bool args "bounds_tied" then
        whole ++ lit " shares a tree_task_budget of " ++ budget ++ lit ", split across " ++ tracks ++ lit " track(s); this track's slice of "
        ++ show_Z share ++ lit " and its local planner_task_ceiling are both reached" ++ spaced_dash ++ lit "raise both the local ceiling and tree_task_budget on the root track (to at least "
        ++ show_Z minimum ++ lit ")"
      else if (share =? 0)%Z then
        root ++ lit " has " ++ tracks ++ lit " track(s) but a tree_task_budget of " ++ budget
        ++ lit ", so this track receives a zero task share" ++ spaced_dash ++ lit "raise tree_task_budget on the root track to at least "
        ++ show_Z minimum ++ lit " or remove extra child tracks"
      else
        whole ++ lit " shares a tree_task_budget of " ++ budget ++ lit ", split across " ++ tracks ++ lit " track(s); this track's slice of "
        ++ show_Z share ++ lit " is used up, so no further planner task is queued here" ++ spaced_dash ++ lit "raise tree_task_budget on the root track to at least "
        ++ show_Z minimum ++ lit " or let the tree's excess in-flight work finish"
  end.

Definition completed_message (status : str) : str :=
  lit (if bool_decide (status = lit "failed") then "the current attempt failed; another round is a new task key"
       else if bool_decide (status = lit "done") then "this task is complete; its execution history remains available"
       else if bool_decide (status = lit "canceled") then "the current attempt was canceled; review its execution history"
       else "this execution has ended; inspect its outcome")%string.

(** The arms of [render_diagnostic_message], by code. *)
Definition diagnostic_messages (args : MessageArgs) : list (str * str) :=
  [ (lit "invalid_declaration", arg args "detail");
    (lit "duplicate_key", lit "duplicate key " ++ backticked (arg args "key"));
    (lit "dependency_cycle", lit "dependency cycle: " ++ arg args "keys");
    (lit "tombstone_blocks_redeclaration", lit "task key " ++ backticked (arg args "key") ++ lit " has an uncleared tombstone");
    (lit "unknown_dependency", lit "unknown dependency " ++ backticked (arg args "dependency"));
    (lit "gate_required",
     lit "task requires a gate, a no_gate_reason or access: " ++ quoted_word (lit "read_only"));
    (lit "gate_cwd_on_agent_task",
     lit "codex/claude tasks do not take gate.cwd: the gate runs in the worker's lease worktree; write a sub-directory gate as `cd <subdir> && "
     ++ [8230%N] ++ lit "` inside the step");
    (lit "neige_execution_retired",
     lit "isolated execution (context.neige_execution) is retired; this task is history and never runs");
    (lit "reference_needs_block", lit "reference " ++ backticked (arg args "reference") ++ lit " must identify a block");
    (lit "reference_missing", lit "reference target " ++ backticked (arg args "reference") ++ lit " does not exist");
    (lit "reference_cross_area", lit "cross-area reference " ++ backticked (arg args "reference") ++ lit " is not schedulable");
    (lit "declare_and_wait", lit "this track requires user release before planner tasks are queued");
    (lit "declaration_changed_in_flight",
     lit "the declaration differs from the recorded execution; its frozen requirements were not changed");
    (lit "task_key_completed", completed_message (arg args "status"));
    (lit "context_stale_declaration",
     lit "task " ++ backticked (arg args "key") ++ lit " is in flight (" ++ arg args "status"
     ++ lit ") and cannot be withdrawn immediately; its declaration context is now stale, so any gate operation that has not started will be rejected");
    (lit "context_stale_reference", lit "a referenced block changed after this task started");
    (lit "reference_chain_too_large", lit "the task reference chain is too deep or too wide");
    (lit "planner_task_ceiling", ceiling_message args);
    (lit "tree_budget_exhausted", budget_message args);
    (lit "tree_root_unresolved",
     lit "this track belongs to a track tree whose root cannot be resolved (a broken parent link, a cycle, or a chain deeper than the limit), so its share of the tree budget is unknown and nothing is queued here"
     ++ spaced_dash ++ lit "an operator must repair the corrupted track tree") ].

Definition render_diagnostic_message (code : str) (args : MessageArgs) : str :=
  default (arg args "detail") (assoc code (diagnostic_messages args)).

Definition action_available (code : str) (args : MessageArgs) : bool :=
  if bool_decide (code = lit "tree_budget_exhausted") then bool_decide (is_Some (arg_i64 args "minimum_tree_task_budget"))
  else if bool_decide (code = lit "planner_task_ceiling") then negb (arg_bool args "capacity_raise_unavailable")
  else true.

(** [Diagnostic::coded]; its assertions are the guards of [None]. *)
Definition coded (code path : str) (message_args : MessageArgs) (related_block_ids : list str) (related_track_id action : option str)
  : option Diagnostic :=
  let expected_action :=
    match task_diagnostic_action code with
    | Some expected => if action_available code message_args then Some expected else None
    | None => action
    end in
  if bool_decide (assoc code TASK_DIAGNOSTIC_CODE_PATHS = Some path) && bool_decide (action = expected_action)
  then Some (mkDiagnostic code message_args related_block_ids related_track_id action path (render_diagnostic_message code message_args))
  else None.

(** [Diagnostic::new]. *)
Definition new_diagnostic (path message : str) : option Diagnostic :=
  coded (lit "invalid_declaration") path [(lit "detail", JString message)] [] None None.

(** ** Declarations *)
Inductive TaskDeclarationSource := Source_Report (root_hash_preimage : str) | Source_ValidationOnly.

Record TaskDeclaration := mkTaskDeclaration {
  td_source : TaskDeclarationSource;
  td_block_index : option nat;
  td_block_id : str;
  td_key : str;
  td_kind : str;
  td_goal : str;
  td_acceptance : option str;
  td_gate : option GateInput;
  td_no_gate_reason : option str;
  td_depends_on : list str;
  td_context : Json;
  td_cwd : option str;
  td_priority : Z;
  td_refs : list str;
  td_declared_by : str;
  td_released_by_user : bool;
  td_spawn : str;
  td_child_track : option ChildTrackConfig;
  td_access : TaskAccess;
  td_head : option str;
  td_base : option str;
  td_start : TaskStart;
  td_result_contract : option str;
  td_tombstoned_by : option str;
  td_ready : bool;
  td_tombstone : bool;
}.

(** An object's fields come in the order of their keys: where a field is set, and removed. *)
Fixpoint insert_field (key : str) (value : Json) (map : Fields) : Fields :=
  match map with
  | [] => [(key, value)]
  | (k, v) :: map =>
      if bool_decide (key = k) then (key, value) :: map
      else if str_leb key k then (key, value) :: (k, v) :: map
      else (k, v) :: insert_field key value map
  end.

Definition remove_field (key : str) (map : Fields) : Fields := filter (λ kv, kv.1 ≠ key) map.

Definition normalize_legacy_terminal_command (payload : Json) : Json :=
  match payload with
  | JObject map =>
      if bool_decide (get_str map "kind" = Some (lit "terminal")) && negb (contains_key (lit "command") map) then
        match get map "goal" with
        | Some (JString goal) => JObject (insert_field (lit "command") (JString goal) (remove_field (lit "goal") map))
        | _ => payload
        end
      else payload
  | _ => payload
  end.

(** [subtrack_route.rs]. *)
Definition LEGACY_CHILD_ROUTE : str := lit "sub-wave".

(** [payload["spawn"] = route], of a payload that has the field. *)
Definition set_spawn (route : str) (payload : Json) : Json :=
  match payload with JObject map => JObject (insert_field (lit "spawn") (JString route) map) | _ => payload end.

Definition payload_spawn (payload : Json) : option str := json_get payload (lit "spawn") ≫= json_as_str.

Definition migrate_legacy_payload (payload : Json) : Json :=
  if bool_decide (payload_spawn payload = Some LEGACY_CHILD_ROUTE) then set_spawn TASK_CHILD_TRACK_ROUTE payload else payload.

Definition with_payload (block : ReportBlock) (payload : Json) : ReportBlock :=
  mkReportBlock (rb_id block) (rb_kind block) (rb_rev block) payload.

Definition migrate_legacy_block (block : ReportBlock) : ReportBlock :=
  if is_task block then with_payload block (migrate_legacy_payload (rb_payload block)) else block.

Definition normalize_legacy_task_block (block : ReportBlock) : ReportBlock :=
  if negb (is_task block) then block
  else
    let payload := migrate_legacy_payload (normalize_legacy_terminal_command (rb_payload block)) in
    if json_eqb payload (rb_payload block) then block else with_payload block payload.

Definition normalize_legacy_task_blocks (blocks : list ReportBlock) : list ReportBlock := normalize_legacy_task_block <$> blocks.

Section preimages.
Context `{SerdeText}.

Definition context_hash_preimage (block : ReportBlock) : str :=
  if is_task block && bool_decide (payload_spawn (rb_payload block) = Some TASK_CHILD_TRACK_ROUTE)
  then flat_text (with_payload block (set_spawn LEGACY_CHILD_ROUTE (rb_payload block)))
  else flat_text block.

(** [task_recovery.rs]. *)
Definition TASK_ROOT_HASH_FIELDS : list string :=
  ["kind"; "goal"; "command"; "acceptance"; "gate"; "no_gate_reason"; "depends_on"; "refs"; "cwd"; "context"]%string.

Definition root_hash_value (map : Fields) (key : string) : option Json :=
  if bool_decide (get_str map "kind" = Some (lit "terminal")) && bool_decide (key = "goal"%string)
  then (match get map "command" with Some command => Some command | None => get map "goal" end)
  else get map key.

Definition root_hash_field (map : Fields) (projected : Fields) (key : string) : Fields :=
  if bool_decide (key = "command"%string) then projected
  else
    match root_hash_value map key with
    | Some value => if is_null value then projected else insert_field (lit key) value projected
    | None => projected
    end.

Definition task_root_hash_preimage (payload : Json) : str :=
  canonical_json (JObject (match as_object payload with
                           | Some map => foldl (root_hash_field map) [] TASK_ROOT_HASH_FIELDS
                           | None => []
                           end)).
End preimages.

(** ** Rules over the declarations of a report *)
Fixpoint dup_keys_from (seen emitted : gset str) (declarations : list TaskDeclaration) : list str :=
  match declarations with
  | [] => []
  | d :: declarations =>
      if bool_decide (td_key d ∈ seen) && bool_decide (td_key d ∉ emitted)
      then td_key d :: dup_keys_from seen ({[td_key d]} ∪ emitted) declarations
      else dup_keys_from ({[td_key d]} ∪ seen) emitted declarations
  end.

Definition dup_keys (declarations : list TaskDeclaration) : list str := dup_keys_from ∅ ∅ declarations.

Definition live (d : TaskDeclaration) : bool := negb (td_tombstone d).

(** [BTreeSet] to [Vec]. *)
Definition tombstoned_keys (declarations : list TaskDeclaration) : list str :=
  ord_sort (remove_dups (td_key <$> filter (λ d, td_tombstone d = true) declarations)).

Definition unknown_deps (declarations : list TaskDeclaration) (known_task_keys : list str) : list (str * str) :=
  let known := (td_key <$> filter (λ d, live d = true) declarations) ++ known_task_keys in
  filter (λ d, live d = true) declarations ≫= λ d,
    (λ dependency, (td_key d, dependency)) <$> filter (λ dependency, dependency ∉ known) (td_depends_on d).

Definition lacks_gate (d : TaskDeclaration) : bool :=
  live d && agent_kind (Some (td_kind d)) && runs_in_track_checkout (td_kind d) (td_spawn d)
  && bool_decide (td_access d ≠ Access_ReadOnly) && bool_decide (td_gate d = None) && bool_decide (td_no_gate_reason d = None).

Definition gate_rule_violations (declarations : list TaskDeclaration) (require_gates : bool) : list str :=
  if require_gates then td_block_id <$> filter (λ d, lacks_gate d = true) declarations else [].

Definition has_gate_cwd (d : TaskDeclaration) : bool :=
  live d && agent_kind (Some (td_kind d)) && match td_gate d ≫= gate_cwd with Some _ => true | None => false end.

Definition gate_cwd_violations (declarations : list TaskDeclaration) : list str :=
  td_block_id <$> filter (λ d, has_gate_cwd d = true) declarations.

(** Of two declarations of a key the later one counts. *)
Definition declaration_graph (declarations : list TaskDeclaration) : graph :=
  list_to_map (reverse ((λ d, (td_key d, td_depends_on d)) <$> filter (λ d, live d = true) declarations)).

(** ** The projection *)
Definition str_items (value : option Json) : list str :=
  match value ≫= as_array with Some values => omap (M:=list) json_as_str values | None => [] end.

Definition json_as_bool (value : Json) : option bool := match value with JBool b => Some b | _ => None end.

Section projection.
Context `{Serde : SerdeText} `{Errors : SerdeErrors}.

(** The declaration of a normalized payload that has a key and an author; the hash is of the stored one. *)
Definition declaration_of (index : nat) (block : ReportBlock) (payload : Fields) (key declared_by : str) : TaskDeclaration :=
  {| td_source := Source_Report (task_root_hash_preimage (rb_payload block));
     td_block_index := Some index;
     td_block_id := rb_id block;
     td_key := key;
     td_kind := default [] (get_str payload "kind");
     td_goal := default [] (get_str payload (if bool_decide (get_str payload "kind" = Some (lit "terminal")) then "command" else "goal"));
     td_acceptance := get_str payload "acceptance";
     td_gate := get payload "gate" ≫= gate_of_json;
     td_no_gate_reason := get_str payload "no_gate_reason";
     td_depends_on := str_items (get payload "depends_on");
     td_context := default (JObject []) (get payload "context");
     td_cwd := get_str payload "cwd";
     td_priority := default 0%Z (get payload "priority" ≫= json_as_i64);
     td_refs := str_items (get payload "refs");
     td_declared_by := declared_by;
     td_released_by_user := default false (get payload "released_by_user" ≫= json_as_bool);
     td_spawn := default TASK_IN_TRACK_ROUTE (get_str payload "spawn");
     td_child_track := get payload "child_track" ≫= child_track_of_json;
     td_access := default Access_ReadWrite (get_str payload "access" ≫= access_of_str);
     td_head := get_str payload "head";
     td_base := get_str payload "base";
     td_start := default Start_Checkout (get_str payload "start" ≫= start_of_str);
     td_result_contract := get_str payload "result_contract";
     td_tombstoned_by := get_str payload "tombstoned_by";
     td_ready := default false (get payload "ready" ≫= json_as_bool);
     td_tombstone := match get payload "tombstone" with Some value => negb (is_null value) | None => false end |}.

(** The retired isolated execution. *)
Definition retired_diagnostics (payload : Fields) (tombstone : bool) : option (list Diagnostic) :=
  if negb tombstone && match get payload "context" ≫= λ context, json_get context (lit "neige_execution") with Some _ => true | None => false end
  then (λ d, [d]) <$> coded (lit "neige_execution_retired") (lit "payload") [] [] None None
  else Some [].

(** One block's turn of the first loop: the declaration it adds and the diagnostics it pushes. *)
Definition project_block (index : nat) (block : ReportBlock) : option (option TaskDeclaration * list Diagnostic) :=
  if negb (is_task block) then Some (None, [])
  else
    let normalized := normalize_legacy_terminal_command (rb_payload block) in
    let key := json_get normalized (lit "key") ≫= json_as_str in
    let declared_by := json_get normalized (lit "declared_by") ≫= json_as_str in
    invalid ← match validate_task_payload normalized with
              | Err error => (λ d, [d]) <$> new_diagnostic (lit "payload") error
              | Ok _ => Some []
              end;
    if negb (is_empty invalid) && (bool_decide (key = None) || bool_decide (declared_by = None)) then Some (None, invalid)
    else
      payload ← as_object normalized; key ← key; declared_by ← declared_by;
      let declaration := declaration_of index block payload key declared_by in
      retired ← retired_diagnostics payload (td_tombstone declaration);
      Some (Some declaration, invalid ++ retired).

Fixpoint project_blocks (index : nat) (blocks : list ReportBlock) : option (list (option TaskDeclaration * list Diagnostic)) :=
  match blocks with
  | [] => Some []
  | block :: blocks =>
      projected ← project_block index block;
      rest ← project_blocks (S index) blocks;
      Some (projected :: rest)
  end.

(** [diagnostics[index].push(d)] at every block of a kind. *)
Definition push_where (matching : ReportBlock → bool) (blocks : list ReportBlock) (d : Diagnostic) (diagnostics : list (list Diagnostic))
  : list (list Diagnostic) :=
  zip_with (λ block pushed, if matching block then pushed ++ [d] else pushed) blocks diagnostics.

Definition has_key (key : str) (block : ReportBlock) : bool := bool_decide (string_field block "key" = Some key).
Definition ids_where (matching : ReportBlock → bool) (blocks : list ReportBlock) : list str :=
  rb_id <$> filter (λ b, matching b = true) blocks.

Definition duplicate_diagnostic (blocks : list ReportBlock) (key : str) : option Diagnostic :=
  coded (lit "duplicate_key") (lit "key") [(lit "key", JString key)] (ids_where (λ b, is_task b && has_key key b) blocks) None
    (Some (lit "edit_task_key")).

Definition tombstoned_by_of (declarations : list TaskDeclaration) (key : str) : str :=
  default PLANNER_DECLARATION_AUTHOR
    (head (filter (λ d, td_key d = key ∧ td_tombstone d = true) declarations) ≫= td_tombstoned_by).

Definition tombstone_diagnostic (declarations : list TaskDeclaration) (blocks : list ReportBlock) (key : str) : option Diagnostic :=
  coded (lit "tombstone_blocks_redeclaration") (lit "key")
    [(lit "key", JString key); (lit "tombstoned_by", JString (tombstoned_by_of declarations key))]
    (ids_where (λ b, is_task b && has_key key b && is_tombstone b) blocks) None (Some (lit "clear_tombstone")).

Definition in_keys (keys : list str) (block : ReportBlock) : bool :=
  is_task block && match string_field block "key" with Some key => bool_decide (key ∈ keys) | None => false end.

Definition cycle_diagnostic (blocks : list ReportBlock) (component : list str * list str) : option Diagnostic :=
  coded (lit "dependency_cycle") (lit "depends_on") [(lit "keys", JString (join (lit " -> ") component.2))]
    (ids_where (in_keys component.1) blocks) None (Some (lit "edit_dependencies")).

(** A loop that makes a diagnostic for each item and pushes it at the blocks the item concerns. *)
Fixpoint push_each {A} (make : A → option Diagnostic) (matching : A → ReportBlock → bool) (blocks : list ReportBlock) (items : list A)
    (diagnostics : list (list Diagnostic)) : option (list (list Diagnostic)) :=
  match items with
  | [] => Some diagnostics
  | item :: items =>
      d ← make item;
      push_each make matching blocks items (push_where (matching item) blocks d diagnostics)
  end.

Definition project_task_declarations (blocks : list ReportBlock) : option (list TaskDeclaration * list (list Diagnostic)) :=
  projected ← project_blocks 0 blocks;
  let declarations := omap (M:=list) fst projected in
  let tombstoned := tombstoned_keys declarations in
  diagnostics ← push_each (duplicate_diagnostic blocks) (λ key b, is_task b && has_key key b) blocks
    (filter (λ key, key ∉ tombstoned) (dup_keys declarations)) projected.*2;
  diagnostics ← push_each (tombstone_diagnostic declarations blocks) (λ key b, task_block_is_live b && has_key key b) blocks
    tombstoned diagnostics;
  components ← cyclic_components (declaration_graph declarations);
  diagnostics ← push_each (cycle_diagnostic blocks) (λ component, in_keys component.1) blocks components diagnostics;
  Some (declarations, diagnostics).
End projection.
