(* ===== verification/TaskDeclRules.v ===== *)
(** * What a task declaration promises

    A payload that validates declares a well-formed task, and a report's projection never
    panics: a live task without a diagnostic is the only declaration of its key, no tombstone
    holds the key, and no dependency leads back to it. *)

From stdpp Require Import prelude strings list gmap relations.
From S2P Require Import Prelude Text Slices Identity PluginSchema PluginManifest Blocks OperationPhase TaskGuards ReportLinks TaskPayload TaskGraph TaskDecl.

Local Open Scope calm_scope.

(** ** Gates *)
Definition step_ok (step : GateStepInput) : Prop :=
  is_blank (gs_name step) = false ∧ is_blank (gs_cmd step) = false ∧
  contains_char is_ascii_control (gs_name step) = false ∧ contains_char is_ascii_control (gs_cmd step) = false.

Definition cwd_ok (cwd : str) : Prop :=
  contains_char is_ascii_control cwd = false ∧ trim cwd ≠ [] ∧ starts_with (lit "/") (trim cwd) = true.

(** A gate that can be run. *)
Record gate_ok (gate : GateInput) : Prop := {
  go_steps : gate_steps gate ≠ [];
  go_step : ∀ step, step ∈ gate_steps gate → step_ok step;
  go_cwd : ∀ cwd, gate_cwd gate = Some cwd → cwd_ok cwd;
  go_timeout : (1 <= default GATE_TIMEOUT_DEFAULT_SECS (gate_timeout_secs gate) <= GATE_TIMEOUT_MAX_SECS)%Z;
}.

Lemma step_refusal_none key index step : step_refusal key index step = None ↔ step_ok step.
Proof.
  unfold step_refusal, step_ok. destruct (is_blank (gs_name step)); [naive_solver|].
  destruct (is_blank (gs_cmd step)); [naive_solver|].
  destruct (contains_char is_ascii_control (gs_name step)), (contains_char is_ascii_control (gs_cmd step)); naive_solver.
Qed.

Lemma cwd_refusal_none key cwd : cwd_refusal key cwd = None ↔ cwd_ok cwd.
Proof.
  unfold cwd_refusal, cwd_ok. destruct (contains_char _ cwd); [naive_solver|].
  destruct (trim cwd) as [|c rest] eqn:Ht; cbn [is_empty]; [naive_solver|].
  destruct (starts_with _ _); cbn; naive_solver.
Qed.

Lemma omap_imap_nil {A B} (f : nat → A → option B) l : omap (M:=list) id (imap f l) = [] ↔ ∀ i x, l !! i = Some x → f i x = None.
Proof.
  revert f. induction l as [|x l IH]; intros f; cbn; [by split; [intros _ i x; rewrite lookup_nil|]|].
  destruct (f 0 x) eqn:Hf; cbn.
  - split; [done|]. intros H. by rewrite (H 0 x) in Hf.
  - rewrite (IH (f ∘ S)). split.
    + intros H [|i] y Hy; [by injection Hy as <-|by apply H].
    + intros H i y Hy. by apply (H (S i)).
Qed.

Lemma validate_gate_shape_exact key gate : validate_gate_shape key gate = Ok tt ↔ gate_ok gate.
Proof.
  unfold validate_gate_shape. destruct (gate_steps gate) as [|s ss] eqn:Hs; cbn [is_empty]; [by split; [|intros []]|]. rewrite <-Hs.
  destruct (omap (M:=list) id (imap (step_refusal key) (gate_steps gate))) as [|e es] eqn:Ho.
  - rewrite omap_imap_nil in Ho. cbn [head].
    assert (∀ step, step ∈ gate_steps gate → step_ok step) as Hsteps.
    { intros step [i Hi]%list_elem_of_lookup. by apply (step_refusal_none key i), Ho. }
    destruct (gate_cwd gate ≫= cwd_refusal key) as [e|] eqn:Hc.
    + split; [done|]. intros [_ _ Hcwd _]. destruct (gate_cwd gate) as [cwd|]; [|done]. cbn in Hc.
      by rewrite (proj2 (cwd_refusal_none key cwd) (Hcwd cwd eq_refl)) in Hc.
    + destruct (1 <=? _)%Z eqn:H1, (_ <=? GATE_TIMEOUT_MAX_SECS)%Z eqn:H2; cbn.
      * split; [intros _|done]. split; [by rewrite Hs|done| |lia].
        intros cwd Hcwd. rewrite Hcwd in Hc. by apply (cwd_refusal_none key).
      * split; [done|]. intros [_ _ _ ?]; lia.
      * split; [done|]. intros [_ _ _ ?]; lia.
      * split; [done|]. intros [_ _ _ ?]; lia.
  - split; [by cbn|]. intros [_ Hsteps _ _]. assert (omap (M:=list) id (imap (step_refusal key) (gate_steps gate)) = []) as Hn; [|congruence].
    apply omap_imap_nil. intros i x Hx. apply step_refusal_none, Hsteps. by eapply list_elem_of_lookup_2.
Qed.

(** ** Valid payloads *)
Lemma push_if_nil b m : push_if b m = [] ↔ b = false.
Proof. by destruct b. Qed.

Lemma get_str_some map field s : get_str map field = Some s ↔ get map field = Some (JString s).
Proof. unfold get_str. destruct (get map field) as [[]|]; naive_solver. Qed.

Lemma non_empty_string map field :
  required_non_empty_string map field = [] → ∃ value, get_str map field = Some value ∧ is_blank value = false.
Proof.
  unfold required_non_empty_string, get_str. destruct (get map field) as [[]|]; try done.
  destruct (is_blank s) eqn:Hb; [done|]. intros _. by exists s.
Qed.

Lemma imap_concat_nil {A} (f : nat → A → list str) l : concat (imap f l) = [] → ∀ i x, l !! i = Some x → f i x = [].
Proof.
  revert f. induction l as [|x l IH]; intros f H i y Hy; [done|]. cbn in H. apply app_eq_nil in H as [Hx H].
  destruct i as [|i]; [by injection Hy as <-|]. by apply (IH (f ∘ S) H i).
Qed.

Lemma all_strings values : (∀ i x, values !! i = Some x → is_Some (json_as_str x)) → values = JString <$> omap (M:=list) json_as_str values.
Proof.
  induction values as [|v values IH]; intros H; [done|]. destruct (H 0 v eq_refl) as [s Hs]. destruct v; try done.
  cbn. f_equal. apply IH. intros i x Hx. by apply (H (S i) x).
Qed.

(** A list field of strings, absent or read in full. *)
Definition strings_of (value : option Json) (items : list str) : Prop :=
  (value = None ∧ items = []) ∨ value = Some (JArray (JString <$> items)).

Lemma string_array map field : optional_string_array map field false = [] → strings_of (get map field) (str_items (get map field)).
Proof.
  unfold optional_string_array, str_items, strings_of. destruct (get map field) as [value|]; [|by left]. destruct value; try done.
  cbn. intros H. right. do 2 f_equal. apply all_strings. intros i x Hx.
  pose proof (imap_concat_nil _ _ H i x Hx) as Hi. unfold check_array_item in Hi. destruct (json_as_str x); [eauto|done].
Qed.

(** A reference to a block of a track's report. *)
Definition block_ref (reference : str) : Prop := ∃ track_id block_id, parse_destination reference = Some (track_id, Some block_id).

Lemma valid_refs map : check_refs map = [] → ∀ reference, reference ∈ str_items (get map "refs") → block_ref reference.
Proof.
  unfold check_refs, str_items. destruct (get map "refs") as [[]|]; cbn; try (intros _ r Hr; by apply elem_of_nil in Hr).
  intros H r (x & Hx & Hr)%list_elem_of_omap. apply list_elem_of_lookup in Hx as [i Hi].
  pose proof (imap_concat_nil _ _ H i x Hi) as Hc. unfold check_ref in Hc. rewrite Hr in Hc. apply app_eq_nil in Hc as [_ Hc].
  destruct (parse_destination r) as [[t [b|]]|] eqn:Hp; try done. by exists t, b.
Qed.

Lemma valid_gate `{SerdeErrors} map :
  check_gate_field map = [] →
  get map "gate" = None ∨ ∃ gate, get map "gate" ≫= gate_of_json = Some gate ∧ gate_ok gate.
Proof.
  unfold check_gate_field. destruct (get map "gate") as [value|]; [|by left]. cbn. destruct (gate_of_json value) as [gate|]; [|done].
  destruct (validate_gate_shape _ gate) as [[]|e] eqn:Hg; [|by cbn]. intros _. right. exists gate. split; [done|].
  by eapply validate_gate_shape_exact.
Qed.

(** The rules of the execution fields, by what they allow. *)
Lemma valid_access map :
  validate_task_access map = [] → get_str map "access" ≫= access_of_str = Some Access_ReadOnly →
  agent_kind (get_str map "kind") = true ∧ on_child_route map = false ∧ get map "gate" ≫= gate_of_json = None.
Proof.
  intros H Ha. destruct (get_str map "access") as [s|] eqn:Hs; [|done]. apply get_str_some in Hs.
  unfold validate_task_access in H. rewrite Hs in H. cbn in H, Ha. rewrite Ha in H.
  apply app_eq_nil in H as [H1 H]. apply app_eq_nil in H as [H2 H3]. apply push_if_nil in H1, H2, H3.
  apply negb_false_iff in H1. split_and!; [done..|]. destruct (get map "gate") as [[]|]; done.
Qed.

Lemma valid_start map :
  validate_task_start map = [] → get_str map "start" ≫= start_of_str = Some Start_Upstream →
  agent_kind (get_str map "kind") = true ∧ on_child_route map = false ∧ get_str map "access" ≠ Some (lit "read_only").
Proof.
  intros H Ha. destruct (get_str map "start") as [s|] eqn:Hs; [|done]. apply get_str_some in Hs.
  unfold validate_task_start in H. rewrite Hs in H. cbn in H, Ha. rewrite Ha in H.
  apply app_eq_nil in H as [H1 H]. apply app_eq_nil in H as [H2 H3]. apply push_if_nil in H1, H2, H3.
  apply negb_false_iff in H1. apply bool_decide_eq_false in H2. by split_and!.
Qed.

Lemma valid_commit map field commit :
  validate_reader_commit map field = [] → get_str map field = Some commit →
  is_full_commit_id commit = true ∧ get_str map "access" = Some (lit "read_only").
Proof.
  unfold validate_reader_commit. intros H Hc%get_str_some. rewrite Hc in H. apply app_eq_nil in H as [H1 H2]. apply push_if_nil in H1, H2.
  apply negb_false_iff in H1, H2. by apply bool_decide_eq_true in H2.
Qed.

Lemma valid_contract map name :
  validate_task_result_contract map = [] → get_str map "result_contract" = Some name →
  name ∈ RESULT_CONTRACTS ∧ agent_kind (get_str map "kind") = true ∧ on_child_route map = false.
Proof.
  unfold validate_task_result_contract. intros H Hc%get_str_some. rewrite Hc in H. apply app_eq_nil in H as [H1 H]. apply app_eq_nil in H as [H2 H3]. apply push_if_nil in H1, H2, H3.
  apply negb_false_iff in H2. split_and!; [|done..]. cbn in H1. by apply bool_decide_eq_false, dec_stable in H1.
Qed.

Lemma valid_spawn map :
  check_spawn map = [] →
  default TASK_IN_TRACK_ROUTE (get_str map "spawn") ∈ [TASK_IN_TRACK_ROUTE; TASK_CHILD_TRACK_ROUTE] ∧
  (on_child_route map = true → get_str map "kind" = Some (lit "codex")).
Proof.
  unfold check_spawn. intros [H1 H2]%app_eq_nil. apply push_if_nil in H2. split.
  - unfold get_str. destruct (get map "spawn") as [value|]; [|left]. cbn. destruct value; try (left; done); try done.
    apply push_if_nil, bool_decide_eq_false, dec_stable in H1. cbn. by apply list_elem_of_fmap in H1 as (r & [= ->] & Hr).
  - intros Hc. rewrite Hc in H2. cbn in H2. by apply negb_false_iff, bool_decide_eq_true in H2.
Qed.

Lemma valid_child `{SerdeErrors} map :
  check_child_track map = [] → get map "child_track" = None ∨
  (on_child_route map = true ∧ ∃ config, get map "child_track" ≫= child_track_of_json = Some config ∧ validate_child_track_config config = Ok tt).
Proof.
  unfold check_child_track. destruct (get map "child_track") as [value|]; [|by left]. intros [H1 Hc]%app_eq_nil. right.
  apply push_if_nil, negb_false_iff in H1. split; [done|]. cbn. destruct (child_track_of_json value) as [config|]; [|done].
  exists config. split; [done|]. apply app_eq_nil in Hc as [Hc _]. by destruct (validate_child_track_config config) as [[]|].
Qed.

Lemma valid_kind map : task_kind map ≠ None → ∃ kind, task_kind map = Some kind ∧ get_str map "kind" = Some kind ∧
  kind ∈ lit <$> ["codex"; "claude"; "terminal"; "compact"]%string.
Proof.
  unfold task_kind. destruct (get_str map "kind") as [kind|]; [|done]. cbn [mbind option_bind].
  case_bool_decide; [|done]. intros _. by exists kind.
Qed.

Lemma valid_declared_by map : validate_declared_by map = [] → get_str map "declared_by" ∈ Some <$> [lit "spec"; lit "user"].
Proof.
  unfold validate_declared_by. case_bool_decide as H1; [intros _; rewrite H1; left|].
  case_bool_decide as H2; [intros _; rewrite H2; right; left|done].
Qed.

(** What the projection reads of a task that is to be executed. *)
Record executable (map : Fields) (d : TaskDeclaration) : Prop := {
  ex_kind : td_kind d ∈ lit <$> ["codex"; "claude"; "terminal"]%string;
  ex_goal : is_blank (td_goal d) = false;
  ex_deps : strings_of (get map "depends_on") (td_depends_on d);
  ex_refs : ∀ reference, reference ∈ td_refs d → block_ref reference;
  ex_gate : (get map "gate" = None ∧ td_gate d = None) ∨ ∃ gate, td_gate d = Some gate ∧ gate_ok gate;
  ex_ready : get map "ready" = Some (JBool (td_ready d));
  ex_author : td_declared_by d ∈ [lit "spec"; lit "user"];
  ex_spawn : td_spawn d ∈ [TASK_IN_TRACK_ROUTE; TASK_CHILD_TRACK_ROUTE];
  ex_child_route : td_spawn d = TASK_CHILD_TRACK_ROUTE →
    td_kind d = lit "codex" ∧ td_access d = Access_ReadWrite ∧ td_start d = Start_Checkout ∧ td_result_contract d = None;
  ex_child : (get map "child_track" = None ∧ td_child_track d = None) ∨
    (td_spawn d = TASK_CHILD_TRACK_ROUTE ∧ ∃ config, td_child_track d = Some config ∧ validate_child_track_config config = Ok tt);
  ex_reader : td_access d = Access_ReadOnly → agent_kind (Some (td_kind d)) = true ∧ td_gate d = None ∧ td_start d = Start_Checkout;
  ex_commits : ∀ commit, td_head d = Some commit ∨ td_base d = Some commit → is_full_commit_id commit = true ∧ td_access d = Access_ReadOnly;
  ex_upstream : td_start d = Start_Upstream → agent_kind (Some (td_kind d)) = true;
  ex_contract : ∀ name, td_result_contract d = Some name → name ∈ RESULT_CONTRACTS ∧ agent_kind (Some (td_kind d)) = true;
}.

Lemma access_spelling s : access_of_str s = Some Access_ReadOnly ↔ s = lit "read_only".
Proof. unfold access_of_str. repeat case_bool_decide; naive_solver. Qed.

Lemma on_child_route_spec map : on_child_route map = true ↔ default TASK_IN_TRACK_ROUTE (get_str map "spawn") = TASK_CHILD_TRACK_ROUTE.
Proof.
  unfold on_child_route. rewrite bool_decide_eq_true. destruct (get_str map "spawn") as [s|]; cbn; [naive_solver|].
  split; [done|]. intros H. by vm_compute in H.
Qed.

Ltac split_checks H :=
  repeat lazymatch type of H with
  | _ ++ _ = [] => let H' := fresh "Hv" in apply app_eq_nil in H as [H' H]
  end.

Lemma not_compact_kind kind : kind ∈ lit <$> ["codex"; "claude"; "terminal"; "compact"]%string →
  kind = lit "compact" ∨ kind ∈ lit <$> ["codex"; "claude"; "terminal"]%string.
Proof.
  intros (w & -> & Hw)%list_elem_of_fmap. rewrite !elem_of_cons in Hw.
  destruct Hw as [->|[->|[->|[->|[]%elem_of_nil]]]]; [right..|by left]; apply list_elem_of_fmap_2; set_solver.
Qed.

Lemma agent_or_terminal kind : kind ∈ lit <$> ["codex"; "claude"; "terminal"]%string →
  kind = lit "terminal" ∨ agent_kind (Some kind) = true.
Proof.
  intros (w & -> & Hw)%list_elem_of_fmap. rewrite !elem_of_cons in Hw. destruct Hw as [->|[->|[->|[]%elem_of_nil]]]; vm_compute; auto.
Qed.

Section declared.
Context `{Serde : SerdeText} `{Errors : SerdeErrors}.

(** A payload of the execution branch: neither a tombstone nor a compact task. *)
Definition to_execute (map : Fields) : Prop :=
  match get map "tombstone" with None => True | Some value => value = JNull end ∧ get_str map "kind" ≠ Some (lit "compact").

Lemma validated_parts map : validate_task map = [] → to_execute map →
  validate_execution map = [] ∧ ∃ kind, task_kind map = Some kind ∧ get_str map "kind" = Some kind ∧ kind ∈ lit <$> ["codex"; "claude"; "terminal"]%string.
Proof.
  unfold validate_task. intros [_ [_ H]%app_eq_nil]%app_eq_nil [Ht Hk].
  assert (push_if (contains_key (lit "tombstoned_by") map) (lit "tombstoned_by: must be absent from a non-tombstone task")
         ++ push_if (bool_decide (task_kind map = None))
              (lit "kind: required; must be one of "
               ++ join (lit " | ") (quoted_word <$> (lit <$> ["codex"; "claude"; "terminal"; "compact"]%string)))
         ++ (if bool_decide (task_kind map = Some (lit "compact")) then validate_compact map else validate_execution map) = []) as H'.
  { destruct (get map "tombstone") as [v|]; [subst v|]; exact H. }
  clear H. apply app_eq_nil in H' as [_ [Hn H]%app_eq_nil]. apply push_if_nil, bool_decide_eq_false, valid_kind in Hn as (kind & Htk & Hs & Hin).
  rewrite Htk in H. case_bool_decide as Hc; [exfalso; apply Hk; by rewrite Hs|]. split; [done|]. exists kind. split_and!; [done..|].
  apply not_compact_kind in Hin as [->|Hin]; [by destruct Hc|done].
Qed.

Lemma valid_goal map kind : task_kind map = Some kind → kind ∈ lit <$> ["codex"; "claude"; "terminal"]%string →
  check_work map (task_kind map) = [] →
  is_blank (default [] (get_str map (if bool_decide (Some kind = Some (lit "terminal")) then "command" else "goal"))) = false.
Proof.
  intros Hk Hin. rewrite Hk. unfold check_work. case_bool_decide as Ht.
  - intros [Hs _]%app_eq_nil. apply non_empty_string in Hs as (v & -> & Hb). exact Hb.
  - assert (agent_kind (Some kind) = true) as ->.
    { apply agent_or_terminal in Hin as [->|Hin]; [by destruct Ht|done]. }
    intros [Hs _]%app_eq_nil. apply non_empty_string in Hs as (v & -> & Hb). exact Hb.
Qed.

Lemma validated_executable index block map key declared_by :
  validate_task map = [] → to_execute map → get_str map "declared_by" = Some declared_by →
  executable map (declaration_of index block map key declared_by).
Proof.
  intros Hv Ht Hby. destruct (validated_parts map Hv Ht) as (H & kind & Htk & Hk & Hin). unfold validate_execution in H.
  split_checks H. rename H into Hcontract.
  pose proof (valid_goal map kind Htk Hin ltac:(assumption)) as Hgoal.
  assert (validate_declared_by map = []) as Hauthor%valid_declared_by by assumption.
  rewrite Hby in Hauthor. apply list_elem_of_fmap in Hauthor as (a & [= <-] & Hauthor).
  assert (check_spawn map = []) as [Hspawn Hsub]%valid_spawn by assumption.
  pose proof (valid_access map ltac:(assumption)) as Haccess.
  pose proof (valid_start map ltac:(assumption)) as Hstart.
  pose proof (on_child_route_spec map) as Hroute.
  assert (default [] (get_str map "kind") = kind) as Hdk by (by rewrite Hk).
  split; cbn [declaration_of td_kind td_goal td_depends_on td_refs td_gate td_ready td_declared_by td_spawn td_access td_start td_result_contract td_child_track td_head td_base].
  - by rewrite Hdk.
  - rewrite Hk. exact Hgoal.
  - by apply string_array.
  - by apply valid_refs.
  - assert (check_gate_field map = []) as [G|G]%valid_gate by assumption; [left; by rewrite G|by right].
  - assert (check_ready map = []) as G by assumption. unfold check_ready in G. by destruct (get map "ready") as [[]|].
  - done.
  - done.
  - intros Hc. apply Hroute in Hc. rewrite Hdk. split_and!.
    + apply Hsub in Hc. congruence.
    + destruct (get_str map "access" ≫= access_of_str) as [[]|] eqn:Ha; [|done..]. destruct Haccess as (_ & Hf & _); [done|congruence].
    + destruct (get_str map "start" ≫= start_of_str) as [[]|] eqn:Ha; [done| |done]. destruct Hstart as (_ & Hf & _); [done|congruence].
    + destruct (get_str map "result_contract") as [name|] eqn:Hn; [|done]. apply (valid_contract map name) in Hcontract as (_ & _ & Hf); [congruence|done].
  - assert (check_child_track map = []) as [G|[G Hc]]%valid_child by assumption; [left; by rewrite G|right].
    split; [by apply Hroute|done].
  - intros Ha. assert (get_str map "access" ≫= access_of_str = Some Access_ReadOnly) as Hro by (by destruct (_ ≫= access_of_str) as [[]|]).
    destruct (Haccess Hro) as (H1 & H2 & H3). rewrite Hdk, <-Hk. split_and!; [done..|].
    destruct (get_str map "start" ≫= start_of_str) as [[]|] eqn:Hst; [done| |done]. destruct Hstart as (_ & _ & Hf); [done|].
    exfalso. apply Hf. destruct (get_str map "access") as [s|]; [|done]. cbn in Hro. by apply access_spelling in Hro as ->.
  - intros commit Hc. assert (is_full_commit_id commit = true ∧ get_str map "access" = Some (lit "read_only")) as [H1 H2].
    { assert (validate_reader_commits map = []) as [G1 G2]%app_eq_nil by assumption.
      destruct Hc as [Hc|Hc]; [by eapply (valid_commit map "head")|by eapply (valid_commit map "base")]. }
    split; [done|]. by rewrite H2.
  - intros Hs. destruct (get_str map "start" ≫= start_of_str) as [[]|] eqn:Hst; try done. destruct Hstart as (H1 & _); [done|].
    by rewrite Hdk, <-Hk.
  - intros name Hn. apply (valid_contract map name) in Hcontract as (H1 & H2 & _); [|done]. by rewrite Hdk, <-Hk.
Qed.
End declared.

(** ** The projection *)
Lemma coded_ok code path args related track action :
  assoc code TASK_DIAGNOSTIC_CODE_PATHS = Some path → task_diagnostic_action code = None →
  ∃ d, coded code path args related track action = Some d.
Proof. unfold coded. intros -> ->. rewrite !bool_decide_true by done. by eexists. Qed.

Lemma dup_keys_complete l seen emitted k :
  k ∉ emitted → k ∉ dup_keys_from seen emitted l →
  (k ∈ seen → k ∉ td_key <$> l) ∧ ∀ i j, (td_key <$> l) !! i = Some k → (td_key <$> l) !! j = Some k → i = j.
Proof.
  revert seen emitted. induction l as [|d l IH]; intros seen emitted He Hk.
  { split; [intros _; apply not_elem_of_nil|]. intros i j Hi. done. }
  cbn [dup_keys_from] in Hk. rewrite fmap_cons. destruct (bool_decide (td_key d ∈ seen) && bool_decide (td_key d ∉ emitted)) eqn:Hd.
  - apply andb_true_iff in Hd as [Hd1%bool_decide_eq_true Hd2%bool_decide_eq_true]. apply not_elem_of_cons in Hk as [Hne Hk].
    destruct (IH seen ({[td_key d]} ∪ emitted)) as [IH1 IH2]; [set_solver|done|]. split; [set_solver|].
    intros [|i] [|j] Hi Hj; try (by injection Hi); try (by injection Hj); []; f_equal. by apply IH2.
  - destruct (IH ({[td_key d]} ∪ seen) emitted He Hk) as [IH1 IH2]. split.
    + intros Hs [->|Hin]%elem_of_cons; [|set_solver]. by rewrite !bool_decide_true in Hd.
    + intros [|i] [|j] Hi Hj; [done| | |f_equal; by apply IH2].
      * injection Hi as <-. destruct IH1; [set_solver|]. by eapply list_elem_of_lookup_2.
      * injection Hj as <-. destruct IH1; [set_solver|]. by eapply list_elem_of_lookup_2.
Qed.

Lemma push_where_lookup matching blocks d diagnostics i :
  push_where matching blocks d diagnostics !! i =
  match blocks !! i, diagnostics !! i with Some b, Some ds => Some (if matching b then ds ++ [d] else ds) | _, _ => None end.
Proof. unfold push_where. rewrite lookup_zip_with. by destruct (blocks !! i), (diagnostics !! i). Qed.

(** Pushing never panics when the diagnostics can be made; where nothing ends up, nothing was pushed. *)
Lemma push_each_ok {A} (make : A → option Diagnostic) matching blocks items diagnostics :
  (∀ item, is_Some (make item)) → length diagnostics = length blocks →
  ∃ pushed, push_each make matching blocks items diagnostics = Some pushed ∧ length pushed = length blocks ∧
    ∀ i b, blocks !! i = Some b → pushed !! i = Some [] →
      diagnostics !! i = Some [] ∧ ∀ item, item ∈ items → matching item b = false.
Proof.
  intros Hmake. revert diagnostics. induction items as [|item items IH]; intros diagnostics Hlen; cbn [push_each].
  { exists diagnostics. split_and!; [done..|]. intros i b _ Hi. split; [done|]. intros item Hin. by apply elem_of_nil in Hin. }
  destruct (Hmake item) as [d ->]. cbn [mbind option_bind].
  destruct (IH (push_where (matching item) blocks d diagnostics)) as (pushed & -> & Hl & Hi).
  { unfold push_where. rewrite length_zip_with. lia. }
  exists pushed. split_and!; [done..|]. intros i b Hb Hp. destruct (Hi i b Hb Hp) as [Hd Hrest].
  rewrite push_where_lookup, Hb in Hd. destruct (diagnostics !! i) as [ds|]; [|done]. cbn in Hd. injection Hd as Hd.
  destruct (matching item b) eqn:Hm; [by apply app_nil in Hd as [_ ?]|]. subst ds. split; [done|].
  intros item' [->|Hin]%elem_of_cons; [done|by apply Hrest].
Qed.

(** Normalizing a terminal task changes its goal and its command only. *)
Lemma assoc_insert_field key value k map : assoc k (insert_field key value map) = if bool_decide (k = key) then Some value else assoc k map.
Proof.
  induction map as [|[k' v'] map IH]; cbn [insert_field assoc]; [done|].
  destruct (decide (key = k')) as [->|Hne]; [rewrite bool_decide_true by done; cbn [assoc]; by repeat case_bool_decide|].
  rewrite (bool_decide_false (key = k')) by done.
  destruct (str_leb key k'); cbn [assoc]; [done|]. rewrite IH. repeat case_bool_decide; congruence.
Qed.

Lemma assoc_remove_field key k map : k ≠ key → assoc k (remove_field key map) = assoc k map.
Proof.
  intros Hk. unfold remove_field. induction map as [|[k' v'] map IH]; [done|]. rewrite filter_cons. cbn [fst].
  destruct (decide (k' = key)) as [->|Hne].
  - rewrite decide_False by (by intros []). cbn [assoc]. by rewrite IH, bool_decide_false.
  - rewrite decide_True by done. cbn [assoc]. by rewrite IH.
Qed.

Lemma normalize_get payload (field : string) :
  lit field ≠ lit "goal" → lit field ≠ lit "command" →
  json_get (normalize_legacy_terminal_command payload) (lit field) = json_get payload (lit field).
Proof.
  intros Hg Hc. unfold normalize_legacy_terminal_command. destruct payload as [| | | | | |map]; try done.
  destruct (_ && _); [|done]. destruct (get map "goal") as [[]|]; try done. cbn [json_get].
  rewrite assoc_insert_field, bool_decide_false by done. by apply assoc_remove_field.
Qed.

Section projected.
Context `{Serde : SerdeText} `{Errors : SerdeErrors}.

Lemma declared_by_required map (allowed : list str) : required_enum map "declared_by" allowed = [] → is_Some (get_str map "declared_by").
Proof. unfold required_enum. destruct (get_str map "declared_by"); [eauto|done]. Qed.

Lemma author_required map : validate_declared_by map = [] → is_Some (get_str map "declared_by").
Proof. intros H%valid_declared_by. destruct (get_str map "declared_by"); [eauto|]. by apply list_elem_of_fmap in H as (? & ? & _). Qed.

(** What every valid payload has: a key of the key's shape, and an author. *)
Lemma validated_identity map : validate_task map = [] → ∃ key, get_str map "key" = Some key ∧ key_is_valid key = true ∧ is_Some (get_str map "declared_by").
Proof.
  unfold validate_task. intros [_ [Hk H]%app_eq_nil]%app_eq_nil.
  assert (is_Some (get_str map "declared_by")) as Hby.
  { assert (∀ v, get map "tombstone" = Some v → validate_tombstone map v = [] → is_Some (get_str map "declared_by")) as Htomb.
    { intros v _. unfold validate_tombstone. intros [_ [Hv _]%app_eq_nil]%app_eq_nil. by apply author_required. }
    assert (∀ l1 l2, l1 ++ l2 ++ (if bool_decide (task_kind map = Some (lit "compact")) then validate_compact map else validate_execution map) = [] →
      is_Some (get_str map "declared_by")) as Hlive.
    { intros l1 l2 [_ [_ H']%app_eq_nil]%app_eq_nil. case_bool_decide.
      - unfold validate_compact in H'. split_checks H'. by eapply declared_by_required.
      - unfold validate_execution in H'. split_checks H'. by apply author_required. }
    destruct (get map "tombstone") as [v|]; [destruct v|]; try (by eapply Hlive); by eapply Htomb. }
  unfold check_key in Hk. unfold get_str at 1. destruct (get map "key") as [[]|]; try done. exists s. split; [done|].
  by destruct (key_is_valid s).
Qed.

Lemma payload_checked_task payload : validate_task_payload payload = Ok tt → ∃ map, payload = JObject map ∧ validate_task map = [].
Proof.
  unfold validate_task_payload. destruct payload; cbn [as_object]; try done. exists fields. split; [done|].
  by destruct (validate_task fields).
Qed.

(** A block's turn: it never panics; without a diagnostic the task is declared, from a valid payload. *)
Lemma project_block_ok index block :
  ∃ declared pushed, project_block index block = Some (declared, pushed) ∧
    (∀ d, declared = Some d → td_block_index d = Some index) ∧
    (is_task block = true → pushed = [] →
     ∃ map key declared_by, normalize_legacy_terminal_command (rb_payload block) = JObject map ∧ validate_task map = [] ∧
       get_str map "key" = Some key ∧ get_str map "declared_by" = Some declared_by ∧
       declared = Some (declaration_of index block map key declared_by)).
Proof.
  unfold project_block. destruct (is_task block); cbn [negb]; [|by eexists _, _].
  set (normalized := normalize_legacy_terminal_command (rb_payload block)).
  destruct (coded_ok (lit "neige_execution_retired") (lit "payload") [] [] None None) as [retired Hretired]; [done..|].
  assert (∀ map b, ∃ r, retired_diagnostics map b = Some r) as Hr.
  { intros map b. unfold retired_diagnostics. rewrite Hretired. destruct (_ && _); by eexists. }
  destruct (validate_task_payload normalized) as [[]|error] eqn:Hv.
  - apply payload_checked_task in Hv as (map & -> & Hv). destruct (validated_identity map Hv) as (key & Hk & _ & [by_ Hby]).
    cbn [mbind option_bind is_empty negb andb as_object json_get]. unfold get_str, get in Hk, Hby. rewrite Hk, Hby. cbn [mbind option_bind].
    destruct (Hr map (td_tombstone (declaration_of index block map key by_))) as [r ->]. cbn [mbind option_bind].
    eexists _, _. split_and!; [done| |].
    + by intros d [= <-].
    + intros _ _. by exists map, key, by_.
  - destruct (coded_ok (lit "invalid_declaration") (lit "payload") [(lit "detail", JString error)] [] None None) as [d Hd]; [done..|].
    unfold new_diagnostic. rewrite Hd. cbn [fmap option_fmap option_map mbind option_bind is_empty negb andb].
    destruct (json_get normalized (lit "key") ≫= json_as_str) as [key|] eqn:Hk; [|by eexists _, _].
    destruct (json_get normalized (lit "declared_by") ≫= json_as_str) as [by_|] eqn:Hby; [|by eexists _, _].
    rewrite !bool_decide_false by done. cbn [orb]. destruct normalized as [| | | | | |map]; try done. cbn [as_object mbind option_bind].
    destruct (Hr map (td_tombstone (declaration_of index block map key by_))) as [r ->]. cbn [mbind option_bind].
    eexists _, _. split_and!; [done| |done]. by intros d' [= <-].
Qed.

Lemma project_blocks_ok index blocks :
  ∃ projected, project_blocks index blocks = Some projected ∧ length projected = length blocks ∧
    ∀ i b, blocks !! i = Some b → ∃ p, projected !! i = Some p ∧ project_block (index + i) b = Some p.
Proof.
  revert index. induction blocks as [|b blocks IH]; intros index; cbn [project_blocks]; [by exists []|].
  destruct (project_block_ok index b) as (declared & pushed & Hp & _). rewrite Hp.
  destruct (IH (S index)) as (rest & -> & Hl & Hi). cbn [mbind option_bind].
  exists ((declared, pushed) :: rest). split_and!; [done|cbn; lia|]. intros [|i] b' Hb.
  - injection Hb as <-. rewrite Nat.add_0_r. eauto.
  - destruct (Hi i b' Hb) as (p & H1 & H2). exists p. split; [done|]. by rewrite <-Nat.add_succ_comm.
Qed.

Lemma not_tombstoned declarations key d :
  key ∉ tombstoned_keys declarations → d ∈ declarations → td_key d = key → td_tombstone d = false.
Proof.
  intros Hk Hd <-. destruct (td_tombstone d) eqn:Ht; [|done]. destruct Hk. unfold tombstoned_keys.
  rewrite ord_sort_perm, elem_of_remove_dups. apply list_elem_of_fmap_2. by apply list_elem_of_filter.
Qed.

Lemma graph_of_declaration declarations d :
  d ∈ declarations → live d = true → (∀ d', d' ∈ declarations → td_key d' = td_key d → d' = d) →
  declaration_graph declarations !! td_key d = Some (td_depends_on d).
Proof.
  intros Hd Hl Hu. unfold declaration_graph. apply elem_of_list_to_map_1'.
  - intros deps. rewrite elem_of_reverse. intros (d' & [= Hk ->] & [_ Hd']%list_elem_of_filter)%list_elem_of_fmap. by rewrite (Hu d').
  - rewrite elem_of_reverse. apply list_elem_of_fmap. exists d. split; [done|]. by apply list_elem_of_filter.
Qed.

(** A live task the document says nothing against. *)
Record cleared (declarations : list TaskDeclaration) (i : nat) (block : ReportBlock) (d : TaskDeclaration) : Prop := {
  cl_declared : d ∈ declarations;
  cl_index : td_block_index d = Some i;
  cl_key : string_field block "key" = Some (td_key d) ∧ key_is_valid (td_key d) = true;
  cl_valid : ∃ map, normalize_legacy_terminal_command (rb_payload block) = JObject map ∧ (to_execute map → executable map d);
  cl_unique : ∀ d', d' ∈ declarations → td_key d' = td_key d → d' = d;
  cl_live : live d = true;
  cl_graph : declaration_graph declarations !! td_key d = Some (td_depends_on d);
  cl_acyclic : ¬ tc (edge (declaration_graph declarations)) (td_key d) (td_key d);
}.

(** C4: the projection of a report never panics, whatever its blocks hold - every diagnostic it
    makes is registered under its path and action and every cyclic component has its cycle - and a
    live task block it leaves without a diagnostic is sound: its payload declares a well-formed
    task, its key is declared by no other block and held by no tombstone, the graph has its
    dependencies and no chain of them leads back to it. *)
Theorem undiagnosed_tasks_are_sound blocks :
  ∃ declarations diagnostics, project_task_declarations blocks = Some (declarations, diagnostics) ∧
    length diagnostics = length blocks ∧
    ∀ i block, blocks !! i = Some block → task_block_is_live block = true → diagnostics !! i = Some [] →
      ∃ d, cleared declarations i block d.
Proof.
  destruct (project_blocks_ok 0 blocks) as (projected & Hp & Hl & Hi). unfold project_task_declarations. rewrite Hp. cbn [mbind option_bind].
  set (ds := omap (M:=list) fst projected).
  destruct (push_each_ok (duplicate_diagnostic blocks) (λ key b, is_task b && has_key key b) blocks
    (filter (λ key, key ∉ tombstoned_keys ds) (dup_keys ds)) projected.*2) as (p1 & -> & Hl1 & H1).
  { intros key. by apply coded_ok. } { by rewrite length_fmap. } cbn [mbind option_bind].
  destruct (push_each_ok (tombstone_diagnostic ds blocks) (λ key b, task_block_is_live b && has_key key b) blocks
    (tombstoned_keys ds) p1) as (p2 & -> & Hl2 & H2); [by intros key; apply coded_ok|done|]. cbn [mbind option_bind].
  destruct (cyclic_components_ok (declaration_graph ds)) as (components & -> & _ & _ & Hcyc). cbn [mbind option_bind].
  destruct (push_each_ok (cycle_diagnostic blocks) (λ component : list str * list str, in_keys component.1) blocks components p2) as (p3 & -> & Hl3 & H3);
    [by intros key; apply coded_ok|done|]. cbn [mbind option_bind].
  exists ds, p3. split_and!; [done..|]. intros i block Hb Hlive Hd.
  destruct (H3 i block Hb Hd) as [Hd2 Hnc]. destruct (H2 i block Hb Hd2) as [Hd1 Hnt]. destruct (H1 i block Hb Hd1) as [Hd0 Hnd].
  pose proof Hlive as [Htask _]%andb_true_iff.
  destruct (Hi i block Hb) as (p & Hpi & Hpb). destruct (project_block_ok i block) as (declared & pushed & Hpb' & _ & Hclean).
  cbn [plus] in Hpb. rewrite Hpb in Hpb'. injection Hpb' as ->. rewrite list_lookup_fmap, Hpi in Hd0. injection Hd0 as Hpushed. cbn in Hpushed.
  destruct (Hclean Htask Hpushed) as (map & key & by_ & Hnorm & Hval & Hkey & Hby & ->). set (d := declaration_of i block map key by_) in *.
  assert (string_field block "key" = Some key) as Hfield.
  { unfold string_field, field. rewrite <-(normalize_get (rb_payload block) "key"), Hnorm by done. exact Hkey. }
  assert (d ∈ ds) as Hin by (apply list_elem_of_omap; exists (Some d, pushed); split; [by eapply list_elem_of_lookup_2|done]).
  assert (has_key key block = true) as Hhas by (by apply bool_decide_eq_true).
  assert (key ∉ tombstoned_keys ds) as Hntomb by (intros Hk; specialize (Hnt key Hk); cbn in Hnt; by rewrite Hlive, Hhas in Hnt).
  assert (key ∉ dup_keys ds) as Hndup.
  { intros Hk. specialize (Hnd key). cbn in Hnd. rewrite Htask, Hhas in Hnd. by discriminate Hnd; apply list_elem_of_filter. }
  assert (∀ d', d' ∈ ds → td_key d' = key → d' = d) as Huniq.
  { intros d' [a Ha]%list_elem_of_lookup Hk'. apply list_elem_of_lookup in Hin as [b Hb'].
    destruct (dup_keys_complete ds ∅ ∅ key) as [_ Hu]; [set_solver|done|].
    rewrite (Hu a b) in Ha; [congruence|by rewrite list_lookup_fmap, Ha; cbn; rewrite Hk'|by rewrite list_lookup_fmap, Hb']. }
  assert (live d = true) as Hld by (unfold live; by rewrite (not_tombstoned ds key d)).
  destruct (validated_identity map Hval) as (key' & Hkey' & Hshape & _).
  exists d. split; [done|done| | |done|done|by apply graph_of_declaration|].
  - split; [done|]. cbn. congruence.
  - exists map. split; [done|]. intros Hto. by apply validated_executable.
  - intros Ht. apply Hcyc, list_elem_of_bind in Ht as (component & Hk & Hc). specialize (Hnc component Hc).
    unfold in_keys in Hnc. rewrite Htask, Hfield in Hnc. by rewrite bool_decide_true in Hnc.
Qed.
End projected.
