(* ===== verification/Checkout.v ===== *)
(** * Who may use a track's checkout

    [crates/calm-truth/src/db/sqlite/track_occupancy.rs] with its [blocked.rs], and the
    transactions that ask it: the scheduler's ready set and claim ([scheduler/mod.rs]), the
    preparation of a worker that yielded ([task_recovery.rs]) and a re-run gate ([regate.rs]).
    The rows a query answers are arguments. *)

From stdpp Require Import prelude strings list gmap relations.
From S2P Require Import Prelude Text TaskPayload.

(** ** Task rows ([crates/calm-truth/src/model.rs]) *)
Inductive TaskKind := Kind_Codex | Kind_Claude | Kind_Terminal | Kind_Compact.
Inductive TaskStatus := Pending | Dispatched | Running | Verifying | Done | Failed | Canceled.

#[export] Instance TaskKind_eq_dec : EqDecision TaskKind.
Proof. solve_decision. Defined.
#[export] Instance TaskStatus_eq_dec : EqDecision TaskStatus.
Proof. solve_decision. Defined.

Definition wire_label (status : TaskStatus) : str :=
  lit (match status with
       | Pending => "pending" | Dispatched => "dispatched" | Running => "running" | Verifying => "verifying"
       | Done => "done" | Failed => "failed" | Canceled => "canceled"
       end)%string.


(** The columns the checkout rules read; [tk_depends_on] is the parsed column. *)
Record Task := mkTask {
  tk_id : str;
  tk_track_id : str;
  tk_key : str;
  tk_kind : TaskKind;
  tk_depends_on : list str;
  tk_status : TaskStatus;
  tk_spawn : str;
  tk_access : TaskAccess;
}.

Definition task_kind_name (kind : TaskKind) : str :=
  lit (match kind with Kind_Codex => "codex" | Kind_Claude => "claude" | Kind_Terminal => "terminal" | Kind_Compact => "compact" end)%string.

(** [Task::runs_in_track_checkout]. *)
Definition in_checkout (task : Task) : bool := runs_in_track_checkout (task_kind_name (tk_kind task)) (tk_spawn task).

Definition worker_operation_kind (kind : TaskKind) : option str :=
  match kind with
  | Kind_Codex => Some (lit "codex-worker")
  | Kind_Claude => Some (lit "claude-worker")
  | Kind_Terminal => Some (lit "terminal-worker")
  | Kind_Compact => None
  end.


Definition is_read_only (access : TaskAccess) : bool := match access with Access_ReadOnly => true | Access_ReadWrite => false end.

(** ** A worker that yielded ([blocked.rs]) *)

(** The unprepared operation of a dispatched task; the payload's track and key and the blocker as decoded. *)
Record BlockerFacts := mkBlockerFacts {
  bf_lease_owner : option str;
  bf_lease_until_ms : option Z;
  bf_binding : option (str * str);
  bf_blocker : bool;
}.

(** Whether there is full evidence that the task yielded. *)
Definition pending_checkout_blocker (now_ms : Z) (task : Task) (row : option BlockerFacts) : bool :=
  bool_decide (tk_status task = Dispatched) && in_checkout task && bool_decide (is_Some (worker_operation_kind (tk_kind task)))
  && match row with
     | None => false
     | Some row =>
         let claimed :=
           bool_decide (is_Some (bf_lease_owner row))
           && match bf_lease_until_ms row with None => true | Some deadline => (now_ms <=? deadline)%Z end in
         negb claimed && bool_decide (bf_binding row = Some (tk_track_id task, tk_id task)) && bf_blocker row
     end.

(** ** Occupancy *)
Inductive CheckoutOccupancy := Occupancy_Free | Occupancy_Readers | Occupancy_Busy.

#[export] Instance CheckoutOccupancy_eq_dec : EqDecision CheckoutOccupancy.
Proof. solve_decision. Defined.

Definition admits (occupancy : CheckoutOccupancy) (access : TaskAccess) : bool :=
  match occupancy with
  | Occupancy_Free => true
  | Occupancy_Readers => is_read_only access
  | Occupancy_Busy => false
  end.





(** ** Admission *)
Inductive CheckoutWait := Wait_InUse | Wait_WriterAhead.

#[export] Instance CheckoutWait_eq_dec : EqDecision CheckoutWait.
Proof. solve_decision. Defined.

Definition done_keys (tasks : list Task) : list str := tk_key <$> filter (λ t, tk_status t = Done) tasks.
Definition deps_done (tasks : list Task) (task : Task) : bool :=
  forallb (λ dependency, bool_decide (dependency ∈ done_keys tasks)) (tk_depends_on task).

(** A pending task whose dependencies are done. *)
Definition eligible (tasks : list Task) (task : Task) : bool :=
  bool_decide (tk_status task = Pending) && deps_done tasks task.

(** The loop over the eligible tasks; [writer_waiting] is its flag. *)
Fixpoint admission_from (occupancy : CheckoutOccupancy) (writer_waiting : bool) (tasks : list Task) : list (Task * option CheckoutWait) :=
  match tasks with
  | [] => []
  | task :: tasks =>
      if negb (in_checkout task) then (task, None) :: admission_from occupancy writer_waiting tasks
      else if is_read_only (tk_access task) && writer_waiting
      then (task, Some Wait_WriterAhead) :: admission_from occupancy writer_waiting tasks
      else if admits occupancy (tk_access task) then (task, None) :: admission_from occupancy writer_waiting tasks
      else (task, Some Wait_InUse) :: admission_from occupancy (writer_waiting || negb (is_read_only (tk_access task))) tasks
  end.

Definition checkout_admission (tasks : list Task) (occupancy : CheckoutOccupancy) : list (Task * option CheckoutWait) :=
  admission_from occupancy false (filter (λ t, eligible tasks t = true) tasks).

Definition compute_ready (tasks : list Task) (occupancy : CheckoutOccupancy) : list Task :=
  (filter (λ e : Task * option CheckoutWait, e.2 = None) (checkout_admission tasks occupancy)).*1.

(** ** The transactions *)




(** ** The checkout's rules

    What [checkout_admission] answers, and the states a track's tasks can reach through the
    transactions that ask it: a task that changes the checkout never runs beside another. *)

(** ** Admission *)

(** What a task waits for, given whether a task that changes the checkout waits ahead of it. *)
Definition wait_of (occupancy : CheckoutOccupancy) (writer_waits : Prop) (task : Task) (wait : option CheckoutWait) : Prop :=
  match wait with
  | None => in_checkout task = true → admits occupancy (tk_access task) = true ∧ (is_read_only (tk_access task) = true → ¬ writer_waits)
  | Some Wait_WriterAhead => in_checkout task = true ∧ is_read_only (tk_access task) = true ∧ writer_waits
  | Some Wait_InUse =>
      in_checkout task = true ∧ admits occupancy (tk_access task) = false ∧ (is_read_only (tk_access task) = true → ¬ writer_waits)
  end.

Lemma wait_of_iff occupancy (P Q : Prop) task wait : (P ↔ Q) → wait_of occupancy P task wait → wait_of occupancy Q task wait.
Proof. unfold wait_of. intros HPQ. destruct wait as [[]|]; tauto. Qed.

(** A task that changes the checkout waits in the list. *)
Definition writer_waits_in (entries : list (Task * option CheckoutWait)) : Prop :=
  ∃ e, e ∈ entries ∧ in_checkout e.1 = true ∧ is_read_only (tk_access e.1) = false ∧ e.2 ≠ None.

Lemma admission_from_tasks occupancy flag tasks : (admission_from occupancy flag tasks).*1 = tasks.
Proof.
  revert flag. induction tasks as [|t tasks IH]; intros flag; [done|]. cbn. by repeat case_match; cbn; rewrite IH.
Qed.

Lemma admission_from_waits occupancy flag tasks before task wait after :
  admission_from occupancy flag tasks = before ++ (task, wait) :: after →
  wait_of occupancy (flag = true ∨ writer_waits_in before) task wait.
Proof.
  revert flag before. induction tasks as [|t tasks IH]; intros flag before H; [by destruct before|].
  assert (∀ w flag', admission_from occupancy flag (t :: tasks) = (t, w) :: admission_from occupancy flag' tasks →
    wait_of occupancy (flag = true) t w →
    (flag' = true ↔ flag = true ∨ (in_checkout t = true ∧ is_read_only (tk_access t) = false ∧ w ≠ None)) →
    wait_of occupancy (flag = true ∨ writer_waits_in before) task wait) as Hstep.
  { intros w flag' Heq Hw Hf. rewrite Heq in H. destruct before as [|e before]; cbn in H.
    - injection H as <- <- _. revert Hw. apply wait_of_iff.
      split; [by left|]. intros [?|(e & He & _)]; [done|by apply elem_of_nil in He].
    - injection H as <- H. specialize (IH flag' before H). revert IH. apply wait_of_iff.
      rewrite Hf. unfold writer_waits_in. setoid_rewrite elem_of_cons. naive_solver. }
  cbn [admission_from] in Hstep. destruct (in_checkout t) eqn:Hc; cbn [negb] in Hstep.
  2:{ eapply Hstep; [done|cbn; congruence|]. naive_solver. }
  destruct (is_read_only (tk_access t)) eqn:Hr; cbn [andb orb negb] in Hstep.
  - destruct flag; [eapply Hstep; [done|by cbn|naive_solver]|].
    destruct (admits occupancy (tk_access t)) eqn:Ha; (eapply Hstep; [done|cbn; naive_solver|naive_solver]).
  - destruct (admits occupancy (tk_access t)) eqn:Ha.
    + eapply Hstep; [done|cbn; rewrite Hr; naive_solver|naive_solver].
    + eapply Hstep; [done|cbn; rewrite Hr; naive_solver|]. rewrite orb_true_r. naive_solver.
Qed.

(** C24: the admission of a track's tasks is exact: it lists the pending tasks whose dependencies are
    all done, in scheduler order; a task outside the checkout never waits; a task that changes the
    checkout waits exactly when the occupancy does not admit it; and a read-only task waits exactly
    when the occupancy refuses it or when a task that changes the checkout waits ahead of it, so no
    reader overtakes a waiting writer. *)
Theorem admission_exact tasks occupancy :
  (checkout_admission tasks occupancy).*1 = filter (λ t, tk_status t = Pending ∧ Forall (λ d, d ∈ done_keys tasks) (tk_depends_on t)) tasks ∧
  ∀ before task wait after, checkout_admission tasks occupancy = before ++ (task, wait) :: after →
    wait_of occupancy (writer_waits_in before) task wait.
Proof.
  split.
  - unfold checkout_admission. rewrite admission_from_tasks. apply list_filter_iff. intros t. unfold eligible, deps_done.
    rewrite andb_true_iff, bool_decide_eq_true, forallb_forall, Forall_forall. setoid_rewrite bool_decide_eq_true. by setoid_rewrite <-list_elem_of_In.
  - intros before task wait after H. apply admission_from_waits in H. revert H. apply wait_of_iff. split; [by intros [?|?]|by right].
Qed.


















