(* ===== verification/TaskAdmission.v ===== *)
(** * Which declared tasks may be queued

    [crates/calm-truth/src/db/sqlite/task_projection.rs], the write side: the verdict on each
    task declaration of a report - its references, gates, releases and frozen rows - and the
    admission of planner tasks under the track's ceiling and the tree's budget. The facts the
    one statement reads are the argument [ProjectionState]; [None] is a panic. *)

From stdpp Require Import prelude strings list gmap sorting.
From S2P Require Import Prelude Text Slices Identity PluginSchema Blocks OperationPhase TaskGuards ReportLinks TaskTree TaskPayload TaskGraph TaskDecl.

Local Open Scope calm_scope.

(** A computation that may refuse or panic. *)
Definition eval (A : Type) : Type := option (result A CalmError).
Definition eval_bind {A B} (m : eval A) (f : A → eval B) : eval B :=
  match m with Some (Ok a) => f a | Some (Err e) => Some (Err e) | None => None end.
Definition eval_ret {A} (a : A) : eval A := Some (Ok a).
(** A value that is there, or a panic. *)
Definition eval_some {A} (o : option A) : eval A := Ok <$> o.

Local Notation "'let*' x ':=' m 'in' k" := (eval_bind m (λ x, k)) (at level 10, x binder, m at level 100, k at level 200).

(** Each item's part in turn, joined. *)
Fixpoint eval_concat {A B} (f : A → eval (list B)) (items : list A) : eval (list B) :=
  match items with
  | [] => eval_ret []
  | item :: items => let* part := f item in let* rest := eval_concat f items in eval_ret (part ++ rest)
  end.

Fixpoint eval_map {A B} (f : A → eval B) (items : list A) : eval (list B) :=
  match items with
  | [] => eval_ret []
  | item :: items => let* b := f item in let* rest := eval_map f items in eval_ret (b :: rest)
  end.

(** A diagnostic pushed when a condition holds. *)
Definition push_diagnostic (b : bool) (d : option Diagnostic) : eval (list Diagnostic) :=
  if b then let* d := eval_some d in eval_ret [d] else eval_ret [].

(** [BTreeMap] of the pairs. *)
Definition diagnostic_args (pairs : list (string * Json)) : MessageArgs :=
  foldl (λ args kv, insert_field (lit kv.1) kv.2 args) [] pairs.

(** [serde_json::to_string]. *)
Class CompactText := { json_text : Json → str }.

(** ** What the statement reads *)
Record InflightRow := mkInflightRow { ir_key : str; ir_status : str; ir_declared_by : str }.

Record FrozenRow := mkFrozenRow {
  fr_status : str;
  fr_key : str;
  fr_kind : str;
  fr_goal : str;
  fr_context : str;
  fr_acceptance : option str;
  fr_cwd : option str;
  fr_depends : str;
  fr_priority : Z;
  fr_gate : option str;
  fr_declared_by : str;
  fr_decl_ready : Z;
  fr_decl_released_by_user : Z;
}.

Record ReferenceTarget := mkReferenceTarget {
  rt_target_area : option str;
  rt_target_kind : option str;
  rt_block_exists : Z;
}.

Record ProjectionState := mkProjectionState {
  ps_continuable_children : list str;
  ps_policy : option str;
  ps_ceiling : Z;
  ps_require_gates : bool;
  ps_source_area : str;
  ps_inflight : list InflightRow;
  ps_frozen : list FrozenRow;
  ps_reference_targets : gmap str ReferenceTarget;
}.

Inductive WithdrawalEdge := Edge_Ready | Edge_ReleasedByUser.

#[export] Instance WithdrawalEdge_eq_dec : EqDecision WithdrawalEdge.
Proof. solve_decision. Defined.

(** The verdict on a block; what only the read side fills in is left out. *)
Record BlockVerdict := mkBlockVerdict {
  bv_block_id : str;
  bv_key : str;
  bv_diagnostics : list Diagnostic;
  bv_schedulable : bool;
  bv_status : option str;
  bv_withdrawal : option WithdrawalEdge;
  bv_frozen_status : option str;
}.

Definition in_flight_status (status : str) : bool := bool_decide (status ∈ lit <$> ["dispatched"; "running"; "verifying"]%string).

(** ** References *)
Inductive ReferenceLookup :=
| Lookup_TrackBlock (reference track_id block_id : str)
| Lookup_Card (reference card_id : str).

Definition reference_lookup_request (reference : str) : option ReferenceLookup :=
  match parse_destination reference with
  | Some (track_id, Some block_id) => Some (Lookup_TrackBlock reference track_id block_id)
  | _ =>
      match strip_prefix (lit "neige://card/") reference with
      | Some id => if negb (is_empty id) && negb (contains [slash] id) then Some (Lookup_Card reference id) else None
      | None => None
      end
  end.

Definition reference_diagnostic (code reference : str) (track_id : option str) : option Diagnostic :=
  coded code (lit "refs") [(lit "reference", JString reference)]
    (match parse_destination reference with Some (_, Some block) => [block] | _ => [] end) track_id (Some (lit "relink_reference")).

Definition withdrawal_diagnostic (key status : str) : option Diagnostic :=
  coded (lit "context_stale_declaration") (lit "key") [(lit "key", JString key); (lit "status", JString status)] [] None
    (Some (lit "open_worker_output")).

Definition tree_root_unresolved_diagnostic : option Diagnostic := coded (lit "tree_root_unresolved") (lit "key") [] [] None None.

Section references.
Context `{Links : MarkdownLinks}.

Definition block_links (text : str) : list str :=
  omap (M:=list) (λ link : str * option str,
    match link.2 with Some block => Some (format_track_destination link.1 (Some block)) | None => None end) (scan_links text).

Definition declaration_references (d : TaskDeclaration) : list str :=
  ord_sort (remove_dups
    (td_refs d ++ block_links (td_goal d) ++ match td_acceptance d with Some text => block_links text | None => [] end)).
End references.

(** What one reference of a declaration adds. *)
Definition check_reference (state : ProjectionState) (reference : str) : eval (list Diagnostic) :=
  match parse_destination reference with
  | Some (track_id, None) => push_diagnostic true (reference_diagnostic (lit "reference_needs_block") reference (Some track_id))
  | destination =>
      let track := fst <$> destination in
      match reference_lookup_request reference with
      | None => eval_ret []
      | Some _ =>
          match ps_reference_targets state !! reference with
          | None => Some (Err (Calm_Internal (lit "task reference snapshot omitted normalized lookup")))
          | Some target =>
              match rt_target_area target, rt_target_kind target with
              | None, _ | _, None => push_diagnostic true (reference_diagnostic (lit "reference_missing") reference track)
              | Some area, Some kind =>
                  if bool_decide (area ≠ ps_source_area state) && bool_decide (kind ≠ lit "system")
                  then push_diagnostic true (reference_diagnostic (lit "reference_cross_area") reference track)
                  else push_diagnostic (rt_block_exists target =? 0)%Z (reference_diagnostic (lit "reference_missing") reference track)
              end
          end
      end
  end.

(** ** Drift of a frozen row *)
Section drift.
Context `{Serde : SerdeText} `{Text : CompactText}.

Definition json_eq (a b : str) : bool :=
  match json_from_str a, json_from_str b with
  | Some a, Some b => json_eqb a b
  | _, _ => bool_decide (a = b)
  end.

Definition opt_json_eq (a b : option str) : bool :=
  match a, b with
  | None, None => true
  | Some a, Some b => json_eq a b
  | _, _ => false
  end.

(** What [serde] writes of a gate. *)
Definition json_of_step (step : GateStepInput) : Json :=
  JObject [(lit "name", JString (gs_name step)); (lit "cmd", JString (gs_cmd step))].
Definition json_of_gate (gate : GateInput) : Json :=
  JObject
    (match gate_cwd gate with Some cwd => [(lit "cwd", JString cwd)] | None => [] end
     ++ match gate_timeout_secs gate with Some timeout => [(lit "timeout_secs", JInt timeout)] | None => [] end
     ++ [(lit "steps", JArray (json_of_step <$> gate_steps gate))]).

Definition gate_eq (actual : option str) (expected : option GateInput) : bool :=
  match (text ← actual; value ← json_from_str text; gate_of_json value) with
  | Some actual => bool_decide (Some actual = expected)
  | None => opt_json_eq actual (option_map (λ gate, json_text (json_of_gate gate)) expected)
  end.

(** [from_str::<Vec<String>>] or nothing, sorted and without repetitions. *)
Definition key_set (keys : list str) : list str := ord_sort (remove_dups keys).
Definition stored_keys (text : str) : list str :=
  default [] (value ← json_from_str text; items ← as_array value; mapM json_as_str items).

Definition declaration_field_changed (field : string) (row : FrozenRow) (d : TaskDeclaration) (expected_context : str) : eval bool :=
  if bool_decide (field = "kind"%string) then eval_ret (bool_decide (fr_kind row ≠ td_kind d))
  else if bool_decide (field = "goal"%string) || bool_decide (field = "command"%string) then eval_ret (bool_decide (fr_goal row ≠ td_goal d))
  else if bool_decide (field = "context"%string) then eval_ret (negb (json_eq (fr_context row) expected_context))
  else if bool_decide (field = "acceptance"%string) then eval_ret (bool_decide (fr_acceptance row ≠ td_acceptance d))
  else if bool_decide (field = "cwd"%string) then eval_ret (bool_decide (fr_cwd row ≠ td_cwd d))
  else if bool_decide (field = "depends_on"%string)
  then eval_ret (bool_decide (key_set (stored_keys (fr_depends row)) ≠ key_set (td_depends_on d)))
  else if bool_decide (field = "gate"%string) then eval_ret (negb (gate_eq (fr_gate row) (td_gate d)))
  else Some (Err (Calm_Internal (lit "unknown projection drift field: " ++ lit field))).

Definition PROJECTION_DRIFT_TASK_FIELDS : list string :=
  ["kind"; "goal"; "command"; "context"; "acceptance"; "cwd"; "depends_on"; "gate"]%string.

(** The fold stops asking at the first change. *)
Fixpoint any_field_changed (fields : list string) (row : FrozenRow) (d : TaskDeclaration) (expected_context : str) : eval bool :=
  match fields with
  | [] => eval_ret false
  | field :: fields =>
      let* changed := declaration_field_changed field row d expected_context in
      if changed : bool then eval_ret true else any_field_changed fields row d expected_context
  end.

Definition drifted (row : FrozenRow) (d : TaskDeclaration) : eval bool :=
  any_field_changed PROJECTION_DRIFT_TASK_FIELDS row d (json_text (td_context d)).
End drift.

(** ** Verdicts *)
Section verdicts.
Context `{Serde : SerdeText} `{Text : CompactText} `{Links : MarkdownLinks}.
Context (state : ProjectionState) (declarations : list TaskDeclaration).

Definition inflight_keys : list str := ir_key <$> ps_inflight state.
Definition effective_wait : bool := bool_decide (ps_policy state = Some (lit "declare-and-wait")).
Definition by_planner (d : TaskDeclaration) : bool := bool_decide (td_declared_by d = PLANNER_DECLARATION_AUTHOR).

(** The dependencies of a key that no task has. *)
Definition unknown_of (key : str) : list str :=
  ord_sort (remove_dups (snd <$> filter (λ e : str * str, e.1 = key) (unknown_deps declarations inflight_keys))).

Definition claimed_before (d : TaskDeclaration) : bool := existsb (λ row, bool_decide (fr_key row = td_key d)) (ps_frozen state).

(** A child track to continue must be handed back. *)
Definition continue_refused (d : TaskDeclaration) : bool :=
  match td_child_track d ≫= ct_continue with
  | Some child => negb (claimed_before d) && bool_decide (child ∉ ps_continuable_children state)
  | None => false
  end.

Definition waits_for_release (d : TaskDeclaration) : bool :=
  effective_wait && by_planner d && negb (td_released_by_user d) && negb (td_tombstone d).

(** The turn of one declaration; [local] are the document's own diagnostics of its block. *)
Definition declaration_diagnostics (tree_root_unresolved : bool) (local : list Diagnostic) (d : TaskDeclaration) : eval (list Diagnostic) :=
  let* unresolved := push_diagnostic tree_root_unresolved tree_root_unresolved_diagnostic in
  let* continue := push_diagnostic (continue_refused d)
    (new_diagnostic (lit "payload")
       (lit "child_track.continue requires an open handed-back child of this parent without an active assignment")) in
  let* unknown := eval_concat (λ dependency, push_diagnostic true
    (coded (lit "unknown_dependency") (lit "depends_on") [(lit "dependency", JString dependency)] [] None (Some (lit "edit_dependencies"))))
    (unknown_of (td_key d)) in
  let* gate := push_diagnostic (bool_decide (td_block_id d ∈ gate_rule_violations declarations (ps_require_gates state)))
    (coded (lit "gate_required") (lit "gate") [] [] None (Some (lit "add_gate_or_reason"))) in
  let* cwd := push_diagnostic (bool_decide (td_block_id d ∈ gate_cwd_violations declarations))
    (coded (lit "gate_cwd_on_agent_task") (lit "gate") [] [] None (Some (lit "remove_gate_cwd"))) in
  let* refs := eval_concat (check_reference state) (declaration_references d) in
  let* wait := push_diagnostic (waits_for_release d)
    (coded (lit "declare_and_wait") (lit "released_by_user") [] [] None (Some (lit "release_task"))) in
  eval_ret (local ++ unresolved ++ continue ++ unknown ++ gate ++ cwd ++ refs ++ wait).

(** The document's diagnostics of a declaration's block; without an index there are none. *)
Definition local_diagnostics (block_local_diags : list (list Diagnostic)) (d : TaskDeclaration) : list Diagnostic :=
  default [] (td_block_index d ≫= λ i, block_local_diags !! i).

Definition first_verdict (tree_root_unresolved : bool) (block_local_diags : list (list Diagnostic)) (d : TaskDeclaration) : eval BlockVerdict :=
  let* diagnostics := declaration_diagnostics tree_root_unresolved (local_diagnostics block_local_diags d) d in
  eval_ret (mkBlockVerdict (td_block_id d) (td_key d) diagnostics
              (td_ready d && negb (td_tombstone d) && is_empty diagnostics) None None None).

(** The row of a key that has left [pending]; of several the last counts. *)
Definition frozen_by_key (key : str) : option FrozenRow := last (filter (λ row, fr_key row = key) (ps_frozen state)).

Definition withdrawal_edge (row : FrozenRow) (d : TaskDeclaration) : option WithdrawalEdge :=
  if (fr_decl_ready row =? 1)%Z && negb (td_ready d) then Some Edge_Ready
  else if (fr_decl_released_by_user row =? 1)%Z && negb (td_released_by_user d) && effective_wait then Some Edge_ReleasedByUser
  else None.

Definition blocking (d : Diagnostic) : bool := bool_decide (dg_path d ∈ TASK_BLOCKING_DIAGNOSTIC_PATHS).

(** The second pass: a declaration whose key has left [pending]. *)
Definition freeze_verdict (d : TaskDeclaration) (v : BlockVerdict) : eval BlockVerdict :=
  match frozen_by_key (td_key d) with
  | None => eval_ret v
  | Some row =>
      let* changed := drifted row d in
      let withdrawal := withdrawal_edge row d in
      let settled := (changed : bool) || negb (in_flight_status (fr_status row)) in
      let* pushed := push_diagnostic settled
        (coded (if changed then lit "declaration_changed_in_flight" else lit "task_key_completed") (lit "key")
           [(lit "status", JString (fr_status row))] [] None
           (Some (if changed then lit "open_worker_output" else lit "inspect_task_attempts"))) in
      let diagnostics := bv_diagnostics v ++ pushed in
      let stale_causing := changed || bool_decide (withdrawal ≠ None) || existsb blocking diagnostics in
      let* stale := push_diagnostic (stale_causing && in_flight_status (fr_status row)) (withdrawal_diagnostic (td_key d) (fr_status row)) in
      eval_ret (mkBlockVerdict (bv_block_id v) (bv_key v) (diagnostics ++ stale)
                  (if settled then false else bv_schedulable v) (bv_status v) withdrawal (Some (fr_status row)))
  end.

(** A row in flight whose block is gone. *)
Definition orphan_verdict (row : InflightRow) : eval BlockVerdict :=
  let* d := eval_some (withdrawal_diagnostic (ir_key row) (ir_status row)) in
  eval_ret (mkBlockVerdict [] (ir_key row) [d] false (Some (ir_status row)) None (Some (ir_status row))).

Definition orphans : list InflightRow := filter (λ row, ir_key row ∉ td_key <$> declarations) (ps_inflight state).
End verdicts.

(** ** Admission *)
Definition i64_max : Z := 2 ^ 63 - 1.

(** [i64::saturating_sub] of values that are not negative enough to underflow, then [max(0)]. *)
Definition free_of (limit occupied : Z) : Z := Z.max (Z.max (limit - occupied) (- 2 ^ 63)) 0.

Section admission.
Context (state : ProjectionState) (declarations : list TaskDeclaration) (track_id : str) (term : TrackTreeTerm).

Definition tree_share : option TreeShare := match term with Tree_Share share => Some share | Tree_RootUnresolved => None end.
Definition root_unresolved : bool := match term with Tree_RootUnresolved => true | Tree_Share _ => false end.

(** In-flight planner rows: fixed occupancy of the ceiling and of the tree's share. *)
Definition ceiling_occupied : Z :=
  Z.of_nat (length (filter (λ row, ir_declared_by row = PLANNER_DECLARATION_AUTHOR) (ps_inflight state))).
Definition ceiling_capacity : Z := free_of (ps_ceiling state) ceiling_occupied.
Definition tree_capacity : Z := match tree_share with Some share => free_of (ts_share share) ceiling_occupied | None => i64_max end.
Definition frozen_tree : bool := match tree_share with Some share => ts_admission_frozen share | None => false end.

Definition capacity : nat := if root_unresolved || frozen_tree then 0%nat else Z.to_nat (Z.min ceiling_capacity tree_capacity).

(** A clean declaration of the planner whose key has no row but a pending one. *)
Definition is_candidate (e : TaskDeclaration * BlockVerdict) : bool :=
  bv_schedulable e.2 && by_planner e.1 && bool_decide (td_key e.1 ∉ inflight_keys state)
  && bool_decide (frozen_by_key state (td_key e.1) = None).

(** Document order, then key; a declaration without an index comes last. *)
Definition order_key (d : TaskDeclaration) : N * str :=
  (default (2 ^ 64 - 1)%N (N.of_nat <$> td_block_index d), td_key d).
Definition order_le (p q : nat * TaskDeclaration) : Prop :=
  let '(i, k) := order_key p.2 in let '(j, l) := order_key q.2 in (i < j)%N ∨ i = j ∧ Is_true (str_leb k l).

#[global] Instance order_le_dec : RelDecision order_le.
Proof. intros p q. unfold order_le, order_key. apply _. Defined.

(** The candidates' indices, in admission order; synthetic verdicts have no declaration and are never schedulable. *)
Definition candidates (verdicts : list BlockVerdict) : list nat :=
  (merge_sort order_le
     (omap (M:=list) (λ e : nat * (TaskDeclaration * BlockVerdict), if is_candidate e.2 then Some (e.1, e.2.1) else None)
        (imap pair (zip declarations verdicts)))).*1.

Definition admitted_ids (admitted : list nat) : list str :=
  concat (imap (λ i d, if bool_decide (i ∈ admitted) || bool_decide (td_key d ∈ inflight_keys state) then [td_block_id d] else []) declarations).

(** The least budget above the tree's that frees a slot here, and unfreezes the tree. *)
Definition minimum_tree_task_budget (share : TreeShare) : option Z :=
  let occupied_or_current_share := Z.max (ts_share share) ceiling_occupied in
  let minimum_for_target :=
    find_in_range (saturating_succ (ts_budget share)) MAX_TREE_TASK_BUDGET
      (λ budget, occupied_or_current_share <? deterministic_share budget (ts_members share) (ts_member_index share))%Z in
  if ts_admission_frozen share then
    target ← minimum_for_target; unfreeze ← ts_minimum_budget_to_unfreeze share; Some (Z.max target unfreeze)
  else minimum_for_target.

Definition tree_diagnostic (related : list str) (share : TreeShare) (bounds_tied : bool) : option Diagnostic :=
  let minimum := minimum_tree_task_budget share in
  coded (lit "tree_budget_exhausted") (lit "key")
    (diagnostic_args
       ([("root_wave_id", JString (ts_root_id share)); ("tree_task_budget", JInt (ts_budget share));
         ("tree_waves", JInt (ts_members share)); ("share", JInt (ts_share share)); ("ceiling", JInt (ps_ceiling state));
         ("occupied", JInt ceiling_occupied); ("admission_frozen", JBool (ts_admission_frozen share));
         ("bounds_tied", JBool bounds_tied); ("admission_order", JString (lit "document order, then key"))]%string
        ++ match minimum with Some minimum => [("minimum_tree_task_budget"%string, JInt minimum)] | None => [] end))
    related (Some (ts_root_id share))
    (match minimum with Some _ => task_diagnostic_action (lit "tree_budget_exhausted") | None => None end).

Definition ceiling_diagnostic (related : list str) (tree_context : option TreeShare) (admission_frozen raise_available : bool) : option Diagnostic :=
  coded (lit "planner_task_ceiling") (lit "key")
    (diagnostic_args
       ([("ceiling", JInt (ps_ceiling state)); ("occupied", JInt ceiling_occupied);
         ("minimum_planner_task_ceiling", JInt (saturating_succ (Z.max (ps_ceiling state) ceiling_occupied)));
         ("admission_order", JString (lit "document order, then key"))]%string
        ++ match tree_context with
           | Some share =>
               [("admission_frozen", JBool admission_frozen); ("bounds_tied", JBool (negb admission_frozen));
                ("root_wave_id", JString (ts_root_id share))]%string
           | None => []
           end
        ++ if raise_available then [] else [("capacity_raise_unavailable"%string, JBool true)]))
    related (Some track_id)
    (if raise_available then task_diagnostic_action (lit "planner_task_ceiling") else None).

Definition has_action (d : Diagnostic) : bool := bool_decide (is_Some (dg_action d)).

(** What a candidate beyond the capacity is told. *)
Definition capacity_diagnostics (related : list str) : eval (list Diagnostic) :=
  match tree_share with
  | Some share =>
      if ts_admission_frozen share || (tree_capacity <? ceiling_capacity)%Z then
        let* tree := eval_some (tree_diagnostic related share false) in
        let* ceiling := push_diagnostic (ts_admission_frozen share && (ceiling_capacity =? 0)%Z)
          (ceiling_diagnostic related (Some share) true (has_action tree)) in
        eval_ret (ceiling ++ [tree])
      else if (tree_capacity =? ceiling_capacity)%Z then
        let* tree := eval_some (tree_diagnostic related share true) in
        let* ceiling := eval_some (ceiling_diagnostic related (Some share) false (has_action tree)) in
        eval_ret [ceiling; tree]
      else let* ceiling := eval_some (ceiling_diagnostic related None false true) in eval_ret [ceiling]
  | None => let* ceiling := eval_some (ceiling_diagnostic related None false true) in eval_ret [ceiling]
  end.

Definition turn_away (pushed : list Diagnostic) (v : BlockVerdict) : BlockVerdict :=
  mkBlockVerdict (bv_block_id v) (bv_key v) (bv_diagnostics v ++ pushed) false (bv_status v) (bv_withdrawal v) (bv_frozen_status v).

Fixpoint turn_away_each (related : list str) (rejected : list nat) (verdicts : list BlockVerdict) : eval (list BlockVerdict) :=
  match rejected with
  | [] => eval_ret verdicts
  | index :: rejected =>
      let* pushed := capacity_diagnostics related in
      turn_away_each related rejected (alter (turn_away pushed) index verdicts)
  end.

Definition admit_tasks (verdicts : list BlockVerdict) : eval (list BlockVerdict) :=
  let ranked := candidates verdicts in
  turn_away_each (admitted_ids (take capacity ranked)) (drop capacity ranked) verdicts.
End admission.

(** ** The whole evaluation, as the write path runs it *)
Section evaluate.
Context `{Serde : SerdeText} `{Text : CompactText} `{Links : MarkdownLinks}.

Definition from_report (d : TaskDeclaration) : bool := match td_source d with Source_Report _ => true | Source_ValidationOnly => false end.

Definition evaluate_schedulability (state : ProjectionState) (track_id : str) (declarations : list TaskDeclaration)
    (block_local_diags : list (list Diagnostic)) (tree_term : TrackTreeTerm) : eval (list BlockVerdict) :=
  if negb (forallb from_report declarations) then Some (Err (Calm_BadRequest (lit "task projection requires report-source evidence")))
  else
    let* first := eval_map (first_verdict state declarations (root_unresolved tree_term) block_local_diags) declarations in
    let* frozen := eval_map (λ e : TaskDeclaration * BlockVerdict, freeze_verdict state e.1 e.2) (zip declarations first) in
    let* orphaned := eval_map orphan_verdict (orphans state declarations) in
    admit_tasks state declarations track_id tree_term (frozen ++ orphaned).
End evaluate.
