(* ===== verification/TaskAdmissionRules.v ===== *)
(** * What admission promises

    However a report declares its tasks, the planner tasks a track may queue fit its ceiling and
    its share of the tree's budget; those turned away come later in the document and are told
    why; and over a whole tree, what is in flight and what is admitted fits the budget. *)

From stdpp Require Import prelude strings list gmap sorting.
From S2P Require Import Prelude Text Slices Identity PluginSchema Blocks OperationPhase TaskGuards ReportLinks TaskTree TaskPayload TaskGraph TaskDecl TaskAdmission.

Local Open Scope calm_scope.

(** ** Computations that may refuse *)
Lemma eval_bind_ok {A B} (m : eval A) (f : A → eval B) b : eval_bind m f = Some (Ok b) ↔ ∃ a, m = Some (Ok a) ∧ f a = Some (Ok b).
Proof. destruct m as [[a|e]|]; cbn; naive_solver. Qed.

Lemma eval_map_ok {A B} (f : A → eval B) items bs : eval_map f items = Some (Ok bs) → Forall2 (λ a b, f a = Some (Ok b)) items bs.
Proof.
  revert bs. induction items as [|a items IH]; intros bs; cbn; [intros [= <-]; constructor|].
  intros (b & Hb & (rest & Hr & [= <-])%eval_bind_ok)%eval_bind_ok. constructor; [done|by apply IH].
Qed.

(** ** Candidates *)
Section admission.
Context (state : ProjectionState) (declarations : list TaskDeclaration).

(** The planner tasks that are to get a new row. *)
Definition fresh (verdicts : list BlockVerdict) : list (TaskDeclaration * BlockVerdict) :=
  filter (λ e, is_candidate state e = true) (zip declarations verdicts).

Definition ranked_entries (verdicts : list BlockVerdict) : list (nat * TaskDeclaration) :=
  omap (M:=list) (λ e : nat * (TaskDeclaration * BlockVerdict), if is_candidate state e.2 then Some (e.1, e.2.1) else None)
    (imap pair (zip declarations verdicts)).

Lemma elem_of_candidates verdicts i :
  i ∈ candidates state declarations verdicts ↔ ∃ d v, declarations !! i = Some d ∧ verdicts !! i = Some v ∧ is_candidate state (d, v) = true.
Proof.
  unfold candidates. rewrite list_elem_of_fmap. setoid_rewrite (merge_sort_Permutation order_le). split.
  - intros ([i' d'] & -> & (e & He & Hc)%list_elem_of_omap). cbn. apply elem_of_lookup_imap in He as (j & [d v] & -> & Hj).
    cbn in Hc. destruct (is_candidate state (d, v)) eqn:Hic; [|done]. injection Hc as <- <-. apply lookup_zip_Some in Hj as [Hd Hv]. eauto 6.
  - intros (d & v & Hd & Hv & Hc). exists (i, d). split; [done|]. apply list_elem_of_omap. exists (i, (d, v)). split; [|cbn; by rewrite Hc].
    apply elem_of_lookup_imap. exists i, (d, v). split; [done|]. by apply lookup_zip_Some.
Qed.

Lemma candidates_perm verdicts : candidates state declarations verdicts ≡ₚ (ranked_entries verdicts).*1.
Proof. unfold candidates. by rewrite (merge_sort_Permutation order_le). Qed.

Lemma kept_indices {A B} (f : nat * A → option (nat * B)) (l : list (nat * A)) :
  (∀ e e', f e = Some e' → e'.1 = e.1) → (omap (M:=list) f l).*1 `sublist_of` l.*1.
Proof.
  intros Hf. induction l as [|e l IH]; [done|]. cbn. destruct (f e) as [e'|] eqn:He; cbn; [|by apply sublist_cons].
  rewrite (Hf e e' He). by apply sublist_skip.
Qed.

Lemma imap_pair_indices {A} (l : list A) : (imap pair l).*1 = seq 0 (length l).
Proof. transitivity (id <$> seq 0 (length l)); [rewrite fmap_imap, <-imap_seq_0; by apply imap_ext|apply list_fmap_id]. Qed.

Lemma planner_candidates_NoDup verdicts : NoDup (candidates state declarations verdicts).
Proof.
  rewrite candidates_perm. eapply sublist_NoDup; [|apply kept_indices; intros [i x] [j y]; cbn; by case_match; intros [= <- <-]].
  rewrite imap_pair_indices. apply NoDup_seq.
Qed.

Lemma fresh_length verdicts : length (fresh verdicts) = length (candidates state declarations verdicts).
Proof.
  rewrite candidates_perm, length_fmap. unfold fresh, ranked_entries. generalize (zip declarations verdicts) as l.
  assert (∀ l (f : nat → TaskDeclaration * BlockVerdict → nat * (TaskDeclaration * BlockVerdict)), (∀ i e, (f i e).2 = e) →
    length (filter (λ e, is_candidate state e = true) l) =
    length (omap (M:=list) (λ e : nat * (TaskDeclaration * BlockVerdict), if is_candidate state e.2 then Some (e.1, e.2.1) else None) (imap f l))) as H.
  { intros l. induction l as [|e l IH]; intros f Hf; [done|]. rewrite filter_cons. cbn [imap omap list_omap]. rewrite Hf.
    destruct (is_candidate state e); [rewrite decide_True by done; cbn; f_equal|rewrite decide_False by done]; apply (IH (f ∘ S)); intros; apply Hf. }
  intros l. by apply H.
Qed.

(** ** Turning away *)
Context (track_id : str) (term : TrackTreeTerm).

Lemma turned_away_ok related rejected verdicts out :
  turn_away_each state track_id term related rejected verdicts = Some (Ok out) →
  length out = length verdicts ∧
  ∀ i v', out !! i = Some v' → ∃ v, verdicts !! i = Some v ∧ bv_key v' = bv_key v ∧
    (i ∉ rejected → v' = v) ∧
    (i ∈ rejected → bv_schedulable v' = false ∧
      ∃ pushed before after, capacity_diagnostics state track_id term related = Some (Ok pushed) ∧ bv_diagnostics v' = before ++ pushed ++ after).
Proof.
  revert verdicts. induction rejected as [|index rejected IH]; intros verdicts; cbn [turn_away_each].
  { intros [= <-]. split; [done|]. intros i v' Hv. exists v'. split_and!; [done..|]. intros Hin. by apply elem_of_nil in Hin. }
  intros (pushed & Hp & H)%eval_bind_ok. apply IH in H as [Hl Hi]. split; [by rewrite Hl, length_alter|].
  intros i v' Hv'. destruct (Hi i v' Hv') as (v1 & Hv1 & Hk & Hout & Hin).
  destruct (decide (i = index)) as [->|Hne].
  - rewrite list_lookup_alter_eq in Hv1. destruct (verdicts !! index) as [v|] eqn:Hv; [|done]. injection Hv1 as <-.
    exists v. split_and!; [done|by rewrite Hk| |].
    + intros Hnin. destruct Hnin. by left.
    + intros _. destruct (decide (index ∈ rejected)) as [Hr|Hr]; [by apply Hin|]. rewrite (Hout Hr). split; [done|].
      exists pushed, (bv_diagnostics v), []. split; [done|]. cbn. by rewrite app_nil_r.
  - rewrite list_lookup_alter_ne in Hv1 by congruence. exists v1. split_and!; [done..| |].
    + intros Hnin. apply Hout. intros Hr. apply Hnin. by right.
    + intros Hr. apply Hin. by apply elem_of_cons in Hr as [?|?].
Qed.

(** What remains are the first candidates, as many as the capacity. *)
Lemma admit_keeps verdicts out :
  admit_tasks state declarations track_id term verdicts = Some (Ok out) →
  ∀ i, i ∈ candidates state declarations out → i ∈ take (capacity state term) (candidates state declarations verdicts).
Proof.
  unfold admit_tasks. intros [_ H]%turned_away_ok i (d & v' & Hd & Hv' & Hc)%elem_of_candidates.
  destruct (H i v' Hv') as (v & Hv & _ & Hout & Hin).
  destruct (decide (i ∈ drop (capacity state term) (candidates state declarations verdicts))) as [Hr|Hr].
  - destruct (Hin Hr) as [Hs _]. unfold is_candidate in Hc. cbn in Hc. by rewrite Hs in Hc.
  - rewrite (Hout Hr) in Hc. assert (i ∈ candidates state declarations verdicts) as Hall by (apply elem_of_candidates; eauto 6).
    rewrite <-(take_drop (capacity state term) (candidates state declarations verdicts)), elem_of_app in Hall. by destruct Hall.
Qed.

Lemma admit_bounded verdicts out :
  admit_tasks state declarations track_id term verdicts = Some (Ok out) → (length (fresh out) ≤ capacity state term)%nat.
Proof.
  intros H. rewrite fresh_length. transitivity (length (take (capacity state term) (candidates state declarations verdicts))).
  - apply submseteq_length, NoDup_submseteq; [apply planner_candidates_NoDup|]. by apply (admit_keeps verdicts).
  - rewrite length_take. lia.
Qed.

Lemma capacity_fits (n : nat) :
  (n ≤ capacity state term)%nat → (0 < n)%nat →
  ∃ share, term = Tree_Share share ∧ ts_admission_frozen share = false ∧
    (ceiling_occupied state + Z.of_nat n <= ps_ceiling state ∧ ceiling_occupied state + Z.of_nat n <= ts_share share)%Z.
Proof.
  unfold capacity, frozen_tree, root_unresolved, tree_capacity, tree_share, ceiling_capacity, free_of.
  destruct term as [|share]; cbn; [lia|]. destruct (ts_admission_frozen share) eqn:Hf; [lia|]. intros Hn Hpos. exists share.
  split_and!; [done..| |]; unfold ceiling_occupied in *; lia.
Qed.
End admission.

Section evaluated.
Context `{Serde : SerdeText} `{Text : CompactText} `{Links : MarkdownLinks}.

Lemma evaluate_admits state track_id declarations local term verdicts :
  evaluate_schedulability state track_id declarations local term = Some (Ok verdicts) →
  ∃ before, admit_tasks state declarations track_id term before = Some (Ok verdicts) ∧ (length declarations ≤ length before)%nat.
Proof.
  unfold evaluate_schedulability. destruct (negb _); [done|].
  intros (first & Hf & (frozen & Hz & (orphaned & Ho & H)%eval_bind_ok)%eval_bind_ok)%eval_bind_ok. exists (frozen ++ orphaned). split; [done|].
  apply eval_map_ok, Forall2_length in Hf. apply eval_map_ok, Forall2_length in Hz. rewrite length_zip_with in Hz. rewrite length_app. lia.
Qed.

(** C10: the projection never overbooks: whatever a report declares, when a planner task gets a new
    row the tree's root is resolved and the tree is not frozen, and the planner tasks in flight
    with all the new ones fit both the track's ceiling and its share of the tree's budget. *)
Theorem admission_never_overbooks state track_id declarations local term verdicts :
  evaluate_schedulability state track_id declarations local term = Some (Ok verdicts) →
  fresh state declarations verdicts ≠ [] →
  ∃ share, term = Tree_Share share ∧ ts_admission_frozen share = false ∧
    (ceiling_occupied state + Z.of_nat (length (fresh state declarations verdicts)) <= ps_ceiling state)%Z ∧
    (ceiling_occupied state + Z.of_nat (length (fresh state declarations verdicts)) <= ts_share share)%Z.
Proof.
  intros (before & Hb%admit_bounded & _)%evaluate_admits Hne. apply (capacity_fits state term); [done|].
  by destruct (fresh _ _ _); [|cbn; lia].
Qed.

(** ** A whole tree *)

(** A member of the tree when its report is projected: its row, and what the evaluation reads and answers. *)
Record Projected := mkProjected {
  pj_member : TreeMember;
  pj_state : ProjectionState;
  pj_declarations : list TaskDeclaration;
  pj_local : list (list Diagnostic);
  pj_verdicts : list BlockVerdict;
}.

(** The member's share of the tree, its occupancy as the inventory counts it, and its verdicts. *)
Definition projected_under (root_id : str) (budget : Z) (members : list TreeMember) (p : Projected) : Prop :=
  tm_fixed_live (pj_member p) = ceiling_occupied (pj_state p) ∧
  evaluate_schedulability (pj_state p) (tm_id (pj_member p)) (pj_declarations p) (pj_local p)
    (tree_share_from_member_inventory root_id (tm_id (pj_member p)) budget members) = Some (Ok (pj_verdicts p)).

Definition admitted_count (p : Projected) : Z := Z.of_nat (length (fresh (pj_state p) (pj_declarations p) (pj_verdicts p))).

Lemma inventory_share root_id track_id budget members share :
  tree_share_from_member_inventory root_id track_id budget members = Tree_Share share →
  (∃ index m, members !! index = Some m ∧ tm_id m = track_id ∧ ts_share share = share_of budget (Z.of_nat (length members)) index) ∧
  ts_admission_frozen share = existsb (over_share budget (Z.of_nat (length members))) (occupancies members).
Proof.
  unfold tree_share_from_member_inventory, tree_share_from_members_with_freeze.
  destruct (list_find _ members) as [[index m]|] eqn:Hf; [|done]. destruct (existsb (λ m, _) members); [done|].
  intros [= <-]. split; [|done]. apply list_find_Some in Hf as (Hi & Hm & _). cbn. by exists index, m.
Qed.

Lemma occupied_within budget members index m :
  existsb (over_share budget (Z.of_nat (length members))) (occupancies members) = false → members !! index = Some m →
  (tm_fixed_live m <= share_of budget (Z.of_nat (length members)) index)%Z.
Proof.
  intros Hf Hm. assert ((index, tm_fixed_live m) ∈ occupancies members) as Hin.
  { unfold occupancies. apply list_elem_of_lookup. exists index. apply lookup_zip_Some. split; [|by rewrite list_lookup_fmap, Hm].
    apply lookup_seq. split; [done|]. by eapply lookup_lt_Some. }
  destruct (Z.le_gt_cases (tm_fixed_live m) (share_of budget (Z.of_nat (length members)) index)) as [|Hgt]; [done|].
  assert (existsb (over_share budget (Z.of_nat (length members))) (occupancies members) = true) as Ht; [|congruence].
  apply existsb_exists. exists (index, tm_fixed_live m). split; [by apply list_elem_of_In|]. unfold over_share. cbn. by apply Z.ltb_lt.
Qed.

Lemma sum_le {A} (f : A → Z) (g : nat → Z) (l : list A) (k : nat) :
  (∀ i x, l !! i = Some x → (f x <= g (k + i)%nat)%Z) → (foldr Z.add 0 (f <$> l) <= foldr Z.add 0 (g <$> seq k (length l)))%Z.
Proof.
  revert k. induction l as [|x l IH]; intros k H; [done|]. cbn. pose proof (H 0%nat x eq_refl) as Hx. rewrite Nat.add_0_r in Hx.
  apply Z.add_le_mono; [exact Hx|]. apply IH. intros i y Hy. specialize (H (S i) y Hy). by replace (S k + i)%nat with (k + S i)%nat by lia.
Qed.

(** C6: over a whole tree the budget holds: when every member's report is projected with its share, and
    any of them queues a new planner task, the planner tasks in flight and queued over all the
    members together are no more than the tree's budget. *)
Theorem tree_budget_holds root_id budget (tree : list Projected) :
  NoDup (tm_id ∘ pj_member <$> tree) → Forall (projected_under root_id budget (pj_member <$> tree)) tree →
  Exists (λ p, fresh (pj_state p) (pj_declarations p) (pj_verdicts p) ≠ []) tree →
  (foldr Z.add 0 ((λ p, ceiling_occupied (pj_state p) + admitted_count p) <$> tree) <= Z.max budget 0)%Z.
Proof.
  intros Hnd Hall Hex. rewrite Forall_forall in Hall. set (members := pj_member <$> tree) in *.
  assert (∀ i p share, tree !! i = Some p →
    tree_share_from_member_inventory root_id (tm_id (pj_member p)) budget members = Tree_Share share →
    ts_share share = share_of budget (Z.of_nat (length members)) i ∧
    ts_admission_frozen share = existsb (over_share budget (Z.of_nat (length members))) (occupancies members)) as Hshare.
  { intros i p share Hp ((index & m & Hm & Hid & Hs) & Hf)%inventory_share. split; [|done]. rewrite Hs. f_equal.
    unfold members in Hm. rewrite list_lookup_fmap_Some in Hm. destruct Hm as (q & -> & Hq).
    eapply NoDup_lookup; [exact Hnd|by rewrite list_lookup_fmap, Hq; cbn; rewrite Hid|by rewrite list_lookup_fmap, Hp]. }
  assert (∀ p, p ∈ tree → fresh (pj_state p) (pj_declarations p) (pj_verdicts p) ≠ [] →
    ∃ share, tree_share_from_member_inventory root_id (tm_id (pj_member p)) budget members = Tree_Share share ∧
      ts_admission_frozen share = false ∧ (ceiling_occupied (pj_state p) + admitted_count p <= ts_share share)%Z) as Hfresh.
  { intros p Hp Hne. destruct (Hall p Hp) as [_ (before & Hb%admit_bounded & _)%evaluate_admits].
    destruct (capacity_fits (pj_state p) _ _ Hb) as (share & H1 & H2 & _ & H4); [by destruct (fresh _ _ _); [|cbn; lia]|]. by exists share. }
  assert (existsb (over_share budget (Z.of_nat (length members))) (occupancies members) = false) as Hunfrozen.
  { apply Exists_exists in Hex as (p & Hp & Hne). destruct (Hfresh p Hp Hne) as (share & Hs & Hf & _).
    apply list_elem_of_lookup in Hp as [i Hi]. destruct (Hshare i p share Hi Hs) as [_ H]. congruence. }
  assert (0 < length tree)%nat as Hpos by (apply Exists_exists in Hex as (p & Hp & _); destruct tree; [by apply elem_of_nil in Hp|cbn; lia]).
  rewrite <-(shares_sum budget (length tree)) by done.
  apply sum_le. intros i p Hi. cbn [plus]. assert (length members = length tree) as Hlen by apply length_fmap.
  assert (p ∈ tree) as Hp by (by eapply list_elem_of_lookup_2).
  destruct (fresh (pj_state p) (pj_declarations p) (pj_verdicts p)) as [|e es] eqn:He.
  - destruct (Hall p Hp) as [Hlive _]. unfold admitted_count. rewrite He. cbn [length]. rewrite Z.add_0_r, <-Hlive, <-Hlen.
    apply (occupied_within budget members i (pj_member p) Hunfrozen). unfold members. by rewrite list_lookup_fmap, Hi.
  - destruct (Hfresh p Hp) as (share & Hs & _ & Hle); [by rewrite He|]. destruct (Hshare i p share Hi Hs) as [Heq _].
    rewrite <-Hlen, <-Heq. exact Hle.
Qed.
End evaluated.


#[export] Instance order_le_total : Total order_le.
Proof.
  intros p q. unfold order_le, order_key. destruct (N.lt_trichotomy (default (2 ^ 64 - 1)%N (N.of_nat <$> td_block_index p.2))
    (default (2 ^ 64 - 1)%N (N.of_nat <$> td_block_index q.2))) as [H|[H|H]]; [by left; left| |by right; left].
  destruct (str_leb_total (td_key p.2) (td_key q.2)); [left|right]; by right.
Qed.

#[export] Instance order_le_trans : Transitive order_le.
Proof.
  intros p q r. unfold order_le, order_key. intros [H1|[H1 K1]] [H2|[H2 K2]]; [left; lia..|right]. split; [lia|]. by eapply str_leb_trans.
Qed.


Section ordered.
Context (state : ProjectionState) (declarations : list TaskDeclaration) (track_id : str) (term : TrackTreeTerm).




End ordered.
