(* ===== verification/TaskSample.v ===== *)
(** * Sample task reports

    A report of planner tasks, projected and admitted under a small budget, and a track whose
    checkout two readers share. The stand-ins for [serde_json] and the Markdown parser read
    nothing and find no links. *)

From stdpp Require Import prelude strings list gmap relations.
From S2P Require Import Prelude Text Slices Identity PluginSchema Blocks OperationPhase TaskGuards ReportLinks TaskTree TaskPayload TaskGraph TaskDecl TaskAdmission TaskAdmissionRules Checkout.

#[local] Instance silent_serde : SerdeText := {| json_from_str := λ _, None; json_scalar := λ _, lit "0" |}.
#[local] Instance silent_errors : SerdeErrors := {| gate_shape_error := λ _, []; child_track_shape_error := λ _, [] |}.
#[local] Instance silent_text : CompactText := {| json_text := λ _, [] |}.
#[local] Instance no_links : MarkdownLinks := {| markdown_links := λ _, [] |}.

(** ** Links *)
Lemma destination_roundtrip_witness :
  parse_destination (format_track_destination (lit "trk") (Some (lit "b_00ff"))) = Some (lit "trk", Some (lit "b_00ff")).
Proof. apply (destination_roundtrip (lit "trk") (Some (lit "b_00ff"))); [split; [discriminate|split; char_absent]|]. by intros id [= <-]. Defined.

(** ** A report *)
Definition sample_task (key : string) (gate : list (str * Json)) : ReportBlock :=
  mkReportBlock (lit "b_000" ++ lit key) KIND_TASK 0
    (JObject ([(lit "declared_by", JString (lit "spec"))] ++ gate ++
      [(lit "goal", JString (lit "do it")); (lit "key", JString (lit key)); (lit "kind", JString (lit "codex")); (lit "ready", JBool true)])).

Definition sample_blocks : list ReportBlock := [sample_task "a" []; sample_task "b" []; sample_task "c" []].

Definition sample_declarations : list TaskDeclaration :=
  match project_task_declarations sample_blocks with Some (declarations, _) => declarations | None => [] end.

Example sample_clean : snd <$> project_task_declarations sample_blocks = Some [[]; []; []] ∧ length sample_declarations = 3.
Proof. split; vm_compute; reflexivity. Qed.

Definition sample_state (inflight : list InflightRow) : ProjectionState := mkProjectionState [] None 32 false (lit "area") inflight [] ∅.

Definition running_row : InflightRow := mkInflightRow (lit "z") (lit "running") (lit "spec").

(** Two tracks under a budget of five: the root has a task in flight. *)
Definition member_a : TreeMember := mkTreeMember (lit "root") 0 1.
Definition member_b : TreeMember := mkTreeMember (lit "child") 1 0.
Definition sample_members : list TreeMember := [member_a; member_b].
Definition sample_term (m : TreeMember) : TrackTreeTerm := tree_share_from_member_inventory (lit "root") (tm_id m) 5 sample_members.

Definition verdicts_of (r : eval (list BlockVerdict)) : list BlockVerdict := match r with Some (Ok verdicts) => verdicts | _ => [] end.

Definition evaluate_member (m : TreeMember) (inflight : list InflightRow) : eval (list BlockVerdict) :=
  evaluate_schedulability (sample_state inflight) (tm_id m) sample_declarations [] (sample_term m).

Definition projected_member (m : TreeMember) (inflight : list InflightRow) : Projected :=
  mkProjected m (sample_state inflight) sample_declarations [] (verdicts_of (evaluate_member m inflight)).

Definition sample_tree : list Projected := [projected_member member_a [running_row]; projected_member member_b []].

(** Each of them may queue two of the three tasks. *)
Lemma admission_never_overbooks_witness :
  length (fresh (sample_state [running_row]) sample_declarations (verdicts_of (evaluate_member member_a [running_row]))) = 2 ∧
  ∃ share, sample_term member_a = Tree_Share share ∧ ts_admission_frozen share = false ∧
    (ceiling_occupied (sample_state [running_row]) + Z.of_nat (length (fresh (sample_state [running_row]) sample_declarations
       (verdicts_of (evaluate_member member_a [running_row])))) <= 32)%Z ∧
    (ceiling_occupied (sample_state [running_row]) + Z.of_nat (length (fresh (sample_state [running_row]) sample_declarations
       (verdicts_of (evaluate_member member_a [running_row])))) <= ts_share share)%Z.
Proof.
  split; [vm_compute; reflexivity|].
  apply (admission_never_overbooks (sample_state [running_row]) (tm_id member_a) sample_declarations [] (sample_term member_a)
           (verdicts_of (evaluate_member member_a [running_row]))); [vm_compute; reflexivity|].
  intros H. apply (f_equal length) in H. vm_compute in H. discriminate.
Defined.

Lemma tree_budget_holds_witness :
  (foldr Z.add 0 ((λ p, ceiling_occupied (pj_state p) + admitted_count p) <$> sample_tree) = 5)%Z ∧
  (foldr Z.add 0 ((λ p, ceiling_occupied (pj_state p) + admitted_count p) <$> sample_tree) <= Z.max 5 0)%Z.
Proof.
  split; [vm_compute; reflexivity|]. apply (tree_budget_holds (lit "root") 5 sample_tree).
  - apply (NoDup_cons_2 (lit "root")); [intros H; apply list_elem_of_singleton in H; discriminate H|apply NoDup_singleton].
  - constructor; [|constructor; [|constructor]]; split; vm_compute; reflexivity.
  - apply Exists_cons_hd. intros H. apply (f_equal length) in H. vm_compute in H. discriminate.
Defined.







(** ** Gates by position *)
Definition neige_step : Json := JObject [(lit "name", JString (lit "t")); (lit "cmd", JString (lit "neige plan"))].
Definition named_gate : list (str * Json) := [(lit "gate", JObject [(lit "steps", JArray [neige_step])])].
Definition positional_gate : list (str * Json) :=
  [(lit "gate", JObject [(lit "steps", JArray [JArray [JString (lit "t"); JString (lit "neige plan")]])])].

(** A step given by position validates and is declared with its command like the step given by
    name, but only the one given by name is seen, and refused, by the guard that a gate may not
    call the kernel's command line. *)
Theorem positional_gate_escapes :
  validate_task_payload (rb_payload (sample_task "a" named_gate)) = Ok tt ∧
  validate_task_payload (rb_payload (sample_task "a" positional_gate)) = Ok tt ∧
  (td_gate <$> match project_task_declarations [sample_task "a" positional_gate] with Some (ds, _) => ds | None => [] end)
    = [Some (mkGate None None [mkGateStep (lit "t") (lit "neige plan")])] ∧
  (td_gate <$> match project_task_declarations [sample_task "a" named_gate] with Some (ds, _) => ds | None => [] end)
    = [Some (mkGate None None [mkGateStep (lit "t") (lit "neige plan")])] ∧
  check_changed_task_gates [] [sample_task "a" positional_gate] = Ok tt ∧
  check_changed_task_gates [] [sample_task "a" named_gate] ≠ Ok tt.
Proof. split_and!; [vm_compute; reflexivity..|]. vm_compute. discriminate. Qed.
